(* ===== verification/_CoqProject ===== *)
-Q . S2P
Prelude.v
Mem.v
PhysMem.v
Config.v
Paging.v
BlockIO.v
Libk.v
Ext2.v
Vmm.v
Queue.v
Threads.v
Semaphore.v
Sync.v
Locks.v
Fork.v
Process.v
UserMem.v
Coherence.v
Snprintf.v
Heap.v
Libc.v
Files.v
Elf.v
Sys.v
Buffer.v
Condition.v
ReusableBarrier.v
Shared.v
Pit.v
Acpi.v
Ide.v
Handles.v
Isolation.v
CallIsolation.v
World.v
Guards.v
Smp.v
Random.v
Debug.v
Shell.v
Kernel.v
MmapTest.v
Boot.v
