(* ===== verification/Prelude.v ===== *)
(** * Verification of the MMap-Process-Scheduler kernel

    A small 32-bit multiprocessor kernel (src/kernel) with demand-paged processes,
    shared file mappings, a run-time ordered scheduler, an ext2 file system and
    a user library (src/t0.dir/sbin). This library models the C++ and C code as
    functions over explicit state and proves what each part promises.

    ** The parts of the program and the files that model them

    - Prelude: the results of operations ([outcome]), loops with fuel, machine
      words ([u8], [u32], [i32]) and lemmas shared by all files. Mem: byte
      memories, little-endian words, [bzero] and [memcpy] (machine.S).
    - PhysMem (physmem.cc): the frame allocator, a bump pointer and a free list
      threaded through the free frames.
    - Config (config.h): the record [kConfig]; Acpi (config.cc): how it is filled in
      from the tables that the firmware leaves in memory.
    - Paging (vmm.cc, namespace gheith, [VMM::global_init]): page directories and
      page tables in physical memory, read by the processor's [walk].
    - BlockIO (block_io.cc) is the interface of everything that is read by
      blocks, a class with the promise [device_ok]; Ext2 (ext2.cc) is the file
      system over any such device, and its i-nodes are devices again. Ide (ide.cc)
      is the disk, a device as long as its controller is one. Libk (libk.cc) holds
      the string helpers.
    - Vmm (vmm.cc, namespace VMM, [vmm_pageFault]): the regions of a process, the
      list of shared frames, [mmap], [munmap] and the page-fault handler, which
      calls Paging, PhysMem and BlockIO.
    - Queue (queue.h, priority_queue.h), Threads (threads.cc), Semaphore
      (semaphore.h, blocking_lock.h): the ready queue ordered by run time, the
      two atomic parts of [block], the zombies and the reaper, and the counting
      semaphores over them. Sync (future.h, barrier.h) is proved against the
      specification of semaphores, not their code, and so is Buffer (bb.h).
      Condition (condition.h) and its client ReusableBarrier (barrier.h) are
      steps between the critical sections of one lock. Locks (atomic.h): interrupt
      flags and spinning locks, one shared access at a time; Guards: the classes
      of atomic.h that wrap them. Shared (shared.h): counted pointers. Pit
      (pit.cc): the timer, whose handler calls the scheduler and the processes.
    - Process (process.cc): the tables of open files, semaphores and children
      and the names they are given, [fork], [wait], [kill]. Fork: the loops that
      copy and release address spaces.
    - UserMem: loads and stores of the kernel in the memory of a process, with
      the page faults they raise; Coherence: several processes that take turns;
      Isolation: what accesses, faults, [fork] and [munmap] leave alone.
    - Snprintf (snprintf.cc, the same text as printf.c), Heap (heap.cc and the
      user library's heap.c), Libc (printf.c, libc.c).
    - Files (file.h, u8250.cc, class FileDescriptor of sys.cc), Elf (elf.cc), Sys
      (sys.cc): the seventeen system calls and [exec], composed of all the above;
      Handles: their typing, CallIsolation: the memory they leave alone, World: many
      processes that make them. Shell (shell.c): a program over the user library.
      MmapTest (init.c): the test program of the repository over the system calls.
    - Smp (idt.cc, smp.cc): the interrupt table and the local controllers. Boot
      (init.cc): the set-up by the first processor, composed of Acpi, Heap, PhysMem,
      Paging, Process, Ext2, Threads and Pit, and the start of the others. Kernel
      (kernel.cc): the first program. Debug (debug.cc), Random (random.h).

    ** How code becomes definitions

    A function of the code is a Rocq function of the same name from the state it
    reads to an [outcome] with the new state: [Ret], [Panic] for [Debug::panic]
    and failed assertions, [Crash] for a null or dangling pointer, [OutOfFuel]
    for a loop that waits or was given too few turns. Words are integers [Z] with
    the wrap-around written out. Objects reached through several pointers (TCBs,
    node entries, semaphores, futures, open files, i-node entries) live in
    finite maps from locations; a [Shared<T>] is a location of such a map and the
    map never forgets an object, which file Shared justifies: it has the counts,
    and proves that an object lives exactly as long as a pointer denotes it. A
    critical section guarded by an interrupt-safe or blocking lock is one transition; that the locks make it so is the subject of Locks
    and Semaphore. Where the interleaving is the point (Locks, Sync, Threads)
    the code is a step relation or a function that gives the next step of a thread.

    ** What is proved

    - Memory: frames handed out are distinct until given back, and the allocator
      panics exactly when all are held; [map], [unmap], [make_pd] and
      [global_init] have the stated effect on the processor's translation and on
      nothing else; [fork] copies every page of the private half and exit gives
      every frame back; the memory that a process sees through faults is a flat
      memory, and all shared mappings of a file, of all processes, are one page; no
      system call but [execl] touches memory of the kernel or of other processes, and
      however the processes interleave calls, forks, loads and stores, their spaces
      stay apart; the state that [kernelInit] leaves is one from which that holds.
    - Mappings: where [mmap] puts a region, what [munmap] releases and when.
    - Files: [read_all] over any device, i-nodes as devices, directory lookup and
      path resolution, [read] of an open file into user memory; the disk driver keeps
      the promise of a block device.
    - Scheduling: both queues implement their lists, the priority queue serves by
      run time with at most three wake-ups ahead, no reachable state of the
      scheduler runs a thread twice or loses one, semaphores implement a counter
      and a FIFO list; futures and barriers release everybody, also round after
      round, bounded buffers are queues, condition variables miss no signal, locks
      exclude; the timer gives every thread that computes its share.
    - Processes: names denote the slots they were made for, [fork], [wait] and
      [kill] on every branch; [exec] leaves the arguments where a program looks; no
      system call leaves a handle that refers to nothing.
    - The start: [configInit] records what the tables say, [kernelInit] establishes
      the invariants of all parts at once, and however the processors interleave
      they make exactly one first process.
    - Library: both heaps keep regions apart and blocks merged; formatted output
      is the rendering of the directives, ends within its fuel, and integers read
      back within the buffers of the code.
    - The whole: the test program of the repository, run on the model of the kernel
      from the file system to the console, prints what its comments say.

    ** Fuel and bounds

    [read_all_loop] has one unit for each byte asked; [find_loop] one for each
    character of the path; [dopr] eight turns for each character and sixteen more;
    the conversions of [fmtint] the twenty places of their buffer; the heap's search
    at most twenty candidates or the number of links; the loops of Paging and
    Process the 1024 entries of a table; the searches of Acpi the places of the two
    areas and the bytes of the table, whose entries are at least one byte long. The
    driver of Ide polls as often as its parameter [patience] says, and its theorem
    says how much of it the controller needs. Theorems that conclude [Ret] show
    that the fuel is enough. In Sys, [max_len] bounds the strings and argument
    lists read from user memory, as a parameter.

    ** Not modelled

    Assembly (the context switch, traps and their return to user mode, the boot
    sector, system call stubs), and what a processor does with its tables: the
    GDT, the task segments, [VMM::per_core_init] and the features that CPUID
    shows. [future(work)] and [stream] cannot be instantiated, since they call a
    constructor that does not exist. The hints [monitor] and [mwait] have no effect on the state.

    Divergences between the code and what it means to do that the proofs met are
    lemmas of their own: [Vmm.mmap_twice_overlaps], [Vmm.munmap_private_crash],
    [Threads.yield_alone_no_preempt], [Fork.exit_frees_shared_frame],
    [Snprintf.fraction_zeros_after], [Snprintf.pointer_negative],
    [Snprintf.maxlen_exceeded], [Snprintf.w_reads_past_end], [Heap.malloc_wraps],
    [Heap.realloc_failure_frees], [Files.read_past_end], [Shared.default_leaks],
    [Pit.killed_after_exit_panics], [CallIsolation.mmap_wraps],
    [CallIsolation.apic_accepted], [Acpi.first_entry_skipped],
    [Acpi.empty_entry_loops], [Ide.busy_drive_panics], [Smp.boot_gates_ok] and
    [Random.generator_stuck]. *)

From Stdlib Require Export ZArith Lia String.
From stdpp Require Export base tactics numbers option gmap list.

#[global] Set Default Goal Selector "!".
#[export] Set Warnings "-clear-no-such-hyp".

(** ** Notation scope of the development *)

Declare Scope kernel_scope.
Delimit Scope kernel_scope with kernel.
Local Open Scope Z_scope.

(** ** Outcomes

    [Debug::panic] never returns, so a failed [ASSERT] or an explicit panic is
    the outcome [Panic]; dereferencing a null or dangling pointer is [Crash].
    [OutOfFuel] is the outcome of a loop that was given too few iterations: the
    theorems that conclude [Ret] show it does not occur. *)

Inductive outcome (A : Type) : Type :=
| Ret (a : A)
| Panic (why : string)
| Crash
| OutOfFuel.
Arguments Ret {A} a.
Arguments Panic {A} why.
Arguments Crash {A}.
Arguments OutOfFuel {A}.

#[export] Instance outcome_ret : MRet outcome := @Ret.

#[export] Instance outcome_bind : MBind outcome :=
  λ A B f m, match m with
    | Ret a => f a | Panic w => Panic w | Crash => Crash | OutOfFuel => OutOfFuel
    end.

(** [Debug::assert]: panic unless the invariant holds. *)
Definition ASSERT (invariant : bool) (text : string) : outcome unit :=
  if invariant then Ret tt else Panic text.

(** Dereference of a pointer to an object held in a store. *)
Definition deref {A} (o : option A) : outcome A :=
  match o with Some a => Ret a | None => Crash end.

Definition is_Ret {A} (m : outcome A) : bool :=
  match m with Ret _ => true | _ => false end.

(** The result of a computation known to return. *)
Definition run {A} (d : A) (m : outcome A) : A := match m with Ret a => a | _ => d end.

(** ** Programs of the current thread

    A computation over a state [S] that may also end the thread that runs it:
    its result is then [None], and what follows is not executed. *)

Definition prog (S A : Type) : Type := S → outcome (option A * S).

Definition pret {S A} (a : A) : prog S A := λ s, Ret (Some a, s).

Definition pbind {S A B} (m : prog S A) (f : A → prog S B) : prog S B := λ s,
  '(a, s) ← m s;
  match a with Some a => f a s | None => Ret (None, s) end.

(** The thread ends. *)
Definition pgone {S A} : prog S A := λ s, Ret (None, s).

(** A computation that does not look at the state. *)
Definition plift {S A} (m : outcome A) : prog S A := λ s, a ← m; Ret (Some a, s).

Definition pget {S A} (f : S → A) : prog S A := λ s, Ret (Some (f s), s).

Definition pset {S} (f : S → S) : prog S unit := λ s, Ret (Some tt, f s).

Notation "'let!' x ':=' m 'in' k" := (pbind m (λ x, k))
  (at level 10, x pattern, m at level 200, k at level 200,
   format "'let!'  x  ':='  m  'in' '//' k") : kernel_scope.
Open Scope kernel_scope.

(** [ends I m s Q]: from [s], the program [m] ends in a state with [Q], or it ends
    the thread in a state with [I]. *)
Definition ends {S A} (I : S → Prop) (m : prog S A) (s : S) (Q : A → S → Prop) : Prop :=
  ∀ r s', m s = Ret (r, s') → match r with Some a => Q a s' | None => I s' end.

(** ** Machine integers *)

Definition u8 (x : Z) : Z := x mod 256.
Definition u16 (x : Z) : Z := x mod 65536.
Definition u32 (x : Z) : Z := x mod 4294967296.

(** Two's complement reading of a 32-bit value ([int], [long]). *)
Definition i32 (x : Z) : Z :=
  let y := u32 x in if y <? 2147483648 then y else y - 4294967296.

Definition is_u32 (x : Z) : Prop := 0 <= x < 4294967296.

#[export] Instance is_u32_dec x : Decision (is_u32 x).
Proof. unfold is_u32. apply _. Defined.

(** ** Iteration

    [iterate n f s] runs the body [f] exactly [n] times (a counted loop whose
    body may panic). *)

Fixpoint iterate {S} (n : nat) (f : S → outcome S) (s : S) : outcome S :=
  match n with
  | O => Ret s
  | Datatypes.S n' => s' ← f s; iterate n' f s'
  end.

(** [for_range lo n f s]: [for (i = lo; i < lo + n; i++) s = f(i, s)]. *)
Fixpoint for_range {S} (lo : Z) (n : nat) (f : Z → S → outcome S) (s : S) : outcome S :=
  match n with
  | O => Ret s
  | Datatypes.S n' => s' ← f lo s; for_range (lo + 1) n' f s'
  end.

(** [while_loop fuel c b s]: [while (c(s)) s = b(s)], at most [fuel] times. *)
Fixpoint while_loop {S} (fuel : nat) (c : S → bool) (b : S → outcome S) (s : S) : outcome S :=
  if c s then
    match fuel with
    | O => OutOfFuel
    | Datatypes.S fuel' => s' ← b s; while_loop fuel' c b s'
    end
  else Ret s.

(** Zero or more steps of a relation. *)
Inductive star {A : Type} (R : A → A → Prop) : A → A → Prop :=
| star_refl a : star R a a
| star_step a b c : star R a b → R b c → star R a c.

(** ** Tactics *)

(** [lia] with the defining equations of [/] and [mod] made available. *)
Ltac zlia :=
  repeat match goal with H : _ ∧ _ |- _ => destruct H end;
  Z.to_euclidean_division_equations; lia.

(** Run one bind of an outcome computation whose result is known. *)
Ltac outcome_simp := cbn [mbind outcome_bind mret outcome_ret ASSERT] in *.

(** Break the first test or match that blocks a computation. *)
Ltac break_if :=
  match goal with
  | |- context [if ?b then _ else _] => destruct b eqn:?
  | H : context [if ?b then _ else _] |- _ => destruct b eqn:?
  end.

Ltac break_match :=
  match goal with
  | |- context [match ?x with _ => _ end] => destruct x eqn:?
  end.

(** Turn boolean comparisons in the context into propositions. *)
Ltac bool_to_prop :=
  repeat match goal with
  | H : (_ =? _) = true |- _ => apply Z.eqb_eq in H
  | H : (_ =? _) = false |- _ => apply Z.eqb_neq in H
  | H : (_ <? _) = true |- _ => apply Z.ltb_lt in H
  | H : (_ <? _) = false |- _ => apply Z.ltb_ge in H
  | H : (_ <=? _) = true |- _ => apply Z.leb_le in H
  | H : (_ <=? _) = false |- _ => apply Z.leb_gt in H
  | H : _ && _ = true |- _ => apply andb_true_iff in H; destruct H
  | H : _ || _ = false |- _ => apply orb_false_iff in H; destruct H
  | H : negb _ = true |- _ => apply negb_true_iff in H
  | H : negb _ = false |- _ => apply negb_false_iff in H
  end.

Create HintDb kernel discriminated.

(** ** Lemmas on outcomes *)

Lemma bind_Ret_inv {A B} (m : outcome A) (f : A → outcome B) (b : B) :
  m ≫= f = Ret b → ∃ a, m = Ret a ∧ f a = Ret b.
Proof. destruct m; cbn; intros; try discriminate. eauto. Qed.

Lemma bind_assoc {A B C} (m : outcome A) (f : A → outcome B) (g : B → outcome C) :
  (m ≫= f) ≫= g = m ≫= (λ a, f a ≫= g).
Proof. by destruct m. Qed.

Lemma run_Ret {A} (d : A) (m : outcome A) : is_Ret m = true → m = Ret (run d m).
Proof. by destruct m. Qed.

Lemma deref_Ret {A} (o : option A) a : deref o = Ret a → o = Some a.
Proof. destruct o; [by intros [= ->]|done]. Qed.

Lemma ASSERT_true b text : b = true → ASSERT b text = Ret tt.
Proof. by intros ->. Qed.

Lemma ASSERT_Ret b text u : ASSERT b text = Ret u → b = true.
Proof. by destruct b. Qed.

(** ** Lemmas on programs: the rules of [ends] *)

Section Ends.
Context {S : Type} (I : S → Prop).

Lemma ends_ret {A} (a : A) s (Q : A → S → Prop) : Q a s → ends I (pret a) s Q.
Proof. by intros HQ r s' [= <- <-]. Qed.

Lemma ends_gone {A} s (Q : A → S → Prop) : I s → ends I pgone s Q.
Proof. by intros HQ r s' [= <- <-]. Qed.

Lemma ends_bind {A B} (m : prog S A) (f : A → prog S B) s Q :
  ends I m s (λ a s', ends I (f a) s' Q) → ends I (pbind m f) s Q.
Proof.
  intros Hm r s' E. unfold pbind in E. destruct (m s) as [[[a|] s1]| | |] eqn:E1; [|..]; try done.
  - exact (Hm _ _ E1 _ _ E).
  - cbn in E. injection E as <- <-. exact (Hm _ _ E1).
Qed.

Lemma ends_lift {A} (m : outcome A) s (Q : A → S → Prop) :
  (∀ a, m = Ret a → Q a s) → ends I (plift m) s Q.
Proof.
  intros HQ r s' E. unfold plift in E. destruct m as [a| | |]; try done. injection E as <- <-. auto.
Qed.

Lemma ends_get {A} (f : S → A) s (Q : A → S → Prop) : Q (f s) s → ends I (pget f) s Q.
Proof. by intros HQ r s' [= <- <-]. Qed.

Lemma ends_set f s (Q : unit → S → Prop) : Q tt (f s) → ends I (pset f) s Q.
Proof. by intros HQ r s' [= <- <-]. Qed.

Lemma ends_mono {A} (m : prog S A) s (Q R : A → S → Prop) :
  ends I m s Q → (∀ a s', Q a s' → R a s') → ends I m s R.
Proof. intros Hm HQ r s' E. specialize (Hm r s' E). destruct r; auto. Qed.

End Ends.

(** A loop invariant that each iteration re-establishes holds at the end, and
    the loop returns. *)
Lemma for_range_inv {S} (P : Z → S → Prop) (f : Z → S → outcome S) n lo s :
  P lo s →
  (∀ i s, lo <= i < lo + Z.of_nat n → P i s → ∃ s', f i s = Ret s' ∧ P (i + 1) s') →
  ∃ s', for_range lo n f s = Ret s' ∧ P (lo + Z.of_nat n) s'.
Proof.
  revert lo s. induction n as [|n IH]; intros lo s H0 Hstep.
  - exists s. split; [done|]. by replace (lo + Z.of_nat 0) with lo by lia.
  - destruct (Hstep lo s ltac:(lia) H0) as (s1 & Hf & H1).
    destruct (IH (lo + 1) s1 H1) as (s' & Hr & HP).
    { intros i t Hi. apply Hstep. lia. }
    exists s'. cbn. rewrite Hf. cbn. split; [done|].
    by replace (lo + Z.of_nat (Datatypes.S n)) with (lo + 1 + Z.of_nat n) by lia.
Qed.

(** Total correctness of a loop: an invariant and a measure the body decreases. *)
Lemma while_loop_inv {S} (P : S → Prop) (measure : S → Z) (c : S → bool)
    (b : S → outcome S) fuel s :
  P s → measure s <= Z.of_nat fuel →
  (∀ t, P t → c t = true → 0 < measure t ∧ ∃ t', b t = Ret t' ∧ P t' ∧ measure t' < measure t) →
  ∃ s', while_loop fuel c b s = Ret s' ∧ P s' ∧ c s' = false.
Proof.
  revert s. induction fuel as [|fuel IH]; intros s HP Hm Hb; cbn.
  - destruct (c s) eqn:Hc; [|eauto]. destruct (Hb s HP Hc). lia.
  - destruct (c s) eqn:Hc; [|eauto].
    destruct (Hb s HP Hc) as (Hpos & t & -> & HPt & Hlt). cbn.
    apply IH; [done|lia|done].
Qed.

(** A computation that returns or dereferences a bad pointer. *)
Definition ret_or_crash {A} (m : outcome A) : Prop :=
  match m with Ret _ | Crash => True | Panic _ | OutOfFuel => False end.

Lemma ret_or_crash_bind {A B} (m : outcome A) (f : A → outcome B) :
  ret_or_crash m → (∀ a, m = Ret a → ret_or_crash (f a)) → ret_or_crash (m ≫= f).
Proof. destruct m; cbn; [|done..]. intros _ Hf. by apply Hf. Qed.

(** A loop whose body decreases a measure, or crashes, does not run out of fuel. *)
Lemma while_loop_ends {S} (P : S → Prop) (measure : S → Z) (c : S → bool)
    (b : S → outcome S) fuel s :
  P s → 0 <= measure s <= Z.of_nat fuel →
  (∀ t, P t → c t = true →
     0 < measure t ∧ ret_or_crash (b t) ∧ ∀ t', b t = Ret t' → P t' ∧ 0 <= measure t' < measure t) →
  ret_or_crash (while_loop fuel c b s).
Proof.
  revert s. induction fuel as [|fuel IH]; intros s HP Hm Hb; cbn.
  - destruct (c s) eqn:Hc; [|done]. destruct (Hb s HP Hc) as (Hpos & Hr & Hs).
    lia.
  - destruct (c s) eqn:Hc; [|done]. destruct (Hb s HP Hc) as (Hpos & Hr & Hs).
    apply ret_or_crash_bind; [done|]. intros t Ht. destruct (Hs t Ht) as [HPt Hlt].
    apply IH; [done|lia|done].
Qed.

(** What holds when a loop has returned. *)
Lemma while_loop_ret {S} (P : S → Prop) (c : S → bool) (b : S → outcome S) fuel s s' :
  while_loop fuel c b s = Ret s' → P s →
  (∀ t t', P t → c t = true → b t = Ret t' → P t') → P s'.
Proof.
  revert s. induction fuel as [|fuel IH]; intros s E HP Hb; cbn in E; destruct (c s) eqn:Hc; try done.
  - by injection E as <-.
  - apply bind_Ret_inv in E as (s1 & E1 & E). apply (IH s1 E); [by eapply Hb|done].
  - by injection E as <-.
Qed.

Lemma for_range_ext {S} (f g : Z → S → outcome S) n lo s :
  (∀ i s, lo <= i < lo + Z.of_nat n → f i s = g i s) →
  for_range lo n f s = for_range lo n g s.
Proof.
  revert lo s. induction n as [|n IH]; intros lo s H; cbn; [done|].
  rewrite H by lia. destruct (g lo s); cbn; [|done..].
  apply IH. intros. apply H. lia.
Qed.

(** ** Computations that may stop for want of a resource

    [returns_or why G m Q]: [m] returns a value that satisfies [Q], or it panics
    with [why], and then [G] holds. *)

Definition returns_or {A} (why : string) (G : Prop) (m : outcome A) (Q : A → Prop) : Prop :=
  (m = Panic why ∧ G) ∨ ∃ a, m = Ret a ∧ Q a.

Lemma returns_or_ret {A} why G (a : A) (Q : A → Prop) : Q a → returns_or why G (Ret a) Q.
Proof. right. eauto. Qed.

Lemma returns_or_bind {A B} why G (m : outcome A) (f : A → outcome B) (Q : A → Prop) (R : B → Prop) :
  returns_or why G m Q → (∀ a, Q a → returns_or why G (f a) R) → returns_or why G (m ≫= f) R.
Proof. intros [[-> HG]|(a & -> & Ha)] Hf; [by left|]. by apply Hf. Qed.

Lemma returns_or_mono {A} why (G G' : Prop) (m : outcome A) (Q R : A → Prop) :
  returns_or why G m Q → (G → G') → (∀ a, Q a → R a) → returns_or why G' m R.
Proof. intros [[-> HG]|(a & -> & Ha)] HG' Hf; [left|right]; eauto. Qed.

Lemma for_range_or {S} why G (P : Z → S → Prop) (f : Z → S → outcome S) n lo s :
  P lo s →
  (∀ i s, lo <= i < lo + Z.of_nat n → P i s → returns_or why G (f i s) (P (i + 1))) →
  returns_or why G (for_range lo n f s) (P (lo + Z.of_nat n)).
Proof.
  revert lo s. induction n as [|n IH]; intros lo s H0 Hstep; cbn [for_range].
  - apply returns_or_ret. by replace (lo + Z.of_nat 0) with lo by lia.
  - eapply returns_or_bind; [apply Hstep; [lia|done]|]. intros s1 H1.
    replace (lo + Z.of_nat (Datatypes.S n)) with (lo + 1 + Z.of_nat n) by lia.
    apply IH; [done|]. intros i t Hi. apply Hstep. lia.
Qed.

(** Sums over an initial segment. *)
Fixpoint sum_below (f : Z → Z) (n : nat) : Z :=
  match n with O => 0 | Datatypes.S n' => sum_below f n' + f (Z.of_nat n') end.

Lemma sum_below_le f n m :
  (∀ i, 0 <= f i) → (n <= m)%nat → sum_below f n <= sum_below f m.
Proof.
  intros Hf. induction 1 as [|m _ IH]; [lia|]. cbn. specialize (Hf (Z.of_nat m)). lia.
Qed.

Lemma sum_below_step f i n :
  (∀ i, 0 <= f i) → 0 <= i < Z.of_nat n → sum_below f (Z.to_nat i) + f i <= sum_below f n.
Proof.
  intros Hf Hi. pose proof (sum_below_le f (Datatypes.S (Z.to_nat i)) n Hf ltac:(lia)) as H.
  cbn in H. by rewrite Z2Nat.id in H by lia.
Qed.

Lemma sum_below_succ f i : 0 <= i → sum_below f (Z.to_nat (i + 1)) = sum_below f (Z.to_nat i) + f i.
Proof.
  intros. replace (Z.to_nat (i + 1)) with (Datatypes.S (Z.to_nat i)) by lia.
  cbn. by rewrite Z2Nat.id by lia.
Qed.

Lemma star_trans {A} (R : A → A → Prop) a b c : star R a b → star R b c → star R a c.
Proof. intros Hab Hbc. induction Hbc; [done|]. by econstructor; [apply IHHbc|]. Qed.

Lemma star_one {A} (R : A → A → Prop) a b : R a b → star R a b.
Proof. intros. econstructor; [constructor|done]. Qed.

(** Rule induction for invariants of a transition system. *)
Lemma star_invariant {A} (R : A → A → Prop) (P : A → Prop) a b :
  P a → (∀ x y, P x → R x y → P y) → star R a b → P b.
Proof. intros Ha Hstep Hs. induction Hs; eauto. Qed.

(** Updating one element of a list and a sum over its elements. *)
Lemma sum_insert {A} (f : A → nat) (l : list A) i x y :
  l !! i = Some x → (sum_list_with f (<[i := y]> l) + f x = sum_list_with f l + f y)%nat.
Proof.
  intros (l1 & l2 & -> & ->)%list_elem_of_split_length.
  rewrite insert_app_r_alt, Nat.sub_diag by lia. cbn. rewrite !sum_list_with_app. cbn. lia.
Qed.

Lemma sum_le_length {A} (f : A → nat) (l : list A) :
  (∀ x, (f x <= 1)%nat) → (sum_list_with f l <= length l)%nat.
Proof. intros Hf. induction l as [|x l IH]; cbn; [lia|]. specialize (Hf x). lia. Qed.

Lemma sum_all_ones {A} (f : A → nat) (l : list A) :
  (∀ x, (f x <= 1)%nat) → sum_list_with f l = length l → ∀ i x, l !! i = Some x → f x = 1%nat.
Proof.
  intros Hf. induction l as [|x l IH]; [done|]. cbn. intros Hs.
  pose proof (sum_le_length f l Hf). pose proof (Hf x).
  intros [|i] y; cbn; [intros [= <-]; lia|]. apply IH. lia.
Qed.

Lemma sum_const {A} (f : A → nat) (l : list A) k :
  (∀ i x, l !! i = Some x → f x = k) → sum_list_with f l = (k * length l)%nat.
Proof.
  intros Hf. induction l as [|x l IH]; cbn; [lia|]. rewrite (Hf 0%nat x eq_refl), IH; [lia|].
  intros i y Hy. by apply (Hf (S i) y).
Qed.

Lemma sum_lt {A} (f g : A → nat) (l : list A) x :
  x ∈ l → (g x < f x)%nat → (∀ y, (g y <= f y)%nat) → (sum_list_with g l < sum_list_with f l)%nat.
Proof.
  intros Hx Hlt Hle. assert (Hall : ∀ l', (sum_list_with g l' <= sum_list_with f l')%nat).
  { intros l'. induction l' as [|y l' IH]; cbn; [lia|]. specialize (Hle y). lia. }
  induction Hx as [y l|y z l Hx IH]; cbn; [specialize (Hall l)|specialize (Hle z); specialize (IH Hlt)]; lia.
Qed.

(** ** Lemmas on machine integers *)

Lemma u32_range x : is_u32 (u32 x).
Proof. unfold is_u32, u32. apply Z.mod_pos_bound. lia. Qed.

Lemma u32_small x : is_u32 x → u32 x = x.
Proof. unfold is_u32, u32. intros. by apply Z.mod_small. Qed.

Lemma land_fff x : Z.land x 0xFFF = x mod 4096.
Proof. change 0xFFF with (Z.ones 12). by rewrite Z.land_ones by lia. Qed.

Lemma land_3ff x : Z.land x 0x3FF = x mod 1024.
Proof. change 0x3FF with (Z.ones 10). by rewrite Z.land_ones by lia. Qed.

Lemma land_1 x : Z.land x 1 = x mod 2.
Proof. change 1 with (Z.ones 1) at 1. by rewrite Z.land_ones by lia. Qed.

(** Clearing the low [w] bits of a 32-bit value. *)
Lemma land_high w x : 0 <= w <= 32 → is_u32 x →
  Z.land x (Z.shiftl (Z.ones (32 - w)) w) = 2 ^ w * (x / 2 ^ w).
Proof.
  intros Hw Hx. unfold is_u32 in Hx.
  replace (2 ^ w * (x / 2 ^ w)) with (Z.shiftl (Z.shiftr x w) w).
  2:{ rewrite Z.shiftl_mul_pow2, Z.shiftr_div_pow2 by lia. apply Z.mul_comm. }
  apply Z.bits_inj'. intros n Hn. rewrite Z.land_spec, !Z.shiftl_spec by lia.
  destruct (Z.lt_ge_cases n w).
  - rewrite !(Z.testbit_neg_r _ (n - w)) by lia. apply andb_false_r.
  - rewrite Z.shiftr_spec by lia. replace (n - w + w) with n by lia.
    destruct (Z.lt_ge_cases n 32).
    + rewrite Z.ones_spec_low by lia. apply andb_true_r.
    + rewrite Z.ones_spec_high by lia. rewrite andb_false_r. symmetry.
      destruct (Z.eq_dec x 0) as [->|]; [apply Z.bits_0|].
      apply Z.bits_above_log2; [lia|].
      apply Z.lt_le_trans with 32; [|lia]. apply Z.log2_lt_pow2; lia.
Qed.

Lemma land_page x : is_u32 x → Z.land x 0xFFFFF000 = 4096 * (x / 4096).
Proof. apply (land_high 12). lia. Qed.

(** Or-ing bits into a value whose low bits are clear is addition. *)
Lemma land_low w x f : 0 <= w → x mod 2 ^ w = 0 → 0 <= f < 2 ^ w → Z.land x f = 0.
Proof.
  intros Hw Hx Hf. apply Z.bits_inj'. intros n Hn. rewrite Z.land_spec, Z.bits_0.
  destruct (Z.lt_ge_cases n w).
  - rewrite <- (Z.mod_pow2_bits_low x w n) by lia. by rewrite Hx, Z.bits_0.
  - destruct (Z.eq_dec f 0) as [->|]; [rewrite Z.bits_0; apply andb_false_r|].
    rewrite (Z.bits_above_log2 f n); [apply andb_false_r|lia|].
    apply Z.lt_le_trans with w; [apply Z.log2_lt_pow2; lia|lia].
Qed.

Lemma lor_low w x f : 0 <= w → x mod 2 ^ w = 0 → 0 <= f < 2 ^ w → Z.lor x f = x + f.
Proof. intros. symmetry. apply Z.add_nocarry_lor. by apply (land_low w). Qed.

Lemma land_flags x f : x mod 4096 = 0 → 0 <= f < 4096 → Z.land x f = 0.
Proof. by apply (land_low 12). Qed.

Lemma lor_flags x f : x mod 4096 = 0 → 0 <= f < 4096 → Z.lor x f = x + f.
Proof. by apply (lor_low 12). Qed.

#[export] Hint Resolve u32_range : kernel.
