(* ===== verification/Mem.v ===== *)
(** * Physical memory

    A memory is a function from addresses to bytes; [ld32] and [st32] are the
    little-endian 32-bit accesses the compiler emits for [uint32_t] loads and
    stores.  [bzero] and [memcpy] are the routines of src/kernel/machine.S: the
    assembly loops are [bzero_loop] and [memcpy_loop], and the closed forms used
    by the rest of the development are proved equal to them. *)

From S2P Require Import Prelude.
Local Open Scope Z_scope.

Definition mem := Z → Z.

Definition ld8 (m : mem) (a : Z) : Z := u8 (m a).

Definition st8 (m : mem) (a v : Z) : mem := λ x, if x =? a then u8 v else m x.

Definition ld32 (m : mem) (a : Z) : Z :=
  ld8 m a + 256 * ld8 m (a + 1) + 65536 * ld8 m (a + 2) + 16777216 * ld8 m (a + 3).

Definition st32 (m : mem) (a v : Z) : mem :=
  λ x, if (a <=? x) && (x <? a + 4) then u8 (Z.shiftr v (8 * (x - a))) else m x.

(** machine.S [bzero]: count down [%ecx], clear a byte, bump [%eax]. *)
Fixpoint bzero_loop (n : nat) (dest : Z) (m : mem) : mem :=
  match n with
  | O => m
  | S n' => bzero_loop n' (dest + 1) (st8 m dest 0)
  end.

(** The counter is a signed register: a size of 2^31 or more clears nothing. *)
Definition bzero (m : mem) (dest n : Z) : mem :=
  λ x, if (dest <=? x) && (x <? dest + i32 n) then 0 else m x.

(** machine.S [memcpy]: forward, one byte at a time. *)
Fixpoint memcpy_loop (n : nat) (dest src : Z) (m : mem) : mem :=
  match n with
  | O => m
  | S n' => memcpy_loop n' (dest + 1) (src + 1) (st8 m dest (ld8 m src))
  end.

Definition memcpy (m : mem) (dest src n : Z) : mem :=
  λ x, if (dest <=? x) && (x <? dest + i32 n) then ld8 m (src + (x - dest)) else m x.

(** Bytes delivered by a device or a file into a buffer. *)
Definition store_bytes (m : mem) (a : Z) (bs : list Z) : mem :=
  λ x, if (a <=? x) && (x <? a + Z.of_nat (length bs))
       then u8 (nth (Z.to_nat (x - a)) bs 0) else m x.

Definition load_bytes (m : mem) (a : Z) (n : nat) : list Z :=
  (λ i, ld8 m (a + Z.of_nat i)) <$> seq 0 n.

(** Two memories agree on the [n] bytes from [a]. *)
Definition agree (m1 m2 : mem) (a n : Z) : Prop := ∀ x, a <= x < a + n → m1 x = m2 x.

(** ** Laws *)

Lemma u8_range x : 0 <= u8 x < 256.
Proof. unfold u8. apply Z.mod_pos_bound. lia. Qed.

Lemma u8_idemp x : u8 (u8 x) = u8 x.
Proof. unfold u8. apply Z.mod_mod. lia. Qed.

Lemma ld32_range m a : is_u32 (ld32 m a).
Proof.
  unfold is_u32, ld32, ld8.
  pose proof (u8_range (m a)). pose proof (u8_range (m (a + 1))).
  pose proof (u8_range (m (a + 2))). pose proof (u8_range (m (a + 3))). lia.
Qed.

Lemma ld32_st32_eq m a v : ld32 (st32 m a v) a = u32 v.
Proof.
  unfold ld32, ld8, st32.
  rewrite !(proj2 (andb_true_iff _ _)) by (split; [apply Z.leb_le|apply Z.ltb_lt]; lia).
  rewrite !u8_idemp. replace (8 * (a - a)) with 0 by lia.
  replace (8 * (a + 1 - a)) with 8 by lia. replace (8 * (a + 2 - a)) with 16 by lia.
  replace (8 * (a + 3 - a)) with 24 by lia.
  rewrite !Z.shiftr_div_pow2 by lia. unfold u8, u32.
  change (2 ^ 0) with 1; change (2 ^ 8) with 256; change (2 ^ 16) with 65536;
    change (2 ^ 24) with 16777216.
  zlia.
Qed.

Lemma agree_sym m1 m2 a n : agree m1 m2 a n → agree m2 m1 a n.
Proof. intros H x Hx. symmetry. by apply H. Qed.

Lemma agree_trans m1 m2 m3 a n : agree m1 m2 a n → agree m2 m3 a n → agree m1 m3 a n.
Proof. intros H1 H2 x Hx. rewrite H1 by done. by apply H2. Qed.

Lemma agree_sub m1 m2 a n b k : agree m1 m2 a n → a <= b → b + k <= a + n → agree m1 m2 b k.
Proof. intros H ?? x Hx. apply H. lia. Qed.

Lemma ld32_agree m1 m2 a n b : agree m1 m2 a n → a <= b → b + 4 <= a + n → ld32 m1 b = ld32 m2 b.
Proof. intros H ??. unfold ld32, ld8. rewrite !H by lia. done. Qed.

Lemma ld8_agree m1 m2 a n b : agree m1 m2 a n → a <= b < a + n → ld8 m1 b = ld8 m2 b.
Proof. intros H ?. unfold ld8. by rewrite H. Qed.

Lemma st32_agree m a v b n : a + 4 <= b ∨ b + n <= a → agree (st32 m a v) m b n.
Proof.
  intros H x Hx. unfold st32. break_if; [|done]. bool_to_prop. lia.
Qed.

Lemma ld32_st32_ne m a b v : a + 4 <= b ∨ b + 4 <= a → ld32 (st32 m a v) b = ld32 m b.
Proof. intros H. eapply (ld32_agree _ _ b 4); [by apply st32_agree|lia..]. Qed.

Lemma i32_small n : 0 <= n < 2147483648 → i32 n = n.
Proof.
  intros Hn. unfold i32. rewrite u32_small by (unfold is_u32; lia).
  destruct (Z.ltb_spec n 2147483648); [done|lia].
Qed.

Lemma bzero_agree m d n b k :
  0 <= n < 2147483648 → d + n <= b ∨ b + k <= d → agree (bzero m d n) m b k.
Proof.
  intros Hn H x Hx. unfold bzero. rewrite i32_small by done.
  break_if; [|done]. bool_to_prop. lia.
Qed.

Lemma bzero_zero m d n x :
  0 <= n < 2147483648 → d <= x < d + n → bzero m d n x = 0.
Proof.
  intros Hn Hx. unfold bzero. rewrite i32_small by done.
  break_if; [done|]. apply andb_false_iff in Heqb as [?|?]; bool_to_prop; lia.
Qed.

Lemma ld32_bzero m d n b :
  0 <= n < 2147483648 → d <= b → b + 4 <= d + n → ld32 (bzero m d n) b = 0.
Proof. intros. unfold ld32, ld8. rewrite !bzero_zero by lia. done. Qed.

Lemma memcpy_agree m d s n b k :
  0 <= n < 2147483648 → d + n <= b ∨ b + k <= d → agree (memcpy m d s n) m b k.
Proof.
  intros Hn H x Hx. unfold memcpy. rewrite i32_small by done.
  break_if; [|done]. bool_to_prop. lia.
Qed.

Lemma ld8_memcpy m d s n x :
  0 <= n < 2147483648 → d <= x < d + n → ld8 (memcpy m d s n) x = ld8 m (s + (x - d)).
Proof.
  intros Hn Hx. unfold memcpy, ld8. rewrite i32_small by done.
  break_if; [apply u8_idemp|]. apply andb_false_iff in Heqb as [?|?]; bool_to_prop; lia.
Qed.

Lemma ld32_memcpy m d s n x :
  0 <= n < 2147483648 → d <= x → x + 4 <= d + n →
  ld32 (memcpy m d s n) x = ld32 m (s + (x - d)).
Proof.
  intros Hn ??. unfold ld32. rewrite !ld8_memcpy by lia.
  replace (s + (x + 1 - d)) with (s + (x - d) + 1) by lia.
  replace (s + (x + 2 - d)) with (s + (x - d) + 2) by lia.
  by replace (s + (x + 3 - d)) with (s + (x - d) + 3) by lia.
Qed.

Lemma store_bytes_agree m a bs b k :
  a + Z.of_nat (length bs) <= b ∨ b + k <= a → agree (store_bytes m a bs) m b k.
Proof.
  intros H x Hx. unfold store_bytes. break_if; [|done]. bool_to_prop. lia.
Qed.

Lemma ld8_store_bytes m a bs i :
  (i < length bs)%nat → ld8 (store_bytes m a bs) (a + Z.of_nat i) = u8 (nth i bs 0).
Proof.
  intros Hi. unfold ld8, store_bytes. break_if.
  - rewrite u8_idemp. f_equal. f_equal. lia.
  - apply andb_false_iff in Heqb as [?|?]; bool_to_prop; lia.
Qed.

(** The assembly loops compute the closed forms. *)
Lemma bzero_loop_spec n d m x :
  bzero_loop n d m x = if (d <=? x) && (x <? d + Z.of_nat n) then 0 else m x.
Proof.
  revert d m. induction n as [|n IH]; intros d m; cbn [bzero_loop].
  - destruct (Z.leb_spec d x), (Z.ltb_spec x (d + Z.of_nat 0)); cbn; done || lia.
  - rewrite IH. unfold st8.
    destruct (Z.leb_spec d x), (Z.leb_spec (d + 1) x), (Z.ltb_spec x (d + 1 + Z.of_nat n)),
      (Z.ltb_spec x (d + Z.of_nat (S n))), (Z.eqb_spec x d); cbn; done || lia.
Qed.

Lemma memcpy_loop_spec n d s m x :
  d <= s ∨ s + Z.of_nat n <= d →
  u8 (memcpy_loop n d s m x) =
  u8 (if (d <=? x) && (x <? d + Z.of_nat n) then ld8 m (s + (x - d)) else m x).
Proof.
  revert d s m. induction n as [|n IH]; intros d s m H; cbn [memcpy_loop].
  - destruct (Z.leb_spec d x), (Z.ltb_spec x (d + Z.of_nat 0)); cbn; done || lia.
  - rewrite IH by lia. unfold st8, ld8.
    replace (s + 1 + (x - (d + 1))) with (s + (x - d)) by lia.
    destruct (Z.leb_spec d x), (Z.leb_spec (d + 1) x), (Z.ltb_spec x (d + 1 + Z.of_nat n)),
      (Z.ltb_spec x (d + Z.of_nat (S n))), (Z.eqb_spec x d),
      (Z.eqb_spec (s + (x - d)) d); subst; cbn; rewrite ?u8_idemp; try done; try lia.
    all: by replace (s + (d - d)) with s by lia.
Qed.

#[export] Hint Resolve ld32_range : kernel.
