(* ===== verification/PhysMem.v ===== *)
(** * Physical frames: src/kernel/physmem.cc, physmem.h

    The allocator hands out 4 KiB frames.  Freed frames form a list threaded
    through the first word of each frame, so the state is the memory together
    with the three statics [firstFree], [avail] and [limit].  The critical
    sections guarded by [LockGuard] are single transitions of the model. *)

From S2P Require Import Prelude Mem.
Local Open Scope Z_scope.

Definition FRAME_SIZE : Z := Z.shiftl 1 12.

Definition offset (pa : Z) : Z := Z.land pa 0xFFF.
Definition ppn (pa : Z) : Z := Z.shiftr pa 12.
Definition framedown (pa : Z) : Z := u32 (pa / FRAME_SIZE * FRAME_SIZE).
Definition frameup (pa : Z) : Z := framedown (u32 (u32 (pa + FRAME_SIZE) - 1)).

(** The machine as the memory subsystem sees it: RAM, the allocator's statics
    and the log of [invlpg] instructions issued (most recent first). *)
Record mach := Mach {
  ram : mem;
  firstFree : Z;
  avail : Z;
  limit : Z;
  invlpgs : list Z;
}.

Definition set_ram (m : mem) (s : mach) : mach :=
  Mach m (firstFree s) (avail s) (limit s) (invlpgs s).

Definition alloc_frame (s : mach) : outcome (Z * mach) :=
  '(p, s) ← (if negb (firstFree s =? 0) then
               let p := firstFree s in
               Ret (p, Mach (ram s) (ld32 (ram s) (firstFree s)) (avail s) (limit s) (invlpgs s))
             else if avail s =? limit s then Panic "no more frames"
             else Ret (avail s, Mach (ram s) (firstFree s) (u32 (avail s + FRAME_SIZE))
                                     (limit s) (invlpgs s)));
  _ ← ASSERT (offset p =? 0) "offset(p) == 0";
  Ret (p, set_ram (bzero (ram s) p FRAME_SIZE) s).

Definition dealloc_frame (p : Z) (s : mach) : outcome mach :=
  _ ← ASSERT (offset p =? 0) "offset(p) == 0";
  Ret (Mach (st32 (ram s) p (firstFree s)) p (avail s) (limit s) (invlpgs s)).

Definition init (start size : Z) (s : mach) : outcome mach :=
  _ ← ASSERT (offset start =? 0) "offset(start) == 0";
  _ ← ASSERT (offset size =? 0) "offset(size) == 0";
  Ret (Mach (ram s) (firstFree s) start (u32 (start + size)) (invlpgs s)).

(** ** Invariant *)

(** The free list [fl] starts at [p] and is linked through memory. *)
Fixpoint free_chain (m : mem) (p : Z) (fl : list Z) : Prop :=
  match fl with
  | [] => p = 0
  | f :: fl' => p = f ∧ free_chain m (ld32 m f) fl'
  end.

Definition frame_in (lo hi p : Z) : Prop := p mod 4096 = 0 ∧ lo <= p < hi.

#[export] Instance frame_in_dec lo hi p : Decision (frame_in lo hi p).
Proof. unfold frame_in. apply _. Defined.

(** [lo] is the first managed address. *)
Record alloc_wf (lo : Z) (fl : list Z) (s : mach) : Prop := AllocWf {
  wf_chain : free_chain (ram s) (firstFree s) fl;
  wf_free : Forall (frame_in lo (avail s)) fl;
  wf_nodup : NoDup fl;
  wf_lo : 0 < lo ∧ lo mod 4096 = 0;
  wf_avail : avail s mod 4096 = 0;
  wf_limit : limit s mod 4096 = 0;
  wf_bounds : lo <= avail s <= limit s;
  wf_top : limit s < 4294967296;
}.

(** A frame is allocated when it was carved out of the range and is not free. *)
Definition allocated (lo : Z) (fl : list Z) (s : mach) (p : Z) : Prop :=
  frame_in lo (avail s) p ∧ p ∉ fl.

(** How many more frames the allocator can hand out. *)
Definition frames_left (fl : list Z) (s : mach) : Z :=
  Z.of_nat (length fl) + (limit s - avail s) / 4096.

(** The bytes of frame [p] are the same in both memories. *)
Definition same_frame (s s' : mach) (p : Z) : Prop := agree (ram s') (ram s) p 4096.

(** The memory below the frames is the same, and there are as many frames. *)
Definition steady (lo : Z) (s s' : mach) : Prop := limit s' = limit s ∧ agree (ram s') (ram s) 0 lo.

(** A client of the allocator: it holds the frames it was given, frees only
    frames it holds and writes only inside them. *)
Inductive client_step : list Z * mach → list Z * mach → Prop :=
| client_alloc held s p s' :
    alloc_frame s = Ret (p, s') → client_step (held, s) (p :: held, s')
| client_free held1 held2 p s s' :
    dealloc_frame p s = Ret s' → client_step (held1 ++ p :: held2, s) (held1 ++ held2, s')
| client_write held s p a v :
    p ∈ held → p <= a < p + 4096 → client_step (held, s) (held, set_ram (st8 (ram s) a v) s).

(** Every frame of the managed range below [hi], in increasing order. *)
Definition frames_upto (lo hi : Z) : list Z :=
  (λ i, lo + 4096 * Z.of_nat i) <$> seq 0 (Z.to_nat ((hi - lo) / 4096)).

(** ** Lemmas *)

Lemma offset_mod p : offset p = p mod 4096.
Proof. apply land_fff. Qed.

Lemma framedown_eq x : is_u32 x → framedown x = 4096 * (x / 4096).
Proof.
  unfold is_u32, framedown, FRAME_SIZE. intros. change (Z.shiftl 1 12) with 4096.
  rewrite u32_small; [lia|]. unfold is_u32. zlia.
Qed.

Lemma framedown_page x : is_u32 x → is_u32 (framedown x) ∧ framedown x / 4096 = x / 4096.
Proof. intros Hx. rewrite framedown_eq by done. unfold is_u32 in *. split; zlia. Qed.

Lemma frames_disjoint p q :
  p mod 4096 = 0 → q mod 4096 = 0 → p ≠ q → p + 4096 <= q ∨ q + 4096 <= p.
Proof. intros. zlia. Qed.

Lemma free_chain_agree m m' p fl :
  free_chain m p fl → Forall (λ f, agree m' m f 4) fl → free_chain m' p fl.
Proof.
  revert p. induction fl as [|f fl IH]; cbn; [done|].
  intros p [-> Hc] Hf. apply Forall_cons in Hf as [Hf Hfl]. split; [done|].
  rewrite (ld32_agree m' m f 4 f) by (done || lia). by apply IH.
Qed.

(** A state change that leaves the allocator's statics alone and writes to no
    free frame keeps the allocator well-formed. *)
Lemma alloc_wf_write lo fl s m :
  alloc_wf lo fl s → (∀ f, f ∈ fl → agree m (ram s) f 4) → alloc_wf lo fl (set_ram m s).
Proof.
  intros [] H. split; cbn; try done.
  eapply free_chain_agree; [done|]. apply Forall_forall. intros f Hf.
  by apply H.
Qed.

Lemma allocated_aligned lo fl s p : allocated lo fl s p → p mod 4096 = 0.
Proof. by intros [[? ?] ?]. Qed.

Lemma allocated_range lo fl s p :
  alloc_wf lo fl s → allocated lo fl s p → 0 < p ∧ p + 4096 <= 4294967296.
Proof. intros [] [[? ?] ?]. zlia. Qed.

(** A write inside an allocated frame touches no free frame. *)
Lemma alloc_wf_st32 lo fl s p a v :
  alloc_wf lo fl s → allocated lo fl s p → p <= a → a + 4 <= p + 4096 →
  alloc_wf lo fl (set_ram (st32 (ram s) a v) s).
Proof.
  intros Hwf [[Hp1 Hp2] Hp3] ??. apply alloc_wf_write; [done|]. intros f Hf.
  apply st32_agree. pose proof (wf_free _ _ _ Hwf) as Hfree.
  rewrite Forall_forall in Hfree. destruct (Hfree f Hf) as [Hf1 Hf2].
  destruct (frames_disjoint p f Hp1 Hf1); [set_solver|lia..].
Qed.

(** The effect of a successful allocation, as clients rely on it. *)
Record alloc_post (lo : Z) (fl : list Z) (s : mach) (p : Z) (fl' : list Z) (s' : mach) : Prop :=
AllocPost {
  ap_wf : alloc_wf lo fl' s';
  ap_fresh : ¬ allocated lo fl s p;
  ap_alloc : ∀ q, allocated lo fl' s' q ↔ q = p ∨ allocated lo fl s q;
  ap_zero : ∀ x, p <= x < p + 4096 → ram s' x = 0;
  ap_frame : ∀ b n, p + 4096 <= b ∨ b + n <= p → agree (ram s') (ram s) b n;
  ap_left : frames_left fl' s' = frames_left fl s - 1;
  ap_limit : limit s' = limit s;
  ap_tlb : invlpgs s' = invlpgs s;
}.

(** The two ways [alloc_frame] finds a frame. *)
Lemma alloc_frame_bump lo s :
  alloc_wf lo [] s → avail s ≠ limit s →
  ∃ s', alloc_frame s = Ret (avail s, s') ∧ alloc_post lo [] s (avail s) [] s'.
Proof.
  intros [Hc _ _ Hlo Ha Hl Hb Ht] Hne. cbn in Hc. unfold alloc_frame.
  change FRAME_SIZE with 4096. rewrite Hc. cbn.
  rewrite (proj2 (Z.eqb_neq _ _) Hne). cbn. rewrite offset_mod, Ha. cbn.
  rewrite (u32_small (avail s + 4096)) by (unfold is_u32; zlia).
  eexists. split; [done|].
  split; cbn; try done.
  - split; cbn; try done; try (by constructor); zlia.
  - intros [[? ?] _]. lia.
  - intros q. unfold allocated, frame_in. cbn. pose proof (not_elem_of_nil q).
    split; [intros [[? ?] _]; destruct (decide (q = avail s)); [by left|right]
           | intros [->|[[? ?] _]]]; (split; [zlia|done]).
  - intros x Hx. by apply bzero_zero.
  - intros b n Hbn. by apply bzero_agree.
  - unfold frames_left. cbn. zlia.
Qed.

Lemma alloc_frame_reuse lo f fl s :
  alloc_wf lo (f :: fl) s →
  ∃ s', alloc_frame s = Ret (f, s') ∧ alloc_post lo (f :: fl) s f fl s'.
Proof.
  intros [[Hc1 Hc] Hf Hnd Hlo Ha Hl Hb Ht]. unfold alloc_frame.
  change FRAME_SIZE with 4096.
  apply Forall_cons in Hf as [[Hf1 Hf2] Hf]. apply NoDup_cons in Hnd as [Hnin Hnd].
  rewrite (proj2 (Z.eqb_neq _ _)) by lia. cbn. rewrite offset_mod, Hc1, Hf1. cbn.
  eexists. split; [done|].
  rewrite Forall_forall in Hf. split; cbn; try done.
  - split; cbn; try done; [|by apply Forall_forall].
    eapply free_chain_agree; [done|]. apply Forall_forall. intros q Hq.
    apply bzero_agree; [done|]. destruct (Hf q Hq).
    destruct (frames_disjoint f q); [done..|set_solver|lia|lia].
  - intros [_ Hn]. set_solver.
  - intros q. unfold allocated. cbn. destruct (decide (q = f)) as [->|].
    + split; [by left|done].
    + set_solver.
  - intros x Hx. by apply bzero_zero.
  - intros b n Hbn. by apply bzero_agree.
  - unfold frames_left. cbn [length limit avail set_ram]. lia.
Qed.

(** [alloc_frame] panics exactly when no frame is left. *)
Lemma alloc_frame_cases lo fl s :
  alloc_wf lo fl s →
  (frames_left fl s = 0 ∧ alloc_frame s = Panic "no more frames") ∨
  (∃ p fl' s', alloc_frame s = Ret (p, s') ∧ alloc_post lo fl s p fl' s').
Proof.
  intros Hwf. destruct fl as [|f fl].
  - destruct (decide (avail s = limit s)) as [He|Hne].
    + left. unfold frames_left. rewrite He, Z.sub_diag. split; [done|].
      destruct Hwf as [Hc _ _ _ _ _ _ _].
      cbn in Hc. unfold alloc_frame. by rewrite Hc, He, !Z.eqb_refl.
    + right. destruct (alloc_frame_bump lo s Hwf Hne) as (s' & ? & ?). eauto 10.
  - right. destruct (alloc_frame_reuse lo f fl s Hwf) as (s' & ? & ?). eauto 10.
Qed.

Lemma steady_refl lo s : steady lo s s.
Proof. by split. Qed.

Lemma steady_trans lo s1 s2 s3 : steady lo s1 s2 → steady lo s2 s3 → steady lo s1 s3.
Proof. intros [L1 A1] [L2 A2]. split; [congruence|by eapply agree_trans]. Qed.

(** Writing from [lo] on. *)
Lemma steady_ram lo s m : agree m (ram s) 0 lo → steady lo s (set_ram m s).
Proof. by split. Qed.

Lemma steady_alloc lo fl s p fl' s' : alloc_wf lo fl s → alloc_post lo fl s p fl' s' → steady lo s s' ∧ lo <= p.
Proof.
  intros Hwf Hp. assert (allocated lo fl' s' p) as [[_ [? _]] _] by (apply Hp; by left).
  split; [split; [apply Hp|]|done]. apply (ap_frame _ _ _ _ _ _ Hp). lia.
Qed.

Lemma dealloc_frame_ok lo fl s p :
  alloc_wf lo fl s → allocated lo fl s p →
  ∃ s', dealloc_frame p s = Ret s' ∧ alloc_wf lo (p :: fl) s' ∧
    (∀ q, allocated lo (p :: fl) s' q ↔ q ≠ p ∧ allocated lo fl s q) ∧
    (∀ b n, p + 4 <= b ∨ b + n <= p → agree (ram s') (ram s) b n) ∧
    frames_left (p :: fl) s' = frames_left fl s + 1 ∧ avail s' = avail s ∧ limit s' = limit s ∧ invlpgs s' = invlpgs s.
Proof.
  intros Hwf Hal. pose proof (allocated_range _ _ _ _ Hwf Hal) as Hr.
  destruct Hal as [[Hp1 Hp2] Hp3]. unfold dealloc_frame. rewrite offset_mod, Hp1. cbn.
  destruct Hwf as [Hc Hf Hnd Hlo Ha Hl Hb Ht]. rewrite Forall_forall in Hf.
  eexists. split; [done|]. split; [|split; [|split; [|split; [|done]]]]; cbn.
  - split; cbn; try done.
    + split; [done|]. rewrite ld32_st32_eq, u32_small.
      * eapply free_chain_agree; [done|]. apply Forall_forall. intros q Hq.
        apply st32_agree. destruct (Hf q Hq).
        destruct (frames_disjoint p q); [done..|set_solver|lia|lia].
      * destruct fl as [|f fl]; cbn in Hc; [rewrite Hc; done|].
        destruct Hc as [-> _]. destruct (Hf f); [by left|]. unfold is_u32. lia.
    + apply Forall_cons. split; [done|]. by apply Forall_forall.
    + by constructor.
  - intros q. unfold allocated. cbn. set_solver.
  - intros b n Hbn. apply st32_agree. lia.
  - unfold frames_left. cbn [length limit avail]. lia.
Qed.

(** The client invariant: what is held is exactly what is allocated. *)
Definition client_inv (lo : Z) (c : list Z * mach) : Prop :=
  let '(held, s) := c in
  NoDup held ∧ ∃ fl, alloc_wf lo fl s ∧ ∀ p, p ∈ held ↔ allocated lo fl s p.

Lemma boot_inv lo size s :
  firstFree s = 0 → 0 < lo → lo mod 4096 = 0 → 0 <= size → size mod 4096 = 0 →
  lo + size < 4294967296 →
  ∃ s', init lo size s = Ret s' ∧ client_inv lo ([], s') ∧ limit s' = lo + size.
Proof.
  intros Hf ?????. unfold init.
  rewrite !offset_mod. rewrite H0, H2. cbn.
  rewrite u32_small by (unfold is_u32; lia).
  eexists. split; [done|]. split; [|done]. split; [constructor|]. exists [].
  split.
  - split; cbn; try done; try (by constructor); zlia.
  - intros p. unfold allocated, frame_in. cbn. pose proof (not_elem_of_nil p).
    split; [done|]. intros [[? ?] _]. lia.
Qed.

Lemma frames_step_inv lo c c' : client_inv lo c → client_step c c' → client_inv lo c'.
Proof.
  intros Hinv Hstep. destruct Hstep as [held s p s' Ha|held1 held2 p s s' Hd|held s p a v Hp Hpa];
    destruct Hinv as [Hnd (fl & Hwf & Hheld)].
  - destruct (alloc_frame_cases lo fl s Hwf) as [(?&E)|(q & fl' & s2 & E & [])];
      rewrite E in Ha; [done|]. injection Ha as -> ->.
    split; [apply NoDup_cons; split; [by rewrite Hheld|done]|].
    exists fl'. split; [done|]. intros r. rewrite ap_alloc0, <- Hheld. set_solver.
  - assert (Hal : allocated lo fl s p) by (apply Hheld; set_solver).
    destruct (dealloc_frame_ok lo fl s p Hwf Hal) as (s2 & E & Hwf' & Hq & _).
    rewrite Hd in E. injection E as <-.
    rewrite <- Permutation_middle in Hnd. apply NoDup_cons in Hnd as [Hni Hnd].
    split; [done|]. exists (p :: fl). split; [done|].
    intros q. rewrite Hq, <- Hheld. set_solver.
  - split; [done|]. exists fl. split; [|done]. apply alloc_wf_write; [done|].
    intros f Hf x Hx. unfold st8. destruct (Z.eqb_spec x a) as [->|]; [|done].
    apply Hheld in Hp as [[Hp1 Hp2] Hp3]. pose proof (wf_free _ _ _ Hwf) as Hfree.
    rewrite Forall_forall in Hfree. destruct (Hfree f Hf) as [Hf1 Hf2].
    destruct (frames_disjoint p f Hp1 Hf1); [set_solver|lia..].
Qed.

Lemma client_reach_inv lo c c' : client_inv lo c → star client_step c c' → client_inv lo c'.
Proof. intros H Hs. by eapply star_invariant; [exact H|intros; eapply frames_step_inv|exact Hs]. Qed.

Lemma client_step_limit c c' : client_step c c' → limit (snd c') = limit (snd c).
Proof.
  intros [held s p s' Ha|held1 held2 p s s' Hd|held s p a v Hp Hpa]; cbn; [..|done].
  - unfold alloc_frame in Ha. destruct (firstFree s =? 0); cbn in Ha.
    + destruct (avail s =? limit s); cbn in Ha; [done|].
      destruct (offset (avail s) =? 0); cbn in Ha; [|done]. by injection Ha as <- <-.
    + destruct (offset (firstFree s) =? 0); cbn in Ha; [|done]. by injection Ha as <- <-.
  - unfold dealloc_frame in Hd. destruct (offset p =? 0); cbn in Hd; [|done]. by injection Hd as <-.
Qed.

Lemma client_reach_limit c c' : star client_step c c' → limit (snd c') = limit (snd c).
Proof. induction 1 as [|a b d _ IH H]; [done|]. by rewrite (client_step_limit _ _ H). Qed.

Lemma frames_upto_length lo hi : length (frames_upto lo hi) = Z.to_nat ((hi - lo) / 4096).
Proof. unfold frames_upto. by rewrite length_fmap, length_seq. Qed.

Lemma frames_upto_spec lo hi p :
  lo mod 4096 = 0 → hi mod 4096 = 0 → lo <= hi →
  p ∈ frames_upto lo hi ↔ frame_in lo hi p.
Proof.
  intros ???. unfold frames_upto, frame_in. rewrite list_elem_of_fmap. split.
  - intros (i & -> & Hi). apply elem_of_seq in Hi. zlia.
  - intros [??]. exists (Z.to_nat ((p - lo) / 4096)). rewrite elem_of_seq. zlia.
Qed.

Lemma frames_upto_NoDup lo hi : NoDup (frames_upto lo hi).
Proof.
  unfold frames_upto. apply NoDup_fmap; [intros x y; lia|]. apply NoDup_seq.
Qed.

(** Held and free frames together are all the frames carved out so far. *)
Lemma client_inv_count lo held s fl :
  NoDup held → alloc_wf lo fl s → (∀ p, p ∈ held ↔ allocated lo fl s p) →
  (length held + length fl)%nat = Z.to_nat ((avail s - lo) / 4096).
Proof.
  intros Hnd Hwf Hheld. rewrite <- frames_upto_length, <- length_app.
  apply Permutation_length, NoDup_Permutation.
  - apply NoDup_app. split; [done|]. split; [|by destruct Hwf].
    intros p Hp. by apply Hheld in Hp as [_ ?].
  - apply frames_upto_NoDup.
  - intros p. destruct Hwf as [_ Hf _ Hlo Ha _ Hb _]. rewrite Forall_forall in Hf.
    rewrite frames_upto_spec by (destruct Hlo; done || lia).
    rewrite elem_of_app, Hheld. unfold allocated.
    destruct (decide (p ∈ fl)); [|tauto]. split; [|tauto]. intros _. by apply Hf.
Qed.

(** ** Properties *)

(** C3 (safety): starting from [init], whatever sequence of allocations, frees
    of held frames and writes into held frames a client performs, the frames it
    holds are pairwise distinct, page aligned and inside the initialised range;
    in particular the allocator never hands out a frame that is still held. *)
Theorem frames_exclusive (start size : Z) (s0 s1 s : mach) (held : list Z)
    (Hzero : firstFree s0 = 0) (Hstart : 0 < start ∧ start mod 4096 = 0)
    (Hsize : 0 <= size ∧ size mod 4096 = 0) (Htop : start + size < 4294967296)
    (Hinit : init start size s0 = Ret s1) (Hrun : star client_step ([], s1) (held, s)) :
  NoDup held ∧ Forall (frame_in start (start + size)) held ∧
  ∀ p s', alloc_frame s = Ret (p, s') → p ∉ held.
Proof.
  destruct (boot_inv start size s0) as (s2 & E & Hinv & Hlim); [tauto..|].
  rewrite Hinit in E. injection E as <-.
  pose proof (client_reach_inv _ _ _ Hinv Hrun) as [Hnd (fl & Hwf & Hheld)].
  apply client_reach_limit in Hrun. cbn in Hrun. rewrite Hlim in Hrun.
  split; [done|]. split.
  - apply Forall_forall. intros p [[? ?] _]%Hheld. destruct Hwf. split; [done|]. lia.
  - intros p s' Ha Hp. destruct (alloc_frame_cases _ _ _ Hwf) as [(?&E)|(q&fl'&s2&E&[])];
      rewrite E in Ha; [done|]. injection Ha as -> ->. by apply ap_fresh0, Hheld.
Qed.

(** C4 (error): no frame is ever lost: in a state reached by such a client,
    [alloc_frame] panics with "no more frames" if and only if the client holds
    every frame of the initialised range. *)
Theorem alloc_panics_iff_exhausted (start size : Z) (s0 s1 s : mach) (held : list Z)
    (Hzero : firstFree s0 = 0) (Hstart : 0 < start ∧ start mod 4096 = 0)
    (Hsize : 0 <= size ∧ size mod 4096 = 0) (Htop : start + size < 4294967296)
    (Hinit : init start size s0 = Ret s1) (Hrun : star client_step ([], s1) (held, s)) :
  alloc_frame s = Panic "no more frames" ↔ Z.of_nat (length held) = size / 4096.
Proof.
  destruct (boot_inv start size s0) as (s2 & E & Hinv & Hlim); [tauto..|].
  rewrite Hinit in E. injection E as <-.
  pose proof (client_reach_inv _ _ _ Hinv Hrun) as [Hnd (fl & Hwf & Hheld)].
  apply client_reach_limit in Hrun. cbn in Hrun. rewrite Hlim in Hrun.
  pose proof (client_inv_count _ _ _ _ Hnd Hwf Hheld) as Hcount.
  pose proof (wf_bounds _ _ _ Hwf). pose proof (wf_avail _ _ _ Hwf).
  destruct (alloc_frame_cases _ _ _ Hwf) as [(Ha & E)|(q&fl'&s2&E&[])]; rewrite E.
  - split; [intros _|done]. unfold frames_left in Ha. zlia.
  - split; [done|]. intros Hlen. exfalso. unfold frames_left in ap_left0.
    pose proof (wf_bounds _ _ _ ap_wf0). pose proof (wf_avail _ _ _ ap_wf0). zlia.
Qed.

(** A concrete run: two frames handed out, the first freed and reused. *)
Definition demo_mach : mach := Mach (λ _, 255) 0 0 0 [].

Definition demo0 : mach := run demo_mach (init 6291456 8192 demo_mach).
Definition demo1 : mach := snd (run (0, demo_mach) (alloc_frame demo0)).
Definition demo2 : mach := snd (run (0, demo_mach) (alloc_frame demo1)).
Definition demo3 : mach := run demo_mach (dealloc_frame 6291456 demo2).
Definition demo4 : mach := snd (run (0, demo_mach) (alloc_frame demo3)).

Lemma demo_run2 : star client_step ([], demo0) ([6295552; 6291456], demo2).
Proof.
  eapply star_step; [eapply star_one; by apply (client_alloc [] demo0 6291456 demo1)|].
  by apply (client_alloc [6291456] demo1 6295552 demo2).
Qed.

Lemma demo_run4 : star client_step ([], demo0) ([6291456; 6295552], demo4).
Proof.
  eapply star_step; [eapply star_step; [apply demo_run2|] |].
  - by apply (client_free [6295552] [] 6291456 demo2 demo3).
  - by apply (client_alloc [6295552] demo3 6291456 demo4).
Qed.

Lemma frames_exclusive_witness :
  NoDup [6291456; 6295552] ∧
  Forall (frame_in 6291456 (6291456 + 8192)) [6291456; 6295552] ∧
  ∀ p s', alloc_frame demo4 = Ret (p, s') → p ∉ [6291456; 6295552].
Proof.
  apply (frames_exclusive 6291456 8192 demo_mach demo0);
    [reflexivity|split; [lia|reflexivity]|split; [lia|reflexivity]|lia|reflexivity
    |apply demo_run4].
Defined.

Lemma alloc_panics_iff_exhausted_witness :
  alloc_frame demo4 = Panic "no more frames" ↔ Z.of_nat (length [6291456; 6295552]) = 8192 / 4096.
Proof.
  apply (alloc_panics_iff_exhausted 6291456 8192 demo_mach demo0);
    [reflexivity|split; [lia|reflexivity]|split; [lia|reflexivity]|lia|reflexivity
    |apply demo_run4].
Defined.
