(* ===== verification/Config.v ===== *)
(** * Machine configuration: src/kernel/config.h, config.cc *)

From S2P Require Import Prelude Mem.
Local Open Scope Z_scope.

Record ApicInfo := MkApicInfo {
  processorId : Z;
  apicId : Z;
  apicFlags : Z;
}.

Definition MAX_PROCS : Z := 16.

Record Config := MkConfig {
  memSize : Z;
  nOtherProcs : Z;
  totalProcs : Z;
  localAPIC : Z;
  madtFlags : Z;
  ioAPIC : Z;
  apicInfo : list ApicInfo;
  oemid : list Z;
}.
