(* ===== verification/Paging.v ===== *)
(** * Page tables: namespace gheith and VMM::global_init of src/kernel/vmm.cc

    Page directories and page tables live in frames of the physical memory and
    are read and written with 32-bit accesses, exactly as in the C++ code.  The
    kernel runs identity mapped, so a page-table pointer is a physical address.
    [walk] is the processor's two-level translation. *)

From S2P Require Import Prelude Mem Config PhysMem.
Local Open Scope Z_scope.

(** ** Translation done by the processor *)

Definition pdi_of (va : Z) : Z := Z.shiftr va 22.
Definition pti_of (va : Z) : Z := Z.land (Z.shiftr va 12) 0x3FF.

(** [table[i]] for a [uint32_t* table]. *)
Definition entry (m : mem) (table i : Z) : Z := ld32 m (table + 4 * i).

Definition absent (e : Z) : bool := Z.land e 1 =? 0.

Definition base (e : Z) : Z := Z.land e 0xFFFFF000.

Definition walk (m : mem) (pd va : Z) : option Z :=
  let pde := entry m pd (pdi_of va) in
  if absent pde then None else
  let pte := entry m (base pde) (pti_of va) in
  if absent pte then None else Some pte.

Definition set_entry (table i v : Z) (s : mach) : mach :=
  set_ram (st32 (ram s) (table + 4 * i) v) s.

Definition invlpg (va : Z) (s : mach) : mach :=
  Mach (ram s) (firstFree s) (avail s) (limit s) (va :: invlpgs s).

(** ** The code *)

(** The common body of [map] (flags 3) and [user_map] (flags 7). *)
Definition map_flags (flags : Z) (pd va pa : Z) (s : mach) : outcome mach :=
  let pdi := pdi_of va in
  let pti := pti_of va in
  let pde := entry (ram s) pd pdi in
  '(pde, s) ← (if absent pde then
                 '(f, s) ← alloc_frame s;
                 let pde := Z.lor f 7 in
                 Ret (pde, set_entry pd pdi pde s)
               else Ret (pde, s));
  let pt := base pde in
  Ret (set_entry pt pti (Z.lor pa flags) s).

Definition map : Z → Z → Z → mach → outcome mach := map_flags 3.

Definition user_map : Z → Z → Z → mach → outcome mach := map_flags 7.

Definition unmap (pd va : Z) (physical : bool) (s : mach) : outcome mach :=
  let pdi := pdi_of va in
  let pti := pti_of va in
  let pde := entry (ram s) pd pdi in
  if absent pde then Ret s else
  let pt := base (entry (ram s) pd pdi) in
  let pte := entry (ram s) pt pti in
  if absent pte then Ret s else
  let pa := base pte in
  let s := set_entry pt pti 0 s in
  s ← (if physical then dealloc_frame pa s else Ret s);
  Ret (invlpg va s).

Section WithConfig.
Context (kConfig : Config).

Definition is_special (va : Z) : bool :=
  (va <? 0x80000000) || (va =? ioAPIC kConfig) || (va =? localAPIC kConfig).

(** Returns the new page directory. *)
Definition make_pd (shared : Z) (s : mach) : outcome (Z * mach) :=
  '(pd, s) ← alloc_frame s;
  let m4 := 4 * 1024 * 1024 in
  let shared_size := 4 * (u32 (memSize kConfig + m4 - 1) / m4) in
  let s := set_ram (memcpy (ram s) pd shared shared_size) s in
  s ← map pd (ioAPIC kConfig) (ioAPIC kConfig) s;
  s ← map pd (localAPIC kConfig) (localAPIC kConfig) s;
  Ret (pd, s).

Definition va_of (pdi pti : Z) : Z := Z.lor (Z.shiftl pdi 22) (Z.shiftl pti 12).

(** One iteration of the inner loop of [delete_private]. *)
Definition delete_private_pte (pdi pt pti : Z) (st : bool * mach) : outcome (bool * mach) :=
  let '(contains_special, s) := st in
  let va := va_of pdi pti in
  if is_special va then Ret (true, s) else
  let pte := entry (ram s) pt pti in
  if absent pte then Ret (contains_special, s) else
  let s := set_entry pt pti 0 s in
  s ← dealloc_frame (base pte) s;
  Ret (contains_special, invlpg va s).

Definition delete_private_pde (pd pdi : Z) (s : mach) : outcome mach :=
  let pde := entry (ram s) pd pdi in
  if absent pde then Ret s else
  let pt := base pde in
  '(contains_special, s) ← for_range 0 1024 (delete_private_pte pdi pt) (false, s);
  if negb contains_special then
    dealloc_frame pt (set_entry pd pdi 0 s)
  else Ret s.

Definition delete_private (cr3 pd : Z) (s : mach) : outcome mach :=
  _ ← ASSERT (pd =? cr3) "uint32_t(pd) == getCR3()";
  for_range 512 512 (delete_private_pde pd) s.

Definition delete_pd_pte (pdi pt pti : Z) (s : mach) : outcome mach :=
  let va := va_of pdi pti in
  let pte := entry (ram s) pt pti in
  if absent pte then Ret s else
  let frame := base pte in
  if negb (is_special va) then dealloc_frame frame s else Ret s.

Definition delete_pd_pde (pd pdi : Z) (s : mach) : outcome mach :=
  let pde := entry (ram s) pd pdi in
  if absent pde then Ret s else
  let pt := base pde in
  s ← for_range 0 1024 (delete_pd_pte pdi pt) s;
  dealloc_frame pt s.

Definition delete_pd (cr3 pd : Z) (s : mach) : outcome mach :=
  _ ← ASSERT (negb (pd =? cr3)) "uint32_t(pd) != getCR3()";
  s ← for_range 512 512 (delete_pd_pde pd) s;
  dealloc_frame pd s.

(** [VMM::global_init]: the kernel's identity mapping.  Page 0 is left out. *)
Definition global_init (fuel : nat) (s : mach) : outcome (Z * mach) :=
  '(shared, s) ← alloc_frame s;
  '(_, s) ← while_loop fuel
              (λ '(va, _), va <? memSize kConfig)
              (λ '(va, s), s ← map shared va va s; Ret (u32 (va + FRAME_SIZE), s))
              (FRAME_SIZE, s);
  Ret (shared, s).

End WithConfig.

(** ** Well-formed address spaces

    [A] says which frames are allocated.  The directory and its page tables are
    allocated frames, pairwise distinct. *)

Record as_wf (A : Z → Prop) (m : mem) (pd : Z) : Prop := AsWf {
  as_pd : A pd;
  as_table i : 0 <= i < 1024 → absent (entry m pd i) = false →
    A (base (entry m pd i)) ∧ base (entry m pd i) ≠ pd;
  as_inj i j : 0 <= i < 1024 → 0 <= j < 1024 → i ≠ j →
    absent (entry m pd i) = false → absent (entry m pd j) = false →
    base (entry m pd i) ≠ base (entry m pd j);
}.

(** What mapping a page promises to its callers. *)
Record map_post (lo : Z) (fl : list Z) (s : mach) (pd va e : Z) (fl' : list Z) (s' : mach)
  : Prop := MapPost {
  mp_wf : alloc_wf lo fl' s';
  mp_as : as_wf (allocated lo fl' s') (ram s') pd;
  mp_walk : walk (ram s') pd va = Some e;
  mp_other va' : is_u32 va' → va' / 4096 ≠ va / 4096 → walk (ram s') pd va' = walk (ram s) pd va';
  mp_mono q : allocated lo fl s q → allocated lo fl' s' q;
  mp_frame q : allocated lo fl s q → q ≠ pd → q ≠ base (entry (ram s') pd (pdi_of va)) →
    same_frame s s' q;
  mp_pde i : 0 <= i < 1024 → i ≠ pdi_of va → entry (ram s') pd i = entry (ram s) pd i;
  mp_table : absent (entry (ram s) pd (pdi_of va)) = false →
    entry (ram s') pd (pdi_of va) = entry (ram s) pd (pdi_of va);
  mp_left : frames_left fl' s' =
    frames_left fl s - (if absent (entry (ram s) pd (pdi_of va)) then 1 else 0);
  mp_steady : steady lo s s';
  mp_tlb : invlpgs s' = invlpgs s;
  mp_fresh : absent (entry (ram s) pd (pdi_of va)) = true →
    ¬ allocated lo fl s (base (entry (ram s') pd (pdi_of va)));
  mp_only q : allocated lo fl' s' q →
    allocated lo fl s q ∨ q = base (entry (ram s') pd (pdi_of va));
}.

(** ** Lemmas *)

Lemma pdi_range va : is_u32 va → 0 <= pdi_of va < 1024.
Proof.
  unfold is_u32, pdi_of. intros. rewrite Z.shiftr_div_pow2 by lia. change (2 ^ 22) with 4194304. zlia.
Qed.

Lemma pti_range va : 0 <= pti_of va < 1024.
Proof. unfold pti_of. rewrite land_3ff. zlia. Qed.

(** The page number determines both indices, and conversely. *)
Lemma page_index va : pti_of va = (va / 4096) mod 1024 ∧ pdi_of va = va / 4096 / 1024.
Proof.
  unfold pti_of, pdi_of. rewrite land_3ff, !Z.shiftr_div_pow2 by lia.
  change (2 ^ 12) with 4096. change (2 ^ 22) with 4194304.
  split; [done|]. by rewrite Z.div_div by lia.
Qed.

Lemma same_page va va' : pdi_of va = pdi_of va' → pti_of va = pti_of va' → va / 4096 = va' / 4096.
Proof.
  destruct (page_index va) as [-> ->], (page_index va') as [-> ->]. intros. zlia.
Qed.

Lemma walk_page m pd va va' : va / 4096 = va' / 4096 → walk m pd va = walk m pd va'.
Proof.
  intros E. destruct (page_index va) as [E1 E2], (page_index va') as [E3 E4].
  unfold walk. by rewrite E1, E2, E3, E4, E.
Qed.

Lemma base_eq e : is_u32 e → base e = 4096 * (e / 4096).
Proof. apply land_page. Qed.

Lemma base_flags p f : is_u32 p → p mod 4096 = 0 → 0 <= f < 4096 → base (Z.lor p f) = p.
Proof.
  intros Hp Ha Hf. rewrite lor_flags by done. unfold is_u32 in *.
  rewrite base_eq by (unfold is_u32; zlia). zlia.
Qed.

Lemma absent_odd e : absent e = (e mod 2 =? 0).
Proof. unfold absent. by rewrite land_1. Qed.

Lemma absent_flags p f : p mod 4096 = 0 → 0 <= f < 4096 → absent (Z.lor p f) = (f mod 2 =? 0).
Proof. intros. rewrite lor_flags, absent_odd by done. f_equal. zlia. Qed.

Lemma flags_u32 p f : is_u32 p → p mod 4096 = 0 → 0 <= f < 4096 → u32 (Z.lor p f) = Z.lor p f.
Proof. intros. rewrite lor_flags by done. apply u32_small. unfold is_u32 in *. zlia. Qed.

Lemma entry_range m t i : is_u32 (entry m t i).
Proof. apply ld32_range. Qed.

Lemma base_aligned m t i : base (entry m t i) mod 4096 = 0.
Proof. rewrite base_eq by apply entry_range. zlia. Qed.

Lemma entry_agree m m' t i : agree m' m t 4096 → 0 <= i < 1024 → entry m' t i = entry m t i.
Proof. intros H ?. unfold entry. by apply (ld32_agree _ _ t 4096); [done|lia..]. Qed.

Lemma entry_set_eq s t i v : entry (ram (set_entry t i v s)) t i = u32 v.
Proof. unfold entry, set_entry. cbn. apply ld32_st32_eq. Qed.

Lemma entry_set_ne s t i j v : i ≠ j → entry (ram (set_entry t i v s)) t j = entry (ram s) t j.
Proof. intros. unfold entry, set_entry. cbn. apply ld32_st32_ne. lia. Qed.

Lemma set_entry_agree s t i v q :
  t mod 4096 = 0 → q mod 4096 = 0 → q ≠ t → 0 <= i < 1024 →
  agree (ram (set_entry t i v s)) (ram s) q 4096.
Proof.
  intros. cbn. apply st32_agree. destruct (frames_disjoint q t); [done..|lia|lia].
Qed.

Lemma allocated_set_entry lo fl s t i v q :
  allocated lo fl (set_entry t i v s) q ↔ allocated lo fl s q.
Proof. done. Qed.

Lemma alloc_wf_set_entry lo fl s t i v :
  alloc_wf lo fl s → allocated lo fl s t → 0 <= i < 1024 →
  alloc_wf lo fl (set_entry t i v s).
Proof. intros. by apply (alloc_wf_st32 _ _ _ t); [done..|lia|lia]. Qed.

Lemma as_wf_agree (A A' : Z → Prop) m m' pd :
  (∀ q, A q → A' q) → agree m' m pd 4096 → as_wf A m pd → as_wf A' m' pd.
Proof.
  intros HA Hm [Hpd Ht Hi]. split; [auto|..].
  - intros i Hr. rewrite (entry_agree m m') by done. intros Ha.
    destruct (Ht i Hr Ha). auto.
  - intros i j ??. rewrite !(entry_agree m m') by done. by apply Hi.
Qed.

Lemma walk_agree m m' pd va :
  is_u32 va → agree m' m pd 4096 →
  (absent (entry m pd (pdi_of va)) = false → agree m' m (base (entry m pd (pdi_of va))) 4096) →
  walk m' pd va = walk m pd va.
Proof.
  intros Hva Hpd Hpt. unfold walk. rewrite (entry_agree m m') by (done || by apply pdi_range).
  destruct (absent (entry m pd (pdi_of va))) eqn:E; [done|].
  rewrite (entry_agree m m') by (auto || apply pti_range). done.
Qed.

(** Writing an entry of an existing table of the address space. *)
Lemma set_pte_walk lo fl s pd va v :
  as_wf (allocated lo fl s) (ram s) pd → is_u32 va →
  absent (entry (ram s) pd (pdi_of va)) = false →
  let pt := base (entry (ram s) pd (pdi_of va)) in
  let s' := set_entry pt (pti_of va) v s in
  agree (ram s') (ram s) pd 4096 ∧
  as_wf (allocated lo fl s') (ram s') pd ∧
  walk (ram s') pd va = (if absent (u32 v) then None else Some (u32 v)) ∧
  (∀ va', is_u32 va' → va' / 4096 ≠ va / 4096 → walk (ram s') pd va' = walk (ram s) pd va').
Proof.
  intros Has Hva Hp pt s'. pose proof (pdi_range va Hva) as Hi.
  destruct (as_table _ _ _ Has _ Hi Hp) as [Hal Hne].
  assert (Hpd : agree (ram s') (ram s) pd 4096).
  { apply set_entry_agree; [by eapply allocated_aligned|..|apply pti_range];
      [eapply allocated_aligned, as_pd; exact Has|done]. }
  split; [done|]. split; [by eapply as_wf_agree; [|exact Hpd|exact Has]|].
  split.
  - unfold walk. rewrite (entry_agree (ram s) (ram s')) by done. rewrite Hp.
    fold pt. unfold s'. by rewrite entry_set_eq.
  - intros va' Hva' Hpg. pose proof (pdi_range va' Hva') as Hi'.
    destruct (decide (pdi_of va' = pdi_of va)) as [E|E].
    + unfold walk. rewrite (entry_agree (ram s) (ram s')) by done. rewrite E, Hp. fold pt.
      unfold s'. rewrite entry_set_ne; [done|]. intros E'. by apply Hpg, same_page.
    + apply walk_agree; [done..|]. intros Hp'. apply set_entry_agree.
      * by eapply allocated_aligned.
      * apply base_aligned.
      * intros Heq. by apply (as_inj _ _ _ Has _ _ Hi' Hi E Hp' Hp).
      * apply pti_range.
Qed.

(** A fresh, zeroed page table installed in an empty directory slot: the
    translation of every address is what it was. *)
Lemma install_table lo fl s pd i f fl' s1 :
  alloc_wf lo fl s → as_wf (allocated lo fl s) (ram s) pd → 0 <= i < 1024 →
  absent (entry (ram s) pd i) = true → alloc_post lo fl s f fl' s1 →
  let s2 := set_entry pd i (Z.lor f 7) s1 in
  alloc_wf lo fl' s2 ∧ as_wf (allocated lo fl' s2) (ram s2) pd ∧
  entry (ram s2) pd i = Z.lor f 7 ∧ base (entry (ram s2) pd i) = f ∧
  absent (entry (ram s2) pd i) = false ∧
  (∀ j, j ≠ i → 0 <= j < 1024 → entry (ram s2) pd j = entry (ram s) pd j) ∧
  (∀ q, allocated lo fl s q → q ≠ pd → same_frame s s2 q) ∧
  (∀ va, is_u32 va → walk (ram s2) pd va = walk (ram s) pd va).
Proof.
  intros Hwf Has Hi Habs [Hwf1 Hfresh Hal Hz Hfr Hlim Htlb] s2.
  assert (Hf : allocated lo fl' s1 f) by (apply Hal; by left).
  assert (Hpd0 : allocated lo fl s pd) by apply Has.
  assert (Hpd : allocated lo fl' s1 pd) by (apply Hal; by right).
  assert (Hfpd : f ≠ pd) by (intros ->; done).
  pose proof (allocated_aligned _ _ _ _ Hf) as Hfa.
  pose proof (allocated_aligned _ _ _ _ Hpd) as Hpa.
  pose proof (allocated_range _ _ _ _ Hwf1 Hf) as Hfrng.
  assert (Hother : ∀ q, allocated lo fl s q → agree (ram s1) (ram s) q 4096).
  { intros q Hq. apply Hfr. assert (q ≠ f) by (intros ->; done).
    pose proof (allocated_aligned _ _ _ _ Hq). destruct (frames_disjoint f q); [done..|lia|lia]. }
  assert (Hei : entry (ram s2) pd i = Z.lor f 7).
  { unfold s2. rewrite entry_set_eq. apply flags_u32; [unfold is_u32; lia|done|lia]. }
  assert (Hbi : base (entry (ram s2) pd i) = f).
  { rewrite Hei. apply base_flags; [unfold is_u32; lia|done|lia]. }
  assert (Hai : absent (entry (ram s2) pd i) = false).
  { rewrite Hei. by rewrite absent_flags by (done || lia). }
  assert (Hej : ∀ j, j ≠ i → 0 <= j < 1024 → entry (ram s2) pd j = entry (ram s) pd j).
  { intros j Hj Hjr. unfold s2. rewrite entry_set_ne by done. apply entry_agree; [by apply Hother|done]. }
  assert (Hsame : ∀ q, allocated lo fl s q → q ≠ pd → same_frame s s2 q).
  { intros q Hq Hqpd. eapply agree_trans; [|by apply Hother]. apply set_entry_agree; [done|..|done|done].
    by eapply allocated_aligned. }
  split; [by apply alloc_wf_set_entry|]. split; [|split; [done|split; [done|split; [done|split; [done|split; [done|]]]]]].
  - split; [by apply allocated_set_entry|..].
    + intros j Hj. destruct (decide (j = i)) as [->|Hji]; [intros _; by rewrite Hbi|].
      rewrite Hej by done. intros Ha. destruct (as_table _ _ _ Has j Hj Ha).
      split; [|done]. apply allocated_set_entry, Hal. by right.
    + intros j k Hj Hk Hjk Haj Hak.
      destruct (decide (j = i)) as [->|Hji]; [|destruct (decide (k = i)) as [->|Hki]].
      * rewrite Hbi. rewrite (Hej k) in * by done. intros E. apply Hfresh. rewrite E.
        by apply (as_table _ _ _ Has).
      * rewrite Hbi. rewrite (Hej j) in * by done. intros E. apply Hfresh. rewrite <- E.
        by apply (as_table _ _ _ Has).
      * rewrite (Hej j), (Hej k) in * by done. by apply (as_inj _ _ _ Has).
  - intros va Hva. pose proof (pdi_range va Hva). destruct (decide (pdi_of va = i)) as [E|Hne].
    + unfold walk. rewrite E, Habs, Hai, Hbi.
      rewrite (entry_agree (ram s1) (ram s2)); [|apply set_entry_agree; done|apply pti_range].
      pose proof (pti_range va).
      assert (E0 : ld32 (ram s1) (f + 4 * pti_of va) = 0).
      { unfold ld32, ld8. rewrite !Hz by lia. done. }
      unfold entry. by rewrite E0.
    + unfold walk. rewrite Hej by done. destruct (absent (entry (ram s) pd (pdi_of va))) eqn:E; [done|].
      destruct (as_table _ _ _ Has _ H E).
      rewrite (entry_agree (ram s) (ram s2)); [done|by apply Hsame|apply pti_range].
Qed.

Lemma steady_entry lo t i v s s' :
  lo <= t → 0 <= i → steady lo s s' → steady lo s (set_entry t i v s').
Proof.
  intros Ht Hi Hs. eapply steady_trans; [exact Hs|]. apply steady_ram, st32_agree. lia.
Qed.

(** Mapping a page of an address space, for [map] and [user_map] alike. *)
Lemma map_flags_ok lo fl flags s pd va pa :
  alloc_wf lo fl s → as_wf (allocated lo fl s) (ram s) pd → is_u32 va →
  is_u32 pa → pa mod 4096 = 0 → flags = 3 ∨ flags = 7 →
  (absent (entry (ram s) pd (pdi_of va)) = true ∧ frames_left fl s = 0 ∧
   map_flags flags pd va pa s = Panic "no more frames") ∨
  (∃ fl' s', map_flags flags pd va pa s = Ret s' ∧
             map_post lo fl s pd va (Z.lor pa flags) fl' s').
Proof.
  intros Hwf Has Hva Hpa Hal Hfl. pose proof (pdi_range va Hva) as Hi.
  assert (Hev : u32 (Z.lor pa flags) = Z.lor pa flags) by (apply flags_u32; [done..|lia]).
  assert (Hab : absent (Z.lor pa flags) = false).
  { rewrite absent_flags by (done || lia). by destruct Hfl as [-> | ->]. }
  unfold map_flags. destruct (absent (entry (ram s) pd (pdi_of va))) eqn:Habs; cbn.
  - destruct (alloc_frame_cases lo fl s Hwf) as [(?&E)|(f & fl' & s1 & E & Hpost)]; rewrite E; cbn.
    { by left. }
    right. pose proof (install_table _ _ _ _ _ _ _ _ Hwf Has Hi Habs Hpost)
      as (Hwf2 & Has2 & He2 & Hb2 & Ha2 & Hej & Hsame & Hwalk).
    set (s2 := set_entry pd (pdi_of va) (Z.lor f 7) s1) in *.
    pose proof (set_pte_walk lo fl' s2 pd va (Z.lor pa flags) Has2 Hva Ha2)
      as (Hpd3 & Has3 & Hw3 & Ho3). rewrite Hev, Hab, Hb2 in *.
    rewrite He2 in Hb2. rewrite Hb2 in *.
    eexists fl', _. split; [done|]. split; try done.
    + apply alloc_wf_set_entry; [done| |apply pti_range]. apply (ap_alloc _ _ _ _ _ _ Hpost). by left.
    + intros va' Hva' Hpg. rewrite Ho3 by done. by apply Hwalk.
    + intros q Hq. apply (ap_alloc _ _ _ _ _ _ Hpost). by right.
    + intros q Hq Hqpd Hqt. rewrite (entry_agree (ram s2)), He2, Hb2 in Hqt by done.
      eapply agree_trans; [|by apply Hsame]. apply set_entry_agree; [..|done|apply pti_range].
      * by apply (allocated_aligned lo fl' s1), (ap_alloc _ _ _ _ _ _ Hpost); left.
      * by eapply allocated_aligned.
    + intros i Hir Hine. rewrite (entry_agree (ram s2)) by done. by apply Hej.
    + by rewrite Habs.
    + rewrite Habs. apply Hpost.
    + destruct (steady_alloc _ _ _ _ _ _ Hwf Hpost) as [Hst Hge].
      apply steady_entry; [done|apply pti_range|]. apply steady_entry; [|lia|done].
      by destruct (as_pd _ _ _ Has) as [[_ [? _]] _].
    + apply Hpost.
    + intros _. rewrite (entry_agree (ram s2)), He2, Hb2 by done. apply Hpost.
    + intros q Hq. rewrite (entry_agree (ram s2)), He2, Hb2 by done.
      apply (ap_alloc _ _ _ _ _ _ Hpost) in Hq as [Hq|Hq]; [by right|by left].
  - right. pose proof (set_pte_walk lo fl s pd va (Z.lor pa flags) Has Hva Habs)
      as (Hpd3 & Has3 & Hw3 & Ho3). rewrite Hev, Hab in *.
    destruct (as_table _ _ _ Has _ Hi Habs) as [Hta Htne].
    eexists fl, _. split; [done|]. split; try done.
    + by apply alloc_wf_set_entry; [..|apply pti_range].
    + intros q Hq Hqpd Hqt. rewrite (entry_agree (ram s)) in Hqt by done.
      apply set_entry_agree; [by eapply allocated_aligned..|done|apply pti_range].
    + intros i Hir Hine. by rewrite (entry_agree (ram s)) by done.
    + intros _. by rewrite (entry_agree (ram s)) by done.
    + rewrite Habs. unfold frames_left. cbn. lia.
    + apply steady_entry; [by destruct Hta as [[_ [? _]] _]|apply pti_range|apply steady_refl].
    + by rewrite Habs.
    + intros q Hq. by left.
Qed.

(** Returning a frame that the address space does not use for its tables. *)
Lemma dealloc_space lo fl s pd p :
  alloc_wf lo fl s → as_wf (allocated lo fl s) (ram s) pd → allocated lo fl s p → p ≠ pd →
  (∀ i, 0 <= i < 1024 → absent (entry (ram s) pd i) = false → base (entry (ram s) pd i) ≠ p) →
  ∃ s', dealloc_frame p s = Ret s' ∧ alloc_wf lo (p :: fl) s' ∧
    as_wf (allocated lo (p :: fl) s') (ram s') pd ∧
    (∀ va, is_u32 va → walk (ram s') pd va = walk (ram s) pd va) ∧
    (∀ q, allocated lo (p :: fl) s' q ↔ q ≠ p ∧ allocated lo fl s q) ∧
    (∀ q, allocated lo fl s q → q ≠ p → same_frame s s' q) ∧
    invlpgs s' = invlpgs s ∧ frames_left (p :: fl) s' = frames_left fl s + 1 ∧
    avail s' = avail s ∧ limit s' = limit s.
Proof.
  intros Hwf Has Hp Hne Hnt.
  destruct (dealloc_frame_ok _ _ _ _ Hwf Hp) as (s' & E & Hwf' & Hal & Hag & Hleft & Hav & Hli & Htlb).
  assert (Hsame : ∀ q, q mod 4096 = 0 → q ≠ p → same_frame s s' q).
  { intros q Hq Hqp. apply Hag. pose proof (allocated_aligned _ _ _ _ Hp).
    destruct (frames_disjoint p q); [done..|lia|lia]. }
  pose proof (allocated_aligned _ _ _ _ (as_pd _ _ _ Has)) as Hpda.
  assert (Hent : ∀ i, 0 <= i < 1024 → entry (ram s') pd i = entry (ram s) pd i).
  { intros i Hi. apply entry_agree; [by apply Hsame|done]. }
  exists s'. split; [done|]. split; [done|]. split; [|split; [|split; [done|split; [|done]]]].
  - split.
    + apply Hal. split; [done|]. apply Has.
    + intros i Hi. rewrite Hent by done. intros Ha. destruct (as_table _ _ _ Has i Hi Ha).
      split; [|done]. apply Hal. auto.
    + intros i j Hi Hj. rewrite !Hent by done. by apply Has.
  - intros va Hva. apply walk_agree; [done|by apply Hsame|]. intros Ha.
    apply Hsame; [apply base_aligned|]. apply Hnt; [by apply pdi_range|done].
  - intros q Hq. apply Hsame. by eapply allocated_aligned.
Qed.

(** [unmap] on a mapped page. *)
Lemma unmap_mapped lo fl s pd va e physical :
  alloc_wf lo fl s → as_wf (allocated lo fl s) (ram s) pd → is_u32 va →
  walk (ram s) pd va = Some e →
  (physical = true → allocated lo fl s (base e) ∧ base e ≠ pd ∧
     ∀ i, 0 <= i < 1024 → absent (entry (ram s) pd i) = false →
       base (entry (ram s) pd i) ≠ base e) →
  ∃ fl' s', unmap pd va physical s = Ret s' ∧
    fl' = (if physical then base e :: fl else fl) ∧ alloc_wf lo fl' s' ∧
    as_wf (allocated lo fl' s') (ram s') pd ∧
    walk (ram s') pd va = None ∧
    (∀ va', is_u32 va' → va' / 4096 ≠ va / 4096 → walk (ram s') pd va' = walk (ram s) pd va') ∧
    (∀ q, allocated lo fl' s' q ↔ allocated lo fl s q ∧ (physical = true → q ≠ base e)) ∧
    invlpgs s' = va :: invlpgs s ∧ same_frame s s' pd.
Proof.
  intros Hwf Has Hva Hw Hphys. unfold walk in Hw. unfold unmap.
  destruct (absent (entry (ram s) pd (pdi_of va))) eqn:Hp; [done|].
  destruct (absent (entry (ram s) (base (entry (ram s) pd (pdi_of va))) (pti_of va))) eqn:Hq; [done|].
  injection Hw as He. rewrite He.
  pose proof (set_pte_walk lo fl s pd va 0 Has Hva Hp) as (Hpd & Has' & Hw & Ho).
  pose proof (pdi_range va Hva) as Hi. destruct (as_table _ _ _ Has _ Hi Hp) as [Hta Htne].
  set (s1 := set_entry _ _ 0 s) in *.
  assert (Hwf1 : alloc_wf lo fl s1) by (by apply alloc_wf_set_entry; [..|apply pti_range]).
  change (absent (u32 0)) with true in Hw. cbv iota in Hw.
  destruct physical; cbn.
  - destruct Hphys as (Hbal & Hbpd & Hbt); [done|].
    destruct (dealloc_space lo fl s1 pd (base e) Hwf1 Has') as
      (s2 & E & Hwf2 & Has2 & Hwalk & Hal & Hsm & Htlb & _); [done|done| |].
    { intros i Hir. rewrite (entry_agree (ram s)) by done. by apply Hbt. }
    rewrite E. cbn. exists (base e :: fl), (invlpg va s2). split; [done|]. split; [done|].
    split; [by destruct Hwf2|]. split; [done|]. split; [by rewrite <- Hw, <- Hwalk|].
    split; [|split; [|split; [by cbn; rewrite Htlb|]]].
    + intros va' ??. rewrite <- Ho by done. by apply Hwalk.
    + intros q. change (allocated lo (base e :: fl) (invlpg va s2) q)
        with (allocated lo (base e :: fl) s2 q).
      change (allocated lo fl s q) with (allocated lo fl s1 q). rewrite Hal. tauto.
    + eapply agree_trans; [|exact Hpd]. apply Hsm; [apply Has|done].
  - exists fl, (invlpg va s1). split; [done|]. split; [done|]. split; [by destruct Hwf1|].
    split; [done|]. split; [done|]. split; [done|]. split; [|by split].
    intros q. split; [|by intros [? _]]. by split.
Qed.

Lemma unmap_unmapped pd va physical s :
  walk (ram s) pd va = None → unmap pd va physical s = Ret s.
Proof.
  unfold walk, unmap. destruct (absent (entry (ram s) pd (pdi_of va))); [done|].
  by destruct (absent (entry (ram s) (base (entry (ram s) pd (pdi_of va))) (pti_of va))).
Qed.

(** A zeroed frame is an empty address space. *)
Lemma empty_space lo fl s p fl' s' :
  alloc_post lo fl s p fl' s' →
  as_wf (allocated lo fl' s') (ram s') p ∧
  (∀ i, 0 <= i < 1024 → absent (entry (ram s') p i) = true) ∧
  (∀ va, is_u32 va → walk (ram s') p va = None).
Proof.
  intros Hpost.
  assert (He : ∀ i, 0 <= i < 1024 → absent (entry (ram s') p i) = true).
  { intros i Hi. unfold entry, ld32, ld8. rewrite !(ap_zero _ _ _ _ _ _ Hpost) by lia. done. }
  split; [|split; [done|]].
  - split; [apply (ap_alloc _ _ _ _ _ _ Hpost); by left|..].
    + intros i Hi. by rewrite He.
    + intros i j Hi Hj _. by rewrite He.
  - intros va Hva. unfold walk. by rewrite He by (by apply pdi_range).
Qed.

Section GlobalInit.
Context (kConfig : Config) (lo L : Z) (sh : Z) (s0 : mach).

(** Page tables needed for the identity mapping of the pages below [va]. *)
Definition tables_for (va : Z) : Z := if va =? 4096 then 0 else (va + 4194303) / 4194304.

Record identity_upto (va : Z) (fl : list Z) (s : mach) : Prop := IdentityUpto {
  iu_wf : alloc_wf lo fl s;
  iu_as : as_wf (allocated lo fl s) (ram s) sh;
  iu_va : 4096 <= va ∧ va mod 4096 = 0 ∧ is_u32 va;
  iu_walk va' : is_u32 va' → walk (ram s) sh va' =
    if (4096 <=? va') && (va' <? va) then Some (Z.lor (4096 * (va' / 4096)) 3) else None;
  iu_pde i : 0 <= i < 1024 → absent (entry (ram s) sh i) = (tables_for va <=? i);
  iu_left : frames_left fl s = L - tables_for va;
  iu_steady : steady lo s0 s;
}.

Lemma identity_step va fl s :
  identity_upto va fl s → va < memSize kConfig → memSize kConfig <= 4294963200 →
  tables_for 4294963200 <= L ∨ tables_for (va + 4096) <= L →
  ∃ fl' s', map sh va va s = Ret s' ∧ identity_upto (va + 4096) fl' s'.
Proof.
  intros [Hwf Has (Hva1 & Hva2 & Hva3) Hw Hpde Hleft Hst] Hlt Hms HL.
  pose proof (pdi_range va Hva3) as Hi. pose proof (Hpde _ Hi) as Hab.
  assert (Hidx : pdi_of va = va / 4194304).
  { destruct (page_index va) as [_ ->]. by rewrite Z.div_div by lia. }
  assert (Ht : tables_for (va + 4096) =
               tables_for va + (if absent (entry (ram s) sh (pdi_of va)) then 1 else 0)).
  { rewrite Hab, Hidx. unfold tables_for. unfold is_u32 in *.
    destruct (Z.eqb_spec va 4096), (Z.eqb_spec (va + 4096) 4096); try lia.
    - subst. done.
    - destruct (Z.leb_spec ((va + 4194303) / 4194304) (va / 4194304)); zlia. }
  assert (HtL : tables_for (va + 4096) <= L).
  { destruct HL; [|done]. etransitivity; [|done]. unfold tables_for, is_u32 in *.
    destruct (Z.eqb_spec (va + 4096) 4096); [lia|]. cbn. zlia. }
  destruct (map_flags_ok lo fl 3 s sh va va Hwf Has Hva3 Hva3 Hva2) as
    [(Ha & Hz & _)|(fl' & s' & E & Hp)]; [by left|rewrite Ha in Ht; lia|].
  exists fl', s'. split; [exact E|]. split.
  - apply Hp.
  - apply Hp.
  - unfold is_u32 in *. zlia.
  - intros va' Hva'. destruct (decide (va' / 4096 = va / 4096)) as [Hpg|Hpg].
    + assert (4096 * (va' / 4096) = va) as -> by zlia.
      rewrite (walk_page _ _ va' va), (mp_walk _ _ _ _ _ _ _ _ Hp) by done.
      destruct (Z.leb_spec 4096 va'), (Z.ltb_spec va' (va + 4096)); cbn; [done|zlia..].
    + rewrite (mp_other _ _ _ _ _ _ _ _ Hp), Hw by done.
      destruct (Z.leb_spec 4096 va'), (Z.ltb_spec va' va), (Z.ltb_spec va' (va + 4096)); cbn;
        try done; zlia.
  - intros i Hir. rewrite Ht. destruct (decide (i = pdi_of va)) as [->|Hne].
    + pose proof (mp_walk _ _ _ _ _ _ _ _ Hp) as Hwk. unfold walk in Hwk.
      destruct (absent (entry (ram s') sh (pdi_of va))); [done|]. symmetry. apply Z.leb_gt.
      destruct (absent (entry (ram s) sh (pdi_of va))) eqn:Hb; rewrite Hab in Hb; bool_to_prop;
        [|lia]. rewrite Hidx in *. unfold tables_for in *. destruct (Z.eqb_spec va 4096); zlia.
    + rewrite (mp_pde _ _ _ _ _ _ _ _ Hp) by done. rewrite Hpde by done.
      destruct (absent (entry (ram s) sh (pdi_of va))) eqn:Hb; [|by rewrite Z.add_0_r].
      rewrite Hab in Hb. bool_to_prop. rewrite Hidx in *. unfold tables_for in *.
      apply eq_true_iff_eq. rewrite !Z.leb_le. destruct (Z.eqb_spec va 4096); zlia.
  - rewrite (mp_left _ _ _ _ _ _ _ _ Hp). lia.
  - eapply steady_trans; [exact Hst|apply Hp].
Qed.

End GlobalInit.

Lemma global_init_ok kConfig lo fl s fuel :
  alloc_wf lo fl s → 0 <= memSize kConfig <= 4294963200 →
  1 + (memSize kConfig + 4194303) / 4194304 <= frames_left fl s →
  memSize kConfig / 4096 <= Z.of_nat fuel →
  ∃ sh fl' s', global_init kConfig fuel s = Ret (sh, s') ∧ alloc_wf lo fl' s' ∧
    as_wf (allocated lo fl' s') (ram s') sh ∧
    frames_left fl s - 1 - (memSize kConfig + 4194303) / 4194304 <= frames_left fl' s' ∧
    steady lo s s' ∧
    ∀ va, is_u32 va → walk (ram s') sh va =
      if (4096 <=? va) && (va / 4096 <? (memSize kConfig + 4095) / 4096)
      then Some (Z.lor (4096 * (va / 4096)) 3) else None.
Proof.
  intros Hwf Hms HL Hfuel. unfold global_init.
  destruct (alloc_frame_cases lo fl s Hwf) as [(Hz & _)|(sh & fl1 & s1 & -> & Hpost)]; [zlia|].
  cbn. destruct (empty_space _ _ _ _ _ _ Hpost) as (Has & Habs & Hempty).
  set (N := 4096 * ((memSize kConfig + 4095) / 4096)).
  set (L := frames_left fl1 s1).
  assert (HLL : L = frames_left fl s - 1) by apply Hpost.
  set (P := λ st : Z * mach, 4096 <= fst st <= Z.max 4096 N ∧
                             ∃ fl, identity_upto lo L sh s (fst st) fl (snd st)).
  destruct (while_loop_inv P (λ st, (N - fst st) / 4096)
      (λ '(va, _), va <? memSize kConfig)
      (λ '(va, s), s ← map sh va va s; Ret (u32 (va + FRAME_SIZE), s)) fuel (FRAME_SIZE, s1))
    as ([va s'] & -> & [Hva (fl' & Hiu)] & Hc).
  - change FRAME_SIZE with 4096. split; [cbn [fst]; lia|]. exists fl1. split; cbn; try done.
    + apply Hpost.
    + intros va' Hva'. rewrite Hempty by done.
      destruct (Z.leb_spec 4096 va'), (Z.ltb_spec va' 4096); cbn; try done; lia.
    + intros i Hi. rewrite Habs by done. symmetry. apply Z.leb_le. unfold tables_for. cbn. lia.
    + unfold tables_for. cbn. fold L. lia.
    + by apply (steady_alloc _ _ _ _ _ _ Hwf Hpost).
  - change FRAME_SIZE with 4096. cbn [fst]. unfold N. zlia.
  - intros [va s2] [Hva (fl2 & Hiu)] Hc. cbn [fst snd] in *. apply Z.ltb_lt in Hc.
    assert (HvaN : va + 4096 <= N).
    { unfold N. destruct (iu_va _ _ _ _ _ _ _ Hiu) as (? & ? & _). zlia. }
    split; [zlia|].
    destruct (identity_step kConfig lo L sh s va fl2 s2 Hiu Hc) as (fl3 & s3 & E & Hiu3); [lia| |].
    { right. rewrite HLL. unfold tables_for. destruct (Z.eqb_spec (va + 4096) 4096); [zlia|].
      unfold N in HvaN. zlia. }
    rewrite E. cbn. change FRAME_SIZE with 4096. exists (u32 (va + 4096), s3).
    assert (HN : N <= 4294963200) by (unfold N; zlia).
    rewrite u32_small by (unfold is_u32; lia).
    split; [done|]. split; [split; [cbn [fst]; lia|by exists fl3]|]. cbn [fst]. zlia.
  - cbn [fst snd] in *. apply Z.ltb_ge in Hc. exists sh, fl', s'. split; [done|].
    split; [apply Hiu|]. split; [apply Hiu|]. split.
    { rewrite (iu_left _ _ _ _ _ _ _ Hiu). fold L. rewrite <- HLL. unfold tables_for, N in *.
      destruct (Z.eqb_spec va 4096); zlia. }
    split; [apply Hiu|]. intros va' Hva'. rewrite (iu_walk _ _ _ _ _ _ _ Hiu) by done.
    destruct (iu_va _ _ _ _ _ _ _ Hiu) as (? & Hm & _). unfold N in *.
    destruct (Z.leb_spec 4096 va'), (Z.ltb_spec va' va),
      (Z.ltb_spec (va' / 4096) ((memSize kConfig + 4095) / 4096)); cbn; try done; zlia.
Qed.

(** A frame allocated for contents of the caller's own, before it is mapped
    anywhere: the address space [pd] is what it was. *)
Lemma fill_fresh lo fl s pd p fl1 s1 r :
  alloc_wf lo fl s → as_wf (allocated lo fl s) (ram s) pd → alloc_post lo fl s p fl1 s1 →
  (∀ b n, p + 4096 <= b ∨ b + n <= p → agree r (ram s1) b n) →
  let s2 := set_ram r s1 in
  alloc_wf lo fl1 s2 ∧ as_wf (allocated lo fl1 s2) (ram s2) pd ∧ allocated lo fl1 s2 p ∧
  (∀ q, allocated lo fl s q → q ≠ p ∧ allocated lo fl1 s2 q ∧ same_frame s s2 q) ∧
  (∀ va, is_u32 va → walk (ram s2) pd va = walk (ram s) pd va).
Proof.
  intros Hwf Has [Hwf1 Hfresh Hal _ Hag _ _ _] Hr s2.
  assert (Hp : allocated lo fl1 s1 p) by (apply Hal; by left).
  pose proof (allocated_aligned _ _ _ _ Hp) as Hpa.
  assert (Hold : ∀ q, allocated lo fl s q → q ≠ p ∧ allocated lo fl1 s2 q ∧ same_frame s s2 q).
  { intros q Hq. assert (q ≠ p) by (by intros ->). split; [done|].
    split; [apply Hal; by right|]. pose proof (allocated_aligned _ _ _ _ Hq).
    assert (p + 4096 <= q ∨ q + 4096 <= p) by (destruct (frames_disjoint p q); auto).
    eapply agree_trans; [by apply Hr|by apply Hag]. }
  split.
  { apply alloc_wf_write; [done|]. intros f Hf. apply Hr.
    pose proof (wf_free _ _ _ Hwf1) as Hfr. rewrite Forall_forall in Hfr.
    destruct (Hfr f Hf). destruct Hp as [_ Hnf].
    destruct (frames_disjoint p f); [done..|congruence|lia|lia]. }
  split; [|split; [done|split; [done|]]].
  - eapply as_wf_agree; [..|exact Has]; [|apply Hold, Has]. intros q Hq. by apply Hold.
  - intros va Hva. apply walk_agree; [done|apply Hold, Has|].
    intros Habs. apply Hold, (as_table _ _ _ Has); [by apply pdi_range|done].
Qed.

(** Copying the directory entries of the kernel's shared space into a new one. *)
Lemma copy_space lo fl s shared pd fl1 s1 k :
  alloc_wf lo fl s → as_wf (allocated lo fl s) (ram s) shared →
  alloc_post lo fl s pd fl1 s1 → 0 <= k <= 1024 →
  let s2 := set_ram (memcpy (ram s1) pd shared (4 * k)) s1 in
  alloc_wf lo fl1 s2 ∧ as_wf (allocated lo fl1 s2) (ram s2) pd ∧
  (∀ va, is_u32 va → walk (ram s2) pd va =
     if pdi_of va <? k then walk (ram s) shared va else None) ∧
  (∀ i, 0 <= i < 1024 → entry (ram s2) pd i = if i <? k then entry (ram s) shared i else 0) ∧
  (∀ q, allocated lo fl s q → same_frame s s2 q).
Proof.
  intros Hwf Has Hp Hk s2.
  pose proof (ap_wf _ _ _ _ _ _ Hp) as Hwf1.
  assert (Hpd : allocated lo fl1 s1 pd) by (apply (ap_alloc _ _ _ _ _ _ Hp); by left).
  pose proof (allocated_aligned _ _ _ _ Hpd) as Hpda.
  assert (Hne : ∀ q, allocated lo fl s q → q ≠ pd).
  { intros q Hq ->. by apply (ap_fresh _ _ _ _ _ _ Hp). }
  assert (Hold : ∀ q, allocated lo fl s q → agree (ram s1) (ram s) q 4096).
  { intros q Hq. apply (ap_frame _ _ _ _ _ _ Hp). pose proof (allocated_aligned _ _ _ _ Hq).
    pose proof (Hne q Hq). destruct (frames_disjoint pd q); [done..|lia|lia]. }
  assert (Hcp : ∀ b n, pd + 4096 <= b ∨ b + n <= pd → agree (ram s2) (ram s1) b n).
  { intros b n Hb. apply memcpy_agree; lia. }
  assert (Hsame : ∀ q, allocated lo fl s q → same_frame s s2 q).
  { intros q Hq. eapply agree_trans; [|by apply Hold]. apply Hcp.
    pose proof (allocated_aligned _ _ _ _ Hq). pose proof (Hne q Hq).
    destruct (frames_disjoint pd q); [done..|lia|lia]. }
  assert (Hent : ∀ i, 0 <= i < 1024 →
    entry (ram s2) pd i = if i <? k then entry (ram s) shared i else 0).
  { intros i Hi. unfold entry, s2. cbn. destruct (Z.ltb_spec i k).
    - rewrite ld32_memcpy by lia. replace (shared + (pd + 4 * i - pd)) with (shared + 4 * i) by lia.
      apply (entry_agree (ram s) (ram s1)); [apply Hold, Has|done].
    - rewrite (ld32_agree _ (ram s1) (pd + 4 * i) 4); [|apply memcpy_agree; lia|lia|lia].
      unfold ld32, ld8. by rewrite !(ap_zero _ _ _ _ _ _ Hp) by lia. }
  assert (Hwf2 : alloc_wf lo fl1 s2).
  { apply alloc_wf_write; [done|]. intros f Hf. apply Hcp.
    pose proof (wf_free _ _ _ Hwf1) as Hfr. rewrite Forall_forall in Hfr.
    destruct (Hfr f Hf). destruct Hpd as [_ Hnf].
    destruct (frames_disjoint pd f); [done..|set_solver|lia|lia]. }
  split; [done|]. split; [|split; [|split; [|done]]].
  - split; [done|..].
    + intros i Hi. rewrite Hent by done. destruct (i <? k); [|done]. intros Ha.
      destruct (as_table _ _ _ Has i Hi Ha) as [Ht _]. split; [|by apply Hne].
      apply (ap_alloc _ _ _ _ _ _ Hp). by right.
    + intros i j Hi Hj Hij. rewrite !Hent by done. destruct (i <? k), (j <? k); try done.
      by apply Has.
  - intros va Hva. pose proof (pdi_range va Hva) as Hi. unfold walk at 1. rewrite Hent by done.
    destruct (pdi_of va <? k); [|done]. unfold walk.
    destruct (absent (entry (ram s) shared (pdi_of va))) eqn:Ha; [done|].
    destruct (as_table _ _ _ Has _ Hi Ha) as [Ht _].
    by rewrite (entry_agree (ram s) (ram s2)) by (by apply Hsame || apply pti_range).
  - intros i Hi. rewrite Hent by done. by destruct (i <? k).
Qed.

(** An address space made since [s]: its directory and its tables of the private
    half are new frames, and the frames that were in use are as they were. *)
Record new_space (lo : Z) (fl : list Z) (s : mach) (fl' : list Z) (s' : mach) (pd : Z) : Prop :=
NewSpace {
  ns_wf : alloc_wf lo fl' s';
  ns_as : as_wf (allocated lo fl' s') (ram s') pd;
  ns_new : ¬ allocated lo fl s pd;
  ns_old q : allocated lo fl s q → allocated lo fl' s' q ∧ same_frame s s' q;
  ns_tables i : 512 <= i < 1024 → absent (entry (ram s') pd i) = false →
    ¬ allocated lo fl s (base (entry (ram s') pd i));
  ns_only q : allocated lo fl' s' q → allocated lo fl s q ∨ q = pd ∨
    ∃ i, 512 <= i < 1024 ∧ absent (entry (ram s') pd i) = false ∧ base (entry (ram s') pd i) = q;
  ns_steady : steady lo s s';
}.

Lemma new_space_map lo fl s fl1 s1 pd va e fl2 s2 :
  new_space lo fl s fl1 s1 pd → 512 <= pdi_of va < 1024 → map_post lo fl1 s1 pd va e fl2 s2 →
  new_space lo fl s fl2 s2 pd.
Proof.
  intros [Hwf Has Hnew Hold Htab Honly Hst] Hi Hp.
  assert (Htab' : ∀ i, 512 <= i < 1024 → absent (entry (ram s2) pd i) = false →
    ¬ allocated lo fl s (base (entry (ram s2) pd i))).
  { intros i Hr. destruct (decide (i = pdi_of va)) as [->|Hne].
    - destruct (absent (entry (ram s1) pd (pdi_of va))) eqn:Ha.
      + intros _ Ho. by apply (mp_fresh _ _ _ _ _ _ _ _ Hp Ha), Hold.
      + rewrite (mp_table _ _ _ _ _ _ _ _ Hp Ha). by apply Htab.
    - rewrite (mp_pde _ _ _ _ _ _ _ _ Hp) by (done || lia). by apply Htab. }
  assert (Hpres : absent (entry (ram s2) pd (pdi_of va)) = false).
  { pose proof (mp_walk _ _ _ _ _ _ _ _ Hp) as Hw. unfold walk in Hw.
    by destruct (absent (entry (ram s2) pd (pdi_of va))). }
  split; [apply Hp|apply Hp|done| |done| |].
  - intros q Hq. destruct (Hold q Hq) as [Hqa Hqs].
    split; [by apply (mp_mono _ _ _ _ _ _ _ _ Hp)|]. eapply agree_trans; [|exact Hqs].
    apply (mp_frame _ _ _ _ _ _ _ _ Hp); [done|by intros ->|]. intros ->. by apply (Htab' (pdi_of va)).
  - intros q [Hq| ->]%(mp_only _ _ _ _ _ _ _ _ Hp); [|by eauto 6].
    destruct (Honly q Hq) as [?|[?|(i & Hr & Ha & Hb)]]; [by left|by right; left|].
    right. right. exists i. split; [done|]. destruct (decide (i = pdi_of va)) as [->|Hne].
    + by rewrite (mp_table _ _ _ _ _ _ _ _ Hp Ha).
    + by rewrite (mp_pde _ _ _ _ _ _ _ _ Hp) by (done || lia).
  - eapply steady_trans; [exact Hst|apply Hp].
Qed.

(** A configuration whose APIC pages are distinct pages of the private half. *)
Record config_ok (kConfig : Config) : Prop := ConfigOk {
  co_mem : 0 <= memSize kConfig <= 2147483648;
  co_io : is_u32 (ioAPIC kConfig) ∧ ioAPIC kConfig mod 4096 = 0 ∧ 2147483648 <= ioAPIC kConfig;
  co_local : is_u32 (localAPIC kConfig) ∧ localAPIC kConfig mod 4096 = 0 ∧
             2147483648 <= localAPIC kConfig;
  co_diff : ioAPIC kConfig ≠ localAPIC kConfig;
}.

Lemma pdi_high va : is_u32 va → 2147483648 <= va → 512 <= pdi_of va < 1024.
Proof.
  intros Hu Hh. destruct (page_index va) as [_ ->]. unfold is_u32 in Hu. zlia.
Qed.

Lemma make_pd_ok kConfig lo fl s shared :
  alloc_wf lo fl s → as_wf (allocated lo fl s) (ram s) shared → config_ok kConfig →
  returns_or "no more frames" (frames_left fl s < 3) (make_pd kConfig shared s)
    (λ '(pd, s'), ∃ fl', new_space lo fl s fl' s' pd ∧ frames_left fl s - 3 <= frames_left fl' s' ∧
    (∀ va, is_u32 va → walk (ram s') pd va =
      if va / 4194304 <? (memSize kConfig + 4194303) / 4194304 then walk (ram s) shared va
      else if va / 4096 =? ioAPIC kConfig / 4096 then Some (ioAPIC kConfig + 3)
      else if va / 4096 =? localAPIC kConfig / 4096 then Some (localAPIC kConfig + 3)
      else None) ∧
    ∀ i, 0 <= i < 512 → absent (entry (ram s') pd i) = false → entry (ram s') pd i = entry (ram s) shared i).
Proof.
  intros Hwf Has [Hms Hio Hlo Hdiff].
  unfold make_pd. destruct (alloc_frame_cases lo fl s Hwf)
    as [(Hz & ->)|(pd & fl1 & s1 & -> & Hpost)]; cbn [mbind outcome_bind]; [left; split; [done|lia]|].
  set (k := (memSize kConfig + 4194303) / 4194304).
  assert (4 * (u32 (memSize kConfig + 4 * 1024 * 1024 - 1) / (4 * 1024 * 1024)) = 4 * k) as ->.
  { unfold k. rewrite u32_small by (unfold is_u32; lia).
    by replace (memSize kConfig + 4 * 1024 * 1024 - 1) with (memSize kConfig + 4194303) by lia. }
  assert (Hk : 0 <= k <= 512) by (unfold k; zlia).
  destruct (copy_space lo fl s shared pd fl1 s1 k Hwf Has Hpost) as (Hwf2 & Has2 & Hw2 & Hab2 & Hsm2); [lia|].
  set (s2 := set_ram (memcpy (ram s1) pd shared (4 * k)) s1) in *.
  assert (Hl2 : frames_left fl1 s2 = frames_left fl s - 1) by apply Hpost.
  assert (Hns2 : new_space lo fl s fl1 s2 pd).
  { split; [done|done|apply Hpost| | | |].
    - intros q Hq. split; [|by apply Hsm2]. apply (ap_alloc _ _ _ _ _ _ Hpost). by right.
    - intros i Hi. rewrite Hab2 by lia. by rewrite (proj2 (Z.ltb_ge i k)) by lia.
    - intros q [->|Hq]%(ap_alloc _ _ _ _ _ _ Hpost); [by right; left|by left].
    - destruct (steady_alloc _ _ _ _ _ _ Hwf Hpost). eapply steady_trans; [done|].
      apply steady_ram, memcpy_agree; lia. }
  destruct (map_flags_ok lo fl1 3 s2 pd (ioAPIC kConfig) (ioAPIC kConfig)) as
    [(_ & Hz & E3)|(fl3 & s3 & E3 & Hp3)]; [done..|tauto|tauto|tauto|by left| |];
    unfold map; rewrite E3; [left; split; [done|lia]|].
  cbn [mbind outcome_bind]. pose proof (mp_left _ _ _ _ _ _ _ _ Hp3) as Hl3.
  destruct (map_flags_ok lo fl3 3 s3 pd (localAPIC kConfig) (localAPIC kConfig)) as
    [(_ & Hz & E4)|(fl4 & s4 & E4 & Hp4)];
    [apply Hp3|apply Hp3|tauto|tauto|tauto|by left| |]; rewrite E4;
    [left; split; [done|destruct (absent _); lia]|].
  cbn [mbind outcome_bind]. pose proof (mp_left _ _ _ _ _ _ _ _ Hp4) as Hl4.
  destruct Hio as (Hio1 & Hio2 & Hio3), Hlo as (Hlo1 & Hlo2 & Hlo3).
  right. exists (pd, s4). split; [done|]. exists fl4. split; [|split; [|split]].
  { eapply new_space_map; [eapply new_space_map; [exact Hns2| |exact Hp3]| |exact Hp4];
      by apply pdi_high. }
  { destruct (absent (entry (ram s2) _ _)), (absent (entry (ram s3) _ _)); lia. }
  2:{ pose proof (pdi_high _ Hio1 Hio3). pose proof (pdi_high _ Hlo1 Hlo3). intros i Hi.
    rewrite (mp_pde _ _ _ _ _ _ _ _ Hp4), (mp_pde _ _ _ _ _ _ _ _ Hp3), Hab2 by lia.
    by destruct (i <? k). }
  intros va Hva.
  assert (Hidx : pdi_of va = va / 4194304).
  { destruct (page_index va) as [_ ->]. by rewrite Z.div_div by lia. }
  rewrite <- !lor_flags by (done || lia).
  destruct (Z.eqb_spec (va / 4096) (localAPIC kConfig / 4096)) as [El|Nl].
  { rewrite (walk_page _ _ va (localAPIC kConfig)) by done.
    rewrite (mp_walk _ _ _ _ _ _ _ _ Hp4).
    destruct (Z.ltb_spec (va / 4194304) k); [zlia|].
    destruct (Z.eqb_spec (va / 4096) (ioAPIC kConfig / 4096)); [zlia|done]. }
  rewrite (mp_other _ _ _ _ _ _ _ _ Hp4) by done.
  destruct (Z.eqb_spec (va / 4096) (ioAPIC kConfig / 4096)) as [Ei|Ni].
  { rewrite (walk_page _ _ va (ioAPIC kConfig)) by done.
    rewrite (mp_walk _ _ _ _ _ _ _ _ Hp3). destruct (Z.ltb_spec (va / 4194304) k); [zlia|done]. }
  rewrite (mp_other _ _ _ _ _ _ _ _ Hp3) by done. rewrite Hw2, Hidx by done. done.
Qed.

(** ** Properties *)

(** In a well-formed address space, [map] and [user_map] of a
    page-aligned [pa] at [va] either panic for want of a frame for a new page
    table, or return a well-formed address space in which [va] translates to
    [pa] with the kernel (3) or user (7) flags, every address of another page
    translates as before, and no allocated frame outside the directory and the
    table of [va] is modified. *)
Lemma map_installs_translation (lo : Z) (fl : list Z) (s : mach) (pd va pa flags : Z)
    (op : Z → Z → Z → mach → outcome mach)
    (Hop : (op = map ∧ flags = 3) ∨ (op = user_map ∧ flags = 7))
    (Hwf : alloc_wf lo fl s) (Has : as_wf (allocated lo fl s) (ram s) pd)
    (Hva : is_u32 va) (Hpa : is_u32 pa) (Hal : pa mod 4096 = 0) :
  (op pd va pa s = Panic "no more frames" ∧ frames_left fl s = 0) ∨
  ∃ fl' s', op pd va pa s = Ret s' ∧ alloc_wf lo fl' s' ∧
    as_wf (allocated lo fl' s') (ram s') pd ∧
    walk (ram s') pd va = Some (pa + flags) ∧
    (∀ va', is_u32 va' → va' / 4096 ≠ va / 4096 →
       walk (ram s') pd va' = walk (ram s) pd va') ∧
    (∀ q, allocated lo fl s q → q ≠ pd → q ≠ base (entry (ram s') pd (pdi_of va)) →
       allocated lo fl' s' q ∧ same_frame s s' q).
Proof.
  assert (op = map_flags flags ∧ (flags = 3 ∨ flags = 7)) as [-> Hf].
  { destruct Hop as [[-> ->]|[-> ->]]; auto. }
  destruct (map_flags_ok lo fl flags s pd va pa Hwf Has Hva Hpa Hal Hf) as
    [(_ & Hz & E)|(fl' & s' & E & [])]; [by left|right].
  exists fl', s'. rewrite <- lor_flags by (done || lia).
  repeat (split; [done|]). intros q Hq ??. auto.
Qed.

(** [unmap] removes exactly the translation of [va]: a page
    that was not mapped leaves the machine untouched; a mapped page loses its
    translation, its TLB entry is invalidated, all other pages translate as
    before, and the frame goes back to the allocator exactly when [physical]
    is set. *)
Lemma unmap_removes_translation (lo : Z) (fl : list Z) (s : mach) (pd va : Z)
    (physical : bool) (Hwf : alloc_wf lo fl s) (Has : as_wf (allocated lo fl s) (ram s) pd)
    (Hva : is_u32 va) :
  match walk (ram s) pd va with
  | None => unmap pd va physical s = Ret s
  | Some e =>
      (physical = true → allocated lo fl s (base e) ∧ base e ≠ pd ∧
         ∀ i, 0 <= i < 1024 → absent (entry (ram s) pd i) = false →
           base (entry (ram s) pd i) ≠ base e) →
      ∃ fl' s', unmap pd va physical s = Ret s' ∧ alloc_wf lo fl' s' ∧
        as_wf (allocated lo fl' s') (ram s') pd ∧
        walk (ram s') pd va = None ∧
        (∀ va', is_u32 va' → va' / 4096 ≠ va / 4096 →
           walk (ram s') pd va' = walk (ram s) pd va') ∧
        (∀ q, allocated lo fl' s' q ↔ allocated lo fl s q ∧ (physical = true → q ≠ base e)) ∧
        invlpgs s' = va :: invlpgs s
  end.
Proof.
  destruct (walk (ram s) pd va) as [e|] eqn:Hw; [|by apply unmap_unmapped].
  intros Hphys. destruct (unmap_mapped lo fl s pd va e physical Hwf Has Hva Hw Hphys)
    as (fl' & s' & E & _ & ? & ? & ? & ? & ? & ? & _). by exists fl', s'.
Qed.

(** With enough free frames [global_init] terminates and the
    page directory it returns maps exactly the pages from 4096 up to the end of
    RAM, each to itself with supervisor flags; in particular page 0 is left
    unmapped, so a null dereference in the kernel faults. *)
Lemma global_init_identity (kConfig : Config) (lo : Z) (fl : list Z) (s : mach) (fuel : nat)
    (Hwf : alloc_wf lo fl s) (Hms : 0 <= memSize kConfig <= 4294963200)
    (Hleft : 1 + (memSize kConfig + 4194303) / 4194304 <= frames_left fl s)
    (Hfuel : memSize kConfig / 4096 <= Z.of_nat fuel) :
  ∃ shared s', global_init kConfig fuel s = Ret (shared, s') ∧
    ∀ va, is_u32 va → walk (ram s') shared va =
      if (4096 <=? va) && (va / 4096 <? (memSize kConfig + 4095) / 4096)
      then Some (4096 * (va / 4096) + 3) else None.
Proof.
  destruct (global_init_ok kConfig lo fl s fuel Hwf Hms Hleft Hfuel)
    as (sh & fl' & s' & E & _ & _ & _ & _ & Hw).
  exists sh, s'. split; [done|]. intros va Hva. rewrite Hw by done.
  by rewrite lor_flags by zlia.
Qed.

(** [make_pd] builds an address space that shares the
    kernel's translations below the top of RAM, maps the two APIC pages to
    themselves and translates nothing else; the frames of the shared space are
    untouched. *)
Lemma make_pd_space (kConfig : Config) (lo : Z) (fl : list Z) (s : mach) (shared : Z)
    (Hwf : alloc_wf lo fl s) (Has : as_wf (allocated lo fl s) (ram s) shared)
    (Hleft : 3 <= frames_left fl s) (Hcfg : config_ok kConfig) :
  ∃ pd fl' s', make_pd kConfig shared s = Ret (pd, s') ∧ alloc_wf lo fl' s' ∧
    as_wf (allocated lo fl' s') (ram s') pd ∧ ¬ allocated lo fl s pd ∧
    ∀ va, is_u32 va → walk (ram s') pd va =
      if va / 4194304 <? (memSize kConfig + 4194303) / 4194304 then walk (ram s) shared va
      else if va / 4096 =? ioAPIC kConfig / 4096 then Some (ioAPIC kConfig + 3)
      else if va / 4096 =? localAPIC kConfig / 4096 then Some (localAPIC kConfig + 3)
      else None.
Proof.
  destruct (make_pd_ok kConfig lo fl s shared Hwf Has Hcfg) as [[_ ?]|([pd s'] & E & fl' & Hns & _ & Hw & _)]; [lia|].
  exists pd, fl', s'. split; [done|]. do 3 (split; [apply Hns|]). exact Hw.
Qed.

(** ** Witnesses: a machine with RAM up to 16 MiB and one empty directory *)

Definition demo_config : Config :=
  MkConfig 16777216 0 1 0xFEE00000 0 0xFEC00000 [] [].

Definition dm0 : mach := run demo_mach (init 6291456 10485760 demo_mach).
Definition dm1 : mach := snd (run (0, demo_mach) (alloc_frame dm0)).

Lemma dm0_wf : alloc_wf 6291456 [] dm0.
Proof. split; try done; try (by constructor); cbn; lia. Qed.

Lemma dm1_post : alloc_post 6291456 [] dm0 6291456 [] dm1.
Proof.
  destruct (alloc_frame_bump 6291456 dm0 dm0_wf) as (s' & E & H); [by vm_compute|].
  assert (alloc_frame dm0 = Ret (6291456, dm1)) as E' by reflexivity.
  rewrite E' in E. by injection E as <-.
Qed.

Lemma dm1_space : as_wf (allocated 6291456 [] dm1) (ram dm1) 6291456.
Proof. by destruct (empty_space _ _ _ _ _ _ dm1_post). Qed.

Lemma map_installs_translation_witness :
  (user_map 6291456 0x80001000 0x700000 dm1 = Panic "no more frames" ∧ frames_left [] dm1 = 0) ∨
  ∃ fl' s', user_map 6291456 0x80001000 0x700000 dm1 = Ret s' ∧ alloc_wf 6291456 fl' s' ∧
    as_wf (allocated 6291456 fl' s') (ram s') 6291456 ∧
    walk (ram s') 6291456 0x80001000 = Some (0x700000 + 7) ∧
    (∀ va', is_u32 va' → va' / 4096 ≠ 0x80001000 / 4096 →
       walk (ram s') 6291456 va' = walk (ram dm1) 6291456 va') ∧
    (∀ q, allocated 6291456 [] dm1 q → q ≠ 6291456 →
       q ≠ base (entry (ram s') 6291456 (pdi_of 0x80001000)) →
       allocated 6291456 fl' s' q ∧ same_frame dm1 s' q).
Proof.
  apply (map_installs_translation 6291456 [] dm1 6291456 0x80001000 0x700000 7 user_map);
    [by right|apply (ap_wf _ _ _ _ _ _ dm1_post)|apply dm1_space|done|done|done].
Defined.

(** The page mapped above, unmapped again with its frame released. *)
Definition dm2 : mach := snd (run (0, demo_mach) (alloc_frame dm1)).
Definition dm3 : mach := run demo_mach (user_map 6291456 0x80001000 6295552 dm2).
Definition dm4 : mach := run demo_mach (unmap 6291456 0x80001000 true dm3).

Example unmap_demo :
  walk (ram dm3) 6291456 0x80001000 = Some (6295552 + 7) ∧
  walk (ram dm4) 6291456 0x80001000 = None ∧ firstFree dm4 = 6295552.
Proof. vm_compute. done. Qed.

Lemma dm2_post : alloc_post 6291456 [] dm1 6295552 [] dm2.
Proof.
  destruct (alloc_frame_bump 6291456 dm1 (ap_wf _ _ _ _ _ _ dm1_post)) as (s' & E & H);
    [by vm_compute|].
  assert (alloc_frame dm1 = Ret (6295552, dm2)) as E' by reflexivity.
  change (avail dm1) with 6295552 in *. rewrite E' in E. by injection E as <-.
Qed.

Lemma dm2_space : as_wf (allocated 6291456 [] dm2) (ram dm2) 6291456.
Proof.
  eapply as_wf_agree; [..|exact dm1_space].
  - intros q Hq. apply (ap_alloc _ _ _ _ _ _ dm2_post). by right.
  - apply (ap_frame _ _ _ _ _ _ dm2_post). lia.
Qed.

(** The only table of the space of [dm3] is not the mapped frame. *)
Lemma dm3_space : ∃ fl, alloc_wf 6291456 fl dm3 ∧
  as_wf (allocated 6291456 fl dm3) (ram dm3) 6291456 ∧ allocated 6291456 fl dm3 6295552 ∧
  (∀ i, 0 <= i < 1024 → absent (entry (ram dm3) 6291456 i) = false →
    base (entry (ram dm3) 6291456 i) ≠ 6295552) ∧
  (∀ va, is_u32 va → va / 4096 ≠ 524289 → walk (ram dm3) 6291456 va = None) ∧
  frames_left fl dm3 = 2557.
Proof.
  assert (map_flags 7 6291456 0x80001000 6295552 dm2 = Ret dm3) as E'.
  { apply run_Ret. by vm_compute. }
  destruct (map_flags_ok 6291456 [] 7 dm2 6291456 0x80001000 6295552
    (ap_wf _ _ _ _ _ _ dm2_post) dm2_space) as [(_ & _ & E)|(fl & s' & E & H)];
    [done|done|done|by right|by rewrite E' in E|].
  rewrite E' in E. injection E as <-.
  exists fl. split; [apply H|]. split; [apply H|]. split.
  - apply (mp_mono _ _ _ _ _ _ _ _ H), (ap_alloc _ _ _ _ _ _ dm2_post). by left.
  - split; [|split].
    2:{ intros va Hva Hne. rewrite (mp_other _ _ _ _ _ _ _ _ H) by done.
        rewrite (walk_agree (ram dm1)); [by apply (empty_space _ _ _ _ _ _ dm1_post)|done|..].
        - apply (ap_frame _ _ _ _ _ _ dm2_post). lia.
        - destruct (empty_space _ _ _ _ _ _ dm1_post) as (_ & Ha & _).
          by rewrite Ha by (by apply pdi_range). }
    2:{ rewrite (mp_left _ _ _ _ _ _ _ _ H). by vm_compute. }
    intros i Hi. destruct (decide (i = 512)) as [->|Hne].
    { intros _. by vm_compute. }
    rewrite (mp_pde _ _ _ _ _ _ _ _ H) by done.
    rewrite (entry_agree (ram dm1)); [|apply (ap_frame _ _ _ _ _ _ dm2_post); lia|done].
    destruct (empty_space _ _ _ _ _ _ dm1_post) as (_ & Ha & _). by rewrite Ha.
Qed.

Lemma unmap_removes_translation_witness :
  ∃ fl' s', unmap 6291456 0x80001000 true dm3 = Ret s' ∧ alloc_wf 6291456 fl' s' ∧
    walk (ram s') 6291456 0x80001000 = None.
Proof.
  destruct dm3_space as (fl & Hwf & Has & Hal & Hb & _).
  pose proof (unmap_removes_translation 6291456 fl dm3 6291456 0x80001000 true Hwf Has
    ltac:(done)) as H.
  assert (walk (ram dm3) 6291456 0x80001000 = Some (6295552 + 7)) as Hw by (by vm_compute).
  assert (base (6295552 + 7) = 6295552) as Hbase by reflexivity.
  rewrite Hw, Hbase in H. destruct H as (fl' & s' & H1 & H2 & _ & H3 & _).
  - intros _. split; [exact Hal|]. split; [lia|exact Hb].
  - exists fl', s'. split; [exact H1|]. split; [exact H2|exact H3].
Defined.

Lemma global_init_identity_witness :
  ∃ shared s', global_init demo_config 5000 dm0 = Ret (shared, s') ∧
    ∀ va, is_u32 va → walk (ram s') shared va =
      if (4096 <=? va) && (va / 4096 <? (16777216 + 4095) / 4096)
      then Some (4096 * (va / 4096) + 3) else None.
Proof.
  apply (global_init_identity demo_config 6291456 [] dm0 5000);
    [apply dm0_wf|cbn; lia|vm_compute; done|vm_compute; done].
Defined.

Lemma demo_config_ok : config_ok demo_config.
Proof. split; cbn; unfold is_u32; repeat split; lia || done. Qed.

Lemma make_pd_space_witness :
  ∃ pd fl' s', make_pd demo_config 6291456 dm1 = Ret (pd, s') ∧ alloc_wf 6291456 fl' s' ∧
    as_wf (allocated 6291456 fl' s') (ram s') pd ∧ ¬ allocated 6291456 [] dm1 pd ∧
    ∀ va, is_u32 va → walk (ram s') pd va =
      if va / 4194304 <? (16777216 + 4194303) / 4194304 then walk (ram dm1) 6291456 va
      else if va / 4096 =? 0xFEC00000 / 4096 then Some (0xFEC00000 + 3)
      else if va / 4096 =? 0xFEE00000 / 4096 then Some (0xFEE00000 + 3)
      else None.
Proof.
  apply (make_pd_space demo_config 6291456 [] dm1 6291456);
    [apply (ap_wf _ _ _ _ _ _ dm1_post)|apply dm1_space|vm_compute; done|apply demo_config_ok].
Defined.
