(* ===== verification/BlockIO.v ===== *)
(** * Block devices: src/kernel/block_io.h, block_io.cc

    [BlockIO] is the abstract base class of everything that can be read block
    by block (the disk and the i-nodes of the file system); [read] and
    [read_all] are its two concrete methods.  [device_ok] is what an
    implementation promises about its [read_block], and the theorems about
    [read_all] are proved for every implementation that keeps the promise. *)

From S2P Require Import Prelude Mem.
Local Open Scope Z_scope.

(** ** The interface *)

Class BlockIO (D : Type) := {
  block_size : D → Z;
  size_in_bytes : D → Z;
  read_block : D → Z → outcome (list Z);
}.

Section Methods.
Context {D : Type} `{BlockIO D}.

Definition size_in_blocks (d : D) : Z :=
  u32 (u32 (size_in_bytes d + block_size d) - 1) / block_size d.

(** [int64_t BlockIO::read(offset, desired_n, buffer)]: the count returned and
    the bytes put at the start of [buffer]. *)
Definition read (d : D) (offset desired_n : Z) : outcome (Z * list Z) :=
  let sz := size_in_bytes d in
  if sz <? offset then Ret (-1, [])
  else if offset =? sz then Ret (0, [])
  else
    let n := Z.min desired_n (u32 (sz - offset)) in
    let block_number := offset / block_size d in
    let offset_in_block := offset mod block_size d in
    let actual_n := Z.min (u32 (block_size d - offset_in_block)) n in
    _ ← ASSERT (actual_n <=? n) "actual_n <= n";
    _ ← ASSERT (u32 (offset + actual_n) <=? sz) "offset + actual_n <= sz";
    if actual_n =? block_size d then
      _ ← ASSERT (offset_in_block =? 0) "offset_in_block == 0";
      bs ← read_block d block_number;
      Ret (actual_n, bs)
    else
      _ ← ASSERT (u32 (offset_in_block + actual_n) <=? block_size d)
            "offset_in_block + actual_n <= block_size";
      temp ← read_block d block_number;
      Ret (actual_n, take (Z.to_nat actual_n) (drop (Z.to_nat offset_in_block) temp)).

(** [int64_t BlockIO::read_all(offset, n, buffer)].  Every iteration reads at
    least one byte, so [n] iterations are enough. *)
Fixpoint read_all_loop (fuel : nat) (d : D) (offset n total_count : Z) (buffer : list Z)
  : outcome (Z * list Z) :=
  if n <=? 0 then Ret (total_count, buffer) else
  match fuel with
  | O => OutOfFuel
  | S fuel' =>
      '(cnt, bs) ← read d offset n;
      if cnt <? 0 then Ret (cnt, buffer)
      else if cnt =? 0 then Ret (total_count, buffer)
      else read_all_loop fuel' d (u32 (offset + cnt)) (u32 (n - cnt)) (total_count + cnt)
             (buffer ++ bs)
  end.

Definition read_all (d : D) (offset n : Z) : outcome (Z * list Z) :=
  read_all_loop (Z.to_nat n) d offset n 0 [].

(** [read(offset, T& thing)]: the bytes of the object. *)
Definition read_object (d : D) (offset size : Z) : outcome (list Z) :=
  '(cnt, bs) ← read_all d offset size;
  _ ← ASSERT (cnt =? size) "cnt == sizeof(T)";
  Ret bs.

End Methods.

(** Little-endian fields of an object. *)
Fixpoint le (bs : list Z) : Z :=
  match bs with [] => 0 | b :: bs' => u8 b + 256 * le bs' end.

Definition field (bs : list Z) (off size : nat) : Z := le (take size (drop off bs)).

(** [len] bytes of [content] from [off]. *)
Definition slice (content : Z → Z) (off len : Z) : list Z :=
  (λ i, content (off + Z.of_nat i)) <$> seq 0 (Z.to_nat len).

(** What [read_block] promises: for every block that starts inside the object
    it delivers [block_size] bytes that agree with the object's contents. *)
Record device_ok {D} `{BlockIO D} (d : D) (content : Z → Z) : Prop := DeviceOk {
  dev_block : 0 < block_size d < 2147483648;
  dev_size : is_u32 (size_in_bytes d);
  dev_read i : 0 <= i → i * block_size d < size_in_bytes d →
    ∃ bs, read_block d i = Ret bs ∧ Z.of_nat (length bs) = block_size d ∧
      ∀ k, 0 <= k < block_size d → i * block_size d + k < size_in_bytes d →
        nth (Z.to_nat k) bs 0 = content (i * block_size d + k);
}.

(** A weaker promise, whatever the contents: a block is not longer than it says. *)
Class Fits (D : Type) `{BlockIO D} : Prop :=
  read_block_fits d i bs : read_block d i = Ret bs → Z.of_nat (length bs) <= Z.max 0 (block_size d).

(** ** Lemmas *)

Lemma slice_length content off len : 0 <= len → Z.of_nat (length (slice content off len)) = len.
Proof. intros. unfold slice. rewrite length_fmap, length_seq. lia. Qed.

Lemma slice_nil content off : slice content off 0 = [].
Proof. done. Qed.

Lemma slice_app content off n m :
  0 <= n → 0 <= m → slice content off (n + m) = slice content off n ++ slice content (off + n) m.
Proof.
  intros. unfold slice. rewrite Z2Nat.inj_add, seq_app, fmap_app by lia. f_equal.
  cbn. rewrite <- (Nat.add_0_r (Z.to_nat n)) at 1. rewrite <- fmap_add_seq, <- list_fmap_compose.
  apply list_fmap_ext. intros i x _. cbn. f_equal. lia.
Qed.

Lemma slice_lookup content off len k :
  0 <= k < len → nth (Z.to_nat k) (slice content off len) 0 = content (off + k).
Proof.
  intros. unfold slice.
  rewrite (nth_indep _ 0 (content (off + Z.of_nat 0))) by (rewrite length_fmap, length_seq; lia).
  rewrite (List.map_nth (λ i, content (off + Z.of_nat i)) (seq 0 (Z.to_nat len)) 0%nat).
  rewrite List.seq_nth by lia. f_equal. lia.
Qed.

Lemma list_eq_nth (l1 l2 : list Z) :
  length l1 = length l2 → (∀ k, (k < length l1)%nat → nth k l1 0 = nth k l2 0) → l1 = l2.
Proof. intros. apply (List.nth_ext _ _ 0 0); auto. Qed.

Section ReadSpec.
Context {D : Type} `{BlockIO D} (d : D) (content : Z → Z) (Hd : device_ok d content).

(** One call of [read] delivers a non-empty piece of the contents, as long as
    the end of the block, the end of the object and the request allow. *)
Lemma read_ok offset n :
  0 <= offset < size_in_bytes d → 0 < n < 4294967296 →
  ∃ cnt, read d offset n = Ret (cnt, slice content offset cnt) ∧
    0 < cnt <= n ∧ offset + cnt <= size_in_bytes d.
Proof.
  intros Hoff Hn. destruct (dev_block _ _ Hd), (dev_size _ _ Hd).
  unfold read. rewrite (proj2 (Z.ltb_ge _ _)), (proj2 (Z.eqb_neq _ _)) by lia.
  set (B := block_size d) in *. set (sz := size_in_bytes d) in *.
  rewrite (u32_small (sz - offset)) by (unfold is_u32; lia).
  assert (Hm : 0 <= offset mod B < B) by (apply Z.mod_pos_bound; lia).
  rewrite (u32_small (B - offset mod B)) by (unfold is_u32; lia).
  set (m := Z.min n (sz - offset)). set (a := Z.min (B - offset mod B) m).
  assert (Ha : 0 < a <= m) by lia. assert (Ham : offset + a <= sz) by lia.
  assert (Hab : offset mod B + a <= B) by lia.
  rewrite (u32_small (offset + a)), (u32_small (offset mod B + a)) by (unfold is_u32; lia).
  rewrite (proj2 (Z.leb_le a m)), (proj2 (Z.leb_le _ sz)), (proj2 (Z.leb_le _ B)) by lia. cbn.
  assert (Hdm : offset = offset / B * B + offset mod B) by (rewrite Z.mul_comm; apply Z.div_mod; lia).
  destruct (dev_read _ _ Hd (offset / B)) as (bs & -> & Hlen & Hbs);
    [apply Z.div_pos; lia|fold B sz; lia|]. fold B sz in Hlen, Hbs.
  exists a. split; [|lia].
  assert (Hpiece : take (Z.to_nat a) (drop (Z.to_nat (offset mod B)) bs) = slice content offset a).
  { pose proof (slice_length content offset a ltac:(lia)) as Hsl.
    apply list_eq_nth; [rewrite length_take, length_drop; lia|].
    rewrite length_take, length_drop. intros k Hk.
    rewrite List.nth_firstn, List.nth_skipn. rewrite (proj2 (Nat.ltb_lt _ _)) by lia.
    replace (Z.to_nat (offset mod B) + k)%nat with (Z.to_nat (offset mod B + Z.of_nat k)) by lia.
    rewrite Hbs by lia. rewrite <- (Nat2Z.id k) at 2. rewrite slice_lookup by lia. f_equal. lia. }
  destruct (Z.eqb_spec a B) as [E|]; cbn; [|by rewrite Hpiece].
  assert (offset mod B = 0) as Hz by lia. rewrite Hz in Hpiece |- *. cbn.
  rewrite <- Hpiece, drop_0, firstn_all2 by lia. done.
Qed.

Lemma read_all_loop_ok fuel offset n total buffer :
  0 <= offset <= size_in_bytes d → 0 <= n < 4294967296 → n <= Z.of_nat fuel →
  let k := Z.min n (size_in_bytes d - offset) in
  read_all_loop fuel d offset n total buffer =
    Ret (total + k, buffer ++ slice content offset k).
Proof.
  revert offset n total buffer. induction fuel as [|fuel IH]; intros offset n total buffer Ho Hn Hf k;
    cbn [read_all_loop].
  - rewrite (proj2 (Z.leb_le n 0)) by lia. assert (k = 0) as -> by lia.
    by rewrite slice_nil, app_nil_r, Z.add_0_r.
  - destruct (Z.leb_spec n 0).
    { assert (k = 0) as -> by lia. by rewrite slice_nil, app_nil_r, Z.add_0_r. }
    destruct (dev_size _ _ Hd) as [? Hsz].
    destruct (decide (offset = size_in_bytes d)) as [E|Hne].
    { unfold read. rewrite <- E, Z.ltb_irrefl, Z.eqb_refl. cbn. assert (k = 0) as -> by lia.
      by rewrite slice_nil, app_nil_r, Z.add_0_r. }
    destruct (read_ok offset n) as (cnt & -> & Hc & Hs); [lia..|]. cbn.
    rewrite (proj2 (Z.ltb_ge cnt 0)), (proj2 (Z.eqb_neq cnt 0)) by lia.
    rewrite !u32_small by (unfold is_u32; lia). rewrite IH by lia.
    replace k with (cnt + (k - cnt)) by lia. rewrite slice_app, app_assoc by lia.
    replace (Z.min (n - cnt) (size_in_bytes d - (offset + cnt))) with (k - cnt) by lia.
    f_equal. f_equal. lia.
Qed.

Lemma read_all_ok offset n :
  0 <= offset <= size_in_bytes d → 0 <= n < 4294967296 →
  let k := Z.min n (size_in_bytes d - offset) in
  read_all d offset n = Ret (k, slice content offset k).
Proof.
  intros Ho Hn k. unfold read_all. rewrite read_all_loop_ok by lia. done.
Qed.

Lemma read_object_ok offset n :
  0 <= offset → 0 <= n < 4294967296 → offset + n <= size_in_bytes d →
  read_object d offset n = Ret (slice content offset n).
Proof.
  intros. unfold read_object. rewrite read_all_ok by lia.
  rewrite Z.min_l by lia. cbn. by rewrite Z.eqb_refl.
Qed.

End ReadSpec.

(** *** Lengths *)

Section Lengths.
Context {D : Type} `{Fits D}.

Lemma read_fits d offset n cnt bs :
  read d offset n = Ret (cnt, bs) → 0 <= n →
  -1 <= cnt <= n ∧ Z.of_nat (length bs) <= Z.max 0 cnt.
Proof.
  unfold read. intros E Hn. destruct (size_in_bytes d <? offset); [injection E as <- <-; cbn; lia|].
  destruct (offset =? size_in_bytes d); [injection E as <- <-; cbn; lia|].
  pose proof (u32_range (size_in_bytes d - offset)) as [H1 _].
  pose proof (u32_range (block_size d - offset mod block_size d)) as [H2 _].
  set (a := Z.min (u32 (block_size d - _)) _) in *.
  apply bind_Ret_inv in E as (_ & _ & E). apply bind_Ret_inv in E as (_ & _ & E).
  destruct (Z.eqb_spec a (block_size d)) as [Ea|_];
    apply bind_Ret_inv in E as (_ & _ & E); apply bind_Ret_inv in E as (b & Eb & E); injection E as <- <-.
  - apply read_block_fits in Eb. lia.
  - rewrite length_take. lia.
Qed.

Lemma read_all_loop_fits fuel d offset n total buffer cnt bs :
  read_all_loop fuel d offset n total buffer = Ret (cnt, bs) → 0 <= total →
  Z.of_nat (length buffer) <= total →
  -1 <= cnt <= total + Z.max 0 n ∧ Z.of_nat (length bs) <= total + Z.max 0 n.
Proof.
  revert offset n total buffer. induction fuel as [|fuel IH]; intros offset n total buffer E Ht Hb;
    cbn [read_all_loop] in E.
  { destruct (n <=? 0); [|done]. injection E as <- <-. lia. }
  destruct (Z.leb_spec n 0); [injection E as <- <-; lia|].
  destruct (read d offset n) as [[c b]| | |] eqn:Er; [|done..].
  destruct (read_fits _ _ _ _ _ Er) as [Hc Hl]; [lia|]. cbn [mbind outcome_bind] in E.
  destruct (Z.ltb_spec c 0); [injection E as <- <-; lia|].
  destruct (c =? 0); [injection E as <- <-; lia|].
  assert (0 <= u32 (n - c) <= n - c) by (unfold u32; pose proof (Z.mod_le (n - c) 4294967296); zlia).
  apply IH in E; [lia|lia|]. rewrite length_app. lia.
Qed.

(** What [read_all] delivers has room in the buffer. *)
Lemma read_all_fits d offset n cnt bs :
  read_all d offset n = Ret (cnt, bs) →
  -1 <= cnt <= Z.max 0 n ∧ Z.of_nat (length bs) <= Z.max 0 n.
Proof. intros E. by apply read_all_loop_fits in E. Qed.

End Lengths.

(** A device with given contents: the reference implementation. *)
Record ByteDevice := MkByteDevice { bd_block : Z; bd_size : Z; bd_content : Z → Z }.

#[export] Instance ByteDevice_io : BlockIO ByteDevice := {|
  block_size := bd_block;
  size_in_bytes := bd_size;
  read_block d i := Ret (slice (bd_content d) (i * bd_block d) (bd_block d));
|}.

#[export] Instance ByteDevice_fits : Fits ByteDevice.
Proof.
  intros d i bs [= <-]. unfold slice. cbn. rewrite length_fmap, length_seq. lia.
Qed.

Lemma ByteDevice_ok d :
  0 < bd_block d < 2147483648 → is_u32 (bd_size d) → device_ok d (bd_content d).
Proof.
  intros Hb Hl. split; cbn; [done|done|]. intros i Hi Hlt.
  eexists. split; [done|]. split; [apply slice_length; lia|].
  intros k Hk _. by rewrite slice_lookup by lia.
Qed.

(** Past the end of the object nothing can be read. *)
Lemma read_all_past {D : Type} `{BlockIO D} (d : D) offset n :
  size_in_bytes d < offset → 0 < n → read_all d offset n = Ret (-1, []).
Proof.
  intros Hlt Hp. unfold read_all. replace (Z.to_nat n) with (S (Z.to_nat (n - 1))) by lia.
  cbn [read_all_loop]. rewrite (proj2 (Z.leb_gt n 0)) by lia. unfold read.
  by rewrite (proj2 (Z.ltb_lt _ _)) by lia.
Qed.

(** ** Properties *)

(** For every implementation of [BlockIO] that keeps the
    [read_block] promise, [read_all] terminates and returns the documented
    result: -1 when the offset is past the end and bytes are wanted, otherwise
    [min(n, size - offset)] together with exactly those bytes of the object,
    however the range straddles blocks. *)
Lemma read_all_spec {D : Type} `{BlockIO D} (d : D) (content : Z → Z) (offset n : Z)
    (Hd : device_ok d content) (Hoff : is_u32 offset) (Hn : is_u32 n) :
  read_all d offset n =
    if (size_in_bytes d <? offset) && (0 <? n) then Ret (-1, [])
    else let k := Z.max 0 (Z.min n (size_in_bytes d - offset)) in
         Ret (k, slice content offset k).
Proof.
  unfold is_u32 in *. destruct (Z.ltb_spec (size_in_bytes d) offset) as [Hlt|Hge]; cbn.
  - destruct (Z.ltb_spec 0 n) as [Hp|]; [by apply read_all_past|].
    assert (n = 0) as -> by lia. cbn. rewrite Z.max_l by lia. done.
  - rewrite (read_all_ok d content Hd) by lia. by rewrite Z.max_r by lia.
Qed.

Definition demo_dev : ByteDevice := MkByteDevice 16 100 (λ k, k).

Lemma read_all_spec_witness :
  read_all demo_dev 10 30 = Ret (30, slice (λ k, k) 10 30) ∧
  read_all demo_dev 101 1 = Ret (-1, []).
Proof.
  assert (Hd : device_ok demo_dev (λ k, k)) by (by apply (ByteDevice_ok demo_dev)).
  split; rewrite (read_all_spec demo_dev _ _ _ Hd) by done; reflexivity.
Defined.
