(* ===== verification/Libk.v ===== *)
(** * Kernel string and integer helpers: src/kernel/libk.h, libk.cc

    A [const char*] argument is the list of the bytes before and possibly after
    its terminator: reading past the end of the list reads the terminator. *)

From S2P Require Import Prelude.
Local Open Scope Z_scope.

Definition char_at (s : list Z) (i : nat) : Z := nth i s 0.

(** [K::strlen]. *)
Fixpoint strlen (s : list Z) : Z :=
  match s with
  | [] => 0
  | c :: s' => if c =? 0 then 0 else 1 + strlen s'
  end.

(** [K::isdigit]. *)
Definition isdigit (c : Z) : bool := (48 <=? c) && (c <=? 57).

(** [K::streq]: one iteration of the loop per recursive call. *)
Fixpoint streq (a b : list Z) : bool :=
  let x := char_at a 0 in
  let y := char_at b 0 in
  if negb (x =? y) then false
  else if x =? 0 then true
  else match a, b with
       | _ :: a', _ :: b' => streq a' b'
       | _, _ => true
       end.

(** The bytes of a string up to its terminator. *)
Fixpoint c_str (s : list Z) : list Z :=
  match s with
  | [] => []
  | c :: s' => if c =? 0 then [] else c :: c_str s'
  end.

Lemma strlen_c_str s : strlen s = Z.of_nat (length (c_str s)).
Proof.
  induction s as [|c s IH]; cbn [strlen c_str]; [done|].
  destruct (c =? 0); cbn [length]; lia.
Qed.

Lemma c_str_id s : 0 ∉ s → c_str s = s.
Proof.
  induction s as [|c s IH]; cbn; [done|]. intros H.
  destruct (Z.eqb_spec c 0) as [->|]; [set_solver|]. f_equal. apply IH. set_solver.
Qed.

(** [streq] decides equality of the C strings. *)
Lemma streq_spec a b : streq a b = bool_decide (c_str a = c_str b).
Proof.
  revert b. induction a as [|x a IH]; intros [|y b]; cbn [streq char_at nth c_str].
  - done.
  - destruct (Z.eqb_spec 0 y) as [<-|Hy]; cbn; [done|].
    destruct (Z.eqb_spec y 0); [congruence|]. by rewrite bool_decide_false.
  - destruct (Z.eqb_spec x 0) as [->|Hx]; cbn; [done|]. by rewrite bool_decide_false.
  - destruct (Z.eqb_spec x y) as [<-|Hxy]; cbn.
    + destruct (Z.eqb_spec x 0); [by rewrite bool_decide_true|]. rewrite IH.
      apply bool_decide_ext. split; congruence.
    + rewrite bool_decide_false; [done|]. destruct (Z.eqb_spec x 0), (Z.eqb_spec y 0); congruence.
Qed.
