(* ===== verification/Ext2.v ===== *)
(** * The file system: src/kernel/ext2.h, ext2.cc

    The on-disk structures are kept as the bytes read from the device, with the
    C++ field offsets.  Everything is parametric in the device [D] on which the
    file system resides, through the [BlockIO] interface; an i-node is itself a
    [BlockIO]. *)

From S2P Require Import Prelude Mem Libk BlockIO.
Local Open Scope Z_scope.

(** ** On-disk structures (field offsets of the C++ structs) *)

Module SuperBlock.
Definition size : Z := 140.
Definition inodes_count (b : list Z) : Z := field b 0 4.
Definition blocks_count (b : list Z) : Z := field b 4 4.
Definition log_block_size (b : list Z) : Z := field b 24 4.
Definition blocks_per_group (b : list Z) : Z := field b 32 4.
Definition inodes_per_group (b : list Z) : Z := field b 40 4.
Definition inode_size (b : list Z) : Z := field b 88 2.
End SuperBlock.

Module BlockGroup.
Definition size : Z := 32.
Definition inode_table (b : list Z) : Z := field b 8 4.
End BlockGroup.

Module NodeData.
Definition size : Z := 128.
Definition mode (b : list Z) : Z := field b 0 2.
Definition size_low (b : list Z) : Z := field b 4 4.
Definition nlinks (b : list Z) : Z := field b 26 2.
Definition n_sectors (b : list Z) : Z := field b 28 4.
Definition direct (b : list Z) (i : Z) : Z := field b (40 + 4 * Z.to_nat i) 4.
Definition indirect_1 (b : list Z) : Z := field b 88 4.
Definition get_type (b : list Z) : Z := Z.shiftr (mode b) 12.
Definition is_dir (b : list Z) : bool := get_type b =? 4.
Definition is_file (b : list Z) : bool := get_type b =? 8.
Definition is_symlink (b : list Z) : bool := get_type b =? 0xa.
End NodeData.

Definition SLASH : Z := 47.

Section Ext2.
Context {D : Type} `{BlockIO D}.

(** ** class Node *)

Record Node := MkNode {
  node_ide : D;
  number : Z;
  data : list Z;
  node_block_size : Z;
}.

Definition node_size (n : Node) : Z := NodeData.size_low (data n).

(** [Node::read_block]. *)
Definition node_read_block (n : Node) (index : Z) : outcome (list Z) :=
  let bs := node_block_size n in
  if bs / 512 =? 0 then Crash else
  _ ← ASSERT (index <? NodeData.n_sectors (data n) / (bs / 512))
        "index < data.n_sectors / (block_size / 512)";
  let refs_per_block := bs / 4 in
  block_index ←
    (if index <? 12 then Ret (NodeData.direct (data n) index)
     else if index <? u32 (12 + refs_per_block) then
       b ← read_object (node_ide n)
             (u32 (NodeData.indirect_1 (data n) * bs + (index - 12) * 4)) 4;
       Ret (le b)
     else Panic "index = %d");
  '(cnt, buffer) ← read_all (node_ide n) (u32 (block_index * bs)) bs;
  _ ← ASSERT (cnt =? bs) "cnt == block_size";
  Ret buffer.

#[export] Instance Node_io : BlockIO Node := {|
  block_size := node_block_size;
  size_in_bytes := node_size;
  read_block := node_read_block;
|}.

#[export] Instance Node_fits `{!Fits D} : Fits Node.
Proof.
  intros n i bs E. cbn [read_block block_size Node_io] in *. unfold node_read_block in E.
  destruct (node_block_size n / 512 =? 0); [done|]. apply bind_Ret_inv in E as (_ & _ & E). apply bind_Ret_inv in E as (b & _ & E).
  apply bind_Ret_inv in E as ([cnt buffer] & Er & E). apply bind_Ret_inv in E as (_ & _ & E).
  injection E as <-. apply (read_all_fits _ _ _ _ _ Er).
Qed.

Definition is_dir (n : Node) : bool := NodeData.is_dir (data n).
Definition is_file (n : Node) : bool := NodeData.is_file (data n).
Definition is_symlink (n : Node) : bool := NodeData.is_symlink (data n).
Definition n_links (n : Node) : Z := NodeData.nlinks (data n).

(** [Node::get_symbol]: short targets are stored in the i-node itself. *)
Definition get_symbol (n : Node) : outcome (list Z) :=
  _ ← ASSERT (is_symlink n) "is_symlink()";
  let sz := node_size n in
  if sz <=? 60 then Ret (take (Z.to_nat sz) (drop 40 (data n)))
  else
    '(cnt, buffer) ← read_all n 0 sz;
    _ ← ASSERT (cnt =? sz) "cnt == sz";
    Ret buffer.

(** [Node::entries(work)]: [work] is called on every directory entry in order;
    it updates an accumulator.  An entry whose length field is 0 makes the C++
    loop diverge; any other entry advances, so [size_low] iterations suffice. *)
Fixpoint entries_loop {A} (fuel : nat) (work : A → Z → list Z → A) (n : Node) (offset : Z) (a : A)
  : outcome A :=
  if offset <? node_size n then
    match fuel with
    | O => OutOfFuel
    | S fuel' =>
        inode ← read_object n offset 4;
        total_size ← read_object n (u32 (offset + 4)) 2;
        name_length ← read_object n (u32 (offset + 6)) 1;
        '(cnt, name) ← read_all n (u32 (offset + 8)) (le name_length);
        _ ← ASSERT (cnt =? le name_length) "cnt == name_length";
        entries_loop fuel' work n (u32 (offset + le total_size)) (work a (le inode) name)
    end
  else Ret a.

Definition entries {A} (work : A → Z → list Z → A) (n : Node) (a : A) : outcome A :=
  _ ← ASSERT (is_dir n) "is_dir()";
  entries_loop (Z.to_nat (node_size n)) work n 0 a.

(** [Node::find]. *)
Definition node_find (n : Node) (name : list Z) : outcome Z :=
  entries (λ out number nm, if streq name nm then number else out) n 0.

Definition entry_count (n : Node) : outcome Z :=
  _ ← ASSERT (is_dir n) "is_dir()";
  entries (λ count _ _, u32 (count + 1)) n 0.

(** ** class Ext2 *)

Record Ext2 := MkExt2 {
  ide : D;
  blockSize : Z;
  numberOfNodes : Z;
  numberOfBlocks : Z;
  iNodeSize : Z;
  nGroups : Z;
  iNodeTables : list Z;
  iNodesPerGroup : Z;
}.

Definition get_node (fs : Ext2) (number : Z) : outcome Node :=
  _ ← ASSERT (0 <? number) "number > 0";
  _ ← ASSERT (number <=? numberOfNodes fs) "number <= numberOfNodes";
  let index := number - 1 in
  if iNodesPerGroup fs =? 0 then Crash else
  let groupIndex := index / iNodesPerGroup fs in
  _ ← ASSERT (groupIndex <? nGroups fs) "groupIndex < nGroups";
  let indexInGroup := index mod iNodesPerGroup fs in
  iTableBase ← deref (iNodeTables fs !! Z.to_nat groupIndex);
  _ ← ASSERT (iTableBase <=? numberOfBlocks fs) "iTableBase <= numberOfBlocks";
  let nodeOffset := u32 (iTableBase * blockSize fs + indexInGroup * iNodeSize fs) in
  b ← read_object (ide fs) nodeOffset NodeData.size;
  Ret (MkNode (ide fs) number b (blockSize fs)).

(** The [i]-th element of the group table. *)
Definition group_entry (table : list Z) (i : nat) : list Z := take 32 (drop (32 * i) table).

(** The constructor [Ext2::Ext2(ide)]: the file system and its root node. *)
Definition mount (d : D) : outcome (Ext2 * Node) :=
  sb ← read_object d 1024 SuperBlock.size;
  let blockSize := u32 (Z.shiftl 1 (SuperBlock.log_block_size sb + 10)) in
  let bpg := SuperBlock.blocks_per_group sb in
  let blocks := SuperBlock.blocks_count sb in
  if bpg =? 0 then Crash else
  let nGroups := u32 (u32 (blocks + bpg) - 1) / bpg in
  _ ← ASSERT (blocks <=? u32 (nGroups * bpg)) "nGroups * sb.blocks_per_group >= sb.blocks_count";
  if blockSize =? 0 then Crash else
  let superBlockNumber := 1024 / blockSize in
  let groupTableNumber := superBlockNumber + 1 in
  let groupTableSize := u32 (BlockGroup.size * nGroups) in
  '(cnt, groupTable) ← read_all d (u32 (groupTableNumber * blockSize)) groupTableSize;
  _ ← ASSERT (cnt =? groupTableSize) "cnt == groupTableSize";
  let iNodeTables :=
    (λ i, BlockGroup.inode_table (group_entry groupTable i)) <$> seq 0 (Z.to_nat nGroups) in
  let fs := MkExt2 d blockSize (SuperBlock.inodes_count sb) blocks
              (SuperBlock.inode_size sb) nGroups iNodeTables (SuperBlock.inodes_per_group sb) in
  root ← get_node fs 2;
  Ret (fs, root).

(** [while (path[idx] == '/') idx++]. *)
Fixpoint skip_slashes (path : list Z) : list Z :=
  match path with
  | c :: path' => if c =? SLASH then skip_slashes path' else path
  | [] => []
  end.

(** The inner loop of [find]: copy the component into [part], which holds 256
    characters. *)
Fixpoint component (path : list Z) (i : Z) : outcome (list Z * list Z) :=
  match path with
  | [] => Ret ([], [])
  | c :: path' =>
      if (c =? 0) || (c =? SLASH) then Ret ([], path)
      else
        _ ← ASSERT (i <? 256) "i < 256";
        '(part, rest) ← component path' (i + 1);
        Ret (c :: part, rest)
  end.

(** [Ext2::find(current, path)]; [None] is the null reference. *)
Fixpoint find_loop (fuel : nat) (fs : Ext2) (current : option Node) (path : list Z)
  : outcome (option Node) :=
  let path := skip_slashes path in
  match current with
  | None => Ret None
  | Some node =>
      if char_at path 0 =? 0 then Ret (Some node) else
      match fuel with
      | O => OutOfFuel
      | S fuel' =>
          '(part, rest) ← component path 0;
          number ← node_find node part;
          if number =? 0 then Ret None
          else
            next ← get_node fs number;
            find_loop fuel' fs (Some next) rest
      end
  end.

Definition find (fs : Ext2) (current : option Node) (path : list Z) : outcome (option Node) :=
  find_loop (length path) fs current path.

End Ext2.
Arguments Node : clear implicits.
Arguments Ext2 : clear implicits.

(** ** The contents of a file

    [block_no] is the block map of an i-node (twelve direct blocks, then one
    indirect block), read through the device contents [disk]; [node_content]
    gives the byte of the file at each offset. *)

Section Contents.
Context {D : Type} `{BlockIO D} (disk : Z → Z).

Definition block_no (n : Node D) (i : Z) : Z :=
  if i <? 12 then NodeData.direct (data n) i
  else le (slice disk (NodeData.indirect_1 (data n) * node_block_size n + (i - 12) * 4) 4).

Definition node_content (n : Node D) (off : Z) : Z :=
  disk (block_no n (off / node_block_size n) * node_block_size n + off mod node_block_size n).

(** An i-node whose blocks exist: the size is covered by the block map and the
    sector count, and every block of the map lies on the device. *)
Record node_wf (n : Node D) : Prop := NodeWf {
  nw_dev : device_ok (node_ide n) disk;
  nw_bs : 512 <= node_block_size n < 2147483648;
  nw_max : node_size n <= (12 + node_block_size n / 4) * node_block_size n;
  nw_sectors i : 0 <= i → i * node_block_size n < node_size n →
    i < NodeData.n_sectors (data n) / (node_block_size n / 512);
  nw_indirect : 12 * node_block_size n < node_size n →
    (NodeData.indirect_1 (data n) + 1) * node_block_size n <= size_in_bytes (node_ide n);
  nw_blocks i : 0 <= i → i * node_block_size n < node_size n →
    (block_no n i + 1) * node_block_size n <= size_in_bytes (node_ide n);
}.

(** A directory holds, one after the other from [off] to its end, the entries
    [(inode, record length, name)]. *)
Fixpoint dir_layout (content : Z → Z) (size off : Z) (es : list (Z * Z * list Z)) : Prop :=
  match es with
  | [] => size <= off
  | (inode, rec_len, name) :: es' =>
      off + 8 + Z.of_nat (length name) <= size ∧
      off < off + rec_len < 4294967296 ∧
      inode = le (slice content off 4) ∧
      rec_len = le (slice content (off + 4) 2) ∧
      Z.of_nat (length name) = le (slice content (off + 6) 1) ∧
      name = slice content (off + 8) (Z.of_nat (length name)) ∧
      dir_layout content size (off + rec_len) es'
  end.

End Contents.

(** The i-number the last entry with the given name leads to, 0 if none. *)
Definition last_entry (name : list Z) (es : list (Z * Z * list Z)) : Z :=
  foldl (λ out '(inode, _, nm), if streq name nm then inode else out) 0 es.

(** Path components: maximal runs of characters other than [/] before the
    terminator. *)
Definition flush (word : list Z) : list (list Z) :=
  match word with [] => [] | _ => [word] end.

Fixpoint words (acc path : list Z) : list (list Z) :=
  match path with
  | [] => flush acc
  | c :: path' => if c =? SLASH then flush acc ++ words [] path' else words (acc ++ [c]) path'
  end.

Definition components (path : list Z) : list (list Z) := words [] (c_str path).

(** Looking the components up one by one. *)
Fixpoint resolve {D} `{BlockIO D} (fs : Ext2 D) (node : Node D) (cs : list (list Z))
  : outcome (option (Node D)) :=
  match cs with
  | [] => Ret (Some node)
  | c :: cs' =>
      _ ← ASSERT (Z.of_nat (length c) <=? 256) "i < 256";
      number ← node_find node c;
      if number =? 0 then Ret None
      else next ← get_node fs number; resolve fs next cs'
  end.

(** ** Lemmas *)

Lemma le_range bs : 0 <= le bs < 256 ^ Z.of_nat (length bs).
Proof.
  induction bs as [|b bs IH]; cbn [le length]; [lia|].
  pose proof (u8_range b). rewrite Nat2Z.inj_succ, Z.pow_succ_r by lia. lia.
Qed.

Lemma field_u32 bs off : is_u32 (field bs off 4).
Proof.
  unfold is_u32, field. pose proof (le_range (take 4 (drop off bs))) as Hr.
  assert (256 ^ Z.of_nat (length (take 4 (drop off bs))) <= 256 ^ 4).
  { apply Z.pow_le_mono_r; [lia|]. rewrite length_take. lia. }
  change (256 ^ 4) with 4294967296 in *. lia.
Qed.

Lemma le_u32 bs : length bs = 4%nat → is_u32 (le bs).
Proof. intros E. unfold is_u32. pose proof (le_range bs) as Hr. rewrite E in Hr. apply Hr. Qed.

Section NodeSpec.
Context {D : Type} `{BlockIO D} (disk : Z → Z).

Lemma block_no_u32 (n : Node D) i : is_u32 (block_no disk n i).
Proof.
  unfold block_no, NodeData.direct. destruct (i <? 12); [apply field_u32|].
  by apply le_u32.
Qed.

(** The block index computed by [Node::read_block] is the block map's. *)
Lemma node_read_block_ok (n : Node D) i :
  node_wf disk n → 0 <= i → i * node_block_size n < node_size n →
  node_read_block n i =
    Ret (slice disk (block_no disk n i * node_block_size n) (node_block_size n)).
Proof.
  intros [Hdev Hbs Hmax Hsec Hind Hblk] Hi Hlt. unfold node_read_block.
  set (bs := node_block_size n) in *.
  assert (Hq : 1 <= bs / 512) by zlia. rewrite (proj2 (Z.eqb_neq _ _)) by lia.
  rewrite (proj2 (Z.ltb_lt i _) (Hsec i Hi Hlt)). cbn.
  pose proof (dev_size _ _ Hdev) as [_ Hsz]. pose proof (Hblk i Hi Hlt) as Hb.
  assert (Hidx : (if i <? 12 then Ret (NodeData.direct (data n) i)
     else if i <? u32 (12 + bs / 4) then
       b ← read_object (node_ide n)
             (u32 (NodeData.indirect_1 (data n) * bs + (i - 12) * 4)) 4; Ret (le b)
     else Panic "index = %d") = Ret (block_no disk n i)).
  { unfold block_no. destruct (Z.ltb_spec i 12); [done|].
    assert (i < 12 + bs / 4) by nia.
    rewrite u32_small by (unfold is_u32; zlia). rewrite (proj2 (Z.ltb_lt _ _)) by lia.
    specialize (Hind ltac:(nia)). fold bs.
    assert (0 <= NodeData.indirect_1 (data n)) by apply field_u32.
    assert (4 * (i - 12) + 4 <= bs) by zlia.
    rewrite u32_small by (unfold is_u32; nia).
    by rewrite (read_object_ok _ disk Hdev) by nia. }
  pose proof (block_no_u32 n i) as [Hb0 _].
  cbn in Hidx |- *. rewrite Hidx. cbn.
  rewrite u32_small by (unfold is_u32; nia).
  rewrite (read_all_ok _ disk Hdev) by nia. rewrite Z.min_l by nia. cbn.
  by rewrite Z.eqb_refl.
Qed.

(** A well-formed i-node keeps the promise of [BlockIO]. *)
Lemma node_device_ok (n : Node D) : node_wf disk n → device_ok n (node_content disk n).
Proof.
  intros Hn. split; cbn.
  - pose proof (nw_bs _ _ Hn). lia.
  - apply field_u32.
  - intros i Hi Hlt. rewrite (node_read_block_ok n i Hn Hi Hlt).
    eexists. split; [done|]. pose proof (nw_bs _ _ Hn). split; [apply slice_length; lia|].
    intros k Hk Hks. rewrite slice_lookup by lia. unfold node_content.
    rewrite Z.div_add_l, (Z.add_comm (i * _) k), Z.mod_add by lia.
    by rewrite Z.div_small, Z.mod_small, Z.add_0_r by lia.
Qed.

(** [entries] visits the entries of a directory in order. *)
Lemma entries_loop_ok {A} (work : A → Z → list Z → A) (n : Node D) content es fuel off a :
  device_ok n content → 0 <= off → dir_layout content (node_size n) off es →
  node_size n - off <= Z.of_nat fuel →
  entries_loop fuel work n off a = Ret (foldl (λ a '(inode, _, nm), work a inode nm) a es).
Proof.
  intros Hd. revert es off a. induction fuel as [|fuel IH]; intros es off a Ho Hl Hf;
    cbn [entries_loop].
  - rewrite (proj2 (Z.ltb_ge _ _)) by lia. destruct es as [|[[i r] nm] es]; [done|].
    cbn in Hl. lia.
  - destruct es as [|[[inode rec_len] name] es]; cbn [dir_layout] in Hl.
    { by rewrite (proj2 (Z.ltb_ge _ _)) by lia. }
    destruct Hl as (Hsz & Hrec & Hino & Hrl & Hnl & Hnm & Hl).
    pose proof (dev_size _ _ Hd) as Hu. change (size_in_bytes n) with (node_size n) in Hu.
    unfold is_u32 in Hu.
    rewrite (proj2 (Z.ltb_lt _ _)) by lia.
    rewrite !u32_small by (unfold is_u32; lia).
    rewrite (read_object_ok n content Hd off 4) by (cbn [size_in_bytes Node_io]; lia).
    rewrite (read_object_ok n content Hd (off + 4) 2) by (cbn [size_in_bytes Node_io]; lia).
    rewrite (read_object_ok n content Hd (off + 6) 1) by (cbn [size_in_bytes Node_io]; lia).
    cbn [mbind outcome_bind]. rewrite <- Hnl.
    rewrite (read_all_ok n content Hd) by (cbn [size_in_bytes Node_io]; lia).
    cbn [size_in_bytes Node_io]. rewrite Z.min_l by lia. cbn [mbind outcome_bind].
    rewrite Z.eqb_refl, <- Hnm, <- Hino, <- Hrl. cbn [ASSERT].
    rewrite u32_small by (unfold is_u32; lia). cbn [foldl].
    apply IH; [lia|done|lia].
Qed.

Lemma entries_ok {A} (work : A → Z → list Z → A) (n : Node D) content es a :
  device_ok n content → is_dir n = true → dir_layout content (node_size n) 0 es →
  entries work n a = Ret (foldl (λ a '(inode, _, nm), work a inode nm) a es).
Proof.
  intros Hd Hdir Hl. unfold entries. rewrite Hdir. cbn.
  eapply entries_loop_ok; [done|lia|done|]. pose proof (dev_size _ _ Hd) as [? ?]. cbn in *. lia.
Qed.

End NodeSpec.

Lemma c_str_cons c p : c ≠ 0 → c_str (c :: p) = c :: c_str p.
Proof. intros. cbn. by rewrite (proj2 (Z.eqb_neq c 0)). Qed.

Lemma words_skip p : words [] (c_str (skip_slashes p)) = words [] (c_str p).
Proof.
  induction p as [|c p IH]; cbn [skip_slashes]; [done|].
  destruct (Z.eqb_spec c SLASH) as [->|]; [|done]. rewrite IH.
  rewrite c_str_cons by done. done.
Qed.

Definition plain (c : Z) : Prop := c ≠ 0 ∧ c ≠ SLASH.

(** [component] splits off a maximal run of plain characters. *)
Lemma component_spec p i :
  ∃ w rest, p = w ++ rest ∧ Forall plain w ∧
    (rest = [] ∨ ∃ c r, rest = c :: r ∧ (c = 0 ∨ c = SLASH)) ∧
    component p i = (if bool_decide (w = []) || (i + Z.of_nat (length w) <=? 256)
                     then Ret (w, rest) else Panic "i < 256").
Proof.
  revert i. induction p as [|c p IH]; intros i; cbn [component].
  { exists [], []. repeat split; [by constructor|by left]. }
  destruct (Z.eqb_spec c 0) as [->|H0]; cbn [orb].
  { exists [], (0 :: p). repeat split; [by constructor|right; eauto]. }
  destruct (Z.eqb_spec c SLASH) as [->|H1].
  { exists [], (SLASH :: p). repeat split; [by constructor|right; eauto]. }
  destruct (IH (i + 1)) as (w & rest & -> & Hw & Hr & ->).
  exists (c :: w), rest. split; [done|]. split; [by constructor|]. split; [done|].
  rewrite (bool_decide_false (c :: w = [])) by done. cbn [orb length].
  destruct (Z.ltb_spec i 256) as [Hi|Hi]; cbn [ASSERT mbind outcome_bind].
  - destruct w as [|d w]; cbn [length orb].
    + rewrite bool_decide_true by done. cbn. rewrite (proj2 (Z.leb_le _ _)) by lia. done.
    + rewrite bool_decide_false by done. cbn [orb].
      destruct (Z.leb_spec (i + 1 + Z.of_nat (S (length w))) 256),
        (Z.leb_spec (i + Z.of_nat (S (S (length w)))) 256); done || lia.
  - by rewrite (proj2 (Z.leb_gt _ _)) by lia.
Qed.

Lemma words_plain acc w p : Forall plain w → words acc (c_str (w ++ p)) = words (acc ++ w) (c_str p).
Proof.
  revert acc. induction w as [|c w IH]; intros acc Hw; cbn [app]; [by rewrite app_nil_r|].
  apply Forall_cons in Hw as [[H0 H1] Hw]. rewrite c_str_cons by done. cbn [words].
  rewrite (proj2 (Z.eqb_neq c SLASH)) by done. rewrite IH by done. by rewrite <- app_assoc.
Qed.

Lemma components_split w rest :
  Forall plain w → w ≠ [] → (rest = [] ∨ ∃ c r, rest = c :: r ∧ (c = 0 ∨ c = SLASH)) →
  components (w ++ rest) = w :: components rest.
Proof.
  intros Hw Hne Hr. unfold components. rewrite words_plain by done. cbn [app].
  assert (flush w = [w]) as Hfl by (by destruct w).
  destruct Hr as [->|(c & r & -> & [->| ->])]; cbn [c_str words].
  - done.
  - done.
  - cbn. by rewrite Hfl.
Qed.

(** [find] looks the components up one by one. *)
Lemma find_loop_ok {D} `{BlockIO D} (fs : Ext2 D) fuel node path :
  (length path <= fuel)%nat →
  find_loop fuel fs (Some node) path = resolve fs node (components path).
Proof.
  revert node path. induction fuel as [|fuel IH]; intros node path Hlen.
  { destruct path; [done|cbn in Hlen; lia]. }
  cbn [find_loop]. set (q := skip_slashes path).
  assert (Hc : components path = components q) by (symmetry; apply words_skip).
  assert (Hq : (length q <= length path)%nat ∧ char_at q 0 ≠ SLASH).
  { unfold q. clear. induction path as [|c p IH]; cbn [skip_slashes]; [by cbn|].
    destruct (Z.eqb_spec c SLASH); cbn [length char_at nth]; [|lia].
    destruct IH. split; [lia|done]. }
  destruct Hq as [Hql Hqs]. rewrite Hc. clearbody q. clear Hc.
  destruct (Z.eqb_spec (char_at q 0) 0) as [E|E].
  { destruct q as [|c q]; [done|]. cbn in E. by subst. }
  destruct (component_spec q 0) as (w & rest & -> & Hw & Hr & ->).
  assert (Hwne : w ≠ []).
  { intros ->. destruct Hr as [->|(c & r & -> & [->| ->])]; cbn in *; congruence. }
  rewrite components_split by done. rewrite bool_decide_false by done.
  cbn [orb resolve]. rewrite Z.add_0_l.
  destruct (Z.of_nat (length w) <=? 256); [|done]. cbn [ASSERT mbind outcome_bind].
  destruct (node_find node w) as [num| | |]; try done. cbn [mbind outcome_bind].
  destruct (num =? 0); [done|]. destruct (get_node fs num) as [next| | |]; try done.
  cbn [mbind outcome_bind]. apply IH. rewrite length_app in Hql.
  destruct w; [done|]. cbn in Hql. lia.
Qed.

(** ** Properties *)

(** C8 (refinement): reading a well-formed i-node through [BlockIO::read_all]
    returns the bytes its block map designates on the device, direct and
    indirect blocks alike, cut at the file size: the class [Node] keeps the
    promise of the interface it implements. *)
Theorem node_read_all_contents {D : Type} `{BlockIO D} (disk : Z → Z) (n : Node D) (off k : Z)
    (Hn : node_wf disk n) (Hoff : 0 <= off <= node_size n) (Hk : is_u32 k) :
  read_all n off k = Ret (Z.min k (node_size n - off),
    (λ i, let o := off + Z.of_nat i in
          disk (block_no disk n (o / node_block_size n) * node_block_size n
                + o mod node_block_size n))
      <$> seq 0 (Z.to_nat (Z.min k (node_size n - off)))).
Proof. by apply (read_all_ok n (node_content disk n) (node_device_ok disk n Hn)). Qed.

(** C9 (functional): on a directory laid out as a sequence of entries,
    [Node::find] returns the i-number of the last entry with that name and 0
    when there is none, and [entry_count] returns the number of entries. *)
Theorem directory_lookup {D : Type} `{BlockIO D} (disk : Z → Z) (n : Node D) (name : list Z)
    (es : list (Z * Z * list Z))
    (Hn : node_wf disk n) (Hdir : is_dir n = true)
    (Hl : dir_layout (node_content disk n) (node_size n) 0 es) :
  node_find n name = Ret (last_entry name es) ∧
  entry_count n = Ret (u32 (Z.of_nat (length es))).
Proof.
  pose proof (node_device_ok disk n Hn) as Hd. split.
  - unfold node_find. rewrite (entries_ok _ n _ es _ Hd Hdir Hl). done.
  - unfold entry_count. rewrite Hdir. cbn [ASSERT mbind outcome_bind].
    rewrite (entries_ok _ n _ es _ Hd Hdir Hl). f_equal.
    enough (∀ c, 0 <= c → foldl (λ (a : Z) '(_, _, _), u32 (a + 1)) (u32 c) es
                          = u32 (c + Z.of_nat (length es))) as E
      by (specialize (E 0 ltac:(lia)); cbn [Z.add] in E; exact E).
    clear. induction es as [|[[i r] nm] es IH]; intros c Hc; cbn [foldl length].
    + by rewrite Z.add_0_r.
    + replace (u32 (u32 c + 1)) with (u32 (c + 1)) by (unfold u32; zlia).
      rewrite IH by lia. f_equal. lia.
Qed.

(** [Ext2::find] terminates and agrees with looking up the
    [/]-separated components of the path one directory at a time; repeated,
    leading and trailing slashes are irrelevant, a missing component gives the
    null reference, and a component longer than 256 characters panics. *)
Lemma find_resolves_components {D : Type} `{BlockIO D} (fs : Ext2 D) (node : Node D)
    (path : list Z) :
  find fs (Some node) path = resolve fs node (components path).
Proof. by apply find_loop_ok. Qed.

(** (error) [Ext2::get_node] panics exactly on the i-numbers outside the
    file system (0 and those past [numberOfNodes]); for the others it reads the
    128 bytes of the i-node from its group's table. *)
Theorem get_node_spec {D : Type} `{BlockIO D} (disk : Z → Z) (fs : Ext2 D) (num : Z)
    (Hdev : device_ok (ide fs) disk) (Hnum : is_u32 num)
    (Hg : 0 < iNodesPerGroup fs) (Htab : Z.of_nat (length (iNodeTables fs)) = nGroups fs)
    (Hcov : numberOfNodes fs <= nGroups fs * iNodesPerGroup fs)
    (Hbs : 0 <= blockSize fs) (His : 128 <= iNodeSize fs)
    (Hon : ∀ b, b ∈ iNodeTables fs → 0 <= b <= numberOfBlocks fs ∧
       b * blockSize fs + iNodesPerGroup fs * iNodeSize fs <= size_in_bytes (ide fs)) :
  if (0 <? num) && (num <=? numberOfNodes fs) then
    ∃ b, iNodeTables fs !! Z.to_nat ((num - 1) / iNodesPerGroup fs) = Some b ∧
      get_node fs num = Ret (MkNode (ide fs) num
        (slice disk (b * blockSize fs + (num - 1) mod iNodesPerGroup fs * iNodeSize fs) 128)
        (blockSize fs))
  else ∃ why, get_node fs num = Panic why.
Proof.
  unfold get_node. destruct (Z.ltb_spec 0 num); cbn [andb ASSERT mbind outcome_bind]; [|by eexists].
  destruct (Z.leb_spec num (numberOfNodes fs)); cbn [ASSERT mbind outcome_bind]; [|by eexists].
  rewrite (proj2 (Z.eqb_neq _ _)) by lia.
  set (g := iNodesPerGroup fs) in *. set (q := (num - 1) / g). set (r := (num - 1) mod g).
  assert (Hq : 0 <= q < nGroups fs).
  { split; [apply Z.div_pos; lia|]. apply Z.div_lt_upper_bound; lia. }
  rewrite (proj2 (Z.ltb_lt q _)) by lia. cbn [ASSERT mbind outcome_bind].
  destruct (lookup_lt_is_Some_2 (iNodeTables fs) (Z.to_nat q)) as [b Hb]; [lia|].
  exists b. rewrite Hb. split; [done|]. cbn [deref mbind outcome_bind].
  destruct (Hon b) as [Hbr Hbo]; [by eapply list_elem_of_lookup_2|].
  rewrite (proj2 (Z.leb_le b _)) by lia. cbn [ASSERT mbind outcome_bind].
  assert (0 <= r < g) by (apply Z.mod_pos_bound; lia).
  pose proof (dev_size _ _ Hdev) as [_ Hsz].
  rewrite u32_small by (unfold is_u32; nia).
  by rewrite (read_object_ok _ disk Hdev) by (unfold NodeData.size; nia).
Qed.

(** ** Witnesses: a directory with two entries in block 5 of a small disk *)

Definition demo_dir_bytes : list Z :=
  [2; 0; 0; 0; 12; 0; 1; 2; 46; 0; 0; 0;
   11; 0; 0; 0; 244; 3; 1; 1; 97; 0; 0; 0].

Definition demo_disk (o : Z) : Z := nth (Z.to_nat (o - 5120)) (if o <? 5120 then [] else demo_dir_bytes) 0.

Definition demo_ide : ByteDevice := MkByteDevice 512 8192 demo_disk.

(** mode 0x41ed, 1024 bytes, 2 sectors, first block 5 *)
Definition demo_dir_node : Node ByteDevice :=
  MkNode demo_ide 2
    ([0xed; 0x41; 0; 0; 0; 4; 0; 0] ++ replicate 20 0 ++ [2; 0; 0; 0] ++ replicate 8 0 ++
     [5; 0; 0; 0] ++ replicate 84 0) 1024.

Lemma demo_dir_wf : node_wf demo_disk demo_dir_node.
Proof.
  assert (Hi : ∀ i, 0 <= i → i * 1024 < 1024 → i = 0) by lia.
  split; try (intros i Hi0 Hlt; cbn in Hlt; apply Hi in Hlt as ->; [|done]); try by vm_compute.
  - by apply (ByteDevice_ok demo_ide).
Qed.

Definition demo_fs : Ext2 ByteDevice := MkExt2 demo_ide 1024 16 8 128 1 [1] 16.

Lemma node_read_all_contents_witness :
  read_all demo_dir_node 12 4 = Ret (4, [11; 0; 0; 0]).
Proof.
  rewrite (node_read_all_contents demo_disk demo_dir_node 12 4 demo_dir_wf) by (vm_compute; done).
  vm_compute. reflexivity.
Defined.

Lemma directory_lookup_witness :
  node_find demo_dir_node [97] = Ret 11 ∧ node_find demo_dir_node [98] = Ret 0.
Proof.
  assert (Hl : dir_layout (node_content demo_disk demo_dir_node) (node_size demo_dir_node) 0
                 [(2, 12, [46]); (11, 1012, [97])]) by (vm_compute; intuition congruence).
  split.
  - apply (directory_lookup demo_disk demo_dir_node [97] _ demo_dir_wf eq_refl Hl).
  - apply (directory_lookup demo_disk demo_dir_node [98] _ demo_dir_wf eq_refl Hl).
Defined.

Lemma get_node_spec_witness :
  get_node demo_fs 3 = Ret (MkNode demo_ide 3 (slice demo_disk 1280 128) 1024).
Proof.
  assert (Hg := get_node_spec demo_disk demo_fs 3 (ByteDevice_ok demo_ide ltac:(done) ltac:(done))
    ltac:(done) ltac:(done) ltac:(done) ltac:(done) ltac:(done) ltac:(done)).
  destruct Hg as (b & Hb & E).
  - intros b Hb. apply list_elem_of_singleton in Hb as ->. by cbn.
  - cbn in Hb. injection Hb as <-. exact E.
Defined.
