(* ===== verification/Vmm.v ===== *)
(** * Memory mappings: namespace VMM and vmm_pageFault of src/kernel/vmm.cc, vmm.h

    A process keeps the list [entry_list] of its mapped regions ([VMEntry]); the
    frames of shared file mappings are recorded in the global list [node_list]
    ([NodeEntry]).  The node entries are reached through pointers (from the
    global list and from the [node] field of the regions of every process), so
    they live in a heap [nodes]; a region is reached only through the list of
    its process, so that list is a Rocq list.  The [VMEntry] constructor leaves
    the field [node] uninitialised: the value found in the fresh object is the
    argument [garbage] of [mmap]. *)

From S2P Require Import Prelude Mem Config PhysMem Paging BlockIO Ext2.
Local Open Scope Z_scope.

(** ** What the memory manager needs of a file *)

Class FileNode (F : Type) := {
  file_io :: BlockIO F;
  number_of : F → Z;
}.

#[export] Instance Node_file {D} `{BlockIO D} : FileNode (@Node D) := {|
  file_io := Node_io;
  number_of := number;
|}.

Section Vmm.
Context {F : Type} `{FileNode F} (kConfig : Config).

(** ** Data *)

Definition loc := nat.

(** struct NodeEntry *)
Record NodeEntry := MkNodeEntry {
  ne_file : F;
  num_processes : Z;
  ne_pa : Z;
  ne_next : option loc;
}.

(** struct VMEntry *)
Record VMEntry := MkVMEntry {
  file : option F;
  size : Z;
  starting_address : Z;
  offset : Z;
  flags : Z;
  prot : Z;
  node : option loc;
}.

(** The state shared by all processes. *)
Record vmm := MkVmm {
  vm_mach : mach;
  nodes : gmap loc NodeEntry;
  node_list : option loc;
}.

Definition set_mach (m : mach) (s : vmm) : vmm := MkVmm m (nodes s) (node_list s).

Definition set_node (l : loc) (n : NodeEntry) (s : vmm) : vmm :=
  MkVmm (vm_mach s) (<[l := n]> (nodes s)) (node_list s).

Definition set_node_list (p : option loc) (s : vmm) : vmm := MkVmm (vm_mach s) (nodes s) p.

(** [*p] for a [NodeEntry* p]. *)
Definition load_node (p : option loc) (s : vmm) : outcome NodeEntry :=
  l ← deref p; deref (nodes s !! l).

Definition with_count (c : Z) (n : NodeEntry) : NodeEntry :=
  MkNodeEntry (ne_file n) (u32 c) (ne_pa n) (ne_next n).

Definition with_next (p : option loc) (n : NodeEntry) : NodeEntry :=
  MkNodeEntry (ne_file n) (num_processes n) (ne_pa n) p.

Definition with_node (p : option loc) (e : VMEntry) : VMEntry :=
  MkVMEntry (file e) (size e) (starting_address e) (offset e) (flags e) (prot e) p.

Definition end_of (e : VMEntry) : Z := u32 (starting_address e + size e).

(** [starting_address <= va < starting_address + size]. *)
Definition covers (e : VMEntry) (va : Z) : bool :=
  (starting_address e <=? va) && (va <? end_of e).

(** ** mmap *)

(** The loop that looks for a place: [before] ends with [prev], [rest] starts
    with [temp].  The result is the address, the entries up to [prev] and the
    entries from [temp] on. *)
Fixpoint mmap_search (va size : Z) (before : list VMEntry) (prev : VMEntry) (rest : list VMEntry)
  : Z * list VMEntry * list VMEntry :=
  match rest with
  | [] => (va, before ++ [prev], [])
  | temp :: rest' =>
      if starting_address temp <=? va then mmap_search va size (before ++ [prev]) temp rest'
      else if (end_of prev <=? va) && (u32 (va + size) <? starting_address temp) then
        (va, before ++ [prev], rest)
      else
        let va := end_of prev in
        if (end_of prev <=? va) && (u32 (va + size) <? starting_address temp) then
          (va, before ++ [prev], rest)
        else mmap_search va size (before ++ [prev]) temp rest'
  end.

(** [getNode fd] is [me->process->getFile(fd)->getNode()].  The result is the
    address ([0] is [nullptr]) and the new entry list. *)
Definition mmap (getNode : Z → outcome (option F)) (garbage : option loc)
    (addr length prot flags fd offset : Z) (entry_list : list VMEntry)
  : outcome (Z * list VMEntry) :=
  let va := if addr =? 0 then 0x80000000 else addr in
  if is_special kConfig va then Ret (0, entry_list) else
  let size := frameup length in
  let '(va, before, rest) :=
    match entry_list with
    | [] => (va, [], [])
    | prev :: rest => mmap_search va size [] prev rest
    end in
  if negb (va =? addr) && (Z.land flags 2 =? 2) then Ret (0, entry_list) else
  file ← (if 0 <=? i32 fd then getNode fd else Ret None);
  let new_entry := MkVMEntry file size va offset flags prot garbage in
  Ret (va, before ++ new_entry :: rest).

(** ** munmap *)

(** The loop that unmaps every page of the region. *)
Definition unmap_region (pd start stop : Z) (physical : bool) (m : mach) : outcome mach :=
  '(_, m) ← while_loop (S (Z.to_nat ((stop - start) / FRAME_SIZE)))
              (λ '(va, _), va <? stop)
              (λ '(va, m), m ← unmap pd va physical m; Ret (u32 (va + FRAME_SIZE), m))
              (start, m);
  Ret m.

(** The loop that unlinks the entry of file [num] after the first one. *)
Fixpoint unlink_loop (fuel : nat) (num : Z) (node_entry : loc) (next_entry : option loc) (s : vmm)
  : outcome vmm :=
  match next_entry with
  | None => Ret s
  | Some l =>
      match fuel with
      | O => OutOfFuel
      | S fuel' =>
          ne ← deref (nodes s !! l);
          if number_of (ne_file ne) =? num then
            prev ← deref (nodes s !! node_entry);
            Ret (set_node node_entry (with_next (ne_next ne) prev) s)
          else unlink_loop fuel' num l (ne_next ne) s
      end
  end.

Definition unlink_node (e : VMEntry) (s : vmm) : outcome vmm :=
  first ← deref (node_list s);
  ne ← deref (nodes s !! first);
  mine ← load_node (node e) s;
  let num := number_of (ne_file mine) in
  if number_of (ne_file ne) =? num then Ret (set_node_list (ne_next ne) s)
  else unlink_loop (Datatypes.S (base.size (nodes s))) num first (ne_next ne) s.

(** What [munmap] does with the region it found. *)
Definition munmap_entry (pd : Z) (e : VMEntry) (s : vmm) : outcome vmm :=
  r ←
    (if Z.land (flags e) 1 =? 0 then Ret (true, s)
     else
       l ← deref (node e);
       n ← deref (nodes s !! l);
       let count := u32 (num_processes n - 1) in
       let s := set_node l (with_count count n) s in
       Ret (count =? 0, s));
  let '(physical, s) := r : bool * vmm in
  m ← unmap_region pd (starting_address e) (end_of e) physical (vm_mach s);
  let s := set_mach m s in
  if physical then unlink_node e s else Ret s.

Fixpoint munmap_loop (pd address : Z) (before rest : list VMEntry) (s : vmm)
  : outcome (Z * list VMEntry * vmm) :=
  match rest with
  | [] => Ret (0, before, s)
  | e :: rest' =>
      if covers e address then
        s ← munmap_entry pd e s;
        Ret (0, before ++ rest', s)
      else munmap_loop pd address (before ++ [e]) rest' s
  end.

(** [len] is not used. *)
Definition munmap (pd addr len : Z) (entry_list : list VMEntry) (s : vmm)
  : outcome (Z * list VMEntry * vmm) :=
  if is_special kConfig addr then Ret (-1, entry_list, s)
  else munmap_loop pd addr [] entry_list s.

(** ** Page faults *)

(** The search of [node_list] for a file number: [prev] and [node_entry] at
    the end of the loop. *)
Fixpoint find_node_entry (fuel : nat) (num : Z) (prev node_entry : option loc) (s : vmm)
  : outcome (option loc * option loc) :=
  match node_entry with
  | None => Ret (prev, None)
  | Some l =>
      match fuel with
      | O => OutOfFuel
      | S fuel' =>
          ne ← deref (nodes s !! l);
          if num =? number_of (ne_file ne) then Ret (prev, node_entry)
          else find_node_entry fuel' num node_entry (ne_next ne) s
      end
  end.

(** The offset of [va] in the mapped file. *)
Definition file_offset (e : VMEntry) (va : Z) : Z :=
  u32 (u32 (offset e + va) - starting_address e).

(** Fill the frame [pa] of a file that was not mapped yet. *)
Definition fill_frame (e : VMEntry) (f : F) (va pa : Z) (m : mach) : outcome mach :=
  if Z.land (prot e) 2 =? 2 then
    '(read, bytes) ← read_all f (file_offset e va) FRAME_SIZE;
    let ram := store_bytes (ram m) pa bytes in
    if read =? FRAME_SIZE then Ret (set_ram ram m)
    else
      let read := if read =? -1 then 0 else read in
      Ret (set_ram (bzero_loop (Z.to_nat (FRAME_SIZE - read)) (pa + read) ram) m)
  else Ret (set_ram (bzero_loop (Z.to_nat FRAME_SIZE) pa (ram m)) m).

(** A file mapped for the first time goes to the end of the list. *)
Definition append_node (prev : option loc) (l : loc) (n : NodeEntry) (s : vmm) : outcome vmm :=
  let s := set_node l n s in
  match prev with
  | None => Ret (set_node_list (Some l) s)
  | Some p => pn ← deref (nodes s !! p); Ret (set_node p (with_next (Some l) pn) s)
  end.

(** The frame for [va] in region [e], with the region's updated [node]. *)
Definition fault_frame (e : VMEntry) (va : Z) (s : vmm) : outcome (Z * option loc * vmm) :=
  match file e with
  | Some f =>
      if Z.land (flags e) 1 =? 0 then
        '(pa, m) ← alloc_frame (vm_mach s);
        Ret (pa, node e, set_mach m s)
      else
        '(prev, node_entry) ←
          find_node_entry (Datatypes.S (base.size (nodes s))) (number_of f) None (node_list s) s;
        match node_entry with
        | Some l =>
            n ← deref (nodes s !! l);
            Ret (ne_pa n, node_entry, set_node l (with_count (num_processes n + 1) n) s)
        | None =>
            '(pa, m) ← alloc_frame (vm_mach s);
            let l := fresh (dom (nodes s)) in
            s ← append_node prev l (MkNodeEntry f 1 pa None) (set_mach m s);
            m ← fill_frame e f va pa (vm_mach s);
            Ret (pa, Some l, set_mach m s)
        end
  | None =>
      '(pa, m) ← alloc_frame (vm_mach s);
      Ret (pa, node e, set_mach m s)
  end.

(** [true]: the access can be retried.  [false]: the process exits with
    status 1 and its thread stops. *)
Fixpoint fault_loop (pd va : Z) (before rest : list VMEntry) (s : vmm)
  : outcome (bool * list VMEntry * vmm) :=
  match rest with
  | [] => Ret (false, before, s)
  | e :: rest' =>
      if covers e va then
        '(pa, node', s) ← fault_frame e va s;
        m ← user_map pd va pa (vm_mach s);
        Ret (true, before ++ with_node node' e :: rest', set_mach m s)
      else fault_loop pd va (before ++ [e]) rest' s
  end.

Definition vmm_pageFault (cr3 saved_cr3 pd va_ : Z) (entry_list : list VMEntry) (s : vmm)
  : outcome (bool * list VMEntry * vmm) :=
  _ ← ASSERT (pd =? cr3) "(uint32_t)me->process->pd == getCR3()";
  _ ← ASSERT (saved_cr3 =? cr3) "me->saveArea.cr3 == getCR3()";
  let va := framedown va_ in
  if 0x80000000 <=? va then fault_loop pd va [] entry_list s
  else Ret (false, entry_list, s).

(** ** Specification of the region list *)

(** The regions from address [lo] on are ordered and do not overlap. *)
Fixpoint sorted_from (lo : Z) (es : list VMEntry) : Prop :=
  match es with
  | [] => True
  | e :: es' =>
      lo <= starting_address e ∧ 0 <= size e ∧ starting_address e + size e < 4294967296 ∧
      sorted_from (starting_address e + size e) es'
  end.

Definition regions_ok (es : list VMEntry) : Prop := sorted_from 0 es.

(** The end of the last region. *)
Definition last_end (lo : Z) (es : list VMEntry) : Z :=
  match last es with Some e => starting_address e + size e | None => lo end.

(** No gap of more than [size] bytes between two neighbours that end above [va]. *)
Definition no_gap (va size : Z) (es : list VMEntry) : Prop :=
  ∀ l1 x y l2, es = l1 ++ x :: y :: l2 → va < starting_address y →
    starting_address y <= end_of x + size.

(** ** Lemmas: the search for a place *)

Lemma last_end_snoc lo es e : last_end lo (es ++ [e]) = starting_address e + size e.
Proof. unfold last_end. by rewrite last_snoc. Qed.

Lemma sorted_from_app lo es1 es2 :
  sorted_from lo (es1 ++ es2) ↔ sorted_from lo es1 ∧ sorted_from (last_end lo es1) es2.
Proof.
  revert lo. induction es1 as [|e es1 IH]; intros lo; cbn; [tauto|]. rewrite IH.
  assert (last_end (starting_address e + size e) es1 = last_end lo (e :: es1)) as ->; [|tauto].
  unfold last_end. destruct es1 as [|e' es1]; [done|]. rewrite last_cons_cons.
  destruct (last (e' :: es1)) eqn:E; [done|]. by apply last_None in E.
Qed.

Lemma last_end_nonneg lo es : 0 <= lo → sorted_from lo es → lo <= last_end lo es.
Proof.
  intros Hlo. destruct (last es) as [e|] eqn:E; unfold last_end; rewrite E; [|lia].
  apply last_Some in E as [l ->]. revert lo Hlo. induction l as [|x l IH]; cbn; intros lo Hlo.
  - lia.
  - intros (?&?&?&Hs). apply IH in Hs; lia.
Qed.

Lemma entry_bounds lo es1 e es2 :
  0 <= lo → sorted_from lo (es1 ++ e :: es2) →
  end_of e = starting_address e + size e ∧ lo <= last_end lo es1 <= starting_address e ∧
  0 <= size e ∧ end_of e < 4294967296 ∧ sorted_from (end_of e) es2.
Proof.
  intros Hlo Hs. apply sorted_from_app in Hs as [Hs1 Hs2].
  pose proof (last_end_nonneg _ _ Hlo Hs1). cbn in Hs2.
  assert (end_of e = starting_address e + size e) as E.
  { unfold end_of. apply u32_small. unfold is_u32. lia. }
  rewrite E. intuition lia.
Qed.

(** Inserting a region between two neighbours that leave room for it. *)
Lemma insert_sorted lo es1 es2 p e :
  0 <= lo → sorted_from lo (es1 ++ p :: es2) → end_of p <= starting_address e → 0 <= size e →
  starting_address e + size e < 4294967296 →
  (∀ t es3, es2 = t :: es3 → starting_address e + size e <= starting_address t) →
  sorted_from lo (es1 ++ p :: e :: es2).
Proof.
  intros Hlo Hs Hp Hsz Hb Ht. destruct (entry_bounds _ _ _ _ Hlo Hs) as (Ee & _).
  apply sorted_from_app in Hs as [Hs1 Hs2].
  apply sorted_from_app. split; [done|]. cbn in *.
  destruct es2 as [|t es3]; [cbn in *; intuition lia|]. specialize (Ht t es3 eq_refl). cbn in *.
  intuition lia.
Qed.

Lemma no_gap_cons va size x y es :
  no_gap va size (y :: es) → (va < starting_address y → starting_address y <= end_of x + size) →
  no_gap va size (x :: y :: es).
Proof.
  intros Hg Hxy [|? l1] x' y' l2 E; simplify_list_eq; [done|]. by apply (Hg l1 x' y' l2).
Qed.

(** What the search loop finds. *)
Lemma mmap_search_ok lo va sz before prev rest :
  0 <= lo → sorted_from lo (before ++ prev :: rest) → 0 <= va → 0 <= sz → va + sz < 4294967296 →
  Forall (λ e, starting_address e + sz < 4294967296) rest →
  ∃ va' l p r, mmap_search va sz before prev rest = (va', l ++ [p], r) ∧
    before ++ prev :: rest = l ++ p :: r ∧ 0 <= va' ∧
    match r with
    | [] => no_gap va sz (prev :: rest)
    | t :: _ => end_of p <= va' ∧ va' + sz < starting_address t
    end.
Proof.
  intros Hlo. revert va before prev.
  induction rest as [|t rest IH]; intros va before prev Hs Hva Hsz Hb Hr; cbn [mmap_search].
  { exists va, before, prev, []. repeat (split; [done|]).
    intros [|? [|? ?]] ???; discriminate. }
  apply Forall_cons in Hr as [Ht Hr].
  assert (Hs' : sorted_from lo ((before ++ [prev]) ++ t :: rest)).
  { by rewrite <- app_assoc. }
  destruct (entry_bounds _ _ _ _ Hlo Hs) as (Ep & ? & ? & ? & Haft).
  pose proof Haft as (Htp & _).
  destruct (Z.leb_spec (starting_address t) va) as [Hle|Hlt].
  { destruct (IH va (before ++ [prev]) t Hs' Hva Hsz Hb Hr) as (va' & l & p & r & E1 & E2 & ? & Hm).
    exists va', l, p, r. rewrite <- app_assoc in E2. repeat (split; [done|]).
    destruct r; [|done]. apply no_gap_cons; [done|]. intros. lia. }
  rewrite (u32_small (va + sz)) by (unfold is_u32; lia).
  destruct ((end_of prev <=? va) && (va + sz <? starting_address t)) eqn:Hfit.
  { bool_to_prop. exists va, before, prev, (t :: rest). repeat (split; [done|]). lia. }
  rewrite Z.leb_refl, (u32_small (end_of prev + sz)) by (unfold is_u32; lia). cbn [andb].
  destruct (Z.ltb_spec (end_of prev + sz) (starting_address t)) as [Hfit2|Hno].
  { exists (end_of prev), before, prev, (t :: rest). repeat (split; [done || lia|]). lia. }
  destruct (IH (end_of prev) (before ++ [prev]) t Hs' ltac:(lia) Hsz ltac:(lia) Hr)
    as (va' & l & p & r & E1 & E2 & ? & Hm).
  exists va', l, p, r. rewrite <- app_assoc in E2. repeat (split; [done|]).
  destruct r; [|done]. intros [|x l1] x' y' l2 E; simplify_list_eq.
  - lia.
  - intros _. destruct (decide (end_of x < starting_address y')) as [Hy|Hy].
    + by apply (Hm l1 x' y' l2).
    + assert (0 <= end_of x) as Hx by lia.
      rename select (t :: rest = _) into Et.
      assert (sorted_from (end_of x) (l1 ++ x' :: y' :: l2)) as Hs3 by (by rewrite <- Et).
      destruct (entry_bounds _ _ _ _ Hx Hs3) as (? & ? & ? & ? & Hy' & _). lia.
Qed.

Lemma frameup_nonneg x : 0 <= frameup x.
Proof.
  unfold frameup. rewrite framedown_eq by apply u32_range.
  pose proof (u32_range (u32 (x + FRAME_SIZE) - 1)) as [? _]. zlia.
Qed.

(** The place computed by [mmap] before the file is looked up. *)
Definition place (va sz : Z) (es : list VMEntry) : Z * list VMEntry * list VMEntry :=
  match es with [] => (va, [], []) | prev :: rest => mmap_search va sz [] prev rest end.

Lemma place_ok va sz es :
  regions_ok es → 0 <= va → 0 <= sz → va + sz < 4294967296 →
  Forall (λ e, starting_address e + sz < 4294967296) es →
  ∃ va' before after, place va sz es = (va', before, after) ∧ es = before ++ after ∧
    (before = [] → es = []) ∧ 0 <= va' ∧
    ∀ new, starting_address new = va' → size new = sz →
      match after with
      | [] => no_gap va sz es ∧
          (regions_ok (before ++ new :: after) ↔ last_end 0 es <= va' ∧ va' + sz < 4294967296)
      | _ :: _ => regions_ok (before ++ new :: after)
      end.
Proof.
  intros Hes Hva Hsz Hb Hall. destruct es as [|e es]; cbn [place].
  { exists va, [], []. repeat (split; [done|]). intros new <- <-. split.
    - intros [|??] ????; discriminate.
    - unfold regions_ok. cbn. unfold last_end. cbn. intuition lia. }
  apply Forall_cons in Hall as [_ Hall].
  destruct (mmap_search_ok 0 va sz [] e es ltac:(lia) Hes Hva Hsz Hb Hall)
    as (va' & l & p & r & E1 & E2 & Hva' & Hm).
  exists va', (l ++ [p]), r. split; [done|]. cbn in E2. rewrite <- app_assoc.
  split; [done|]. split; [by destruct l|]. split; [done|]. intros new <- <-.
  rewrite E2 in *. unfold regions_ok in *. destruct r as [|t r].
  - split; [done|]. rewrite (sorted_from_app _ (l ++ [p])). cbn [app sorted_from].
    intuition lia.
  - assert (sorted_from 0 ((l ++ [p]) ++ t :: r)) as Ht by (by rewrite <- app_assoc).
    destruct (entry_bounds 0 _ _ _ ltac:(lia) Ht) as (Et & ? & ? & ? & _).
    rewrite <- app_assoc. cbn [app]. apply insert_sorted; [done..|lia|lia|lia|].
    intros ?? [= -> ->]. lia.
Qed.

(** ** The list of shared file frames *)

(** [l] are the nodes reached from [p], with their locations. *)
Fixpoint chain (ns : gmap loc NodeEntry) (p : option loc) (l : list (loc * NodeEntry)) : Prop :=
  match l with
  | [] => p = None
  | (k, n) :: l' => p = Some k ∧ ns !! k = Some n ∧ chain ns (ne_next n) l'
  end.

Definition num_of (kn : loc * NodeEntry) : Z := number_of (ne_file kn.2).

(** The global list holds at most one entry per file. *)
Record nodes_ok (s : vmm) (l : list (loc * NodeEntry)) : Prop := NodesOk {
  no_chain : chain (nodes s) (node_list s) l;
  no_nodup : NoDup l.*1;
  no_files : NoDup (num_of <$> l);
}.

(** The location before the end of a walk that started with [prev]. *)
Definition last_loc (prev : option loc) (l : list (loc * NodeEntry)) : option loc :=
  match last l with Some (k, _) => Some k | None => prev end.

Lemma last_loc_cons prev k n l : last_loc prev ((k, n) :: l) = last_loc (Some k) l.
Proof.
  unfold last_loc. destruct l as [|[k' n'] l]; [done|]. rewrite last_cons_cons.
  destruct (last ((k', n') :: l)) eqn:E; [done|]. by apply last_None in E.
Qed.

Lemma chain_app ns p l1 k n l2 :
  chain ns p (l1 ++ (k, n) :: l2) → ns !! k = Some n ∧ chain ns (ne_next n) l2.
Proof.
  revert p. induction l1 as [|[k' n'] l1 IH]; intros p; cbn; [tauto|].
  intros (_ & _ & Hc). by apply IH in Hc.
Qed.

Lemma chain_lookup ns p l k n : chain ns p l → (k, n) ∈ l → ns !! k = Some n.
Proof.
  intros Hc [l1 [l2 ->]]%list_elem_of_split. by apply chain_app in Hc as [? _].
Qed.

(** Writes to nodes that are not on the list do not change it. *)
Lemma chain_insert ns p l k n : k ∉ l.*1 → chain ns p l → chain (<[k := n]> ns) p l.
Proof.
  revert p. induction l as [|[k' n'] l IH]; intros p; cbn; [done|].
  intros Hk (-> & Hl & Hc). split; [done|]. split; [|apply IH; set_solver].
  rewrite lookup_insert_ne; [done|set_solver].
Qed.

Lemma chain_size ns p l : chain ns p l → NoDup l.*1 → (length l <= base.size ns)%nat.
Proof.
  intros Hc Hnd. rewrite <- size_dom.
  rewrite <- (length_fmap fst l), <- (size_list_to_set (C := gset loc)) by done.
  apply subseteq_size. intros k Hk%elem_of_list_to_set.
  apply list_elem_of_fmap in Hk as ([k' n] & -> & Hin). apply elem_of_dom. eexists.
  by eapply chain_lookup.
Qed.

Lemma find_node_entry_found fuel num prev p s l1 k n l2 :
  chain (nodes s) p (l1 ++ (k, n) :: l2) → num_of (k, n) = num →
  Forall (λ kn, num_of kn ≠ num) l1 → (length l1 < fuel)%nat →
  find_node_entry fuel num prev p s = Ret (last_loc prev l1, Some k).
Proof.
  revert fuel prev p. induction l1 as [|[k' n'] l1 IH]; intros [|fuel] prev p; try (cbn; lia).
  - intros (-> & Hk & _) Hn _ _. cbn. rewrite Hk. cbn. by rewrite <- Hn, Z.eqb_refl.
  - intros (-> & Hk & Hc) Hn [Hne Hf]%Forall_cons Hl. cbn [find_node_entry]. rewrite Hk. cbn.
    destruct (Z.eqb_spec num (number_of (ne_file n'))) as [->|]; [done|].
    cbn in Hl. rewrite last_loc_cons. apply IH; [done..|lia].
Qed.

Lemma find_node_entry_none fuel num prev p s l :
  chain (nodes s) p l → Forall (λ kn, num_of kn ≠ num) l → (length l < fuel)%nat →
  find_node_entry fuel num prev p s = Ret (last_loc prev l, None).
Proof.
  revert fuel prev p. induction l as [|[k' n'] l IH]; intros [|fuel] prev p; try (cbn; lia).
  - by intros -> _ _.
  - intros (-> & Hk & Hc) [Hne Hf]%Forall_cons Hl. cbn [find_node_entry]. rewrite Hk. cbn.
    destruct (Z.eqb_spec num (number_of (ne_file n'))) as [->|]; [done|].
    cbn in Hl. rewrite last_loc_cons. apply IH; [done..|lia].
Qed.

(** Overwriting one node of the list, possibly changing what follows it. *)
Lemma chain_splice ns p l1 q n l2 n' l3 :
  chain ns p (l1 ++ (q, n) :: l2) → q ∉ l1.*1 → chain ns (ne_next n') l3 → q ∉ l3.*1 →
  chain (<[q := n']> ns) p (l1 ++ (q, n') :: l3).
Proof.
  intros Hc Hq1 H3 Hq3. revert p Hc. induction l1 as [|[k' m] l1 IH]; intros p; cbn.
  - intros (-> & _ & _). split; [done|]. rewrite lookup_insert_eq. split; [done|].
    by apply chain_insert.
  - cbn in Hq1. intros (-> & Hk & Hc). split; [done|].
    rewrite lookup_insert_ne by set_solver. split; [done|]. apply IH; [set_solver|done].
Qed.

(** The abstract contents of the list: location, file, users and frame. *)
Definition node_view (kn : loc * NodeEntry) : loc * F * Z * Z :=
  (kn.1, ne_file kn.2, num_processes kn.2, ne_pa kn.2).

Definition shared_files (s : vmm) (v : list (loc * F * Z * Z)) : Prop :=
  ∃ l, nodes_ok s l ∧ node_view <$> l = v.

Definition v_loc (x : loc * F * Z * Z) : loc := x.1.1.1.
Definition v_num (x : loc * F * Z * Z) : Z := number_of x.1.1.2.

Lemma view_locs (l : list (loc * NodeEntry)) : v_loc <$> (node_view <$> l) = l.*1.
Proof. rewrite <- list_fmap_compose. by apply list_fmap_ext. Qed.

Lemma view_nums (l : list (loc * NodeEntry)) : v_num <$> (node_view <$> l) = num_of <$> l.
Proof. rewrite <- list_fmap_compose. by apply list_fmap_ext. Qed.

Lemma nodes_ok_intro s l v :
  chain (nodes s) (node_list s) l → node_view <$> l = v → NoDup (v_loc <$> v) →
  NoDup (v_num <$> v) → shared_files s v.
Proof.
  intros Hc Hv H1 H2. exists l. split; [|done]. subst v.
  rewrite view_locs in H1. rewrite view_nums in H2. by split.
Qed.

Lemma shared_files_mach m s v : shared_files s v → shared_files (set_mach m s) v.
Proof. intros (l & [] & Hv). by exists l. Qed.

(** Splitting the concrete list along a split of the abstract one. *)
Lemma view_split (l : list (loc * NodeEntry)) v1 k f c p v2 :
  node_view <$> l = v1 ++ (k, f, c, p) :: v2 →
  ∃ l1 nx l2, l = l1 ++ (k, MkNodeEntry f c p nx) :: l2 ∧ node_view <$> l1 = v1 ∧
    node_view <$> l2 = v2.
Proof.
  intros Hl. apply fmap_app_inv in Hl as (l1 & l2 & -> & E & ->).
  destruct l2 as [|[k' [f' c' p' nx]] l2]; [done|]. cbn in E. injection E as -> -> -> -> ->.
  by exists l1, nx, l2.
Qed.

(** Another user of a frame. *)
Lemma shared_files_count s v1 k f c p v2 n c' :
  shared_files s (v1 ++ (k, f, c, p) :: v2) → nodes s !! k = Some n →
  shared_files (set_node k (with_count c' n) s) (v1 ++ (k, f, u32 c', p) :: v2).
Proof.
  intros (l & [Hc Hnd Hnf] & Hv) Hk. rewrite <- view_locs, Hv in Hnd.
  rewrite <- view_nums, Hv in Hnf. apply view_split in Hv as (l1 & nx & l2 & -> & <- & <-).
  pose proof (chain_app _ _ _ _ _ _ Hc) as [Hk' Hc2]. rewrite Hk' in Hk. injection Hk as <-.
  eapply (nodes_ok_intro _ (l1 ++ (k, MkNodeEntry f (u32 c') p nx) :: l2)).
  - rewrite fmap_app, fmap_cons, !view_locs, NoDup_app, NoDup_cons in Hnd.
    destruct Hnd as (_ & Hd & Hd2 & _).
    eapply chain_splice; [exact Hc|set_solver|exact Hc2|exact Hd2].
  - by rewrite fmap_app.
  - by rewrite fmap_app, fmap_cons in *.
  - by rewrite fmap_app, fmap_cons in *.
Qed.

Lemma append_node_ok s l f pa k :
  nodes_ok s l → k ∉ dom (nodes s) → Forall (λ kn, num_of kn ≠ number_of f) l →
  ∃ s', append_node (last_loc None l) k (MkNodeEntry f 1 pa None) s = Ret s' ∧
    vm_mach s' = vm_mach s ∧
    shared_files s' ((node_view <$> l) ++ [(k, f, 1, pa)]).
Proof.
  intros [Hc Hnd Hnf] Hk Hf. unfold append_node, last_loc.
  assert (Hkl : k ∉ l.*1).
  { intros ([k' n] & -> & Hin)%list_elem_of_fmap. apply Hk, elem_of_dom. eexists.
    by eapply chain_lookup. }
  assert (Hnd' : NoDup (v_loc <$> (node_view <$> l) ++ [(k, f, 1, pa)])).
  { rewrite fmap_app, view_locs. apply NoDup_app. split; [done|]. split; [set_solver|].
    apply NoDup_singleton. }
  assert (Hnf' : NoDup (v_num <$> (node_view <$> l) ++ [(k, f, 1, pa)])).
  { rewrite fmap_app, view_nums. apply NoDup_app. split; [done|]. split; [|apply NoDup_singleton].
    intros x (kn & -> & Hin)%list_elem_of_fmap Hx%list_elem_of_singleton.
    rewrite Forall_forall in Hf. by apply (Hf kn). }
  destruct (last l) as [[q qn]|] eqn:El.
  - apply last_Some in El as [l1 ->].
    pose proof (chain_app _ _ _ _ _ _ Hc) as [Hq _].
    rewrite fmap_app, NoDup_app in Hnd. destruct Hnd as (_ & Hd & _).
    assert (q ≠ k) by (cbn in Hkl; rewrite fmap_app in Hkl; set_solver).
    cbn [nodes set_node]. rewrite lookup_insert_ne by done. rewrite Hq. cbn.
    eexists. split; [done|]. split; [done|].
    eapply (nodes_ok_intro _ (l1 ++ (q, with_next (Some k) qn) :: [(k, MkNodeEntry f 1 pa None)]));
      [|by rewrite !fmap_app, <- app_assoc|done..].
    eapply chain_splice; [apply chain_insert; [exact Hkl|exact Hc]|set_solver| |set_solver].
    cbn. by rewrite lookup_insert_eq.
  - apply last_None in El as ->. eexists. split; [done|]. split; [done|].
    eapply (nodes_ok_intro _ [(k, MkNodeEntry f 1 pa None)]); [|done..].
    cbn. by rewrite lookup_insert_eq.
Qed.

(** Unlinking the entry of a file. *)
Lemma unlink_loop_walk fuel num q s l1 p k n l2 :
  chain (nodes s) p (l1 ++ (k, n) :: l2) → num_of (k, n) = num →
  Forall (λ kn, num_of kn ≠ num) l1 → (length l1 < fuel)%nat →
  unlink_loop fuel num q p s =
    (pn ← deref (nodes s !! default q (last_loc (Some q) l1));
     Ret (set_node (default q (last_loc (Some q) l1)) (with_next (ne_next n) pn) s)).
Proof.
  revert fuel q p. induction l1 as [|[k' n'] l1 IH]; intros [|fuel] q p; try (cbn; lia).
  - intros (-> & Hk & _) Hn _ _. cbn [unlink_loop]. rewrite Hk. cbn.
    by rewrite <- Hn, Z.eqb_refl.
  - intros (-> & Hk & Hc) Hn [Hne Hf]%Forall_cons Hl. cbn [unlink_loop]. rewrite Hk. cbn [mbind outcome_bind deref].
    destruct (Z.eqb_spec (number_of (ne_file n')) num); [done|].
    cbn in Hl. rewrite last_loc_cons. rewrite (IH fuel k' (ne_next n') Hc Hn Hf ltac:(lia)).
    unfold last_loc. by destruct (last l1) as [[??]|].
Qed.

Lemma unlink_node_ok e s v1 k f c p v2 :
  shared_files s (v1 ++ (k, f, c, p) :: v2) → node e = Some k →
  ∃ s', unlink_node e s = Ret s' ∧ vm_mach s' = vm_mach s ∧ shared_files s' (v1 ++ v2).
Proof.
  intros (l & [Hc Hnd Hnf] & Hv) He. pose proof (chain_size _ _ _ Hc Hnd) as Hlen.
  rewrite <- view_locs, Hv, fmap_app, fmap_cons in Hnd.
  rewrite <- view_nums, Hv, fmap_app, fmap_cons in Hnf.
  apply view_split in Hv as (l1 & nx & l2 & -> & <- & <-).
  rewrite !view_locs in Hnd. rewrite !view_nums in Hnf.
  assert (HndR : NoDup (v_loc <$> (node_view <$> l1) ++ (node_view <$> l2)) ∧
                 NoDup (v_num <$> (node_view <$> l1) ++ (node_view <$> l2))).
  { rewrite !fmap_app, !view_locs, !view_nums. rewrite !NoDup_app, !NoDup_cons in *. set_solver. }
  rewrite NoDup_app, NoDup_cons in Hnd. rewrite NoDup_app, NoDup_cons in Hnf.
  destruct Hnd as (Hn1 & Hd & Hk2 & Hn2), Hnf as (_ & Hf & _).
  pose proof (chain_app _ _ _ _ _ _ Hc) as [Hk Hc2].
  unfold unlink_node, load_node. rewrite He. cbn [deref mbind outcome_bind].
  destruct l1 as [|[k1 n1] l1].
  - cbn in Hc. destruct Hc as (E & _ & _). rewrite E. cbn [deref mbind outcome_bind].
    rewrite Hk. cbn [deref mbind outcome_bind ne_file ne_next]. rewrite Z.eqb_refl.
    eexists. split; [done|]. split; [done|].
    by apply (nodes_ok_intro _ l2); [|tauto..].
  - destruct Hc as (E & Hk1 & Hc). rewrite E. cbn [deref mbind outcome_bind]. rewrite Hk1, Hk.
    cbn [deref mbind outcome_bind ne_file ne_next].
    assert (Hne : Forall (λ kn, num_of kn ≠ number_of f) ((k1, n1) :: l1)).
    { apply Forall_forall. intros kn Hin En. apply (Hf (num_of kn)).
      - apply list_elem_of_fmap. by exists kn.
      - rewrite En. cbn. by left. }
    apply Forall_cons in Hne as [Hne1 Hne].
    destruct (Z.eqb_spec (number_of (ne_file n1)) (number_of f)); [done|].
    rewrite (unlink_loop_walk _ _ _ _ _ _ _ _ _ Hc eq_refl Hne)
      by (rewrite length_app in Hlen; cbn in *; lia).
    destruct (exists_last (l := (k1, n1) :: l1)) as (l1' & [q qn] & El); [done|].
    assert (default k1 (last_loc (Some k1) l1) = q) as ->.
    { rewrite <- (last_loc_cons None k1 n1), El. unfold last_loc. by rewrite last_snoc. }
    rewrite El in *. rewrite <- app_assoc in *.
    assert (Hcc : chain (nodes s) (node_list s)
      (l1' ++ (q, qn) :: (k, MkNodeEntry f c p nx) :: l2)).
    { cbn [app] in *. change (_ :: _) with ([(q, qn)] ++ (k, MkNodeEntry f c p nx) :: l2).
      rewrite app_assoc, <- El. by rewrite E. }
    pose proof (chain_app _ _ _ _ _ _ Hcc) as [Hq _]. rewrite Hq. cbn.
    eexists. split; [done|]. split; [done|].
    apply (nodes_ok_intro _ (l1' ++ (q, with_next nx qn) :: l2));
      [|by rewrite !fmap_app, <- ?app_assoc|tauto..].
    rewrite fmap_app, NoDup_app in Hn1. rewrite fmap_app in Hd. destruct Hn1 as (_ & Hd1 & _).
    eapply chain_splice; [exact Hcc|set_solver|exact Hc2|set_solver].
Qed.

(** ** Lemmas: frames of regions *)

(** Frame [q] is not the page table for [va]. *)
Definition not_table (m : mach) (pd va q : Z) : Prop :=
  absent (entry (ram m) pd (pdi_of va)) = false → q ≠ base (entry (ram m) pd (pdi_of va)).

(** Mapping the page of [va] to the frame [pa]. *)
Record page_mapped (lo : Z) (fl : list Z) (m : mach) (pd va pa : Z) (fl' : list Z) (m' : mach)
  : Prop := PageMapped {
  pm_wf : alloc_wf lo fl' m';
  pm_as : as_wf (allocated lo fl' m') (ram m') pd;
  pm_walk : walk (ram m') pd va = Some (pa + 7);
  pm_other va' : is_u32 va' → va' / 4096 ≠ va / 4096 → walk (ram m') pd va' = walk (ram m) pd va';
  pm_pa : allocated lo fl' m' pa;
  pm_mono q : allocated lo fl m q → allocated lo fl' m' q;
  pm_same q : allocated lo fl m q → q ≠ pd → not_table m pd va q → same_frame m m' q;
  pm_tables i : 0 <= i < 1024 → absent (entry (ram m') pd i) = false →
    entry (ram m') pd i = entry (ram m) pd i ∨
    (¬ allocated lo fl m (base (entry (ram m') pd i)) ∧ base (entry (ram m') pd i) ≠ pa);
  pm_left : frames_left fl m - 2 <= frames_left fl' m';
  pm_steady : steady lo m m';
}.

(** What the frame must hold afterwards. *)
Definition frame_is (m : mach) (pa : Z) (content : Z → Z) : Prop :=
  ∀ i, 0 <= i < 4096 → ram m (pa + i) = content i.

Lemma frame_u32 lo fl m p : alloc_wf lo fl m → allocated lo fl m p → is_u32 p ∧ p mod 4096 = 0.
Proof.
  intros Hwf Hp. pose proof (allocated_range _ _ _ _ Hwf Hp).
  pose proof (allocated_aligned _ _ _ _ Hp). unfold is_u32. lia.
Qed.

(** A page-table frame of the address space before or after mapping [va]. *)
Lemma table_or_fresh lo fl m pd va e fl' m' q :
  map_post lo fl m pd va e fl' m' → allocated lo fl m q →
  not_table m pd va q → q ≠ base (entry (ram m') pd (pdi_of va)).
Proof.
  intros Hp Hq Hne ->. unfold not_table in Hne.
  destruct (absent (entry (ram m) pd (pdi_of va))) eqn:E.
  - by apply (mp_fresh _ _ _ _ _ _ _ _ Hp).
  - rewrite (mp_table _ _ _ _ _ _ _ _ Hp) in Hne by done. by apply Hne.
Qed.

Lemma user_map_shared lo fl m pd va pa :
  alloc_wf lo fl m → as_wf (allocated lo fl m) (ram m) pd → is_u32 va → allocated lo fl m pa →
  (user_map pd va pa m = Panic "no more frames" ∧ frames_left fl m = 0) ∨
  ∃ fl' m', user_map pd va pa m = Ret m' ∧ page_mapped lo fl m pd va pa fl' m' ∧
    frames_left fl m - 1 <= frames_left fl' m'.
Proof.
  intros Hwf Has Hva Hpa. destruct (frame_u32 _ _ _ _ Hwf Hpa) as [Hu Hal].
  destruct (map_flags_ok lo fl 7 m pd va pa Hwf Has Hva Hu Hal ltac:(by right)) as
    [(_ & ? & E)|(fl' & m' & E & Hp)]; [by left|right].
  exists fl', m'. split; [done|]. split.
  - split; try solve [apply Hp].
    + rewrite <- lor_flags by (done || lia). apply Hp.
    + by apply (mp_mono _ _ _ _ _ _ _ _ Hp).
    + intros q Hq ??. apply (mp_frame _ _ _ _ _ _ _ _ Hp); [done..|]. by eapply table_or_fresh.
    + intros i Hi Ha. destruct (decide (i = pdi_of va)) as [->|Hne].
      2:{ left. by rewrite (mp_pde _ _ _ _ _ _ _ _ Hp). }
      destruct (absent (entry (ram m) pd (pdi_of va))) eqn:E0; [right|left].
      2:{ by rewrite (mp_table _ _ _ _ _ _ _ _ Hp). }
      pose proof (mp_fresh _ _ _ _ _ _ _ _ Hp E0). split; [done|congruence].
    + rewrite (mp_left _ _ _ _ _ _ _ _ Hp). destruct (absent _); lia.
  - rewrite (mp_left _ _ _ _ _ _ _ _ Hp). destruct (absent _); lia.
Qed.

(** The same for a frame allocated for the purpose and filled by [r]. *)
Lemma user_map_fresh lo fl m pa fl1 m1 r pd va :
  alloc_wf lo fl m → as_wf (allocated lo fl m) (ram m) pd → is_u32 va →
  alloc_post lo fl m pa fl1 m1 →
  (∀ b n, pa + 4096 <= b ∨ b + n <= pa → agree r (ram m1) b n) →
  (user_map pd va pa (set_ram r m1) = Panic "no more frames" ∧ frames_left fl m = 1) ∨
  ∃ fl' m', user_map pd va pa (set_ram r m1) = Ret m' ∧ page_mapped lo fl m pd va pa fl' m' ∧
    agree (ram m') r pa 4096.
Proof.
  intros Hwf Has Hva Hap Hr. set (m2 := set_ram r m1).
  pose proof Hap as [_ Hfresh _ _ _ Hleft _ _].
  destruct (fill_fresh lo fl m pd pa fl1 m1 r Hwf Has Hap Hr) as (Hwf2 & Has2 & Hpa1 & Hne & Hwalk).
  destruct (user_map_shared lo fl1 m2 pd va pa Hwf2 Has2 Hva Hpa1) as
    [[E Hz]|(fl' & m' & E & Hp & Hl)]; [left|right].
  { split; [done|]. change (frames_left fl1 m2) with (frames_left fl1 m1) in Hz. lia. }
  assert (Hpde : entry r pd (pdi_of va) = entry (ram m) pd (pdi_of va)).
  { apply entry_agree; [apply (Hne pd), Has|by apply pdi_range]. }
  assert (Hnt : ∀ q, not_table m pd va q → not_table m2 pd va q).
  { intros q. unfold not_table. cbn [ram set_ram m2]. by rewrite Hpde. }
  exists fl', m'. split; [done|]. split; [split; try solve [apply Hp]|].
  - intros va' Hva' Hpg. rewrite (pm_other _ _ _ _ _ _ _ _ Hp) by done. by apply Hwalk.
  - intros q Hq. by apply (pm_mono _ _ _ _ _ _ _ _ Hp), Hne.
  - intros q Hq ??. eapply agree_trans; [|by apply (Hne q Hq)].
    apply (pm_same _ _ _ _ _ _ _ _ Hp); [by apply Hne|done|auto].
  - intros i Hi Ha. destruct (pm_tables _ _ _ _ _ _ _ _ Hp i Hi Ha) as [E1|[H1 H2]]; [left|right].
    + rewrite E1. apply entry_agree; [apply (Hne pd), Has|done].
    + split; [|done]. intros Hq. by apply H1, Hne.
  - change (frames_left fl1 m2) with (frames_left fl1 m1) in Hl. lia.
  - eapply steady_trans; [|apply Hp]. destruct (steady_alloc _ _ _ _ _ _ Hwf Hap) as [Hst ?].
    eapply steady_trans; [exact Hst|]. apply steady_ram, Hr. lia.
  - apply (pm_same _ _ _ _ _ _ _ _ Hp); [done| |].
    + intros ->. by apply Hfresh, Has.
    + apply Hnt. intros Habs ->. by apply Hfresh, (as_table _ _ _ Has); [apply pdi_range|].
Qed.

(** A page of a file, zero filled after the end of the file. *)
Definition file_page (content : Z → Z) (len off : Z) (i : Z) : Z :=
  if off + i <? len then u8 (content (off + i)) else 0.

Lemma bzero_loop_agree n d m b k :
  d + Z.of_nat n <= b ∨ b + k <= d → agree (bzero_loop n d m) m b k.
Proof.
  intros H0 x Hx. rewrite bzero_loop_spec. break_if; [|done]. bool_to_prop. lia.
Qed.

Lemma bzero_loop_page n d m x :
  d <= x < d + Z.of_nat n → bzero_loop n d m x = 0.
Proof.
  intros Hx. rewrite bzero_loop_spec, (proj2 (Z.leb_le d x)), (proj2 (Z.ltb_lt x _)) by lia. done.
Qed.

Lemma store_bytes_at m a content off k i :
  0 <= i < k → store_bytes m a (slice content off k) (a + i) = u8 (content (off + i)).
Proof.
  intros Hi. unfold store_bytes. rewrite slice_length by lia.
  rewrite (proj2 (Z.leb_le a (a + i))), (proj2 (Z.ltb_lt (a + i) _)) by lia. cbn [andb].
  replace (a + i - a) with i by lia. by rewrite slice_lookup.
Qed.

Lemma fill_frame_ok e f va pa m content :
  device_ok f content →
  ∃ r, fill_frame e f va pa m = Ret (set_ram r m) ∧
    (∀ b n, pa + 4096 <= b ∨ b + n <= pa → agree r (ram m) b n) ∧
    ∀ i, 0 <= i < 4096 → r (pa + i) =
      if Z.land (prot e) 2 =? 2 then file_page content (size_in_bytes f) (file_offset e va) i else 0.
Proof.
  intros Hd. unfold fill_frame. change FRAME_SIZE with 4096.
  destruct (Z.land (prot e) 2 =? 2).
  2:{ eexists. split; [done|]. split.
      - intros b n Hb. apply bzero_loop_agree. lia.
      - intros i Hi. apply bzero_loop_page. lia. }
  pose proof (u32_range (u32 (offset e + va) - starting_address e)) as Ho.
  change (u32 _) with (file_offset e va) in Ho. set (off := file_offset e va) in *.
  unfold is_u32 in Ho. destruct (Z.lt_ge_cases (size_in_bytes f) off) as [Hlt|Hge].
  - rewrite read_all_past by lia. cbn [mbind outcome_bind].
    change (-1 =? 4096) with false. change (-1 =? -1) with true. cbv iota.
    eexists. split; [done|]. split.
    + intros b n Hb. eapply agree_trans; [apply bzero_loop_agree|apply store_bytes_agree];
        cbn; lia.
    + intros i Hi. rewrite bzero_loop_page by lia. unfold file_page.
      by rewrite (proj2 (Z.ltb_ge _ _)) by lia.
  - rewrite (read_all_ok f content Hd) by lia.
    set (k := Z.min 4096 (size_in_bytes f - off)). cbn [mbind outcome_bind].
    assert (Hk : 0 <= k <= 4096) by lia. pose proof (slice_length content off k ltac:(lia)) as Hl.
    destruct (Z.eqb_spec k 4096) as [Ek|Nk].
    + eexists. split; [done|]. split.
      * intros b n Hb. apply store_bytes_agree. lia.
      * intros i Hi. rewrite store_bytes_at by lia. unfold file_page.
        by rewrite (proj2 (Z.ltb_lt _ _)) by lia.
    + rewrite (proj2 (Z.eqb_neq k (-1))) by lia. eexists. split; [done|]. split.
      * intros b n Hb. eapply agree_trans; [apply bzero_loop_agree|apply store_bytes_agree]; lia.
      * intros i Hi. unfold file_page. destruct (Z.ltb_spec (off + i) (size_in_bytes f)).
        -- rewrite (bzero_loop_agree _ _ _ (pa + i) 1) by lia. by apply store_bytes_at; lia.
        -- apply bzero_loop_page. lia.
Qed.

(** The frames of the mapped pages of a range can be given back. *)
Record unmappable (lo : Z) (fl : list Z) (m : mach) (pd start stop : Z) : Prop := Unmappable {
  um_frame va e : start <= va < stop → walk (ram m) pd va = Some e →
    allocated lo fl m (base e) ∧ base e ≠ pd ∧
    ∀ i, 0 <= i < 1024 → absent (entry (ram m) pd i) = false →
      base (entry (ram m) pd i) ≠ base e;
  um_inj va va' e e' : start <= va < stop → start <= va' < stop → va / 4096 ≠ va' / 4096 →
    walk (ram m) pd va = Some e → walk (ram m) pd va' = Some e' → base e ≠ base e';
}.

(** The result of unmapping a range of pages. *)
Record range_unmapped (lo : Z) (fl : list Z) (m : mach) (pd start stop : Z) (physical : bool)
    (fl' : list Z) (m' : mach) : Prop := RangeUnmapped {
  ru_wf : alloc_wf lo fl' m';
  ru_as : as_wf (allocated lo fl' m') (ram m') pd;
  ru_none va : start <= va < stop → walk (ram m') pd va = None;
  ru_other va : is_u32 va → va < start ∨ stop <= va → walk (ram m') pd va = walk (ram m) pd va;
  ru_alloc q : allocated lo fl' m' q ↔ allocated lo fl m q ∧
    (physical = true → ∀ va e, start <= va < stop → walk (ram m) pd va = Some e → base e ≠ q);
}.

Lemma range_unmapped_nil lo fl m pd start stop physical :
  alloc_wf lo fl m → as_wf (allocated lo fl m) (ram m) pd → stop <= start →
  range_unmapped lo fl m pd start stop physical fl m.
Proof. intros. split; try done; [lia|]. intros q. split; [|tauto]. split; [done|]. lia. Qed.

(** One page, then the rest of the range. *)
Lemma range_unmapped_cons lo fl m pd start stop physical fl1 m1 fl' m' :
  start mod 4096 = 0 → 0 <= start → start + 4096 <= stop → stop < 4294967296 →
  range_unmapped lo fl m pd start (start + 4096) physical fl1 m1 →
  range_unmapped lo fl1 m1 pd (start + 4096) stop physical fl' m' →
  range_unmapped lo fl m pd start stop physical fl' m'.
Proof.
  intros Ha H0 Hle Hst [W1 A1 N1 O1 L1] [W2 A2 N2 O2 L2]. split; try done.
  - intros va Hva. destruct (decide (va < start + 4096)); [|apply N2; lia].
    rewrite O2 by (unfold is_u32; lia). apply N1. lia.
  - intros va Hva Hr. rewrite O2 by (done || lia). apply O1; [done|lia].
  - intros q. rewrite L2, L1. split.
    + intros [[Hq H1] H2]. split; [done|]. intros Hp va e Hva Hw.
      destruct (decide (va < start + 4096)); [by apply (H1 Hp va e); [lia|]|].
      apply (H2 Hp va e); [lia|]. rewrite O1 by (unfold is_u32; lia). done.
    + intros [Hq H1]. split; [split; [done|]|]; intros Hp va e Hva Hw.
      * by apply (H1 Hp va e); [lia|].
      * apply (H1 Hp va e); [lia|]. rewrite O1 in Hw by (unfold is_u32; lia). done.
Qed.

Lemma unmap_page_ok lo fl m pd start physical :
  alloc_wf lo fl m → as_wf (allocated lo fl m) (ram m) pd →
  start mod 4096 = 0 → 0 <= start → start + 4096 < 4294967296 →
  (physical = true → unmappable lo fl m pd start (start + 4096)) →
  ∃ fl' m', unmap pd start physical m = Ret m' ∧ same_frame m m' pd ∧
    range_unmapped lo fl m pd start (start + 4096) physical fl' m'.
Proof.
  intros Hwf Has Ha H0 Hb Hum.
  assert (Hpg : ∀ va, start <= va < start + 4096 → walk (ram m) pd va = walk (ram m) pd start).
  { intros va Hva. apply walk_page. zlia. }
  destruct (walk (ram m) pd start) as [e|] eqn:Hw.
  - destruct (unmap_mapped lo fl m pd start e physical) as
      (fl' & m' & E & _ & Hwf' & Has' & Hw' & Ho & Hal & _ & Hsame); [done..|unfold is_u32; lia|done| |].
    { intros Hp. apply (um_frame _ _ _ _ _ _ (Hum Hp) start); [lia|done]. }
    exists fl', m'. split; [done|]. split; [done|]. split; try done.
    + intros va Hva. by rewrite (walk_page _ _ va start) by zlia.
    + intros va Hva Hr. apply Ho; [done|]. zlia.
    + intros q. rewrite Hal. split; intros [Hq H1]; (split; [done|]); intros Hp.
      * intros va e' Hva. rewrite Hpg by done. intros [= <-]. by apply not_eq_sym, H1.
      * intros ->. by apply (H1 Hp start e ltac:(lia) Hw).
  - exists fl, m. rewrite unmap_unmapped by done. split; [done|]. split; [done|].
    split; try done.
    intros q. split; [|tauto]. intros Hq. split; [done|]. intros _ va e' Hva. by rewrite Hpg.
Qed.

(** What is left to unmap can still be given back. *)
Lemma unmappable_rest lo fl m pd start stop fl1 m1 :
  start mod 4096 = 0 → 0 <= start → start + 4096 <= stop → stop < 4294967296 →
  unmappable lo fl m pd start stop → same_frame m m1 pd →
  range_unmapped lo fl m pd start (start + 4096) true fl1 m1 →
  unmappable lo fl1 m1 pd (start + 4096) stop.
Proof.
  intros Ha H0 Hle Hst [Hf Hi] Hs [_ _ N1 O1 L1].
  assert (Hw : ∀ va, start + 4096 <= va < stop → walk (ram m1) pd va = walk (ram m) pd va).
  { intros va Hva. apply O1; unfold is_u32; lia. }
  split.
  - intros va e Hva. rewrite Hw by done. intros E. destruct (Hf va e ltac:(lia) E) as (H1 & H2 & H3).
    split; [|split; [done|]].
    + apply L1. split; [done|]. intros _ va' e' Hva' E'. apply (Hi va' va); [lia|lia|zlia|done..].
    + intros i Hi'. rewrite (entry_agree (ram m)) by done. by apply H3.
  - intros va va' e e' Hva Hva' Hne. rewrite !Hw by done. by apply Hi; lia.
Qed.

(** The loop of [munmap]. *)
Lemma unmap_region_loop n fuel lo fl m pd start physical :
  (n <= fuel)%nat → alloc_wf lo fl m → as_wf (allocated lo fl m) (ram m) pd →
  start mod 4096 = 0 → 0 <= start → start + 4096 * Z.of_nat n < 4294967296 →
  (physical = true → unmappable lo fl m pd start (start + 4096 * Z.of_nat n)) →
  ∃ fl' m' va',
    while_loop fuel (λ '(va, _), va <? start + 4096 * Z.of_nat n)
      (λ '(va, m), m ← unmap pd va physical m; Ret (u32 (va + FRAME_SIZE), m)) (start, m)
      = Ret (va', m') ∧
    range_unmapped lo fl m pd start (start + 4096 * Z.of_nat n) physical fl' m'.
Proof.
  revert fuel fl m start. induction n as [|n IH]; intros fuel fl m start Hf Hwf Has Ha H0 Hb Hum.
  - exists fl, m, start. split; [|by apply range_unmapped_nil; [..|lia]].
    destruct fuel; cbn [while_loop]; by rewrite (proj2 (Z.ltb_ge start _)) by lia.
  - destruct fuel as [|fuel]; [lia|]. cbn [while_loop].
    rewrite (proj2 (Z.ltb_lt start _)) by lia.
    destruct (unmap_page_ok lo fl m pd start physical) as (fl1 & m1 & -> & Hs & Hr1);
      [done..|lia| |].
    { intros Hp. specialize (Hum Hp) as [H1 H2]. split.
      - intros va e Hva. apply H1. lia.
      - intros va va' e e' Hva Hva'. apply H2; lia. }
    cbn [mbind outcome_bind]. change FRAME_SIZE with 4096.
    rewrite u32_small by (unfold is_u32; lia).
    replace (start + 4096 * Z.of_nat (S n)) with (start + 4096 + 4096 * Z.of_nat n) in * by lia.
    destruct (IH fuel fl1 m1 (start + 4096)) as (fl' & m' & va' & E & Hr2);
      [lia|apply Hr1|apply Hr1|zlia|lia|lia| |].
    { intros ->. by apply (unmappable_rest lo fl m pd start); [..|apply Hum| |]; try lia. }
    exists fl', m', va'. split; [exact E|].
    by apply (range_unmapped_cons lo fl m pd start _ physical fl1 m1); [..|lia|lia| |].
Qed.

Lemma unmap_region_ok lo fl m pd start stop physical :
  alloc_wf lo fl m → as_wf (allocated lo fl m) (ram m) pd →
  start mod 4096 = 0 → stop mod 4096 = 0 → 0 <= start <= stop → stop < 4294967296 →
  (physical = true → unmappable lo fl m pd start stop) →
  ∃ fl' m', unmap_region pd start stop physical m = Ret m' ∧
    range_unmapped lo fl m pd start stop physical fl' m'.
Proof.
  intros Hwf Has Ha Hb Hle Hst Hum. set (n := Z.to_nat ((stop - start) / 4096)).
  assert (stop = start + 4096 * Z.of_nat n) as Es by (unfold n; zlia). clearbody n.
  unfold unmap_region. rewrite Es in *.
  destruct (unmap_region_loop n (S (Z.to_nat ((start + 4096 * Z.of_nat n - start) / FRAME_SIZE)))
    lo fl m pd start physical) as (fl' & m' & va' & E & Hr); [|done..|lia|done|done|].
  { change FRAME_SIZE with 4096. zlia. }
  rewrite E. by exists fl', m'.
Qed.

Lemma munmap_loop_hit pd addr acc b e a s :
  Forall (λ x, covers x addr = false) b → covers e addr = true →
  munmap_loop pd addr acc (b ++ e :: a) s =
    (s ← munmap_entry pd e s; Ret (0, acc ++ b ++ a, s)).
Proof.
  intros Hb He. revert acc. induction Hb as [|x b Hx Hb IH]; intros acc; cbn [munmap_loop app].
  - by rewrite He.
  - rewrite Hx, IH. destruct (munmap_entry pd e s); cbn; [|done..]. by rewrite <- app_assoc.
Qed.

(** The fault handler reaches the first region that covers the address. *)
Lemma fault_loop_hit pd va acc b e a s :
  Forall (λ x, covers x va = false) b → covers e va = true →
  fault_loop pd va acc (b ++ e :: a) s =
    ('(pa, node', s) ← fault_frame e va s;
     m ← user_map pd va pa (vm_mach s);
     Ret (true, acc ++ b ++ with_node node' e :: a, set_mach m s)).
Proof.
  intros Hb He. revert acc. induction Hb as [|x b Hx Hb IH]; intros acc; cbn [fault_loop app].
  - by rewrite He.
  - rewrite Hx, IH. destruct (fault_frame e va s) as [[[pa n'] s']| | |]; cbn; [|done..].
    destruct (user_map pd va pa (vm_mach s')); cbn; [|done..]. by rewrite <- app_assoc.
Qed.

Lemma fault_loop_miss pd va acc es s :
  Forall (λ x, covers x va = false) es → fault_loop pd va acc es s = Ret (false, acc ++ es, s).
Proof.
  intros Hb. revert acc. induction Hb as [|x b Hx Hb IH]; intros acc; cbn [fault_loop].
  - by rewrite app_nil_r.
  - rewrite Hx, IH. by rewrite <- app_assoc.
Qed.

Lemma pageFault_hit pd va_ b e a s :
  is_u32 va_ → 2147483648 <= va_ →
  Forall (λ x, covers x (framedown va_) = false) b → covers e (framedown va_) = true →
  is_u32 (framedown va_) ∧
  vmm_pageFault pd pd pd va_ (b ++ e :: a) s =
    ('(pa, node', s) ← fault_frame e (framedown va_) s;
     m ← user_map pd (framedown va_) pa (vm_mach s);
     Ret (true, b ++ with_node node' e :: a, set_mach m s)).
Proof.
  intros Hva Hhi Hb He. unfold vmm_pageFault. rewrite Z.eqb_refl. cbn [ASSERT mbind outcome_bind].
  assert (2147483648 <= framedown va_ ∧ is_u32 (framedown va_)) as [Hge Hu].
  { rewrite framedown_eq by done. unfold is_u32 in *. zlia. }
  split; [done|]. rewrite (proj2 (Z.leb_le 0x80000000 _)) by lia. by apply (fault_loop_hit _ _ []).
Qed.

Lemma with_node_id e : with_node (node e) e = e.
Proof. by destruct e. Qed.

Lemma fault_anonymous_ok lo fl s pd va_ b a e (va := framedown va_) :
  alloc_wf lo fl (vm_mach s) → as_wf (allocated lo fl (vm_mach s)) (ram (vm_mach s)) pd →
  is_u32 va_ → 2147483648 <= va_ →
  Forall (λ x, covers x va = false) b → covers e va = true →
  file e = None ∨ Z.land (flags e) 1 = 0 →
  (vmm_pageFault pd pd pd va_ (b ++ e :: a) s = Panic "no more frames" ∧
   frames_left fl (vm_mach s) <= 1) ∨
  ∃ pa fl' s', vmm_pageFault pd pd pd va_ (b ++ e :: a) s = Ret (true, b ++ e :: a, s') ∧
    ¬ allocated lo fl (vm_mach s) pa ∧
    page_mapped lo fl (vm_mach s) pd va pa fl' (vm_mach s') ∧
    frame_is (vm_mach s') pa (λ _, 0) ∧
    nodes s' = nodes s ∧ node_list s' = node_list s.
Proof.
  intros Hwf Has Hva Hhi Hb He Hanon.
  destruct (pageFault_hit pd va_ b e a s Hva Hhi Hb He) as [Hu ->]. fold va in Hu |- *.
  assert (fault_frame e va s = ('(pa, m) ← alloc_frame (vm_mach s); Ret (pa, node e, set_mach m s))) as ->.
  { unfold fault_frame. destruct (file e); [|done]. destruct Hanon as [?| ->]; done. }
  destruct (alloc_frame_cases _ _ _ Hwf) as [[Hz ->]|(pa & fl1 & m1 & -> & Hap)]; cbn [mbind outcome_bind].
  { left. split; [done|lia]. }
  destruct (user_map_fresh lo fl (vm_mach s) pa fl1 m1 (ram m1) pd va Hwf Has Hu Hap)
    as [[E ?]|(fl' & m' & E & Hp & Hag)]; [by intros ?? _ ??| |].
  all: replace (set_ram (ram m1) m1) with m1 in E by (by destruct m1).
  all: change (vm_mach (set_mach m1 s)) with m1; rewrite E; cbn [mbind outcome_bind].
  { left. split; [done|lia]. }
  right. exists pa, fl', (set_mach m' (set_mach m1 s)). rewrite with_node_id.
  split; [done|]. split; [apply Hap|]. split; [done|]. split; [|done].
  intros i Hi. change (vm_mach (set_mach m' _)) with m'. rewrite Hag by lia. by apply Hap; lia.
Qed.

(** ** Properties *)


(** (functional) The first access to a page of an anonymous region, or of a
    private one, maps a frame that was free, filled with zeros, readable and
    writable by the user; every other page of the process keeps its
    translation, every frame in use keeps its contents, and the shared files
    are not affected.  It panics only when fewer than two frames are left. *)
Theorem fault_anonymous (lo : Z) (fl : list Z) (s : vmm) (pd va_ : Z) (b a : list VMEntry)
    (e : VMEntry) (va := framedown va_)
    (Hwf : alloc_wf lo fl (vm_mach s))
    (Has : as_wf (allocated lo fl (vm_mach s)) (ram (vm_mach s)) pd)
    (Hva : is_u32 va_) (Hhi : 2147483648 <= va_)
    (Hb : Forall (λ x, covers x va = false) b) (He : covers e va = true)
    (Hanon : file e = None ∨ Z.land (flags e) 1 = 0) :
  (vmm_pageFault pd pd pd va_ (b ++ e :: a) s = Panic "no more frames" ∧
   frames_left fl (vm_mach s) <= 1) ∨
  ∃ pa fl' s', vmm_pageFault pd pd pd va_ (b ++ e :: a) s = Ret (true, b ++ e :: a, s') ∧
    ¬ allocated lo fl (vm_mach s) pa ∧
    page_mapped lo fl (vm_mach s) pd va pa fl' (vm_mach s') ∧
    frame_is (vm_mach s') pa (λ _, 0) ∧
    nodes s' = nodes s ∧ node_list s' = node_list s.
Proof. by apply fault_anonymous_ok. Qed.

(** The first access to a page of a shared mapping of a file
    that no process has mapped yet allocates a frame, records it in the global
    list with one user, and fills it: with the bytes of the file from the
    mapping's offset, zero filled after the end of the file, when the mapping
    asks for [prot & 2], and with zeros otherwise. *)
Lemma fault_shared_first (lo : Z) (fl : list Z) (s : vmm) (pd va_ : Z) (b a : list VMEntry)
    (e : VMEntry) (f : F) (content : Z → Z) (v : list (loc * F * Z * Z)) (va := framedown va_)
    (Hwf : alloc_wf lo fl (vm_mach s))
    (Has : as_wf (allocated lo fl (vm_mach s)) (ram (vm_mach s)) pd)
    (Hva : is_u32 va_) (Hhi : 2147483648 <= va_)
    (Hb : Forall (λ x, covers x va = false) b) (He : covers e va = true)
    (Hf : file e = Some f) (Hshared : Z.land (flags e) 1 ≠ 0)
    (Hdev : device_ok f content)
    (Hv : shared_files s v) (Hnew : Forall (λ x, v_num x ≠ number_of f) v) :
  (vmm_pageFault pd pd pd va_ (b ++ e :: a) s = Panic "no more frames" ∧
   frames_left fl (vm_mach s) <= 1) ∨
  ∃ pa k fl' s',
    vmm_pageFault pd pd pd va_ (b ++ e :: a) s = Ret (true, b ++ with_node (Some k) e :: a, s') ∧
    ¬ allocated lo fl (vm_mach s) pa ∧
    page_mapped lo fl (vm_mach s) pd va pa fl' (vm_mach s') ∧
    frame_is (vm_mach s') pa (λ i, if Z.land (prot e) 2 =? 2
                                   then file_page content (size_in_bytes f) (file_offset e va) i
                                   else 0) ∧
    shared_files s' (v ++ [(k, f, 1, pa)]).
Proof.
  destruct (pageFault_hit pd va_ b e a s Hva Hhi Hb He) as [Hu ->]. fold va in Hu |- *.
  destruct Hv as (l & Hl & <-). unfold fault_frame. rewrite Hf, (proj2 (Z.eqb_neq _ 0)) by done.
  assert (Hnew' : Forall (λ kn, num_of kn ≠ number_of f) l).
  { apply Forall_forall. intros kn Hin. rewrite Forall_forall in Hnew.
    apply (Hnew (node_view kn)). apply list_elem_of_fmap. by exists kn. }
  pose proof (chain_size _ _ _ (no_chain _ _ Hl) (no_nodup _ _ Hl)).
  rewrite (find_node_entry_none _ _ _ _ _ _ (no_chain _ _ Hl) Hnew') by lia.
  cbn [mbind outcome_bind].
  destruct (alloc_frame_cases _ _ _ Hwf) as [[Hz ->]|(pa & fl1 & m1 & -> & Hap)]; cbn [mbind outcome_bind].
  { left. split; [done|lia]. }
  set (k := fresh (dom (nodes s))).
  destruct (append_node_ok (set_mach m1 s) l f pa k) as (s2 & -> & Hm2 & Hv2).
  { destruct Hl. by split. } { apply is_fresh. } { done. }
  cbn [mbind outcome_bind]. change (vm_mach (set_mach m1 s)) with m1 in Hm2. rewrite Hm2.
  destruct (fill_frame_ok e f va pa m1 content Hdev) as (r & -> & Hout & Hin). cbn [mbind outcome_bind].
  change (vm_mach (set_mach _ s2)) with (set_ram r m1).
  destruct (user_map_fresh lo fl (vm_mach s) pa fl1 m1 r pd va Hwf Has Hu Hap Hout)
    as [[-> ?]|(fl' & m' & -> & Hp & Hag)]; cbn [mbind outcome_bind].
  { left. split; [done|lia]. }
  right. eexists pa, k, fl', _. split; [done|]. split; [apply Hap|]. split; [done|].
  split; [|by do 2 apply shared_files_mach]. intros i Hi. change (vm_mach (set_mach m' _)) with m'.
  rewrite Hag by lia. by apply Hin.
Qed.

(** An access to a shared mapping of a file that some process
    has mapped already maps the same frame, with its contents unchanged, and
    counts one more user; no frame is allocated except possibly for a page
    table. *)
Lemma fault_shared_again (lo : Z) (fl : list Z) (s : vmm) (pd va_ : Z) (b a : list VMEntry)
    (e : VMEntry) (f f' : F) (v1 v2 : list (loc * F * Z * Z)) (k : loc) (c pa : Z)
    (va := framedown va_)
    (Hwf : alloc_wf lo fl (vm_mach s))
    (Has : as_wf (allocated lo fl (vm_mach s)) (ram (vm_mach s)) pd)
    (Hva : is_u32 va_) (Hhi : 2147483648 <= va_)
    (Hb : Forall (λ x, covers x va = false) b) (He : covers e va = true)
    (Hf : file e = Some f) (Hshared : Z.land (flags e) 1 ≠ 0) (Hnum : number_of f' = number_of f)
    (Hv : shared_files s (v1 ++ (k, f', c, pa) :: v2))
    (Hpa : allocated lo fl (vm_mach s) pa) (Hpd : pa ≠ pd) (Hnt : not_table (vm_mach s) pd va pa) :
  (vmm_pageFault pd pd pd va_ (b ++ e :: a) s = Panic "no more frames" ∧
   frames_left fl (vm_mach s) = 0) ∨
  ∃ fl' s',
    vmm_pageFault pd pd pd va_ (b ++ e :: a) s = Ret (true, b ++ with_node (Some k) e :: a, s') ∧
    page_mapped lo fl (vm_mach s) pd va pa fl' (vm_mach s') ∧
    same_frame (vm_mach s) (vm_mach s') pa ∧
    frames_left fl (vm_mach s) - 1 <= frames_left fl' (vm_mach s') ∧
    shared_files s' (v1 ++ (k, f', u32 (c + 1), pa) :: v2).
Proof.
  destruct (pageFault_hit pd va_ b e a s Hva Hhi Hb He) as [Hu ->]. fold va in Hu |- *.
  pose proof Hv as (l & [Hc Hnd Hnf] & Hl). unfold fault_frame.
  rewrite Hf, (proj2 (Z.eqb_neq _ 0)) by done.
  pose proof (chain_size _ _ _ Hc Hnd) as Hlen. rewrite <- view_nums, Hl, fmap_app, fmap_cons in Hnf.
  apply view_split in Hl as (l1 & nx & l2 & -> & <- & <-).
  rewrite NoDup_app, view_nums in Hnf. destruct Hnf as (_ & Hd & _).
  rewrite (find_node_entry_found _ _ _ _ _ l1 k (MkNodeEntry f' c pa nx) l2 Hc).
  2:{ exact Hnum. }
  2:{ apply Forall_forall. intros kn Hin En. apply (Hd (num_of kn)).
      - apply list_elem_of_fmap. by exists kn.
      - rewrite En, <- Hnum. by left. }
  2:{ rewrite length_app in Hlen. cbn in Hlen. lia. }
  cbn [mbind outcome_bind]. pose proof (chain_app _ _ _ _ _ _ Hc) as [Hk _]. rewrite Hk.
  cbn [deref mbind outcome_bind num_processes ne_pa].
  destruct (user_map_shared lo fl (vm_mach s) pd va pa Hwf Has Hu Hpa)
    as [[E ?]|(fl' & m' & E & Hp & Hleft)];
    change (vm_mach (set_node k _ s)) with (vm_mach s); rewrite E; cbn [mbind outcome_bind];
    [by left|right].
  eexists fl', _. split; [done|]. split; [done|]. split; [|split; [done|]].
  - by apply (pm_same _ _ _ _ _ _ _ _ Hp).
  - apply shared_files_mach, (shared_files_count s _ k f' c pa _ _ (c + 1) Hv Hk).
Qed.


(** Private and never accessed mappings cannot be unmapped: with no shared
    file mapped the kernel dereferences the null list head. *)
Lemma munmap_private_crash pd addr len e s :
  is_special kConfig addr = false → covers e addr = true → Z.land (flags e) 1 = 0 →
  node_list s = None →
  ∀ r, munmap pd addr len [e] s ≠ Ret r.
Proof.
  intros Hsp He Hfl Hn r. unfold munmap. rewrite Hsp. cbn [munmap_loop]. rewrite He.
  unfold munmap_entry. rewrite Hfl. cbn [Z.eqb mbind outcome_bind].
  destruct (unmap_region _ _ _ _ _) as [m'| | |]; cbn [mbind outcome_bind]; [|done..].
  unfold unlink_node. cbn [node_list set_mach]. by rewrite Hn.
Qed.

End Vmm.

(** ** Witnesses *)

(** A file with a number and fixed contents. *)
Record DemoFile := MkDemoFile { df_number : Z; df_dev : ByteDevice }.

#[export] Instance DemoFile_file : FileNode DemoFile := {|
  file_io := {| block_size f := bd_block (df_dev f); size_in_bytes f := bd_size (df_dev f);
                read_block f i := read_block (df_dev f) i |};
  number_of := df_number;
|}.

Definition demo_file : DemoFile := MkDemoFile 12 (MkByteDevice 512 5000 (λ k, k mod 251)).

Lemma demo_file_ok : device_ok demo_file (λ k, k mod 251).
Proof.
  destruct (ByteDevice_ok (df_dev demo_file)) as [H1 H2 H3]; [cbn; lia|cbn; unfold is_u32; lia|].
  split; [exact H1|exact H2|exact H3].
Qed.

Definition demo_region (file : option DemoFile) (start size flags prot : Z) (node : option loc)
  : VMEntry := MkVMEntry file size start 4096 flags prot node.

Definition demo_list : list (@VMEntry DemoFile) :=
  [demo_region None 0x80000000 8192 1 10 None; demo_region None 0x90000000 4096 1 10 None].

(** The default address skips the two pages in use and fits before the last
    region. *)
Example mmap_demo :
  mmap demo_config (λ _, Ret (Some demo_file)) None 0 5000 2 1 3 0 demo_list =
  Ret (0x80002000,
    [demo_region None 0x80000000 8192 1 10 None;
     MkVMEntry (Some demo_file) 8192 0x80002000 0 1 2 None;
     demo_region None 0x90000000 4096 1 10 None]).
Proof. vm_compute. done. Qed.

(** With a single region the loop is never entered: the second default mapping
    lands on the first. *)
Example mmap_twice_overlaps :
  (es1 ← mmap demo_config (λ _, Ret (Some demo_file)) None 0 4096 2 1 3 0 [];
   mmap demo_config (λ _, Ret (Some demo_file)) None 0 4096 2 1 3 0 es1.2) =
  Ret (0x80000000,
    [MkVMEntry (Some demo_file) 4096 0x80000000 0 1 2 None;
     MkVMEntry (Some demo_file) 4096 0x80000000 0 1 2 None]).
Proof. vm_compute. done. Qed.


Definition demo_vmm1 : vmm := MkVmm (F := DemoFile) dm1 ∅ None.

(** The frame 6295552 holds the file and one process uses it. *)
Definition demo_vmm2 : vmm :=
  MkVmm dm2 {[0%nat := MkNodeEntry demo_file 1 6295552 None]} (Some 0%nat).

Lemma demo_shared (m : mach) :
  shared_files (MkVmm m {[0%nat := MkNodeEntry demo_file 1 6295552 None]} (Some 0%nat))
    ([] ++ (0%nat, demo_file, 1, 6295552) :: []).
Proof.
  apply (nodes_ok_intro _ [(0%nat, MkNodeEntry demo_file 1 6295552 None)]); [|done|apply NoDup_singleton..].
  cbn. split; [done|]. split; [by apply lookup_singleton_eq|done].
Qed.

Lemma fault_anonymous_witness :
  (vmm_pageFault 6291456 6291456 6291456 0x80000123 ([] ++ demo_list) demo_vmm1
     = Panic "no more frames" ∧ frames_left [] dm1 <= 1) ∨
  ∃ pa fl' s', vmm_pageFault 6291456 6291456 6291456 0x80000123 ([] ++ demo_list) demo_vmm1
      = Ret (true, [] ++ demo_list, s') ∧
    ¬ allocated 6291456 [] dm1 pa ∧
    page_mapped 6291456 [] dm1 6291456 (framedown 0x80000123) pa fl' (vm_mach s') ∧
    frame_is (vm_mach s') pa (λ _, 0) ∧ nodes s' = ∅ ∧ node_list s' = None.
Proof.
  apply (fault_anonymous 6291456 [] demo_vmm1 6291456 0x80000123 []);
    [apply (ap_wf _ _ _ _ _ _ dm1_post)|apply dm1_space|unfold is_u32; lia|lia
    |by apply Forall_nil|by vm_compute|by left].
Defined.

Definition demo_mapping (node : option loc) : VMEntry :=
  demo_region (Some demo_file) 0x80001000 4096 1 2 node.

Lemma fault_shared_first_witness :
  (vmm_pageFault 6291456 6291456 6291456 0x80001abc ([] ++ demo_mapping None :: []) demo_vmm1
     = Panic "no more frames" ∧ frames_left [] dm1 <= 1) ∨
  ∃ pa k fl' s',
    vmm_pageFault 6291456 6291456 6291456 0x80001abc ([] ++ demo_mapping None :: []) demo_vmm1
      = Ret (true, [] ++ with_node (Some k) (demo_mapping None) :: [], s') ∧
    ¬ allocated 6291456 [] dm1 pa ∧
    page_mapped 6291456 [] dm1 6291456 (framedown 0x80001abc) pa fl' (vm_mach s') ∧
    frame_is (vm_mach s') pa (λ i, if Z.land (prot (demo_mapping None)) 2 =? 2
                                   then file_page (λ k, k mod 251) (size_in_bytes demo_file)
                                          (file_offset (demo_mapping None) (framedown 0x80001abc)) i
                                   else 0) ∧
    shared_files s' ([] ++ [(k, demo_file, 1, pa)]).
Proof.
  apply (fault_shared_first 6291456 [] demo_vmm1 6291456 0x80001abc [] [] (demo_mapping None)
           demo_file (λ k, k mod 251) []);
    [apply (ap_wf _ _ _ _ _ _ dm1_post)|apply dm1_space|unfold is_u32; lia|lia
    |by apply Forall_nil|by vm_compute|done|done|apply demo_file_ok| |by apply Forall_nil].
  apply (nodes_ok_intro _ []); [done|done|by constructor..].
Defined.

Lemma fault_shared_again_witness :
  (vmm_pageFault 6291456 6291456 6291456 0x80001abc ([] ++ demo_mapping None :: []) demo_vmm2
     = Panic "no more frames" ∧ frames_left [] dm2 = 0) ∨
  ∃ fl' s',
    vmm_pageFault 6291456 6291456 6291456 0x80001abc ([] ++ demo_mapping None :: []) demo_vmm2
      = Ret (true, [] ++ with_node (Some 0%nat) (demo_mapping None) :: [], s') ∧
    page_mapped 6291456 [] dm2 6291456 (framedown 0x80001abc) 6295552 fl' (vm_mach s') ∧
    same_frame dm2 (vm_mach s') 6295552 ∧
    frames_left [] dm2 - 1 <= frames_left fl' (vm_mach s') ∧
    shared_files s' ([] ++ (0%nat, demo_file, u32 (1 + 1), 6295552) :: []).
Proof.
  apply (fault_shared_again 6291456 [] demo_vmm2 6291456 0x80001abc [] [] (demo_mapping None)
           demo_file demo_file);
    [apply (ap_wf _ _ _ _ _ _ dm2_post)|apply dm2_space|unfold is_u32; lia|lia
    |by apply Forall_nil|by vm_compute|done|done|done|apply demo_shared
    |apply (ap_alloc _ _ _ _ _ _ dm2_post); by left|lia|].
  intros H. exfalso. revert H. by vm_compute.
Defined.

Lemma demo_unmappable fl :
  allocated 6291456 fl dm3 6295552 →
  (∀ i, 0 <= i < 1024 → absent (entry (ram dm3) 6291456 i) = false →
     base (entry (ram dm3) 6291456 i) ≠ 6295552) →
  unmappable 6291456 fl dm3 6291456 0x80001000 (end_of (demo_mapping (Some 0%nat))).
Proof.
  intros Hal Hb. change (end_of _) with 0x80002000.
  assert (Hw : ∀ va e, 0x80001000 <= va < 0x80002000 →
    walk (ram dm3) 6291456 va = Some e → base e = 6295552).
  { intros va e Hva. rewrite (walk_page _ _ va 0x80001000) by zlia.
    assert (walk (ram dm3) 6291456 0x80001000 = Some (6295552 + 7)) as -> by (by vm_compute).
    intros [= <-]. reflexivity. }
  split.
  - intros va e Hva He. rewrite (Hw va e Hva He). split; [exact Hal|]. split; [lia|exact Hb].
  - intros va va' e e' Hva Hva' Hne. exfalso. zlia.
Qed.

Definition demo_vmm3 : vmm :=
  MkVmm dm3 {[0%nat := MkNodeEntry demo_file 1 6295552 None]} (Some 0%nat).

