(* ===== verification/Queue.v ===== *)
(** * Queues of threads: src/kernel/queue.h, priority_queue.h

    Both queues are intrusive: the link is the [next] field of the elements,
    which live in a store shared by every queue of the kernel (the ready queue,
    the zombies and the waiting queues of the semaphores).  [Queue] is a module
    of first/last pointers, [PQueue] a sorted list with a wake-up counter.  Each
    is proved to implement its list: [repr] relates the pointers to the list of
    the locations of the elements.  The lock that every method holds is the
    subject of the file Locks. *)

From Stdlib Require Import Sorted.
From S2P Require Import Prelude.
Local Open Scope Z_scope.

(** ** What an element offers to the queues *)

Class Linked (T : Type) := {
  next : T → option nat;
  with_next : option nat → T → T;
  next_with p t : next (with_next p t) = p;
}.

(** Where the elements live. *)
Abbreviation store T := (gmap nat T).

Section Chains.
Context {T : Type} `{Linked T}.

(** [t->next = p] *)
Definition set_next (t : nat) (p : option nat) (st : store T) : outcome (store T) :=
  it ← deref (st !! t);
  Ret (<[t := with_next p it]> st).

(** [t->next] *)
Definition get_next (t : nat) (st : store T) : outcome (option nat) :=
  it ← deref (st !! t);
  Ret (next it).

(** The elements reached from [p] are [l]. *)
Fixpoint linked (st : store T) (p : option nat) (l : list nat) : Prop :=
  match l with
  | [] => p = None
  | t :: l' => p = Some t ∧ ∃ it, st !! t = Some it ∧ linked st (next it) l'
  end.

Lemma linked_insert st p l t it : t ∉ l → linked st p l → linked (<[t := it]> st) p l.
Proof.
  revert p. induction l as [|x l IH]; intros p; cbn; [done|].
  intros Ht (-> & ix & Hx & Hl). split; [done|]. exists ix.
  rewrite lookup_insert_ne by set_solver. split; [done|]. apply IH; [set_solver|done].
Qed.

Lemma linked_lookup st p l t : linked st p l → t ∈ l → is_Some (st !! t).
Proof.
  revert p. induction l as [|x l IH]; intros p; cbn; [set_solver|].
  intros (-> & ix & Hx & Hl) [->|Ht]%elem_of_cons; [eauto|by eapply IH].
Qed.

(** Overwriting the link of the element in the middle. *)
Lemma linked_splice st p l1 q l2 iq l3 :
  linked st p (l1 ++ q :: l2) → q ∉ l1 → q ∉ l3 → linked st (next iq) l3 →
  linked (<[q := iq]> st) p (l1 ++ q :: l3).
Proof.
  intros Hl H1 H3 Hl3. revert p Hl. induction l1 as [|x l1 IH]; intros p; cbn.
  - intros (-> & _). split; [done|]. exists iq. rewrite lookup_insert_eq.
    split; [done|]. by apply linked_insert.
  - intros (-> & ix & Hx & Hl). split; [done|]. exists ix.
    rewrite lookup_insert_ne by set_solver. split; [done|]. apply IH; [set_solver|done].
Qed.

Lemma linked_suffix st p l1 l2 :
  linked st p (l1 ++ l2) → ∃ q, linked st q l2 ∧ (l1 = [] → q = p).
Proof.
  revert p. induction l1 as [|x l1 IH]; intros p; cbn; [eauto|].
  intros (_ & ix & _ & Hl). destruct (IH _ Hl) as (q & Hq & _). by exists q.
Qed.

(** Only the links of the elements differ: every other field, seen through
    any function [g], is the same. *)
Definition only_links (st st' : store T) : Prop :=
  ∀ (A : Type) (g : T → A), (∀ p i, g (with_next p i) = g i) → g <$> st' = g <$> st.

Lemma only_links_refl st : only_links st st.
Proof. done. Qed.

Lemma only_links_trans st1 st2 st3 :
  only_links st1 st2 → only_links st2 st3 → only_links st1 st3.
Proof. intros H1 H2 A g Hg. by rewrite (H2 A g Hg), (H1 A g Hg). Qed.

Lemma only_links_insert st x i p : st !! x = Some i → only_links st (<[x := with_next p i]> st).
Proof.
  intros Hx A g Hg. rewrite fmap_insert, Hg. apply insert_id. by rewrite lookup_fmap, Hx.
Qed.

Lemma only_links_dom st st' : only_links st st' → dom st' = dom st.
Proof.
  intros Ho. specialize (Ho unit (λ _, tt) (λ _ _, eq_refl)).
  rewrite <- (dom_fmap_L (λ _, tt) st'), Ho. apply dom_fmap_L.
Qed.

Lemma only_links_lookup {A} (g : T → A) st st' x :
  (∀ p i, g (with_next p i) = g i) → only_links st st' → g <$> st' !! x = g <$> st !! x.
Proof. intros Hg Ho. by rewrite <- !lookup_fmap, (Ho A g Hg). Qed.

Lemma linked_agree st st' p l :
  (∀ x, x ∈ l → st' !! x = st !! x) → linked st p l → linked st' p l.
Proof.
  revert p. induction l as [|x l IH]; intros p; cbn; [done|].
  intros Hx (-> & ix & Hix & Hl). split; [done|]. exists ix.
  rewrite Hx by set_solver. split; [done|]. apply IH; [set_solver|done].
Qed.

Lemma linked_same_next (st st' : store T) p l :
  next <$> st' = next <$> st → linked st p l → linked st' p l.
Proof.
  intros Hn. revert p. induction l as [|x l IH]; intros p; cbn; [done|].
  intros (-> & ix & Hx & Hl). split; [done|].
  apply (f_equal (lookup x)) in Hn as Hx'. rewrite !lookup_fmap, Hx in Hx'.
  destruct (st' !! x) as [ix'|]; [|done]. injection Hx' as Hx'. exists ix'.
  split; [done|]. rewrite Hx'. by apply IH.
Qed.

(** A change that keeps the link of an element. *)
Lemma linked_update st p l t i i' :
  st !! t = Some i → next i' = next i → linked st p l → linked (<[t := i']> st) p l.
Proof.
  intros Ht Hn. revert p. induction l as [|x l IH]; intros p; cbn; [done|].
  intros (-> & ix & Hx & Hl). split; [done|]. destruct (decide (t = x)) as [->|Hne].
  - exists i'. rewrite lookup_insert_eq. split; [done|]. rewrite Hn. apply IH. congruence.
  - exists ix. rewrite lookup_insert_ne by done. auto.
Qed.

End Chains.

(** ** template <typename T, typename LockType> class Queue *)

Module Queue.
Section Queue.
Context {T : Type} `{Linked T}.

Record queue := MkQueue { first : option nat; last : option nat }.

Definition empty : queue := MkQueue None None.

Definition add (t : nat) (q : queue) (st : store T) : outcome (queue * store T) :=
  st ← set_next t None st;
  '(first, st) ←
    match first q with
    | None => Ret (Some t, st)
    | Some f => l ← deref (last q); st ← set_next l (Some t) st; Ret (Some f, st)
    end;
  Ret (MkQueue first (Some t), st).

Definition remove (q : queue) (st : store T) : outcome (option nat * queue) :=
  match first q with
  | None => Ret (None, q)
  | Some it =>
      first ← get_next it st;
      Ret (Some it, MkQueue first (match first with None => None | Some _ => last q end))
  end.

(** The elements are handed over as a chain. *)
Definition remove_all (q : queue) : option nat * queue := (first q, empty).

(** *** Specification: a FIFO list *)

Record repr (st : store T) (q : queue) (l : list nat) : Prop := Repr {
  rp_linked : linked st (first q) l;
  rp_last : last q = list.last l;
  rp_nodup : NoDup l;
}.

Lemma repr_empty st : repr st empty [].
Proof. split; [done|done|constructor]. Qed.

(** Elements outside the queue can change freely. *)
Lemma repr_insert st q l t it : t ∉ l → repr st q l → repr (<[t := it]> st) q l.
Proof. intros Ht []. split; [by apply linked_insert|done|done]. Qed.

Lemma repr_agree st st' q l :
  (∀ x, x ∈ l → st' !! x = st !! x) → repr st q l → repr st' q l.
Proof. intros Hx []. split; [by eapply linked_agree|done|done]. Qed.

Lemma repr_update st q l t i i' :
  st !! t = Some i → next i' = next i → repr st q l → repr (<[t := i']> st) q l.
Proof. intros Ht Hn []. split; [by eapply linked_update|done|done]. Qed.

Lemma repr_same_next (st st' : store T) q l :
  next <$> st' = next <$> st → repr st q l → repr st' q l.
Proof. intros Hn []. split; [by eapply linked_same_next|done|done]. Qed.

Lemma add_ok st q l t it :
  repr st q l → t ∉ l → st !! t = Some it →
  ∃ q' st', add t q st = Ret (q', st') ∧ repr st' q' (l ++ [t]) ∧
    only_links st st' ∧ ∀ x, x ∉ t :: l → st' !! x = st !! x.
Proof.
  intros [Hl Hla Hnd] Ht Hit. unfold add, set_next. rewrite Hit. cbn [deref mbind outcome_bind].
  pose proof (only_links_insert st t it None Hit) as Hd.
  destruct (first q) as [f|] eqn:Ef.
  - destruct (exists_last (l := l)) as (l1 & z & ->); [by intros ->|].
    rewrite last_snoc in Hla. rewrite Hla. cbn [deref mbind outcome_bind].
    apply NoDup_app in Hnd as (Hnd1 & Hz & _).
    assert (z ≠ t) by (intros ->; set_solver).
    destruct (linked_lookup st (Some f) (l1 ++ [z]) z Hl) as [iz Hiz]; [set_solver|].
    rewrite lookup_insert_ne, Hiz by done. cbn [deref mbind outcome_bind].
    eexists _, _. split; [done|]. split; [split; cbn [first last]|split].
    + rewrite <- app_assoc. eapply linked_splice; [|set_solver|set_solver|].
      * apply linked_insert; [done|]. exact Hl.
      * rewrite next_with. cbn. split; [done|]. rewrite lookup_insert_eq.
        eexists. split; [done|]. by rewrite next_with.
    + by rewrite last_snoc.
    + apply NoDup_app. split; [apply NoDup_app; split; [done|split; [done|apply NoDup_singleton]]|].
      split; [set_solver|apply NoDup_singleton].
    + eapply only_links_trans; [exact Hd|]. apply only_links_insert.
      by rewrite lookup_insert_ne.
    + intros x [Hx Hxl]%not_elem_of_cons. rewrite not_elem_of_app, not_elem_of_cons in Hxl.
      destruct Hxl as (_ & ? & _). by rewrite !lookup_insert_ne by done.
  - destruct l as [|x l]; [|by destruct Hl].
    eexists _, _. split; [done|]. split; [split; cbn [first last app]|split].
    + cbn. split; [done|]. rewrite lookup_insert_eq. eexists. split; [done|]. by rewrite next_with.
    + done.
    + apply NoDup_singleton.
    + exact Hd.
    + intros x [Hx _]%not_elem_of_cons. by rewrite lookup_insert_ne.
Qed.

Lemma remove_ok st q l :
  repr st q l →
  ∃ q', remove q st = Ret (head l, q') ∧ repr st q' (tail l).
Proof.
  intros [Hl Hla Hnd]. unfold remove. destruct l as [|x l]; cbn in Hl.
  - rewrite Hl. by exists q.
  - destruct Hl as (-> & ix & Hx & Hl). unfold get_next. rewrite Hx. cbn.
    eexists. split; [done|]. apply NoDup_cons in Hnd as [_ Hnd]. split; cbn; [done| |done].
    destruct l as [|y l]; [by rewrite Hl|]. destruct Hl as (-> & _).
    by rewrite Hla, last_cons_cons.
Qed.

(** *** Sequences of operations *)

Inductive op := Add (t : nat) | Remove | RemoveAll.

(** The chain handed out by [remove_all] is reported by its first element. *)
Definition exec (o : op) (q : queue) (st : store T) : outcome (option nat * queue * store T) :=
  match o with
  | Add t => '(q, st) ← add t q st; Ret (None, q, st)
  | Remove => '(r, q) ← remove q st; Ret (r, q, st)
  | RemoveAll => let '(r, q) := remove_all q in Ret (r, q, st)
  end.

Definition spec (o : op) (l : list nat) : option nat * list nat :=
  match o with
  | Add t => (None, l ++ [t])
  | Remove => (head l, tail l)
  | RemoveAll => (head l, [])
  end.

(** An element may be added when it is in the store and not already queued. *)
Definition allowed (st : store T) (o : op) (l : list nat) : Prop :=
  match o with Add t => t ∈ dom st ∧ t ∉ l | _ => True end.

Fixpoint exec_all (os : list op) (q : queue) (st : store T)
  : outcome (list (option nat) * queue * store T) :=
  match os with
  | [] => Ret ([], q, st)
  | o :: os =>
      '(r, q, st) ← exec o q st;
      '(rs, q, st) ← exec_all os q st;
      Ret (r :: rs, q, st)
  end.

Fixpoint spec_all (os : list op) (l : list nat) : list (option nat) * list nat :=
  match os with
  | [] => ([], l)
  | o :: os => let '(r, l) := spec o l in let '(rs, l) := spec_all os l in (r :: rs, l)
  end.

Fixpoint all_allowed (st : store T) (os : list op) (l : list nat) : Prop :=
  match os with [] => True | o :: os => allowed st o l ∧ all_allowed st os (spec o l).2 end.

Lemma exec_ok o q st l :
  repr st q l → allowed st o l →
  ∃ q' st', exec o q st = Ret ((spec o l).1, q', st') ∧ repr st' q' (spec o l).2 ∧
    dom st' = dom st.
Proof.
  intros Hr. destruct o; cbn.
  - intros [[it Hit]%elem_of_dom Ht].
    destruct (add_ok st q l t it Hr Ht Hit) as (q' & st' & -> & ? & Ho & _).
    exists q', st'. by rewrite (only_links_dom _ _ Ho).
  - intros _. destruct (remove_ok st q l Hr) as (q' & -> & ?). by exists q', st.
  - intros _. exists empty, st. split; [|split; [apply repr_empty|done]].
    destruct Hr as [Hl _ _]. destruct l; cbn in *; [by rewrite Hl|by destruct Hl as [-> _]].
Qed.

Lemma allowed_dom (st st' : store T) os l :
  dom st' = dom st → all_allowed st os l → all_allowed st' os l.
Proof.
  intros Hd. revert l. induction os as [|o os IH]; intros l; cbn; [done|].
  intros [H1 H2]. split; [|by apply IH]. destruct o; cbn in *; [by rewrite Hd|done..].
Qed.

(** A [Queue] behaves as a FIFO list.  For every sequence of
    additions (of threads that exist and are not already queued), removals and
    removals of everything, the pointer implementation never follows a null or
    dangling pointer, returns what the list returns, and its pointers still
    represent the list. *)
Lemma queue_refines_fifo (os : list op) (q : queue) (st : store T) (l : list nat)
    (Hr : repr st q l) (Hall : all_allowed st os l) :
  ∃ q' st', exec_all os q st = Ret ((spec_all os l).1, q', st') ∧
    repr st' q' (spec_all os l).2 ∧ dom st' = dom st.
Proof.
  revert q st l Hr Hall. induction os as [|o os IH]; intros q st l Hr; cbn.
  - intros _. by exists q, st.
  - intros [H1 H2]. destruct (exec_ok o q st l Hr H1) as (q1 & st1 & -> & Hr1 & Hd1).
    cbn [mbind outcome_bind]. destruct (spec o l) as [r l1]. cbn [fst snd] in *.
    destruct (IH q1 st1 l1 Hr1 (allowed_dom _ _ _ _ Hd1 H2)) as (q2 & st2 & -> & Hr2 & Hd2).
    cbn [mbind outcome_bind]. destruct (spec_all os l1) as [rs l2]. cbn [fst snd] in *.
    exists q2, st2. by rewrite Hd2.
Qed.

End Queue.
End Queue.

(** ** template <typename T, typename LockType> class PriorityQueue *)

Module PQueue.
Section PQueue.
Context {T : Type} `{Linked T}.

Record pqueue := MkPQueue { first : option nat; size : Z }.

Definition empty : pqueue := MkPQueue None 0.

(** The walk of [add]: [prev] and [temp] at the end of the loop.  [rt] is
    [process->run_time->get()] of an element. *)
Fixpoint find_place (fuel : nat) (rt : T → Z) (key : Z) (prev temp : option nat) (st : store T)
  : outcome (option nat * option nat) :=
  match temp with
  | None => Ret (prev, None)
  | Some x =>
      ix ← deref (st !! x);
      if rt ix <=? key then
        match fuel with
        | O => OutOfFuel
        | S fuel' => find_place fuel' rt key temp (next ix) st
        end
      else Ret (prev, temp)
  end.

Definition add_front (t : nat) (q : pqueue) (st : store T) : outcome (pqueue * store T) :=
  st ← set_next t (first q) st;
  Ret (MkPQueue (Some t) (u32 (size q + 1)), st).

Definition add (rt : T → Z) (t : nat) (q : pqueue) (st : store T) : outcome (pqueue * store T) :=
  it ← deref (st !! t);
  match first q with
  | None => add_front t q st
  | Some f =>
      i ← deref (st !! f);
      if rt it <? rt i then add_front t q st
      else
        '(prev, temp) ← find_place (base.size st) rt (rt it) None (first q) st;
        prev ← deref prev;
        st ← set_next prev (Some t) st;
        st ← set_next t temp st;
        Ret (q, st)
  end.

Definition remove (q : pqueue) (st : store T) : outcome (option nat * pqueue) :=
  match first q with
  | None => Ret (None, q)
  | Some it => first ← get_next it st; Ret (Some it, MkPQueue first (size q))
  end.

Definition remove_all (q : pqueue) : option nat * pqueue := (first q, MkPQueue None (size q)).

(** *** Specification: a list ordered by run time *)

Fixpoint insert (k : nat → Z) (t : nat) (l : list nat) : list nat :=
  match l with
  | [] => [t]
  | x :: l' => if k x <=? k t then x :: insert k t l' else t :: l
  end.

(** The run time of an element of the store. *)
Definition key_in (rt : T → Z) (st : store T) (t : nat) : Z :=
  match st !! t with Some it => rt it | None => 0 end.

Record repr (st : store T) (q : pqueue) (l : list nat) : Prop := Repr {
  rp_linked : linked st (first q) l;
  rp_nodup : NoDup l;
}.

Lemma pqueue_repr_empty st n : repr st (MkPQueue None n) [].
Proof. split; [done|constructor]. Qed.

Lemma pqueue_repr_insert st q l t it : t ∉ l → repr st q l → repr (<[t := it]> st) q l.
Proof. intros Ht []. split; [by apply linked_insert|done]. Qed.

Lemma pqueue_repr_agree st st' q l :
  (∀ x, x ∈ l → st' !! x = st !! x) → repr st q l → repr st' q l.
Proof. intros Hx []. split; [by eapply linked_agree|done]. Qed.

Lemma pqueue_repr_update st q l t i i' :
  st !! t = Some i → next i' = next i → repr st q l → repr (<[t := i']> st) q l.
Proof. intros Ht Hn []. split; [by eapply linked_update|done]. Qed.

Lemma insert_perm k t l : insert k t l ≡ₚ t :: l.
Proof.
  induction l as [|x l IH]; cbn; [done|]. destruct (k x <=? k t); [|done].
  rewrite IH. apply Permutation_swap.
Qed.

Lemma insert_split k t l :
  ∃ l1 l2, l = l1 ++ l2 ∧ insert k t l = l1 ++ t :: l2 ∧ Forall (λ x, k x <= k t) l1 ∧
    match l2 with [] => True | x :: _ => k t < k x end.
Proof.
  induction l as [|x l (l1 & l2 & E1 & E2 & H1 & H2)]; cbn; [by exists [], []|].
  destruct (Z.leb_spec (k x) (k t)).
  - exists (x :: l1), l2. rewrite E1 at 1. rewrite E2. by split; [|split; [|split; [constructor|]]].
  - by exists [], (x :: l).
Qed.

Lemma find_place_ok fuel rt key prev p st l1 l2 :
  linked st p (l1 ++ l2) → Forall (λ x, key_in rt st x <= key) l1 →
  match l2 with [] => True | x :: _ => key < key_in rt st x end →
  (length l1 <= fuel)%nat →
  find_place fuel rt key prev p st =
    Ret (match list.last l1 with Some x => Some x | None => prev end, head l2).
Proof.
  revert fuel prev p. induction l1 as [|x l1 IH]; intros fuel prev p; cbn [app].
  - destruct l2 as [|y l2]; cbn [linked head].
    + intros -> _ _ _. by destruct fuel.
    + intros (-> & iy & Hy & _) _. unfold key_in. rewrite Hy. intros Hk _.
      destruct fuel; cbn [find_place]; rewrite Hy; cbn [deref mbind outcome_bind];
        by rewrite (proj2 (Z.leb_gt _ _)) by lia.
  - intros (-> & ix & Hx & Hl) [Hk Hks]%Forall_cons H2 Hf.
    destruct fuel as [|fuel]; [cbn in Hf; lia|].
    cbn [find_place]. rewrite Hx. cbn [deref mbind outcome_bind].
    unfold key_in in Hk. rewrite Hx in Hk. rewrite (proj2 (Z.leb_le _ _)) by done.
    rewrite (IH _ _ _ Hl Hks H2) by (cbn in Hf; lia).
    destruct l1 as [|y l1]; [done|]. rewrite last_cons_cons.
    destruct (list.last (y :: l1)) eqn:E; [done|]. by apply last_None in E.
Qed.

Lemma linked_size st p l : linked st p l → NoDup l → (length l <= base.size st)%nat.
Proof.
  intros Hl Hnd. rewrite <- size_dom, <- (size_list_to_set (C := gset nat)) by done.
  apply subseteq_size. intros x Hx%elem_of_list_to_set. apply elem_of_dom.
  by eapply linked_lookup.
Qed.

Lemma key_in_only_links rt st st' x :
  (∀ p i, rt (with_next p i) = rt i) → only_links st st' → key_in rt st' x = key_in rt st x.
Proof.
  intros Hrt Ho. pose proof (only_links_lookup rt st st' x Hrt Ho) as E. unfold key_in.
  destruct (st' !! x), (st !! x); cbn in E; congruence.
Qed.

(** [t] goes in front of the queue. *)
Lemma add_front_ok st q l t :
  linked st (first q) l → t ∉ l → t ∈ dom st →
  ∃ q' st', add_front t q st = Ret (q', st') ∧ linked st' (first q') (t :: l) ∧
    only_links st st' ∧ (∀ x, x ∉ t :: l → st' !! x = st !! x) ∧ size q' = u32 (size q + 1).
Proof.
  intros Hl Ht [it Hit]%elem_of_dom. unfold add_front, set_next. rewrite Hit.
  cbn [deref mbind outcome_bind]. eexists _, _. split; [done|]. split; [|split; [|split; [|done]]].
  - cbn. split; [done|]. rewrite lookup_insert_eq. eexists. split; [done|].
    rewrite next_with. by apply linked_insert.
  - by apply only_links_insert.
  - intros x [Hx _]%not_elem_of_cons. by rewrite lookup_insert_ne.
Qed.

(** [t] goes behind [z], in front of the rest [l2] of the chain. *)
Lemma link_after st p l0 z l2 t :
  linked st p (l0 ++ z :: l2) → NoDup (l0 ++ z :: l2) → t ∉ l0 ++ z :: l2 → t ∈ dom st →
  ∃ st1 st2, set_next z (Some t) st = Ret st1 ∧ set_next t (head l2) st1 = Ret st2 ∧
    linked st2 p (l0 ++ z :: t :: l2) ∧ only_links st st2 ∧
    (∀ x, x ∉ t :: l0 ++ z :: l2 → st2 !! x = st !! x).
Proof.
  intros Hl (_ & Hz & [Hz2 _]%NoDup_cons)%NoDup_app Ht [it Hit]%elem_of_dom.
  assert (z ≠ t) by (intros ->; set_solver).
  destruct (linked_suffix _ _ _ _ Hl) as (o & (_ & iz & Hiz & H2l) & _).
  unfold set_next. rewrite Hiz. cbn [deref mbind outcome_bind].
  eexists _, _. split; [done|]. rewrite lookup_insert_ne, Hit by done. split; [done|].
  split; [|split].
  - assert (Hh : linked st (head l2) l2) by (destruct l2; [done|]; destruct H2l; cbn; auto).
    rewrite insert_insert_ne by done.
    eapply linked_splice; [apply linked_insert; [|exact Hl]|..]; [set_solver..|].
    rewrite next_with. cbn. split; [done|]. rewrite lookup_insert_eq.
    eexists. split; [done|]. rewrite next_with. apply linked_insert; [set_solver|done].
  - eapply only_links_trans; apply only_links_insert; [exact Hiz|]. by rewrite lookup_insert_ne.
  - intros x Hx. rewrite !lookup_insert_ne by set_solver. done.
Qed.

Lemma pqueue_add_ok rt st q l t :
  repr st q l → t ∉ l → t ∈ dom st →
  ∃ q' st', add rt t q st = Ret (q', st') ∧ repr st' q' (insert (key_in rt st) t l) ∧
    only_links st st' ∧ (∀ x, x ∉ t :: l → st' !! x = st !! x) ∧
    size q' = (if bool_decide (head (insert (key_in rt st) t l) = Some t)
               then u32 (size q + 1) else size q).
Proof.
  intros [Hl Hnd] Ht Hdom.
  assert (NoDup (insert (key_in rt st) t l)) by (rewrite insert_perm; by constructor).
  destruct (add_front_ok st q l t Hl Ht Hdom) as (qf & stf & Ef & Hlf & Hof & Hxf & Hsf).
  pose proof Hdom as [it Hit]%elem_of_dom. unfold add. rewrite Hit. cbn [deref mbind outcome_bind].
  destruct l as [|f l]; cbn [linked] in Hl.
  { rewrite Hl, Ef. exists qf, stf. cbn [insert head] in *. rewrite bool_decide_true; done. }
  destruct Hl as (Eq & fi & Hf & Hl). rewrite Eq, Hf. cbn [deref mbind outcome_bind].
  assert (Hkt : key_in rt st t = rt it) by (unfold key_in; by rewrite Hit).
  assert (Hkf : key_in rt st f = rt fi) by (unfold key_in; by rewrite Hf).
  destruct (Z.ltb_spec (rt it) (rt fi)) as [Hlt|Hge].
  { assert (E : insert (key_in rt st) t (f :: l) = t :: f :: l).
    { cbn. by rewrite (proj2 (Z.leb_gt _ _)) by lia. }
    rewrite E in *. exists qf, stf. by rewrite bool_decide_true. }
  destruct (insert_split (key_in rt st) t (f :: l)) as (l1 & l2 & E1 & E2 & H1 & H2).
  destruct (exists_last (l := l1)) as (l0 & z & ->).
  { intros ->. cbn in E1. subst l2. lia. }
  assert (Hfl : linked st (Some f) (f :: l)) by (cbn; eauto).
  pose proof (linked_size st (Some f) (f :: l) Hfl Hnd) as Hsz. rewrite E1 in *.
  rewrite <- Hkt, (find_place_ok _ _ _ _ _ _ _ _ Hfl H1 H2)
    by (rewrite length_app in Hsz; lia).
  rewrite last_snoc. cbn [deref mbind outcome_bind]. rewrite E2, <- !(assoc_L (++)) in *. cbn [app] in *.
  rewrite <- Eq in Hfl.
  destruct (link_after st (first q) l0 z l2 t Hfl Hnd Ht Hdom) as (st1 & st2 & -> & E & Hl2 & Ho & Hx).
  cbn [mbind outcome_bind]. rewrite E. cbn [mbind outcome_bind]. exists q, st2. do 4 (split; [done|]).
  rewrite bool_decide_false; [done|]. intros Hh.
  destruct l0 as [|y l0]; injection Hh as ->; apply Ht; by left.
Qed.

Lemma pqueue_remove_ok st q l :
  repr st q l →
  ∃ q', remove q st = Ret (head l, q') ∧ repr st q' (tail l) ∧ size q' = size q.
Proof.
  intros [Hl Hnd]. unfold remove. destruct l as [|x l]; cbn in Hl.
  - rewrite Hl. by exists q.
  - destruct Hl as (-> & ix & Hx & Hl). unfold get_next. rewrite Hx. cbn.
    apply NoDup_cons in Hnd as [_ Hnd]. by eexists.
Qed.

(** Insertion keeps the list ordered. *)
Definition ordered (k : nat → Z) (l : list nat) : Prop := StronglySorted (λ x y, k x <= k y) l.

Lemma insert_ordered k t l : ordered k l → ordered k (insert k t l).
Proof.
  unfold ordered. induction l as [|x l IH]; cbn; intros Hs.
  - repeat constructor.
  - apply StronglySorted_inv in Hs as [Hs Hx]. destruct (Z.leb_spec (k x) (k t)).
    + constructor; [auto|]. rewrite insert_perm. by constructor.
    + constructor; [by constructor|]. constructor; [lia|].
      eapply Forall_impl; [exact Hx|]. cbn. intros. lia.
Qed.

Lemma ordered_ext k k' l : (∀ x, k x = k' x) → ordered k l → ordered k' l.
Proof.
  unfold ordered. intros E. induction 1 as [|x l Hs IH Hx]; constructor; [done|].
  eapply Forall_impl; [exact Hx|]. cbn. intros y. by rewrite !E.
Qed.

(** Threads with equal run times leave in the order they came. *)
Lemma insert_stable k t l c :
  ordered k l →
  filter (λ x, k x = c) (insert k t l) =
    filter (λ x, k x = c) l ++ (if decide (k t = c) then [t] else []).
Proof.
  unfold ordered. induction l as [|x l IH]; cbn [insert].
  - intros _. rewrite filter_cons, filter_nil. by destruct (decide (k t = c)).
  - intros [Hs Hx]%StronglySorted_inv. destruct (Z.leb_spec (k x) (k t)).
    + rewrite !filter_cons. destruct (decide (k x = c)); rewrite IH by done; done.
    + rewrite (filter_cons _ t). destruct (decide (k t = c)) as [Ht|]; [|by rewrite app_nil_r].
      assert (Forall (λ y, k y ≠ c) (x :: l)) as Hne.
      { constructor; [lia|]. eapply Forall_impl; [exact Hx|]. cbn. intros. lia. }
      clear -Hne. induction Hne as [|y l' Hy _ IH]; [done|]. rewrite filter_cons.
      by rewrite decide_False.
Qed.

(** *** Sequences of operations *)

Inductive op := Add (t : nat) | Remove | RemoveAll.

Definition exec (rt : T → Z) (o : op) (q : pqueue) (st : store T)
  : outcome (option nat * pqueue * store T) :=
  match o with
  | Add t => '(q, st) ← add rt t q st; Ret (None, q, st)
  | Remove => '(r, q) ← remove q st; Ret (r, q, st)
  | RemoveAll => let '(r, q) := remove_all q in Ret (r, q, st)
  end.

(** The list and the counter the idle processors watch. *)
Definition spec (k : nat → Z) (o : op) (l : list nat) (n : Z) : option nat * list nat * Z :=
  match o with
  | Add t =>
      let l' := insert k t l in
      (None, l', if bool_decide (head l' = Some t) then u32 (n + 1) else n)
  | Remove => (head l, tail l, n)
  | RemoveAll => (head l, [], n)
  end.

Fixpoint exec_all (rt : T → Z) (os : list op) (q : pqueue) (st : store T)
  : outcome (list (option nat) * pqueue * store T) :=
  match os with
  | [] => Ret ([], q, st)
  | o :: os =>
      '(r, q, st) ← exec rt o q st;
      '(rs, q, st) ← exec_all rt os q st;
      Ret (r :: rs, q, st)
  end.

Fixpoint spec_all (k : nat → Z) (os : list op) (l : list nat) (n : Z)
  : list (option nat) * list nat * Z :=
  match os with
  | [] => ([], l, n)
  | o :: os =>
      let '(r, l, n) := spec k o l n in
      let '(rs, l, n) := spec_all k os l n in (r :: rs, l, n)
  end.

Definition allowed (st : store T) (o : op) (l : list nat) : Prop :=
  match o with Add t => t ∈ dom st ∧ t ∉ l | _ => True end.

Fixpoint all_allowed (st : store T) (k : nat → Z) (os : list op) (l : list nat) (n : Z) : Prop :=
  match os with
  | [] => True
  | o :: os =>
      allowed st o l ∧
      let '(_, l, n) := spec k o l n in all_allowed st k os l n
  end.

Lemma insert_ext k k' t l : (∀ x, k x = k' x) → insert k t l = insert k' t l.
Proof. intros E. induction l as [|x l IH]; cbn; [done|]. by rewrite !E, IH. Qed.

Lemma pqueue_exec_ok rt k o q st l :
  (∀ p i, rt (with_next p i) = rt i) → (∀ x, key_in rt st x = k x) →
  repr st q l → ordered k l → allowed st o l →
  ∃ q' st', exec rt o q st = Ret ((spec k o l (size q)).1.1, q', st') ∧
    repr st' q' (spec k o l (size q)).1.2 ∧ ordered k (spec k o l (size q)).1.2 ∧
    size q' = (spec k o l (size q)).2 ∧
    dom st' = dom st ∧ (∀ x, key_in rt st' x = k x).
Proof.
  intros Hrt Hk Hr Ho. destruct o; cbn.
  - intros [Ht Hnt]. destruct (pqueue_add_ok rt st q l t Hr Hnt Ht) as (q' & st' & -> & Hr' & Hol & _ & Hs).
    pose proof (only_links_dom _ _ Hol) as Hd.
    rewrite (insert_ext _ k) in Hr', Hs by done.
    exists q', st'. split; [done|]. split; [done|]. split; [by apply insert_ordered|].
    split; [done|]. split; [done|]. intros x. by rewrite (key_in_only_links _ _ _ _ Hrt Hol).
  - intros _. destruct (pqueue_remove_ok st q l Hr) as (q' & -> & Hr' & Hs).
    exists q', st. do 2 (split; [done|]). split; [|done].
    destruct l; [done|]. by apply StronglySorted_inv in Ho as [? _].
  - intros _. eexists _, st. split; [|split; [apply pqueue_repr_empty|split; [constructor|done]]].
    destruct Hr as [Hl _]. destruct l; cbn in *; [by rewrite Hl|by destruct Hl as [-> _]].
Qed.

Lemma pqueue_allowed_dom (st st' : store T) k os l n :
  dom st' = dom st → all_allowed st k os l n → all_allowed st' k os l n.
Proof.
  intros Hd. revert l n. induction os as [|o os IH]; intros l n; cbn; [done|].
  intros [H1 H2]. split.
  - destruct o; cbn in *; [by rewrite Hd|done..].
  - destruct (spec k o l n) as [[? ?] ?]. by apply IH.
Qed.

(** C10 (refinement): a [PriorityQueue] behaves as a list ordered by run time,
    as long as the run times of the queued threads do not change.  For every
    sequence of operations the pointer implementation never follows a null or
    dangling pointer, removes a thread of least run time (the head of the
    ordered list), keeps the list ordered, and counts in [size] exactly the
    additions that put a new thread at the head. *)
Theorem pqueue_refines_ordered (rt : T → Z) (k : nat → Z) (os : list op) (q : pqueue)
    (st : store T) (l : list nat)
    (Hrt : ∀ p i, rt (with_next p i) = rt i) (Hk : ∀ x, key_in rt st x = k x)
    (Hr : repr st q l) (Ho : ordered k l) (Hall : all_allowed st k os l (size q)) :
  ∃ q' st', exec_all rt os q st = Ret ((spec_all k os l (size q)).1.1, q', st') ∧
    repr st' q' (spec_all k os l (size q)).1.2 ∧ ordered k (spec_all k os l (size q)).1.2 ∧
    size q' = (spec_all k os l (size q)).2.
Proof.
  revert q st l Hk Hr Ho Hall. induction os as [|o os IH]; intros q st l Hk Hr Ho; cbn.
  - intros _. by exists q, st.
  - intros [H1 H2]. destruct (pqueue_exec_ok rt k o q st l Hrt Hk Hr Ho H1)
      as (q1 & st1 & -> & Hr1 & Ho1 & Hs1 & Hd1 & Hk1).
    cbn [mbind outcome_bind]. destruct (spec k o l (size q)) as [[r l1] n1]. cbn [fst snd] in *.
    subst n1. destruct (IH q1 st1 l1 Hk1 Hr1 Ho1 (pqueue_allowed_dom _ _ _ _ _ _ Hd1 H2))
      as (q2 & st2 & -> & Hr2 & Ho2 & Hs2).
    cbn [mbind outcome_bind]. destruct (spec_all k os l1 (size q1)) as [[rs l2] n2].
    cbn [fst snd] in *. by exists q2, st2.
Qed.

(** Scheduling is fair among threads of equal run time. [add]
    on a queue in order succeeds, loses and duplicates no thread, keeps the
    order, and puts the new thread behind every thread of the same run time, so
    that those leave in the order they came; when the queue was empty it
    changes the word that idle processors monitor. *)
Lemma pqueue_fair_order (rt : T → Z) (st : store T) (q : pqueue) (l : list nat) (t : nat)
    (Hrt : ∀ p i, rt (with_next p i) = rt i) (Hr : repr st q l) (Hn : is_u32 (size q))
    (Ho : ordered (key_in rt st) l) (Ht : t ∉ l) (Hdom : t ∈ dom st) :
  ∃ q' st' l', add rt t q st = Ret (q', st') ∧ repr st' q' l' ∧ l' ≡ₚ t :: l ∧
    ordered (key_in rt st') l' ∧
    (∀ c, filter (λ x, key_in rt st' x = c) l' =
       filter (λ x, key_in rt st x = c) l ++ (if decide (key_in rt st t = c) then [t] else [])) ∧
    (l = [] → size q' ≠ size q).
Proof.
  destruct (pqueue_add_ok rt st q l t Hr Ht Hdom) as (q' & st' & E & Hr' & Hol & _ & Hs).
  assert (∀ x, key_in rt st' x = key_in rt st x) as Hk.
  { intros x. by rewrite (key_in_only_links _ _ _ _ Hrt Hol). }
  exists q', st', (insert (key_in rt st) t l). split; [done|]. split; [done|].
  split; [apply insert_perm|]. split; [|split].
  - rewrite <- (insert_ext (key_in rt st')) by done. apply insert_ordered.
    by eapply ordered_ext; [|exact Ho].
  - intros c. rewrite <- (insert_stable _ t l c Ho). apply list_filter_iff. intros x. by rewrite Hk.
  - intros ->. rewrite Hs. cbn. rewrite bool_decide_true by done. unfold is_u32, u32 in *. zlia.
Qed.

End PQueue.
End PQueue.

(** ** Witnesses *)

(** The smallest element type: a run time and a link. *)
Record DemoThread := MkDemoThread { dt_time : Z; dt_next : option nat }.

#[export] Instance DemoThread_linked : Linked DemoThread := {|
  next := dt_next;
  with_next p t := MkDemoThread (dt_time t) p;
  next_with p t := eq_refl;
|}.

Definition demo_store : store DemoThread :=
  list_to_map [(1%nat, MkDemoThread 5 None); (2%nat, MkDemoThread 3 None);
               (3%nat, MkDemoThread 5 None); (4%nat, MkDemoThread 9 None)].

Definition demo_ops : list PQueue.op :=
  [PQueue.Add 1; PQueue.Add 4; PQueue.Add 3; PQueue.Add 2; PQueue.Remove; PQueue.Remove;
   PQueue.Remove; PQueue.Remove; PQueue.Remove].

(** Least run time first, and 1 before 3. *)
Example pqueue_demo :
  (r ← PQueue.exec_all dt_time demo_ops PQueue.empty demo_store; Ret r.1.1) =
  Ret [None; None; None; None; Some 2%nat; Some 1%nat; Some 3%nat; Some 4%nat; None].
Proof. vm_compute. done. Qed.

Lemma queue_refines_fifo_witness :
  ∃ q' st', Queue.exec_all [Queue.Add 1; Queue.Add 2; Queue.Remove; Queue.Add 3; Queue.RemoveAll]
      Queue.empty demo_store = Ret ([None; None; Some 1%nat; None; Some 2%nat], q', st') ∧
    Queue.repr st' q' [] ∧ dom st' = dom demo_store.
Proof.
  apply (Queue.queue_refines_fifo
    [Queue.Add 1; Queue.Add 2; Queue.Remove; Queue.Add 3; Queue.RemoveAll] _ _ []);
    [apply Queue.repr_empty|]. cbn. set_solver.
Defined.

Definition demo_key (x : nat) : Z := PQueue.key_in dt_time demo_store x.

Lemma pqueue_refines_ordered_witness :
  ∃ q' st', PQueue.exec_all dt_time demo_ops PQueue.empty demo_store =
      Ret ((PQueue.spec_all demo_key demo_ops [] 0).1.1, q', st') ∧
    PQueue.repr st' q' (PQueue.spec_all demo_key demo_ops [] 0).1.2 ∧
    PQueue.ordered demo_key (PQueue.spec_all demo_key demo_ops [] 0).1.2 ∧
    PQueue.size q' = (PQueue.spec_all demo_key demo_ops [] 0).2.
Proof.
  apply (PQueue.pqueue_refines_ordered dt_time demo_key demo_ops PQueue.empty demo_store []);
    [done|done|apply PQueue.pqueue_repr_empty|constructor|]. vm_compute. set_solver.
Defined.

Definition demo_linked : store DemoThread :=
  list_to_map [(1%nat, MkDemoThread 5 (Some 4%nat)); (2%nat, MkDemoThread 3 (Some 1%nat));
               (3%nat, MkDemoThread 5 None); (4%nat, MkDemoThread 9 None)].

Lemma pqueue_fair_order_witness :
  ∃ q' st' l', PQueue.add dt_time 3 (PQueue.MkPQueue (Some 2%nat) 7) demo_linked = Ret (q', st') ∧
    PQueue.repr st' q' l' ∧ l' ≡ₚ [3%nat; 2%nat; 1%nat; 4%nat] ∧
    filter (λ x, PQueue.key_in dt_time st' x = 5) l' = [1%nat; 3%nat].
Proof.
  destruct (PQueue.pqueue_fair_order dt_time demo_linked (PQueue.MkPQueue (Some 2%nat) 7)
    [2%nat; 1%nat; 4%nat] 3) as (q' & st' & l' & E & Hr & Hp & _ & Hf & _).
  - done.
  - split; [|repeat constructor; set_solver].
    split; [done|]. eexists. split; [reflexivity|]. split; [done|]. eexists. split; [reflexivity|].
    split; [done|]. eexists. split; [reflexivity|]. done.
  - unfold is_u32. cbn. lia.
  - repeat constructor; vm_compute; done.
  - set_solver.
  - apply elem_of_dom. by eexists.
  - exists q', st', l'. split; [exact E|]. split; [exact Hr|]. split; [exact Hp|].
    exact (Hf 5).
Defined.
