(* ===== verification/Threads.v ===== *)
(** * Threads and the scheduler: src/kernel/threads.h, threads.cc

    The TCBs live in a store; the ready queue, the zombies and the processors'
    [activeThreads] refer to them by location.  [block] is split in the two
    atomic parts the kernel executes under locks or with interrupts disabled:
    [pick] chooses and switches to the next thread, and the action passed to
    [block] then runs on the target stack with the thread that was left.
    Between the two, other processors may run. *)

From Stdlib Require Import Sorted.
From S2P Require Import Prelude Queue.
Local Open Scope Z_scope.

(** ** Data *)

(** struct TCB, with the fields of its SaveArea the kernel itself reads, and
    the value of [interruptEsp()]. *)
Record TCB := MkTCB {
  isIdle : bool;
  id : Z;
  tcb_next : option nat;
  no_preempt : Z;
  cr3 : Z;
  interruptEsp : Z;
  process : nat;
}.

#[export] Instance TCB_linked : Linked TCB := {|
  next := tcb_next;
  with_next p t := MkTCB (isIdle t) (id t) p (no_preempt t) (cr3 t) (interruptEsp t) (process t);
  next_with p t := eq_refl;
|}.

Record kernel := MkKernel {
  tcbs : store TCB;
  run_times : gmap nat Z;
  readyQ : PQueue.pqueue;
  zombies : Queue.queue;
  activeThreads : list nat;
  idleThreads : list nat;
  cr3s : list Z;
  esp0s : list Z;
  next_id : Z;
}.

Definition set_tcbs (st : store TCB) (k : kernel) : kernel :=
  MkKernel st (run_times k) (readyQ k) (zombies k) (activeThreads k) (idleThreads k) (cr3s k)
    (esp0s k) (next_id k).

Definition set_readyQ (q : PQueue.pqueue) (k : kernel) : kernel :=
  MkKernel (tcbs k) (run_times k) q (zombies k) (activeThreads k) (idleThreads k) (cr3s k)
    (esp0s k) (next_id k).

Definition set_zombies (q : Queue.queue) (k : kernel) : kernel :=
  MkKernel (tcbs k) (run_times k) (readyQ k) q (activeThreads k) (idleThreads k) (cr3s k)
    (esp0s k) (next_id k).

(** [activeThreads[core] = t], the stack of the TSS and the page directory. *)
Definition set_active (core t : nat) (it : TCB) (k : kernel) : kernel :=
  MkKernel (tcbs k) (run_times k) (readyQ k) (zombies k) (<[core := t]> (activeThreads k))
    (idleThreads k) (<[core := cr3 it]> (cr3s k)) (<[core := interruptEsp it]> (esp0s k))
    (next_id k).

Definition with_no_preempt (v : Z) (t : TCB) : TCB :=
  MkTCB (isIdle t) (id t) (tcb_next t) v (cr3 t) (interruptEsp t) (process t).

Definition set_no_preempt (t : nat) (v : Z) (k : kernel) : outcome kernel :=
  it ← deref (tcbs k !! t);
  Ret (set_tcbs (<[t := with_no_preempt v it]> (tcbs k)) k).

(** [process->run_time->get()] *)
Definition run_time (k : kernel) (t : TCB) : Z := default 0 (run_times k !! process t).

(** ** Operations *)

Definition current (core : nat) (k : kernel) : outcome nat := deref (activeThreads k !! core).

Definition schedule (t : nat) (k : kernel) : outcome kernel :=
  it ← deref (tcbs k !! t);
  if negb (isIdle it) then
    '(q, st) ← PQueue.add (run_time k) t (readyQ k) (tcbs k);
    Ret (set_readyQ q (set_tcbs st k))
  else Ret k.

(** [zombies.add(t)] *)
Definition add_zombie (t : nat) (k : kernel) : outcome kernel :=
  '(q, st) ← Queue.add t (zombies k) (tcbs k);
  Ret (set_zombies q (set_tcbs st k)).

(** Every iteration frees one thread of the store. *)
Fixpoint delete_zombies (fuel : nat) (k : kernel) : outcome kernel :=
  '(it, q) ← Queue.remove (zombies k) (tcbs k);
  match it with
  | None => Ret k
  | Some t =>
      match fuel with
      | O => OutOfFuel
      | S fuel' => delete_zombies fuel' (set_tcbs (delete t (tcbs k)) (set_zombies q k))
      end
  end.

Inductive BlockOption := MustBlock | CanReturn.

(** How [block] goes on: it returns to its caller, it is an idle thread that
    keeps waiting, or thread [me] was left for another one. *)
Inductive picked := Returned | Spinning | Switched (me : nat).

(** From the label [again] to the context switch, whose first instructions
    clear both [no_preempt] flags. *)
Definition pick_again (core me : nat) (blockOption : BlockOption) (k : kernel)
  : outcome (picked * kernel) :=
  '(next_tcb, q) ← PQueue.remove (readyQ k) (tcbs k);
  let k := set_readyQ q k in
  let switch (n : nat) :=
    k ← set_no_preempt n 1 k;
    it ← deref (tcbs k !! n);
    let k := set_active core n it k in
    k ← set_no_preempt me 0 k;
    k ← set_no_preempt n 0 k;
    Ret (Switched me, k) in
  match next_tcb, blockOption with
  | None, CanReturn => Ret (Returned, k)
  | None, MustBlock =>
      it ← deref (tcbs k !! me);
      idle ← deref (idleThreads k !! core);
      if isIdle it then
        _ ← ASSERT (Nat.eqb me idle) "me == idleThreads[core_id]";
        Ret (Spinning, k)
      else switch idle
  | Some n, _ => switch n
  end.

Definition pick (core : nat) (blockOption : BlockOption) (k : kernel) : outcome (picked * kernel) :=
  me ← current core k;
  k ← set_no_preempt me 1 k;
  pick_again core me blockOption k.

(** [block(blockOption, f)] when no other processor interferes. *)
Definition block (core : nat) (blockOption : BlockOption) (f : nat → kernel → outcome kernel)
    (k : kernel) : outcome (picked * kernel) :=
  '(p, k) ← pick core blockOption k;
  match p with
  | Switched me => k ← f me k; Ret (p, k)
  | _ => Ret (p, k)
  end.

Definition yield_action : nat → kernel → outcome kernel := schedule.

Definition stop_action (me : nat) (k : kernel) : outcome kernel :=
  it ← deref (tcbs k !! me);
  if negb (isIdle it) then add_zombie me k else Ret k.

Definition yield (core : nat) (k : kernel) : outcome (picked * kernel) :=
  block core CanReturn yield_action k.

Definition stop (core : nat) (k : kernel) : outcome (picked * kernel) :=
  block core MustBlock stop_action k.

(** [new TCBImpl(process, work)]: [pd] is the process's page directory and
    [esp] the address [&stack[2047]] of the new stack. *)
Definition new_tcb (idle : bool) (process : nat) (pd esp : Z) (k : kernel) : nat * kernel :=
  let t := fresh (dom (tcbs k)) in
  (t, MkKernel (<[t := MkTCB idle (next_id k) None 0 pd esp process]> (tcbs k)) (run_times k)
        (readyQ k) (zombies k) (activeThreads k) (idleThreads k) (cr3s k) (esp0s k)
        (u32 (next_id k + 1))).

(** [thread(process, work)]; the fuel is the number of threads. *)
Definition thread (process : nat) (pd esp : Z) (k : kernel) : outcome (nat * kernel) :=
  k ← delete_zombies (base.size (tcbs k)) k;
  let '(t, k) := new_tcb false process pd esp k in
  k ← schedule t k;
  Ret (t, k).

(** [threadsInit()]: one idle thread per processor, then the reaper. *)
Fixpoint make_idle (n : nat) (kernelProcess : nat) (pd : Z) (k : kernel) : kernel :=
  match n with
  | O => k
  | S n' =>
      let '(t, k) := new_tcb true kernelProcess pd 0 k in
      make_idle n' kernelProcess pd
        (MkKernel (tcbs k) (run_times k) (readyQ k) (zombies k) (activeThreads k ++ [t])
           (idleThreads k ++ [t]) (cr3s k ++ [pd]) (esp0s k ++ [0]) (next_id k))
  end.

Definition threadsInit (totalProcs kernelProcess : nat) (pd esp : Z) (k : kernel)
  : outcome (nat * kernel) :=
  thread kernelProcess pd esp (make_idle totalProcs kernelProcess pd k).

(** One round of the reaper's loop. *)
Definition reaper_round (core : nat) (k : kernel) : outcome (picked * kernel) :=
  k ← delete_zombies (base.size (tcbs k)) k;
  yield core k.

(** ** Invariant *)

Definition is_idle (k : kernel) (t : nat) : bool :=
  match tcbs k !! t with Some it => isIdle it | None => false end.

Definition key (k : kernel) : nat → Z := PQueue.key_in (run_time k) (tcbs k).

(** [others] are the threads that are neither running, ready nor zombies: those
    waiting for a semaphore or between the two parts of [block]. *)
Record sched_wf (k : kernel) (ready zombs others : list nat) : Prop := SchedWf {
  sw_ready : PQueue.repr (tcbs k) (readyQ k) ready;
  sw_zombs : Queue.repr (tcbs k) (zombies k) zombs;
  sw_nodup : NoDup (activeThreads k ++ ready ++ zombs ++ others);
  sw_cores : length (activeThreads k) = length (idleThreads k) ∧
             length (cr3s k) = length (idleThreads k);
  sw_idle : Forall (λ t, is_idle k t = true) (idleThreads k) ∧ NoDup (idleThreads k);
  sw_busy : Forall (λ t, is_idle k t = false) (ready ++ zombs ++ others);
  sw_active core t : activeThreads k !! core = Some t →
    t ∈ dom (tcbs k) ∧ (is_idle k t = true → idleThreads k !! core = Some t);
  sw_others : Forall (λ t, t ∈ dom (tcbs k)) others;
  sw_all t : t ∈ dom (tcbs k) → is_idle k t = false →
    t ∈ activeThreads k ++ ready ++ zombs ++ others;
  sw_cr3 core t it : activeThreads k !! core = Some t → tcbs k !! t = Some it →
    cr3s k !! core = Some (cr3 it);
}.

(** ** Lemmas *)

(** What the invariant reads of a TCB besides its link. *)
Definition view (t : TCB) : bool * Z * nat := (isIdle t, cr3 t, process t).

Lemma view_links st st' : only_links st st' → view <$> st' = view <$> st.
Proof. intros Ho. by apply Ho. Qed.

Lemma view_insert (st : store TCB) t it it' :
  st !! t = Some it → view it' = view it → view <$> <[t := it']> st = view <$> st.
Proof. intros Ht Hv. rewrite fmap_insert, Hv. apply insert_id. by rewrite lookup_fmap, Ht. Qed.

Lemma next_insert (st : store TCB) t it it' :
  st !! t = Some it → tcb_next it' = tcb_next it →
  tcb_next <$> <[t := it']> st = tcb_next <$> st.
Proof. intros Ht Hv. rewrite fmap_insert, Hv. apply insert_id. by rewrite lookup_fmap, Ht. Qed.

Lemma view_dom (st st' : store TCB) : view <$> st' = view <$> st → dom st' = dom st.
Proof. intros Hv. rewrite <- (dom_fmap_L view st'), Hv. apply dom_fmap_L. Qed.

Lemma view_lookup (st st' : store TCB) t it' :
  view <$> st' = view <$> st → st' !! t = Some it' →
  ∃ it, st !! t = Some it ∧ view it' = view it.
Proof.
  intros Hv Ht. apply (f_equal (lookup t)) in Hv. rewrite !lookup_fmap, Ht in Hv.
  destruct (st !! t) as [it|]; [|done]. injection Hv as H1 H2 H3. exists it.
  unfold view. by rewrite H1, H2, H3.
Qed.

Lemma view_idle k k' t : view <$> tcbs k' = view <$> tcbs k → is_idle k' t = is_idle k t.
Proof.
  intros Hv. unfold is_idle. apply (f_equal (lookup t)) in Hv. rewrite !lookup_fmap in Hv.
  destruct (tcbs k !! t), (tcbs k' !! t); try done. by injection Hv.
Qed.

Lemma sched_wf_dom k r z o t : sched_wf k r z o → t ∈ r ++ z ++ o → t ∈ dom (tcbs k).
Proof.
  intros [Hr Hz _ _ _ _ _ Ho _ _] [Ht|[Ht|Ht]%elem_of_app]%elem_of_app.
  - apply elem_of_dom. eapply linked_lookup; [apply Hr|done].
  - apply elem_of_dom. eapply linked_lookup; [apply Hz|done].
  - rewrite Forall_forall in Ho. by apply Ho.
Qed.

(** Moving threads between the queues. *)
Lemma sched_wf_move k k' r z o r' z' o' :
  sched_wf k r z o →
  activeThreads k' = activeThreads k → idleThreads k' = idleThreads k → cr3s k' = cr3s k →
  view <$> tcbs k' = view <$> tcbs k →
  PQueue.repr (tcbs k') (readyQ k') r' → Queue.repr (tcbs k') (zombies k') z' →
  r' ++ z' ++ o' ≡ₚ r ++ z ++ o →
  sched_wf k' r' z' o'.
Proof.
  intros Hwf Ha Hi Hc Hv Hr Hz Hp. pose proof (view_dom _ _ Hv) as Hd.
  assert (Hid : ∀ t, is_idle k' t = is_idle k t) by (intros; by apply view_idle).
  pose proof Hwf as [_ _ Hnd Hco Hidl Hbu Hac Hot Hal Hcr]. split.
  - done.
  - done.
  - by rewrite Ha, Hp.
  - by rewrite Ha, Hi, Hc.
  - rewrite Hi. split; [|apply Hidl]. eapply Forall_impl; [apply Hidl|]. cbn. intros. by rewrite Hid.
  - rewrite Hp. eapply Forall_impl; [exact Hbu|]. cbn. intros. by rewrite Hid.
  - intros core t. rewrite Ha, Hi, Hd, Hid. apply Hac.
  - apply Forall_forall. intros t Ht. rewrite Hd. eapply sched_wf_dom; [exact Hwf|].
    rewrite <- Hp. set_solver.
  - intros t. rewrite Hd, Hid, Ha, Hp. apply Hal.
  - intros core t it'. rewrite Ha, Hc. intros Ht Hit'.
    destruct (view_lookup _ _ _ _ Hv Hit') as (it & Hit & [= _ -> _]). by eapply Hcr.
Qed.

Lemma set_no_preempt_ok k r z o t v :
  sched_wf k r z o → t ∈ dom (tcbs k) →
  ∃ it, tcbs k !! t = Some it ∧
    set_no_preempt t v k = Ret (set_tcbs (<[t := with_no_preempt v it]> (tcbs k)) k) ∧
    sched_wf (set_tcbs (<[t := with_no_preempt v it]> (tcbs k)) k) r z o ∧
    view <$> <[t := with_no_preempt v it]> (tcbs k) = view <$> tcbs k ∧
    tcb_next <$> <[t := with_no_preempt v it]> (tcbs k) = tcb_next <$> tcbs k.
Proof.
  intros Hwf [it Hit]%elem_of_dom. exists it. split; [done|]. unfold set_no_preempt.
  rewrite Hit. split; [done|].
  assert (Hv : view <$> <[t := with_no_preempt v it]> (tcbs k) = view <$> tcbs k)
    by (by eapply view_insert).
  split; [|split; [done|by eapply next_insert]].
  eapply (sched_wf_move k); [exact Hwf|done|done|done|exact Hv| | |done];
    cbn [tcbs readyQ zombies set_tcbs].
  - eapply PQueue.pqueue_repr_update; [exact Hit|done|apply Hwf].
  - eapply Queue.repr_update; [exact Hit|done|apply Hwf].
Qed.

Lemma not_in_parts {A} (x : A) (a r z o : list A) :
  NoDup (a ++ r ++ z ++ x :: o) → (x ∉ a) ∧ (x ∉ r) ∧ (x ∉ z) ∧ (x ∉ o).
Proof.
  rewrite !NoDup_app, NoDup_cons. intros (_ & H1 & _ & H2 & _ & H3 & Ho & _).
  repeat split; [intros Hx; apply (H1 x Hx)|intros Hx; apply (H2 x Hx)
    |intros Hx; apply (H3 x Hx)|done]; set_solver.
Qed.

(** A thread in flight becomes ready, in the order of the run times. *)
Lemma schedule_ok k r z o me :
  sched_wf k r z (me :: o) →
  ∃ k', schedule me k = Ret k' ∧ sched_wf k' (PQueue.insert (key k) me r) z o ∧
    activeThreads k' = activeThreads k ∧ run_times k' = run_times k ∧
    only_links (tcbs k) (tcbs k') ∧ ∀ x, x ∉ me :: r → tcbs k' !! x = tcbs k !! x.
Proof.
  intros Hwf. assert (Hme : me ∈ r ++ z ++ me :: o) by set_solver.
  pose proof (sched_wf_dom _ _ _ _ _ Hwf Hme) as Hd. pose proof (sw_busy _ _ _ _ Hwf) as Hb.
  rewrite Forall_forall in Hb. specialize (Hb me Hme). unfold is_idle in Hb.
  pose proof (not_in_parts _ _ _ _ _ (sw_nodup _ _ _ _ Hwf)) as (_ & Hr & Hz & _).
  destruct (PQueue.pqueue_add_ok (run_time k) (tcbs k) (readyQ k) r me (sw_ready _ _ _ _ Hwf) Hr Hd)
    as (q & st & E & Hrep & Hol & Hag & _).
  apply elem_of_dom in Hd as [it Hit]. rewrite Hit in Hb. unfold schedule.
  rewrite Hit. cbn [deref mbind outcome_bind]. rewrite Hb. cbn [negb]. rewrite E. cbn [mbind outcome_bind].
  eexists. split; [done|]. split; [|done].
  eapply (sched_wf_move k); [exact Hwf|done|done|done|by apply view_links|exact Hrep| |].
  - eapply Queue.repr_agree; [|apply Hwf]. intros x Hx. apply Hag.
    pose proof (sw_nodup _ _ _ _ Hwf) as Hnd. rewrite !NoDup_app in Hnd.
    destruct Hnd as (_ & _ & _ & H2 & _). apply not_elem_of_cons. split; [by intros ->|].
    intros Hxr. apply (H2 x Hxr). set_solver.
  - unfold key. rewrite PQueue.insert_perm. solve_Permutation.
Qed.

(** A thread in flight becomes a zombie. *)
Lemma stop_action_ok k r z o me :
  sched_wf k r z (me :: o) →
  ∃ k', stop_action me k = Ret k' ∧ sched_wf k' r (z ++ [me]) o ∧
    activeThreads k' = activeThreads k ∧ only_links (tcbs k) (tcbs k').
Proof.
  intros Hwf. assert (Hme : me ∈ r ++ z ++ me :: o) by set_solver.
  pose proof (sched_wf_dom _ _ _ _ _ Hwf Hme) as Hd. pose proof (sw_busy _ _ _ _ Hwf) as Hb.
  rewrite Forall_forall in Hb. specialize (Hb me Hme). unfold is_idle in Hb.
  pose proof (not_in_parts _ _ _ _ _ (sw_nodup _ _ _ _ Hwf)) as (_ & Hr & Hz & _).
  apply elem_of_dom in Hd as [it Hit]. rewrite Hit in Hb.
  destruct (Queue.add_ok (tcbs k) (zombies k) z me it (sw_zombs _ _ _ _ Hwf) Hz Hit)
    as (q & st & E & Hrep & Hol & Hag).
  unfold stop_action. rewrite Hit. cbn [deref mbind outcome_bind]. rewrite Hb. cbn [negb].
  unfold add_zombie. rewrite E. cbn [mbind outcome_bind].
  eexists. split; [done|]. split; [|done].
  eapply (sched_wf_move k); [exact Hwf|done|done|done|by apply view_links| |exact Hrep|].
  - eapply PQueue.pqueue_repr_agree; [|apply Hwf]. intros x Hx. apply Hag.
    pose proof (sw_nodup _ _ _ _ Hwf) as Hnd. rewrite !NoDup_app in Hnd.
    destruct Hnd as (_ & _ & _ & H2 & _). apply not_elem_of_cons. split; [by intros ->|].
    intros Hxz. apply (H2 x Hx). set_solver.
  - by rewrite <- app_assoc.
Qed.

(** ** Lemmas: switching threads *)

Lemma split_at {A} (l : list A) i x y :
  l !! i = Some x → ∃ l1 l2, l = l1 ++ x :: l2 ∧ <[i := y]> l = l1 ++ y :: l2.
Proof.
  intros (l1 & l2 & -> & ->)%list_elem_of_split_length. exists l1, l2. split; [done|].
  rewrite insert_app_r_alt by lia. by rewrite Nat.sub_diag.
Qed.

(** Replacing an element of a duplicate-free list. *)
Lemma activate_nodup (a1 a2 rz o : list nat) me n (idle : bool) :
  NoDup ((a1 ++ me :: a2) ++ rz ++ n :: o) →
  NoDup ((a1 ++ n :: a2) ++ rz ++ (if idle then o else me :: o)).
Proof.
  intros Hnd. assert (NoDup (me :: (a1 ++ n :: a2) ++ rz ++ o)) as Hp.
  { eapply NoDup_Permutation_proper; [|exact Hnd]. solve_Permutation. }
  destruct idle; [by apply NoDup_cons in Hp as [_ Hp]|].
  eapply NoDup_Permutation_proper; [|exact Hp]. solve_Permutation.
Qed.

(** Thread [n], in flight or idle, takes the place of [me] on a processor. *)
Lemma activate_ok k r z o1 o core me n it :
  sched_wf k r z o1 → activeThreads k !! core = Some me → tcbs k !! n = Some it →
  (is_idle k n = false ∧ o1 = n :: o) ∨
  (idleThreads k !! core = Some n ∧ o1 = o ∧ is_idle k me = false) →
  sched_wf (set_active core n it k) r z (if is_idle k me then o else me :: o).
Proof.
  intros Hwf Hme Hit Hn. pose proof Hwf as [Hr Hz Hnd Hco [Hidl Hidn] Hbu Hac Hot Hal Hcr].
  destruct (split_at _ _ _ n Hme) as (a1 & a2 & Ea & Ea').
  pose proof (Hac core me Hme) as [Hmed Hmei].
  rewrite !Forall_forall in *.
  assert (Hfresh : NoDup ((a1 ++ me :: a2) ++ (r ++ z) ++ n :: o)).
  { rewrite <- Ea, <- (app_assoc r). destruct Hn as [[_ ->]|(Hni & -> & Hmb)]; [exact Hnd|].
    assert (Hii : is_idle k n = true) by (eapply Hidl, list_elem_of_lookup_2; exact Hni).
    eapply NoDup_Permutation_proper with (n :: activeThreads k ++ r ++ z ++ o);
      [solve_Permutation|]. apply NoDup_cons. split; [|exact Hnd].
    intros [[c Hc]%list_elem_of_lookup|Hin]%elem_of_app.
    - pose proof Hc as Hn. apply Hac in Hc as [_ Hc]. specialize (Hc Hii).
      assert (c = core) as -> by (by eapply NoDup_lookup). congruence.
    - rewrite Hbu in Hii by done. done. }
  apply (activate_nodup _ _ _ _ _ _ (is_idle k me)) in Hfresh.
  assert (Hincl : ∀ t, t ∈ o1 → t = n ∨ t ∈ o).
  { destruct Hn as [[_ ->]|(_ & -> & _)]; set_solver. }
  assert (Hincl' : ∀ t, t ∈ o → t ∈ o1).
  { destruct Hn as [[_ ->]|(_ & -> & _)]; set_solver. }
  split; cbn [tcbs readyQ zombies activeThreads idleThreads cr3s set_active].
  - done.
  - done.
  - by rewrite Ea', (app_assoc r).
  - by rewrite !length_insert.
  - by rewrite Forall_forall.
  - apply Forall_forall. intros t Ht. change (is_idle k t = false).
    specialize (Hincl' t). destruct (is_idle k me) eqn:Hi.
    + apply Hbu. clear -Ht Hincl'. rewrite !elem_of_app in *. tauto.
    + destruct (decide (t = me)) as [->|Hne]; [done|]. apply Hbu. clear -Ht Hincl' Hne.
      rewrite !elem_of_app, !elem_of_cons in *. tauto.
  - intros c t [(-> & <- & Hl)|[Hne Ht]]%list_lookup_insert_Some; [|by apply Hac].
    split; [by eapply elem_of_dom_2|]. change (is_idle k n = true → idleThreads k !! c = Some n).
    destruct Hn as [[-> _]|(? & _)]; done.
  - apply Forall_forall. intros t Ht. destruct (is_idle k me); [apply Hot; auto|].
    apply elem_of_cons in Ht as [->|Ht]; [done|apply Hot; auto].
  - intros t Ht Hti. change (is_idle k t = false) in Hti. rewrite Ea'.
    specialize (Hal t Ht Hti). rewrite Ea in Hal. destruct (is_idle k me) eqn:Hi.
    + assert (t ≠ me) by congruence. specialize (Hincl t). clear -Hal Hincl H.
      rewrite !elem_of_app, !elem_of_cons in *. tauto.
    + specialize (Hincl t). clear -Hal Hincl. rewrite !elem_of_app, !elem_of_cons in *. tauto.
  - intros c t it' [(-> & <- & Hl)|[Hne Ht]]%list_lookup_insert_Some Hit'.
    + assert (it' = it) as -> by congruence. apply list_lookup_insert_eq. lia.
    + rewrite list_lookup_insert_ne by done. by eapply Hcr.
Qed.

(** The next thread is taken from the ready queue. *)
Lemma pop_ok k n r z o q :
  sched_wf k (n :: r) z o → PQueue.repr (tcbs k) q r → sched_wf (set_readyQ q k) r z (n :: o).
Proof.
  intros Hwf Hq. eapply (sched_wf_move k); [exact Hwf|done..|exact Hq|apply Hwf|].
  cbn. solve_Permutation.
Qed.

(** The threads in flight after [me] was left: idle threads wait nowhere. *)
Definition left_by (k : kernel) (me : nat) (o : list nat) : list nat :=
  if is_idle k me then o else me :: o.

(** The common end of [pick_again]: set the flag, switch, clear both flags. *)
Definition switch_to (core me n : nat) (k : kernel) : outcome (picked * kernel) :=
  k ← set_no_preempt n 1 k;
  it ← deref (tcbs k !! n);
  let k := set_active core n it k in
  k ← set_no_preempt me 0 k;
  k ← set_no_preempt n 0 k;
  Ret (Switched me, k).

Lemma switch_to_ok k r z o1 o core me n :
  sched_wf k r z o1 → activeThreads k !! core = Some me → n ∈ dom (tcbs k) →
  (is_idle k n = false ∧ o1 = n :: o) ∨
  (idleThreads k !! core = Some n ∧ o1 = o ∧ is_idle k me = false) →
  ∃ k', switch_to core me n k = Ret (Switched me, k') ∧
    sched_wf k' r z (left_by k me o) ∧
    activeThreads k' = <[core := n]> (activeThreads k) ∧ run_times k' = run_times k ∧
    view <$> tcbs k' = view <$> tcbs k ∧ tcb_next <$> tcbs k' = tcb_next <$> tcbs k.
Proof.
  intros Hwf Hme Hn Hcase. unfold switch_to.
  destruct (set_no_preempt_ok k r z o1 n 1 Hwf Hn) as (it & Hit & -> & Hwf1 & Hv1 & Hn1).
  cbn [mbind outcome_bind]. set (k1 := set_tcbs _ k) in *.
  change (tcbs k1) with (<[n := with_no_preempt 1 it]> (tcbs k)). rewrite lookup_insert_eq.
  cbn [deref mbind outcome_bind]. set (it1 := with_no_preempt 1 it).
  assert (Hid : ∀ t, is_idle k1 t = is_idle k t) by (intros; by apply view_idle).
  assert (Hmed : me ∈ dom (tcbs k)) by (by eapply (sw_active _ _ _ _ Hwf core)).
  assert (Hwf2 : sched_wf (set_active core n it1 k1) r z (left_by k me o)).
  { unfold left_by. rewrite <- Hid. eapply activate_ok; [exact Hwf1|exact Hme|..].
    - cbn. apply lookup_insert_eq.
    - rewrite !Hid. exact Hcase. }
  set (k2 := set_active core n it1 k1) in *.
  assert (Hd2 : dom (tcbs k2) = dom (tcbs k)) by (exact (view_dom _ _ Hv1)).
  destruct (set_no_preempt_ok k2 r z _ me 0 Hwf2) as (im & _ & -> & Hwf3 & Hv3 & Hn3); [by rewrite Hd2|].
  cbn [mbind outcome_bind]. set (k3 := set_tcbs _ k2) in *.
  assert (Hd3 : dom (tcbs k3) = dom (tcbs k)) by (by rewrite <- Hd2; exact (view_dom _ _ Hv3)).
  destruct (set_no_preempt_ok k3 r z _ n 0 Hwf3) as (ib & _ & -> & Hwf4 & Hv4 & Hn4); [by rewrite Hd3|].
  cbn [mbind outcome_bind]. eexists. split; [done|]. split; [exact Hwf4|].
  split; [done|]. split; [done|]. cbn [tcbs set_tcbs]. rewrite Hv4, Hn4.
  change (tcbs k3) with (<[me := with_no_preempt 0 im]> (tcbs k2)). by rewrite Hv3, Hn3.
Qed.

Lemma pick_again_switch core me opt k n q :
  PQueue.remove (readyQ k) (tcbs k) = Ret (Some n, q) →
  pick_again core me opt k = switch_to core me n (set_readyQ q k).
Proof. intros E. unfold pick_again. by rewrite E. Qed.

(** The four ways out of [block]'s first part. *)
Inductive pick_spec (core me : nat) (opt : BlockOption) (k : kernel) (r z o : list nat)
  : picked → kernel → Prop :=
| pick_return k' :
    r = [] → opt = CanReturn → sched_wf k' [] z o → activeThreads k' = activeThreads k →
    no_preempt <$> tcbs k' !! me = Some 1 →
    pick_spec core me opt k r z o Returned k'
| pick_spin k' :
    r = [] → opt = MustBlock → is_idle k me = true → sched_wf k' [] z o →
    activeThreads k' = activeThreads k →
    pick_spec core me opt k r z o Spinning k'
| pick_idle n k' :
    r = [] → opt = MustBlock → is_idle k me = false → idleThreads k !! core = Some n →
    sched_wf k' [] z (me :: o) → activeThreads k' = <[core := n]> (activeThreads k) →
    pick_spec core me opt k r z o (Switched me) k'
| pick_next n k' :
    head r = Some n → sched_wf k' (tail r) z (left_by k me o) →
    activeThreads k' = <[core := n]> (activeThreads k) → run_times k' = run_times k →
    view <$> tcbs k' = view <$> tcbs k →
    pick_spec core me opt k r z o (Switched me) k'.

(** The specification reads only what a change of the flags keeps. *)
Lemma pick_spec_view core me opt k k1 r z o p k' :
  view <$> tcbs k1 = view <$> tcbs k → activeThreads k1 = activeThreads k →
  idleThreads k1 = idleThreads k → run_times k1 = run_times k →
  pick_spec core me opt k1 r z o p k' → pick_spec core me opt k r z o p k'.
Proof.
  intros Hv Ha Hi Hr. assert (Hid : is_idle k1 me = is_idle k me) by (by apply view_idle).
  destruct 1.
  - apply pick_return; assumption || congruence.
  - apply pick_spin; assumption || congruence.
  - apply (pick_idle _ _ _ _ _ _ _ n); assumption || congruence.
  - eapply pick_next; try (eassumption || congruence). unfold left_by in *. by rewrite <- Hid.
Qed.

(** Nothing is ready: a thread that may return does, the idle thread stays,
    any other thread leaves the processor to its idle thread. *)
Lemma pick_nothing core opt k z o me :
  sched_wf k [] z o → activeThreads k !! core = Some me →
  no_preempt <$> tcbs k !! me = Some 1 →
  ∃ p k', pick_again core me opt k = Ret (p, k') ∧ pick_spec core me opt k [] z o p k' ∧
    view <$> tcbs k' = view <$> tcbs k ∧ tcb_next <$> tcbs k' = tcb_next <$> tcbs k.
Proof.
  intros Hwf Hme Hf. pose proof (sw_active _ _ _ _ Hwf core me Hme) as [_ Hmei].
  destruct (PQueue.pqueue_remove_ok (tcbs k) (readyQ k) [] (sw_ready _ _ _ _ Hwf))
    as (q & Eq & Hq & _).
  unfold pick_again. rewrite Eq. cbn [head mbind outcome_bind]. set (k2 := set_readyQ q k).
  assert (Hwf2 : sched_wf k2 [] z o).
  { eapply (sched_wf_move k); [exact Hwf|done..|exact Hq|apply Hwf|done]. }
  destruct opt; [|eexists _, _; split; [done|]; split; [by apply pick_return|done]].
  change (tcbs k2) with (tcbs k). change (idleThreads k2) with (idleThreads k).
  destruct (tcbs k !! me) as [im|] eqn:Him; [|done]. cbn [deref mbind outcome_bind].
  assert (Hii : isIdle im = is_idle k me) by (unfold is_idle; by rewrite Him).
  assert (is_Some (idleThreads k !! core)) as [idle Hidle].
  { apply lookup_lt_is_Some. destruct (sw_cores _ _ _ _ Hwf) as [<- _].
    apply lookup_lt_is_Some. eauto. }
  rewrite Hidle, Hii. cbn [deref mbind outcome_bind]. destruct (is_idle k me) eqn:Hi.
  - assert (me = idle) as -> by (specialize (Hmei eq_refl); congruence).
    rewrite Nat.eqb_refl. cbn [ASSERT mbind outcome_bind].
    eexists _, _. split; [done|]. split; [by apply pick_spin|done].
  - pose proof (sw_idle _ _ _ _ Hwf) as [Hall _]. rewrite Forall_forall in Hall.
    assert (Hidd : idle ∈ dom (tcbs k2)).
    { assert (Hidi : is_idle k idle = true)
        by (eapply Hall, list_elem_of_lookup_2; exact Hidle).
      unfold is_idle in Hidi. apply elem_of_dom. by destruct (tcbs k !! idle) eqn:E. }
    destruct (switch_to_ok k2 [] z o o core me idle Hwf2 Hme Hidd)
      as (k' & E & Hwf' & Ha & _ & Hv & Hnx); [by right|].
    unfold switch_to in E. rewrite E. eexists _, _. split; [done|].
    split; [|by rewrite Hv, Hnx]. eapply pick_idle; [done|done|done|exact Hidle| |exact Ha].
    unfold left_by in Hwf'. change (is_idle k2 me) with (is_idle k me) in Hwf'. by rewrite Hi in Hwf'.
Qed.

(** The head of the ready queue takes the processor. *)
Lemma pick_first core opt k n r z o me :
  sched_wf k (n :: r) z o → activeThreads k !! core = Some me →
  ∃ p k', pick_again core me opt k = Ret (p, k') ∧ pick_spec core me opt k (n :: r) z o p k' ∧
    view <$> tcbs k' = view <$> tcbs k ∧ tcb_next <$> tcbs k' = tcb_next <$> tcbs k.
Proof.
  intros Hwf Hme.
  destruct (PQueue.pqueue_remove_ok (tcbs k) (readyQ k) (n :: r) (sw_ready _ _ _ _ Hwf))
    as (q & Eq & Hq & _).
  rewrite (pick_again_switch _ _ _ _ _ _ Eq).
  pose proof (pop_ok _ _ _ _ _ _ Hwf Hq) as Hwf2. set (k2 := set_readyQ q k) in *.
  assert (Hnd : n ∈ dom (tcbs k2)) by (apply (sched_wf_dom k _ _ _ n Hwf); set_solver).
  destruct (switch_to_ok k2 r z (n :: o) o core me n Hwf2 Hme Hnd)
    as (k' & -> & Hwf' & Ha & Hrt & Hv & Hnx).
  { left. split; [|done]. change (is_idle k2 n) with (is_idle k n).
    pose proof (sw_busy _ _ _ _ Hwf) as Hb. rewrite Forall_forall in Hb. apply Hb. set_solver. }
  eexists _, _. split; [done|]. split; [|done].
  by eapply pick_next; [done|exact Hwf'|exact Ha|exact Hrt|exact Hv].
Qed.

Lemma pick_ok core opt k r z o me :
  sched_wf k r z o → activeThreads k !! core = Some me →
  ∃ p k', pick core opt k = Ret (p, k') ∧ pick_spec core me opt k r z o p k' ∧
    view <$> tcbs k' = view <$> tcbs k ∧ tcb_next <$> tcbs k' = tcb_next <$> tcbs k.
Proof.
  intros Hwf Hme. unfold pick, current. rewrite Hme. cbn [deref mbind outcome_bind].
  pose proof (sw_active _ _ _ _ Hwf core me Hme) as [Hmed _].
  destruct (set_no_preempt_ok k r z o me 1 Hwf Hmed) as (im & Him & -> & Hwf1 & Hv1 & Hn1).
  cbn [mbind outcome_bind]. set (k1 := set_tcbs _ k) in *.
  assert (Hf : no_preempt <$> tcbs k1 !! me = Some 1) by (cbn; by rewrite lookup_insert_eq).
  assert (∃ p k', pick_again core me opt k1 = Ret (p, k') ∧ pick_spec core me opt k1 r z o p k' ∧
    view <$> tcbs k' = view <$> tcbs k1 ∧ tcb_next <$> tcbs k' = tcb_next <$> tcbs k1)
    as (p & k' & -> & Hs & Hv & Hn).
  { destruct r; [by apply pick_nothing|by apply pick_first]. }
  exists p, k'. split; [done|]. split; [exact (pick_spec_view _ _ _ _ k1 _ _ _ _ _ Hv1 eq_refl eq_refl eq_refl Hs)|].
  rewrite Hv, Hn. split; [exact Hv1|exact Hn1].
Qed.

(** ** Lemmas: [yield] and [stop] *)

(** The flag [no_preempt] of a thread. *)
Definition flag (k : kernel) (t : nat) : option Z := no_preempt <$> tcbs k !! t.

Lemma set_no_preempt_flag t v k k' :
  set_no_preempt t v k = Ret k' →
  (∀ x, flag k' x = if decide (x = t) then Some v else flag k x) ∧
  readyQ k' = readyQ k ∧ idleThreads k' = idleThreads k.
Proof.
  unfold set_no_preempt. destruct (tcbs k !! t) as [it|] eqn:E; [|done]. intros [= <-].
  split; [|done]. intros x. unfold flag. cbn. destruct (decide (x = t)) as [->|Hne].
  - by rewrite lookup_insert_eq.
  - by rewrite lookup_insert_ne.
Qed.

(** After a switch both threads can be preempted again. *)
Lemma pick_flag core opt k n r z o me k' :
  sched_wf k (n :: r) z o → activeThreads k !! core = Some me →
  pick core opt k = Ret (Switched me, k') →
  ∀ x, flag k' x = if decide (x = me ∨ x = n) then Some 0 else flag k x.
Proof.
  intros Hwf Hme. unfold pick, current. rewrite Hme. cbn [deref mbind outcome_bind].
  destruct (set_no_preempt me 1 k) as [k1| | |] eqn:E1; try done. cbn [mbind outcome_bind].
  pose proof (set_no_preempt_flag _ _ _ _ E1) as (F1 & Q1 & _). unfold pick_again. rewrite Q1.
  assert (Hl : linked (tcbs k1) (PQueue.first (readyQ k)) (n :: r)).
  { unfold set_no_preempt in E1. destruct (tcbs k !! me) as [im|] eqn:Em; [|done]. injection E1 as <-.
    apply (PQueue.pqueue_repr_update (tcbs k) (readyQ k) (n :: r) me im); [done|done|apply Hwf]. }
  destruct Hl as (Hf & it & Hit & _). unfold PQueue.remove, get_next. rewrite Hf, Hit.
  cbn [deref mbind outcome_bind].
  set (k2 := set_readyQ _ k1). assert (∀ x, flag k2 x = flag k1 x) as F2 by done.
  intros Hsw. assert (switch_to core me n k2 = Ret (Switched me, k')) as Hs by (by destruct opt).
  clear Hsw. unfold switch_to in Hs.
  destruct (set_no_preempt n 1 k2) as [k3| | |] eqn:E3; try done. cbn [mbind outcome_bind] in Hs.
  destruct (tcbs k3 !! n) as [i3|]; [|done]. cbn [deref mbind outcome_bind] in Hs.
  destruct (set_no_preempt me 0 (set_active core n i3 k3)) as [k4| | |] eqn:E4; try done.
  cbn [mbind outcome_bind] in Hs.
  destruct (set_no_preempt n 0 k4) as [k5| | |] eqn:E5; try done. injection Hs as <-.
  pose proof (set_no_preempt_flag _ _ _ _ E3) as (F3 & _).
  pose proof (set_no_preempt_flag _ _ _ _ E4) as (F4 & _).
  pose proof (set_no_preempt_flag _ _ _ _ E5) as (F5 & _).
  intros x. rewrite F5, F4. change (flag (set_active core n i3 k3) x) with (flag k3 x).
  rewrite F3, F2, F1. repeat destruct (decide _); tauto || (subst; tauto).
Qed.

Lemma yield_alone k z o core me :
  sched_wf k [] z o → activeThreads k !! core = Some me →
  ∃ k', yield core k = Ret (Returned, k') ∧ sched_wf k' [] z o ∧
    activeThreads k' = activeThreads k ∧ flag k' me = Some 1.
Proof.
  intros Hwf Hme. unfold yield, block.
  destruct (pick_ok core CanReturn k [] z o me Hwf Hme) as (p & k1 & -> & Hs & _).
  cbn [mbind outcome_bind]. destruct Hs as [k' _ _ ? ? Hf| | |n k' Hh]; try done. by exists k'.
Qed.

Lemma yield_switch k n r z o core me :
  sched_wf k (n :: r) z o → activeThreads k !! core = Some me → is_idle k me = false →
  ∃ k', yield core k = Ret (Switched me, k') ∧ sched_wf k' (PQueue.insert (key k) me r) z o ∧
    activeThreads k' = <[core := n]> (activeThreads k) ∧ run_times k' = run_times k ∧
    view <$> tcbs k' = view <$> tcbs k ∧
    (∀ x, flag k' x = if decide (x = me ∨ x = n) then Some 0 else flag k x).
Proof.
  intros Hwf Hme Hni. unfold yield, block.
  destruct (pick_ok core CanReturn k (n :: r) z o me Hwf Hme) as (p & k1 & E & Hs & _).
  rewrite E. cbn [mbind outcome_bind].
  destruct Hs as [k' Hr| |n' k' Hr|n' k' Hh Hwf' Ha Hrt Hv]; try done. injection Hh as <-.
  cbn [tail] in Hwf'. unfold left_by in Hwf'. rewrite Hni in Hwf'.
  destruct (schedule_ok _ _ _ _ _ Hwf') as (k2 & E2 & Hwf2 & Ha2 & Hrt2 & Hol & _).
  unfold yield_action. rewrite E2. cbn [mbind outcome_bind].
  assert (Hk : ∀ x, key k' x = key k x).
  { intros x. unfold key, PQueue.key_in. pose proof (f_equal (lookup x) Hv) as Hx.
    rewrite !lookup_fmap in Hx. destruct (tcbs k !! x), (tcbs k' !! x); try done.
    injection Hx as _ _ Hpr. unfold run_time. by rewrite Hrt, Hpr. }
  rewrite (PQueue.insert_ext _ (key k)) in Hwf2 by done.
  exists k2. split; [done|]. split; [done|]. split; [congruence|]. split; [congruence|]. split.
  - by rewrite (view_links _ _ Hol), Hv.
  - intros x. rewrite <- (pick_flag core CanReturn k n r z o me k' Hwf Hme E x).
    unfold flag. by apply (only_links_lookup no_preempt _ _ x).
Qed.

(** [stop] makes the thread a zombie and runs the next one, or the idle thread. *)
Lemma stop_ok k r z o core me :
  sched_wf k r z o → activeThreads k !! core = Some me → is_idle k me = false →
  ∃ k' n, stop core k = Ret (Switched me, k') ∧ sched_wf k' (tail r) (z ++ [me]) o ∧
    activeThreads k' = <[core := n]> (activeThreads k) ∧
    match r with t :: _ => n = t | [] => idleThreads k !! core = Some n end.
Proof.
  intros Hwf Hme Hni. unfold stop, block.
  destruct (pick_ok core MustBlock k r z o me Hwf Hme) as (p & k1 & -> & Hs & _).
  cbn [mbind outcome_bind].
  assert (∃ n, p = Switched me ∧ sched_wf k1 (tail r) z (me :: o) ∧
    activeThreads k1 = <[core := n]> (activeThreads k) ∧
    match r with t :: _ => n = t | [] => idleThreads k !! core = Some n end) as (n & -> & Hwf1 & Ha & Hn).
  { destruct Hs as [k' _ ?|k' _ _ ?|n k' -> _ _ ? ? ?|n k' Hh Hwf' Ha Hrt Hv]; [done|congruence|eauto|].
    unfold left_by in Hwf'. rewrite Hni in Hwf'. exists n. destruct r as [|t r]; [done|].
    by injection Hh as ->. }
  destruct (stop_action_ok _ _ _ _ _ Hwf1) as (k2 & -> & Hwf2 & Ha2 & _). cbn [mbind outcome_bind].
  exists k2, n. split; [done|]. split; [done|]. split; [congruence|done].
Qed.

(** ** Lemmas: creating and deleting threads *)

Lemma is_idle_dom k t : is_idle k t = true → t ∈ dom (tcbs k).
Proof.
  unfold is_idle. destruct (tcbs k !! t) eqn:E; [|done]. intros _. by eapply elem_of_dom_2.
Qed.

(** Deleting the first zombie. *)
Lemma reap_ok k r t z o q :
  sched_wf k r (t :: z) o → Queue.repr (tcbs k) q z →
  sched_wf (set_tcbs (delete t (tcbs k)) (set_zombies q k)) r z o ∧
  ∀ x, is_idle (set_tcbs (delete t (tcbs k)) (set_zombies q k)) x = is_idle k x.
Proof.
  intros Hwf Hq. pose proof Hwf as [Hr Hz Hnd Hco [Hidl Hidn] Hbu Hac Hot Hal Hcr].
  assert (Hpos : (t ∉ activeThreads k) ∧ (t ∉ r) ∧ (t ∉ z ++ o)).
  { assert (NoDup (activeThreads k ++ r ++ t :: z ++ o)) as Hnd' by done.
    rewrite !NoDup_app, NoDup_cons in Hnd'. destruct Hnd' as (_ & H1 & _ & H2 & H3 & _).
    repeat split; [intros Hx; apply (H1 t Hx)|intros Hx; apply (H2 t Hx)|done].
    - rewrite elem_of_app, elem_of_cons. auto.
    - by left. }
  destruct Hpos as (Hna & Hnr & Hno).
  set (k' := set_tcbs (delete t (tcbs k)) (set_zombies q k)).
  assert (Hti : is_idle k t = false).
  { rewrite Forall_forall in Hbu. apply Hbu. set_solver. }
  assert (Hid : ∀ x, is_idle k' x = is_idle k x).
  { intros x. unfold is_idle in *. cbn. destruct (decide (t = x)) as [->|].
    - by rewrite lookup_delete_eq, Hti.
    - by rewrite lookup_delete_ne. }
  split; [|exact Hid]. split; cbn [tcbs readyQ zombies activeThreads idleThreads cr3s k' set_tcbs set_zombies].
  - eapply PQueue.pqueue_repr_agree; [|exact Hr]. intros x Hx. apply lookup_delete_ne. by intros ->.
  - eapply Queue.repr_agree; [|exact Hq]. intros x Hx. apply lookup_delete_ne. intros ->.
    apply Hno. set_solver.
  - assert (NoDup (t :: activeThreads k ++ r ++ z ++ o)) as Hp.
    { eapply NoDup_Permutation_proper; [|exact Hnd]. solve_Permutation. }
    by apply NoDup_cons in Hp as [_ ?].
  - done.
  - split; [|done]. eapply Forall_impl; [exact Hidl|]. cbn. intros x. by rewrite Hid.
  - eapply Forall_impl with (P := λ x, is_idle k x = false); [|intros x; by rewrite Hid].
    rewrite Forall_forall in *. intros x Hx. apply Hbu. set_solver.
  - intros core x Hx. destruct (Hac core x Hx) as [Hd Hi]. rewrite Hid. split; [|done].
    rewrite dom_delete_L. apply elem_of_difference. split; [done|].
    apply not_elem_of_singleton. intros ->. by apply Hna, list_elem_of_lookup; exists core.
  - rewrite Forall_forall in *. intros x Hx. rewrite dom_delete_L. apply elem_of_difference.
    split; [by apply Hot|]. apply not_elem_of_singleton. intros ->. set_solver.
  - intros x. rewrite Hid, dom_delete_L, elem_of_difference, not_elem_of_singleton.
    intros [Hd Hne] Hi. specialize (Hal x Hd Hi). clear -Hal Hne.
    rewrite !elem_of_app, !elem_of_cons in *. tauto.
  - intros core x ix Hx. destruct (decide (t = x)) as [->|].
    + by rewrite lookup_delete_eq.
    + rewrite lookup_delete_ne by done. by eapply Hcr.
Qed.

Lemma delete_zombies_ok fuel k r z o :
  sched_wf k r z o → (length z <= fuel)%nat →
  ∃ k', delete_zombies fuel k = Ret k' ∧ sched_wf k' r [] o ∧
    activeThreads k' = activeThreads k ∧ run_times k' = run_times k ∧
    ∀ x, is_idle k' x = is_idle k x.
Proof.
  revert fuel k. induction z as [|t z IH]; intros fuel k Hwf Hf;
    destruct (Queue.remove_ok (tcbs k) (zombies k) _ (sw_zombs _ _ _ _ Hwf)) as (q & E & Hq);
    cbn [head tail] in *.
  - exists k. split; [|done]. destruct fuel; cbn [delete_zombies]; by rewrite E.
  - destruct fuel as [|fuel]; [cbn in Hf; lia|]. cbn [delete_zombies]. rewrite E.
    cbn [mbind outcome_bind]. pose proof (reap_ok _ _ _ _ _ _ Hwf Hq) as [Hwf' Hid].
    destruct (IH fuel _ Hwf') as (k' & -> & Hwf2 & Ha & Hr & Hi); [cbn in Hf; lia|].
    exists k'. do 4 (split; [done|]). intros x. by rewrite Hi.
Qed.

Lemma zombies_fuel k r z o : sched_wf k r z o → (length z <= base.size (tcbs k))%nat.
Proof.
  intros Hwf. eapply PQueue.linked_size; [apply Hwf|].
  apply (sw_zombs _ _ _ _ Hwf).
Qed.

(** A new thread is in flight until it is scheduled. *)
Lemma new_tcb_ok k r z o process pd esp t k' :
  sched_wf k r z o → new_tcb false process pd esp k = (t, k') →
  (t ∉ dom (tcbs k)) ∧ sched_wf k' r z (t :: o) ∧ activeThreads k' = activeThreads k ∧
  run_times k' = run_times k ∧ ∀ x, is_idle k' x = is_idle k x.
Proof.
  intros Hwf E. unfold new_tcb in E. injection E as Et <-. rewrite Et.
  assert (Hfr : t ∉ dom (tcbs k)) by (rewrite <- Et; apply is_fresh). clear Et.
  set (k' := MkKernel _ _ _ _ _ _ _ _ _).
  split; [done|].
  assert (Hne : ∀ x, x ∈ dom (tcbs k) → x ≠ t) by (intros x Hx ->; done).
  pose proof Hwf as [Hr Hz Hnd Hco [Hidl Hidn] Hbu Hac Hot Hal Hcr].
  assert (Hparts : ∀ x, x ∈ r ++ z ++ o → x ≠ t).
  { intros x Hx. apply Hne. by eapply sched_wf_dom. }
  assert (Hid : ∀ x, is_idle k' x = is_idle k x).
  { intros x. unfold is_idle. cbn. destruct (decide (t = x)) as [->|].
    - rewrite lookup_insert_eq. apply not_elem_of_dom in Hfr. by rewrite Hfr.
    - by rewrite lookup_insert_ne. }
  split; [|done]. split; cbn [tcbs readyQ zombies activeThreads idleThreads cr3s k'].
  - apply PQueue.pqueue_repr_insert; [|done]. intros Hx. apply (Hparts t); set_solver.
  - apply Queue.repr_insert; [|done]. intros Hx. apply (Hparts t); set_solver.
  - eapply NoDup_Permutation_proper with (t :: activeThreads k ++ r ++ z ++ o);
      [solve_Permutation|]. apply NoDup_cons. split; [|done].
    intros [[c Hc]%list_elem_of_lookup|Hin]%elem_of_app.
    + destruct (Hac c t Hc) as [Hd _]. by apply (Hne t).
    + by apply (Hparts t).
  - done.
  - split; [|done]. eapply Forall_impl; [exact Hidl|]. cbn. intros x. by rewrite Hid.
  - rewrite Forall_forall in *. intros x Hx. rewrite Hid. destruct (decide (x = t)) as [->|].
    + unfold is_idle. apply not_elem_of_dom in Hfr. by rewrite Hfr.
    + apply Hbu. clear -Hx n. rewrite !elem_of_app, !elem_of_cons in *. tauto.
  - intros core x Hx. destruct (Hac core x Hx) as [Hd Hi]. rewrite Hid. split; [|done].
    rewrite dom_insert_L. set_solver.
  - constructor; [rewrite dom_insert_L; set_solver|]. rewrite Forall_forall in *.
    intros x Hx. rewrite dom_insert_L. apply elem_of_union_r. auto.
  - intros x. rewrite Hid, dom_insert_L, elem_of_union, elem_of_singleton.
    intros [->|Hd] Hi; [set_solver|]. specialize (Hal x Hd Hi). clear -Hal.
    rewrite !elem_of_app, !elem_of_cons in *. tauto.
  - intros core x ix Hx. rewrite lookup_insert_ne; [by eapply Hcr|].
    intros <-. by destruct (Hac core t Hx) as [Hd _].
Qed.

Lemma thread_ok k r z o process pd esp :
  sched_wf k r z o →
  ∃ t k', thread process pd esp k = Ret (t, k') ∧
    (∃ r', r' ≡ₚ t :: r ∧ sched_wf k' r' [] o) ∧ activeThreads k' = activeThreads k ∧
    ∀ x, is_idle k' x = is_idle k x.
Proof.
  intros Hwf. unfold thread.
  destruct (delete_zombies_ok _ _ _ _ _ Hwf (zombies_fuel _ _ _ _ Hwf)) as (k1 & -> & Hwf1 & Ha1 & _ & Hi1).
  cbn [mbind outcome_bind].
  destruct (new_tcb false process pd esp k1) as [t k2] eqn:E.
  destruct (new_tcb_ok _ _ _ _ _ _ _ _ _ Hwf1 E) as (_ & Hwf2 & Ha2 & _ & Hi2).
  destruct (schedule_ok _ _ _ _ _ Hwf2) as (k3 & -> & Hwf3 & Ha3 & _ & Hol & _).
  cbn [mbind outcome_bind]. exists t, k3. split; [done|].
  split; [eexists; split; [apply PQueue.insert_perm|exact Hwf3]|]. split; [congruence|].
  intros x. by rewrite (view_idle k2), Hi2, Hi1 by (by apply view_links).
Qed.

(** ** Initialisation *)

Definition boot (rt : gmap nat Z) : kernel :=
  MkKernel ∅ rt PQueue.empty Queue.empty [] [] [] [] 0.

Lemma make_idle_step k kp pd t k1 :
  sched_wf k [] [] [] → activeThreads k = idleThreads k →
  new_tcb true kp pd 0 k = (t, k1) →
  sched_wf (MkKernel (tcbs k1) (run_times k1) (readyQ k1) (zombies k1) (activeThreads k1 ++ [t])
     (idleThreads k1 ++ [t]) (cr3s k1 ++ [pd]) (esp0s k1 ++ [0]) (next_id k1)) [] [] [].
Proof.
  intros Hwf Ha E. unfold new_tcb in E. injection E as Et <-. rewrite Et.
  assert (Hfr : t ∉ dom (tcbs k)) by (rewrite <- Et; apply is_fresh). clear Et.
  pose proof Hwf as [Hr Hz Hnd Hco [Hidl Hidn] _ Hac _ Hal Hcr].
  cbn [tcbs run_times readyQ zombies activeThreads idleThreads cr3s esp0s next_id].
  set (k' := MkKernel _ _ _ _ _ _ _ _ _).
  assert (Hid : ∀ x, is_idle k' x = if decide (x = t) then true else is_idle k x).
  { intros x. unfold is_idle. cbn. destruct (decide (x = t)) as [->|].
    - by rewrite lookup_insert_eq.
    - by rewrite lookup_insert_ne. }
  assert (Hta : t ∉ idleThreads k).
  { rewrite <- Ha. intros [c Hc]%list_elem_of_lookup. by destruct (Hac c t Hc). }
  split; cbn [tcbs readyQ zombies activeThreads idleThreads cr3s k'].
  - split; [apply Hr|constructor].
  - split; [apply Hz|apply Hz|constructor].
  - rewrite !app_nil_r, Ha. apply NoDup_app. split; [done|]. split; [set_solver|apply NoDup_singleton].
  - rewrite !length_app. cbn. lia.
  - rewrite Forall_app, Forall_singleton. split; [split|].
    + eapply Forall_impl; [exact Hidl|]. cbn. intros x Hx. rewrite Hid. by destruct (decide _).
    + rewrite Hid. by rewrite decide_True.
    + apply NoDup_app. split; [done|]. split; [set_solver|apply NoDup_singleton].
  - constructor.
  - intros core x Hx. rewrite dom_insert_L. rewrite Ha in Hx. split; [|done].
    apply lookup_app_Some in Hx as [Hx|[_ Hx]].
    + rewrite <- Ha in Hx. destruct (Hac core x Hx). set_solver.
    + apply list_lookup_singleton_Some in Hx as [_ <-]. set_solver.
  - constructor.
  - intros x. rewrite Hid, dom_insert_L, elem_of_union, elem_of_singleton.
    destruct (decide (x = t)); [done|]. intros [?|Hd] Hi; [done|].
    specialize (Hal x Hd Hi). rewrite !app_nil_r in *. set_solver.
  - intros core x ix Hx. rewrite Ha in Hx.
    destruct (decide (x = t)) as [->|Hne].
    + rewrite lookup_insert_eq. intros [= <-]. apply lookup_app_Some in Hx as [Hx|[Hl Hx]].
      * exfalso. by eapply Hta, list_elem_of_lookup_2.
      * apply list_lookup_singleton_Some in Hx as [Hc _].
        apply lookup_app_Some. right. split; [lia|]. destruct Hco as [_ ->]. by rewrite Hc.
    + rewrite lookup_insert_ne by done. intros Hit.
      apply lookup_app_Some in Hx as [Hx|[_ Hx]].
      * rewrite <- Ha in Hx. apply lookup_app_l_Some. by eapply Hcr.
      * apply list_lookup_singleton_Some in Hx as [_ ?]. by subst.
Qed.

Lemma make_idle_ok n k kp pd :
  sched_wf k [] [] [] → activeThreads k = idleThreads k →
  sched_wf (make_idle n kp pd k) [] [] [] ∧
  length (activeThreads (make_idle n kp pd k)) = (n + length (activeThreads k))%nat.
Proof.
  revert k. induction n as [|n IH]; intros k Hwf Ha; [done|]. cbn [make_idle].
  destruct (new_tcb true kp pd 0 k) as [t k1] eqn:E.
  pose proof (make_idle_step _ _ _ _ _ Hwf Ha E) as Hwf'.
  unfold new_tcb in E. injection E as _ <-. cbn in *.
  destruct (IH _ Hwf') as [? Hl]; [by cbn; rewrite Ha|]. split; [done|].
  rewrite Hl. cbn. rewrite length_app. cbn. lia.
Qed.

Lemma boot_wf rt : sched_wf (boot rt) [] [] [].
Proof.
  split; try done; try constructor; try done; try (by constructor).
Qed.

Lemma threadsInit_ok n kp pd esp rt :
  ∃ reaper k, threadsInit n kp pd esp (boot rt) = Ret (reaper, k) ∧
    sched_wf k [reaper] [] [] ∧ length (activeThreads k) = n.
Proof.
  unfold threadsInit. destruct (make_idle_ok n (boot rt) kp pd (boot_wf rt) eq_refl) as [Hwf Hl].
  destruct (thread_ok _ _ _ _ kp pd esp Hwf) as (t & k & -> & (r & Hr & Hk) & Ha & _).
  exists t, k. split; [done|]. apply Permutation_singleton_r in Hr as ->.
  split; [done|]. rewrite Ha, Hl. cbn. lia.
Qed.

(** ** The processors running concurrently *)

Inductive act := AYield | AStop.

Definition option_of (a : act) : BlockOption :=
  match a with AYield => CanReturn | AStop => MustBlock end.

Definition run_act (a : act) : nat → kernel → outcome kernel :=
  match a with AYield => yield_action | AStop => stop_action end.

(** [pending] holds, for a processor between the two parts of [block], the
    action it still has to run on the target stack and the thread it left. *)
Record system := Sys { kern : kernel; pending : gmap nat (act * nat) }.

Definition charge (rt : gmap nat Z) (k : kernel) : kernel :=
  MkKernel (tcbs k) rt (readyQ k) (zombies k) (activeThreads k) (idleThreads k) (cr3s k)
    (esp0s k) (next_id k).

Inductive sched_step : system → system → Prop :=
| step_pick core a p k k' pend :
    pend !! core = None → pick core (option_of a) k = Ret (p, k') →
    sched_step (Sys k pend)
      (Sys k' (match p with Switched me => <[core := (a, me)]> pend | _ => pend end))
| step_act core a me k k' pend :
    pend !! core = Some (a, me) → run_act a me k = Ret k' →
    sched_step (Sys k pend) (Sys k' (delete core pend))
| step_thread core process pd esp t k k' pend :
    pend !! core = None → thread process pd esp k = Ret (t, k') →
    sched_step (Sys k pend) (Sys k' pend)
| step_reap core k k' pend :
    pend !! core = None → delete_zombies (base.size (tcbs k)) k = Ret k' →
    sched_step (Sys k pend) (Sys k' pend)
| step_charge rt k pend : sched_step (Sys k pend) (Sys (charge rt k) pend).

(** The threads in flight. *)
Definition flights (k : kernel) (pend : gmap nat (act * nat)) : list nat :=
  filter (λ t, is_idle k t = false) ((λ x : nat * (act * nat), x.2.2) <$> map_to_list pend).

Lemma flights_ext k k' pend :
  (∀ x, is_idle k' x = is_idle k x) → flights k' pend = flights k pend.
Proof. intros E. apply list_filter_iff. intros x. by rewrite E. Qed.

Lemma flights_insert k pend core a me o :
  pend !! core = None → o ≡ₚ flights k pend →
  left_by k me o ≡ₚ flights k (<[core := (a, me)]> pend).
Proof.
  intros Hn Ho. unfold left_by, flights. rewrite map_to_list_insert by done.
  rewrite fmap_cons, filter_cons. cbn. destruct (is_idle k me); cbn; by rewrite Ho.
Qed.

Lemma flights_delete k pend core a me :
  pend !! core = Some (a, me) →
  flights k pend ≡ₚ left_by k me (flights k (delete core pend)).
Proof.
  intros Hs. rewrite <- (insert_delete_id pend core (a, me)) at 1 by done.
  symmetry. apply flights_insert; [apply lookup_delete_eq|done].
Qed.

Lemma sched_wf_perm k r z o o' : sched_wf k r z o → o ≡ₚ o' → sched_wf k r z o'.
Proof.
  intros Hwf Hp. eapply (sched_wf_move k k); [exact Hwf|done..|apply Hwf|apply Hwf|by rewrite Hp].
Qed.

Definition sys_wf (n : nat) (s : system) : Prop :=
  length (activeThreads (kern s)) = n ∧
  ∃ ready zombs, sched_wf (kern s) ready zombs (flights (kern s) (pending s)).

Lemma idle_action k a me r z o :
  sched_wf k r z o → is_idle k me = true → run_act a me k = Ret k.
Proof.
  intros _ Hi. unfold is_idle in Hi. destruct (tcbs k !! me) as [it|] eqn:E; [|done].
  destruct a; cbn; unfold yield_action, schedule, stop_action; rewrite E; cbn; by rewrite Hi.
Qed.

Lemma run_act_ok k a me r z o :
  sched_wf k r z (left_by k me o) →
  ∃ k' r' z', run_act a me k = Ret k' ∧ sched_wf k' r' z' o ∧
    activeThreads k' = activeThreads k ∧ ∀ x, is_idle k' x = is_idle k x.
Proof.
  unfold left_by. destruct (is_idle k me) eqn:Hi; intros Hwf.
  - exists k, r, z. by rewrite (idle_action _ _ _ _ _ _ Hwf Hi).
  - destruct a; cbn.
    + destruct (schedule_ok _ _ _ _ _ Hwf) as (k' & E & Hwf' & Ha & _ & Hol & _).
      eexists k', _, z. split; [exact E|]. split; [exact Hwf'|]. split; [done|]. intros x.
      by apply view_idle, view_links.
    + destruct (stop_action_ok _ _ _ _ _ Hwf) as (k' & E & Hwf' & Ha & Hol).
      exists k', r, (z ++ [me]). split; [exact E|]. split; [exact Hwf'|]. split; [done|]. intros x.
      by apply view_idle, view_links.
Qed.

Lemma pick_wf n k pend core a me0 p k' r z :
  sched_wf k r z (flights k pend) → pend !! core = None → activeThreads k !! core = Some me0 →
  length (activeThreads k) = n → pick core (option_of a) k = Ret (p, k') →
  sys_wf n (Sys k' (match p with Switched me => <[core := (a, me)]> pend | _ => pend end)).
Proof.
  intros Hwf Hp Hme Hn E. destruct (pick_ok core (option_of a) k r z _ me0 Hwf Hme)
    as (p' & k'' & E' & Hs & Hv & _). rewrite E in E'. injection E' as <- <-.
  assert (Hid : ∀ x, is_idle k' x = is_idle k x) by (intros; by apply view_idle).
  assert (Hin : left_by k me0 (flights k pend) ≡ₚ flights k' (<[core := (a, me0)]> pend)).
  { rewrite (flights_ext _ _ _ Hid). by apply flights_insert. }
  destruct Hs as [k' _ _ Hwf' Ha _|k' _ _ _ Hwf' Ha|m k' _ _ Hi _ Hwf' Ha|m k' _ Hwf' Ha _ _];
    cbn [kern pending]; (split; [cbn; rewrite Ha, ?length_insert; done|]); cbn [kern pending].
  - exists [], z. by rewrite (flights_ext _ _ _ Hid).
  - exists [], z. by rewrite (flights_ext _ _ _ Hid).
  - exists [], z. eapply sched_wf_perm; [exact Hwf'|]. rewrite <- Hin. unfold left_by. by rewrite Hi.
  - eexists _, z. eapply sched_wf_perm; [exact Hwf'|]. exact Hin.
Qed.

Lemma sys_wf_step n s s' : sys_wf n s → sched_step s s' → sys_wf n s'.
Proof.
  intros (Hn & r & z & Hwf) Hs. destruct Hs as [core a p k k' pend Hp E|core a me k k' pend Hp E|
    core process pd esp t k k' pend Hp E|core k k' pend Hp E|rt k pend]; cbn [kern pending] in *.
  - assert (∃ me0, activeThreads k !! core = Some me0) as [me0 Hme].
    { unfold pick, current in E. destruct (activeThreads k !! core); [eauto|done]. }
    by eapply pick_wf.
  - assert (Hwf' : sched_wf k r z (left_by k me (flights k (delete core pend)))).
    { eapply sched_wf_perm; [exact Hwf|]. by apply flights_delete with a. }
    destruct (run_act_ok _ a _ _ _ _ Hwf') as (k1 & r1 & z1 & E1 & Hwf1 & Ha & Hid).
    rewrite E in E1. injection E1 as <-. split; cbn [kern pending]; [by rewrite Ha|].
    exists r1, z1. by rewrite (flights_ext _ _ _ Hid).
  - destruct (thread_ok _ _ _ _ process pd esp Hwf) as (t1 & k1 & E1 & (r1 & _ & Hwf1) & Ha & Hid).
    rewrite E in E1. injection E1 as <- <-. split; cbn [kern pending]; [by rewrite Ha|].
    exists r1, []. by rewrite (flights_ext _ _ _ Hid).
  - destruct (delete_zombies_ok _ _ _ _ _ Hwf (zombies_fuel _ _ _ _ Hwf))
      as (k1 & E1 & Hwf1 & Ha & _ & Hid).
    rewrite E in E1. injection E1 as <-. split; cbn [kern pending]; [by rewrite Ha|].
    exists r, []. by rewrite (flights_ext _ _ _ Hid).
  - split; [done|]. exists r, z. cbn [kern pending]. rewrite (flights_ext k) by done.
    eapply (sched_wf_move k); [exact Hwf|done..|apply Hwf|apply Hwf|done].
Qed.

(** ** Properties *)


(** [yield] runs the ready thread of least run time, first
    come first served among equals, and puts the thread that yielded back in
    the order of the run times; with nothing ready it returns to its caller. *)
Lemma yield_runs_least (k : kernel) (r z o : list nat) (core me : nat)
    (Hwf : sched_wf k r z o) (Ho : PQueue.ordered (key k) r)
    (Hme : activeThreads k !! core = Some me) (Hni : is_idle k me = false) :
  ∃ p k', yield core k = Ret (p, k') ∧
    match r with
    | [] => p = Returned ∧ sched_wf k' [] z o ∧ activeThreads k' = activeThreads k
    | n :: r' =>
        p = Switched me ∧ activeThreads k' = <[core := n]> (activeThreads k) ∧
        Forall (λ t, key k n <= key k t) r ∧
        sched_wf k' (PQueue.insert (key k) me r') z o ∧
        PQueue.ordered (key k) (PQueue.insert (key k) me r')
    end.
Proof.
  destruct r as [|n r].
  - destruct (yield_alone k z o core me Hwf Hme) as (k' & E & Hwf' & Ha & _). eauto 6.
  - destruct (yield_switch k n r z o core me Hwf Hme Hni) as (k' & E & Hwf' & Ha & _).
    apply StronglySorted_inv in Ho as [Ho Hmin]. exists (Switched me), k'. split; [done|].
    split; [done|]. split; [done|]. split; [|split; [exact Hwf'|by apply PQueue.insert_ordered]].
    constructor; [lia|done].
Qed.

(** A thread that yields while nothing is ready keeps [no_preempt] set: the
    timer will neither charge, preempt nor kill it until it blocks. *)
Lemma yield_alone_no_preempt k z o core me :
  sched_wf k [] z o → activeThreads k !! core = Some me →
  ∃ k', yield core k = Ret (Returned, k') ∧ flag k' me = Some 1.
Proof. intros Hwf Hme. destruct (yield_alone k z o core me Hwf Hme) as (k' & ? & ?). naive_solver. Qed.

(** ** Witnesses *)

Definition demo_rt : gmap nat Z := list_to_map [(0%nat, 0); (1%nat, 0); (2%nat, 4)].

Definition demo_k0 : kernel := snd (run (0%nat, boot demo_rt) (threadsInit 2 0 4096 8192 (boot demo_rt))).
Definition demo_k1 : kernel := snd (run (0%nat, demo_k0) (thread 1 12288 16384 demo_k0)).
Definition demo_k2 : kernel := snd (run (0%nat, demo_k1) (thread 2 20480 24576 demo_k1)).


(** One processor running thread 1, with thread 2 ready. *)
Definition demo_run : kernel :=
  MkKernel (list_to_map [(0%nat, MkTCB true 0 None 0 4096 0 0);
                         (1%nat, MkTCB false 1 None 0 12288 16384 1);
                         (2%nat, MkTCB false 2 None 0 20480 24576 2)])
    demo_rt (PQueue.MkPQueue (Some 2%nat) 1) Queue.empty [1%nat] [0%nat] [12288] [16384] 3.

Lemma demo_run_wf : sched_wf demo_run [2%nat] [] [].
Proof.
  split.
  - split; [|apply NoDup_singleton]. split; [done|]. by eexists.
  - split; [done|done|constructor].
  - cbn. apply NoDup_cons. split; [|apply NoDup_singleton]. by intros [=]%list_elem_of_singleton.
  - done.
  - split; [by repeat constructor|apply NoDup_singleton].
  - by repeat constructor.
  - intros [|[|?]] t [= <-]. split; [by vm_compute|done].
  - constructor.
  - intros t Ht. assert (t ∈ [0; 1; 2]%nat) as Hin.
    { assert (dom (tcbs demo_run) = list_to_set [0; 1; 2]%nat) as E by (by vm_compute).
      rewrite E in Ht. by apply elem_of_list_to_set in Ht. }
    clear Ht. revert Hin. rewrite !elem_of_cons. intros [->|[->|[->|Hn]]]; [done|by intros _; left|by intros _; right; left|].
    by apply not_elem_of_nil in Hn.
  - intros [|[|?]] t it [= <-]. by intros [= <-].
Qed.

Lemma yield_runs_least_witness :
  ∃ p k', yield 0 demo_run = Ret (p, k') ∧
    p = Switched 1 ∧ activeThreads k' = [2%nat] ∧
    Forall (λ t, key demo_run 2 <= key demo_run t) [2%nat] ∧
    sched_wf k' [1%nat] [] [] ∧ PQueue.ordered (key demo_run) [1%nat].
Proof.
  apply (yield_runs_least demo_run [2%nat] [] [] 0 1 demo_run_wf); [|done|done].
  repeat constructor.
Defined.
