(* ===== verification/Semaphore.v ===== *)
(** * Semaphores and blocking locks: src/kernel/semaphore.h, blocking_lock.h

    [down] and [up] are modelled over the scheduler's state.  The interrupt-safe
    lock of the semaphore is held from the test of [count] until the thread has
    been put in [waiting] (the action of [block] releases it), so each operation
    is atomic with respect to the semaphore.  Their specification is a counter
    and a FIFO list of waiting threads, and the clients (Sync) are verified
    against that specification. *)

From S2P Require Import Prelude Queue Threads.
Local Open Scope Z_scope.

Definition u64 (x : Z) : Z := x mod 18446744073709551616.

(** ** The code *)

Record Semaphore := MkSemaphore { count : Z; waiting : Queue.queue }.

Definition make (count : Z) : Semaphore := MkSemaphore count Queue.empty.

(** [true]: the thread goes on; [false]: it waits, and [up] will make it ready. *)
Definition down (core : nat) (s : Semaphore) (k : kernel) : outcome (bool * Semaphore * kernel) :=
  if 0 <? count s then Ret (true, MkSemaphore (u64 (count s - 1)) (waiting s), k)
  else
    '(p, k) ← pick core MustBlock k;
    match p with
    | Switched me =>
        it ← deref (tcbs k !! me);
        _ ← ASSERT (negb (isIdle it)) "!me->isIdle";
        '(q, st) ← Queue.add me (waiting s) (tcbs k);
        Ret (false, MkSemaphore (count s) q, set_tcbs st k)
    | _ => Ret (false, s, k)
    end.

Definition up (s : Semaphore) (k : kernel) : outcome (Semaphore * kernel) :=
  '(next, q) ← Queue.remove (waiting s) (tcbs k);
  match next with
  | None => Ret (MkSemaphore (u64 (count s + 1)) q, k)
  | Some t => k ← schedule t k; Ret (MkSemaphore (count s) q, k)
  end.

(** class BlockingLock : public Semaphore *)
Definition BlockingLock : Semaphore := make 1.
Definition lock := down.
Definition unlock := up.

(** ** Specification *)

(** The number of permits and the threads waiting, first come first. *)
Record permits := Permits { free : Z; queue : list nat }.

Definition spec_down (t : nat) (a : permits) : bool * permits :=
  if 0 <? free a then (true, Permits (free a - 1) (queue a))
  else (false, Permits (free a) (queue a ++ [t])).

Definition spec_up (a : permits) : option nat * permits :=
  match queue a with
  | [] => (None, Permits (free a + 1) [])
  | t :: w => (Some t, Permits (free a) w)
  end.

Record implements (k : kernel) (s : Semaphore) (a : permits) : Prop := Implements {
  im_count : count s = free a;
  im_range : 0 <= free a < 18446744073709551615;
  im_waiting : Queue.repr (tcbs k) (waiting s) (queue a);
}.

Lemma u64_small x : 0 <= x < 18446744073709551616 → u64 x = x.
Proof. intros. by apply Z.mod_small. Qed.

(** ** Lemmas *)

Lemma down_ok k r z o s a core me :
  sched_wf k r z (queue a ++ o) → implements k s a →
  activeThreads k !! core = Some me → is_idle k me = false →
  ∃ s' k', down core s k = Ret ((spec_down me a).1, s', k') ∧
    sched_wf k' (if 0 <? free a then r else tail r) z (queue (spec_down me a).2 ++ o) ∧
    implements k' s' (spec_down me a).2.
Proof.
  intros Hwf [Hc Hr Hw] Hme Hi. unfold down, spec_down. rewrite Hc.
  destruct (Z.ltb_spec 0 (free a)) as [Hpos|Hz]; cbn [fst snd queue free].
  { rewrite u64_small by lia. eexists _, k. split; [done|]. split; [done|].
    split; cbn; [done|lia|done]. }
  destruct (pick_ok core MustBlock k r z _ me Hwf Hme) as (p & k1 & -> & Hs & Hv & Hn).
  cbn [mbind outcome_bind].
  assert (∃ r1, p = Switched me ∧ r1 = tail r ∧ sched_wf k1 r1 z (me :: queue a ++ o)) as (r1 & -> & -> & Hwf1).
  { destruct Hs as [|k' _ _ ? _ _|n k' -> _ _ _ Hwf' _|n k' _ Hwf' _ _ _]; [done|congruence|eauto|].
    unfold left_by in Hwf'. rewrite Hi in Hwf'. eauto. }
  assert (Hid : is_idle k1 me = false) by (by rewrite (view_idle k k1)).
  assert (Hrep : Queue.repr (tcbs k1) (waiting s) (queue a)).
  { by eapply Queue.repr_same_next. }
  pose proof (not_in_parts _ _ _ _ _ (sw_nodup _ _ _ _ Hwf1)) as (_ & Hnr & Hnz & Hno).
  assert (Hdom : me ∈ dom (tcbs k1)) by (eapply sched_wf_dom; [exact Hwf1|set_solver]).
  apply elem_of_dom in Hdom as [it Hit]. unfold is_idle in Hid. rewrite Hit in Hid |- *.
  cbn [deref mbind outcome_bind]. rewrite Hid. cbn [negb ASSERT mbind outcome_bind].
  destruct (Queue.add_ok (tcbs k1) (waiting s) (queue a) me it Hrep) as (q & st & -> & Hq & Hol & Hag);
    [set_solver|done|].
  cbn [mbind outcome_bind]. eexists _, _. split; [done|].
  split; [|split; cbn; [done|lia|done]].
  pose proof (sw_nodup _ _ _ _ Hwf1) as Hnd. rewrite !NoDup_app in Hnd.
  destruct Hnd as (_ & _ & _ & H1 & _ & H2 & _).
  eapply (sched_wf_move k1); [exact Hwf1|done..|by apply view_links| | |].
  - eapply PQueue.pqueue_repr_agree; [|apply Hwf1]. intros x Hx. apply Hag. intros Hx'.
    apply (H1 x Hx). set_solver.
  - eapply Queue.repr_agree; [|apply Hwf1]. intros x Hx. apply Hag. intros Hx'.
    apply (H2 x Hx). set_solver.
  - rewrite <- app_assoc. solve_Permutation.
Qed.

Lemma up_ok k r z o s a :
  sched_wf k r z (queue a ++ o) → implements k s a → free a < 18446744073709551614 →
  ∃ s' k', up s k = Ret (s', k') ∧
    sched_wf k' (match (spec_up a).1 with None => r | Some t => PQueue.insert (key k) t r end) z
      (queue (spec_up a).2 ++ o) ∧
    implements k' s' (spec_up a).2.
Proof.
  intros Hwf [Hc Hr Hw] Hlt. unfold up, spec_up.
  destruct (Queue.remove_ok (tcbs k) (waiting s) (queue a) Hw) as (q & -> & Hq).
  destruct (queue a) as [|t w] eqn:Ew; cbn [head tail mbind outcome_bind fst snd queue free] in *.
  - rewrite u64_small by lia. eexists _, k. split; [done|]. split; [done|].
    split; cbn; [lia|lia|done].
  - destruct (schedule_ok k r z (w ++ o) t Hwf) as (k' & -> & Hwf' & _ & _ & _ & Hag).
    cbn [mbind outcome_bind]. eexists _, k'. split; [done|]. split; [done|].
    split; cbn; [done|lia|]. eapply Queue.repr_agree; [|exact Hq]. intros x Hx. apply Hag.
    pose proof (sw_nodup _ _ _ _ Hwf) as Hnd. rewrite !NoDup_app, NoDup_cons in Hnd.
    destruct Hnd as (_ & _ & _ & H1 & _ & _ & Ht & _).
    apply not_elem_of_cons. split; [intros ->; set_solver|]. intros Hxr. apply (H1 x Hxr). set_solver.
Qed.

(** ** Threads using a semaphore *)

(** [holders] are the threads that returned from [down] and did not call [up];
    [waiters] of the semaphore become holders when [up] hands them a permit. *)
Record client := Client { sem : permits; holders : list nat }.

Inductive client_step : client → client → Prop :=
| client_down t a a' hs (got : bool) :
    spec_down t a = (got, a') → t ∉ hs → t ∉ queue a →
    client_step (Client a hs) (Client a' (if got then t :: hs else hs))
| client_up t a a' next hs1 hs2 :
    spec_up a = (next, a') →
    client_step (Client a (hs1 ++ t :: hs2))
      (Client a' (match next with Some t' => t' :: hs1 ++ hs2 | None => hs1 ++ hs2 end)).

(** Permits are conserved, and nobody waits while one is free. *)
Record client_inv (n : Z) (c : client) : Prop := ClientInv {
  ci_free : 0 <= free (sem c);
  ci_total : free (sem c) + Z.of_nat (length (holders c)) = n;
  ci_wait : queue (sem c) ≠ [] → free (sem c) = 0;
  ci_nodup : NoDup (holders c ++ queue (sem c));
}.

Lemma client_step_inv n c c' : client_inv n c → client_step c c' → client_inv n c'.
Proof.
  intros [Hf Ht Hw Hn] Hs. destruct Hs as [t a a' hs got E Hhs Hq|t a a' next hs1 hs2 E];
    unfold spec_down, spec_up in E; cbn [sem holders] in *.
  - destruct (Z.ltb_spec 0 (free a)) as [Hp|Hz]; injection E as <- <-; split; cbn [sem holders free queue length].
    + lia.
    + lia.
    + intros Hne. specialize (Hw Hne). lia.
    + cbn. apply NoDup_cons. split; [set_solver|done].
    + lia.
    + lia.
    + intros _. lia.
    + eapply NoDup_Permutation_proper with (t :: hs ++ queue a); [solve_Permutation|].
      apply NoDup_cons. split; [set_solver|done].
  - rewrite !length_app in Ht. cbn in Ht.
    destruct (queue a) as [|t' w] eqn:Eq; injection E as <- <-; split; cbn [sem holders free queue length];
      rewrite ?length_app; try lia.
    + done.
    + rewrite app_nil_r in *. assert (NoDup (t :: hs1 ++ hs2)) as Hp.
      { eapply NoDup_Permutation_proper; [|exact Hn]. solve_Permutation. }
      by apply NoDup_cons in Hp as [_ ?].
    + intros _. apply Hw. done.
    + assert (NoDup (t :: t' :: (hs1 ++ hs2) ++ w)) as Hp.
      { eapply NoDup_Permutation_proper; [|exact Hn]. solve_Permutation. }
      by apply NoDup_cons in Hp as [_ ?].
Qed.

(** ** Properties *)

(** C12 (refinement): a [Semaphore] implements a counter of permits with a FIFO
    of waiting threads.  [down] by the running thread takes a permit when there
    is one and otherwise makes the thread wait, last in the queue, while the
    processor runs the next ready thread (or its idle thread); [up] makes the
    first waiting thread ready, or adds a permit when nobody waits; the threads
    of every other queue stay where they are. *)
Theorem semaphore_refines_permits (k : kernel) (r z o : list nat) (s : Semaphore) (a : permits)
    (core me : nat) (Hwf : sched_wf k r z (queue a ++ o)) (Him : implements k s a)
    (Hme : activeThreads k !! core = Some me) (Hni : is_idle k me = false)
    (Hmax : free a < 18446744073709551614) :
  (∃ s' k', down core s k = Ret ((spec_down me a).1, s', k') ∧
     sched_wf k' (if 0 <? free a then r else tail r) z (queue (spec_down me a).2 ++ o) ∧
     implements k' s' (spec_down me a).2) ∧
  (∃ s' k', up s k = Ret (s', k') ∧
     sched_wf k' (match (spec_up a).1 with None => r | Some t => PQueue.insert (key k) t r end) z
       (queue (spec_up a).2 ++ o) ∧
     implements k' s' (spec_up a).2).
Proof. split; [by eapply down_ok|by apply up_ok]. Qed.

(** At most [n] threads hold a semaphore created with [n] permits,
    permits are neither lost nor duplicated, and no thread waits while a permit
    is free.  With one permit (a [BlockingLock]) the holder is unique, and a
    thread waits only while another one holds the lock. *)
Lemma permits_conserved (n : Z) (c : client)
    (Hn : 0 <= n) (Hs : star client_step (Client (Permits n []) []) c) :
  free (sem c) + Z.of_nat (length (holders c)) = n ∧
  (queue (sem c) ≠ [] → free (sem c) = 0) ∧
  NoDup (holders c ++ queue (sem c)) ∧
  (n = 1 → (length (holders c) <= 1)%nat ∧ (queue (sem c) ≠ [] → ∃ t, holders c = [t])).
Proof.
  assert (client_inv n c) as [Hf Ht Hw Hnd].
  { eapply star_invariant; [|apply client_step_inv|exact Hs].
    split; cbn; [lia|lia|done|constructor]. }
  split; [done|]. split; [done|]. split; [done|]. intros ->. split; [lia|].
  intros Hq. specialize (Hw Hq). destruct (holders c) as [|t [|]]; cbn in *; [lia|eauto|lia].
Qed.

(** ** Witnesses *)

(** A second thread waits for the permit of the first. *)
Lemma permits_conserved_witness :
  free (sem (Client (Permits 0 [2%nat]) [1%nat])) + 1 = 1 ∧
  (length (holders (Client (Permits 0 [2%nat]) [1%nat])) <= 1)%nat.
Proof.
  destruct (permits_conserved 1 (Client (Permits 0 [2%nat]) [1%nat])) as (H1 & _ & _ & H2).
  - lia.
  - eapply star_step; [eapply star_step; [apply star_refl|]|].
    + apply (client_down 1 (Permits 1 []) (Permits 0 []) [] true); [reflexivity|set_solver|set_solver].
    + apply (client_down 2 (Permits 0 []) (Permits 0 [2%nat]) [1%nat] false);
        [reflexivity|set_solver|set_solver].
  - split; [exact H1|apply H2; reflexivity].
Defined.

Lemma semaphore_refines_permits_witness :
  (∃ s' k', down 0 (make 0) demo_run = Ret (false, s', k') ∧
     sched_wf k' [] [] [1%nat] ∧ implements k' s' (Permits 0 [1%nat])) ∧
  (∃ s' k', up (make 0) demo_run = Ret (s', k') ∧
     sched_wf k' [2%nat] [] [] ∧ implements k' s' (Permits 1 [])).
Proof.
  apply (semaphore_refines_permits demo_run [2%nat] [] [] (make 0) (Permits 0 []) 0 1);
    [apply demo_run_wf| |reflexivity|reflexivity|cbn; lia].
  split; cbn; [reflexivity|lia|apply Queue.repr_empty].
Defined.
