(* ===== verification/Sync.v ===== *)
(** * Futures and barriers: src/kernel/future.h, barrier.h

    The threads of the clients are programs: a program counter per thread and
    one step per statement that touches shared state, in any interleaving.  The
    semaphores are used through their specification (file Semaphore).  Both
    classes use a semaphore as a gate that stays open once opened: a thread that
    got through puts the permit back for the next one.  [Gate] proves that
    pattern correct once for both. *)

From S2P Require Import Prelude Semaphore.
Local Open Scope Z_scope.

(** ** A gate: [down(); up();] *)

Module Gate.

(** Where a thread is: before the gate, about to call [down], waiting, about
    to call [up], through. *)
Inductive place := Out | Down | Wait | Up | Done.

#[global] Instance place_eq_dec : EqDecision place.
Proof. solve_decision. Defined.

(** [go.down()] and [go.up()] by thread [i]. *)
Definition down (i : nat) (st : permits * list place) : permits * list place :=
  let '(a, g) := st in
  let '(got, a) := spec_down i a in
  (a, <[i := if got : bool then Up else Wait]> g).

Definition up (i : nat) (st : permits * list place) : permits * list place :=
  let '(a, g) := st in
  match spec_up a with
  | (Some j, a) => (a, <[j := Up]> (<[i := Done]> g))
  | (None, a) => (a, <[i := Done]> g)
  end.

Definition ups (g : list place) : Z := Z.of_nat (length (filter (λ p, p = Up) g)).

Record inv (opened : bool) (a : permits) (g : list place) : Prop := Inv {
  gi_free : 0 <= free a;
  gi_total : free a + ups g = (if opened then 1 else 0);
  gi_wait : queue a ≠ [] → free a = 0;
  gi_queue i : i ∈ queue a ↔ g !! i = Some Wait;
  gi_nodup : NoDup (queue a);
}.

Lemma ups_insert g i x y :
  g !! i = Some x →
  ups (<[i := y]> g) + (if decide (x = Up) then 1 else 0) =
  ups g + (if decide (y = Up) then 1 else 0).
Proof.
  intros Hi. apply list_elem_of_split_length in Hi as (g1 & g2 & -> & ->).
  rewrite insert_app_r_alt, Nat.sub_diag by lia. cbn. unfold ups.
  rewrite !filter_app, !filter_cons, !length_app.
  destruct (decide (x = Up)), (decide (y = Up)); cbn [length]; lia.
Qed.

Lemma ups_nonneg g : 0 <= ups g.
Proof. unfold ups. lia. Qed.

Lemma ups_pos g : 0 < ups g → ∃ i : nat, g !! i = Some Up.
Proof.
  unfold ups. intros Hp. destruct (filter (λ p, p = Up) g) as [|x l] eqn:E; [cbn in Hp; lia|].
  assert (x ∈ filter (λ p, p = Up) g) as [-> Hx]%list_elem_of_filter by (rewrite E; by left).
  by apply list_elem_of_lookup in Hx.
Qed.

(** A thread that does not wait changes its place without taking a permit. *)
Lemma inv_move opened a g i x y :
  inv opened a g → g !! i = Some x → x ≠ Wait → y ≠ Wait → (x = Up ↔ y = Up) →
  inv opened a (<[i := y]> g).
Proof.
  intros [Hf Ht Hw Hq Hn] Hi Hx Hy Hxy. pose proof (ups_insert g i x y Hi) as Hu. split; try done.
  - destruct (decide (x = Up)), (decide (y = Up)); [lia|tauto|tauto|lia].
  - intros j. rewrite Hq. destruct (decide (i = j)) as [->|Hne].
    + rewrite list_lookup_insert_eq by (by eapply lookup_lt_Some). split; [congruence|].
      by intros [= ->].
    + by rewrite list_lookup_insert_ne.
Qed.

Lemma inv_open a g i :
  inv false a g → g !! i = Some Out → inv true a (<[i := Up]> g).
Proof.
  intros [Hf Ht Hw Hq Hn] Hi. pose proof (ups_insert g i Out Up Hi) as Hu.
  rewrite decide_False, decide_True in Hu by done. split; try done.
  - lia.
  - intros j. rewrite Hq. destruct (decide (i = j)) as [->|Hne].
    + rewrite list_lookup_insert_eq by (by eapply lookup_lt_Some). split; congruence.
    + by rewrite list_lookup_insert_ne.
Qed.

Lemma inv_down opened a g i :
  inv opened a g → g !! i = Some Down →
  inv opened (down i (a, g)).1 (down i (a, g)).2.
Proof.
  intros [Hf Ht Hw Hq Hn] Hi. unfold down, spec_down.
  assert (Hlt : (i < length g)%nat) by (by eapply lookup_lt_Some).
  destruct (Z.ltb_spec 0 (free a)) as [Hp|Hz]; cbn [fst snd].
  - pose proof (ups_insert g i Down Up Hi) as Hu. rewrite decide_False, decide_True in Hu by done.
    split; cbn [free queue]; try done.
    + lia.
    + lia.
    + intros Hne. specialize (Hw Hne). lia.
    + intros j. rewrite Hq. destruct (decide (i = j)) as [->|Hne].
      * rewrite list_lookup_insert_eq by done. split; congruence.
      * by rewrite list_lookup_insert_ne.
  - pose proof (ups_insert g i Down Wait Hi) as Hu. rewrite !decide_False in Hu by done.
    split; cbn [free queue]; try done.
    + lia.
    + lia.
    + intros j. rewrite elem_of_app, Hq, list_elem_of_singleton.
      destruct (decide (i = j)) as [->|Hne].
      * rewrite list_lookup_insert_eq by done. tauto.
      * rewrite list_lookup_insert_ne by done. split; [|tauto]. intros [?| ->]; done.
    + apply NoDup_app. split; [done|]. split; [|apply NoDup_singleton].
      intros x Hx%Hq ->%list_elem_of_singleton. congruence.
Qed.

Lemma inv_up opened a g i :
  inv opened a g → g !! i = Some Up →
  inv opened (up i (a, g)).1 (up i (a, g)).2.
Proof.
  intros [Hf Ht Hw Hq Hn] Hi. unfold up, spec_up.
  assert (Hlt : (i < length g)%nat) by (by eapply lookup_lt_Some).
  pose proof (ups_insert g i Up Done Hi) as Hu. rewrite decide_True, decide_False in Hu by done.
  destruct (queue a) as [|j w] eqn:Eq; cbn [fst snd].
  - split; cbn [free queue]; try done; [lia|lia|].
    intros x. rewrite Hq. destruct (decide (i = x)) as [->|Hne].
    + rewrite list_lookup_insert_eq by done. split; congruence.
    + by rewrite list_lookup_insert_ne.
  - assert (Hj : g !! j = Some Wait) by (apply Hq; by left).
    assert (Hij : i ≠ j) by congruence.
    assert (Hj' : <[i := Done]> g !! j = Some Wait) by (by rewrite list_lookup_insert_ne).
    pose proof (ups_insert _ j Wait Up Hj') as Hu2. rewrite decide_False, decide_True in Hu2 by done.
    apply NoDup_cons in Hn as [Hjw Hn].
    split; cbn [free queue]; try done; [lia|intros _; by apply Hw|].
    intros x. destruct (decide (x = j)) as [->|Hxj].
    + rewrite list_lookup_insert_eq; [split; [done|congruence]|].
      rewrite length_insert. by eapply lookup_lt_Some.
    + rewrite list_lookup_insert_ne by done. destruct (decide (i = x)) as [->|Hne].
      * rewrite list_lookup_insert_eq by done. split; [|congruence]. intros Hx.
        assert (x ∈ j :: w) as Hx' by (by right). apply Hq in Hx'. congruence.
      * rewrite list_lookup_insert_ne, <- Hq, elem_of_cons by done. tauto.
Qed.

(** Nobody is left behind: while threads wait at an open gate, some thread is
    about to let the next one through. *)
Lemma inv_progress a g i : inv true a g → g !! i = Some Wait → ∃ j : nat, g !! j = Some Up.
Proof.
  intros [Hf Ht Hw Hq Hn] Hi. apply ups_pos. apply Hq in Hi.
  assert (free a = 0) by (apply Hw; intros E; rewrite E in Hi; set_solver). lia.
Qed.

(** How many steps a thread can still take. *)
Definition weight (p : place) : nat :=
  match p with Out => 5 | Down => 3 | Wait => 2 | Up => 1 | Done => 0 end.

Definition total (g : list place) : nat := sum_list_with weight g.
Arguments total : simpl never.

Lemma total_insert g i x y :
  g !! i = Some x → (total (<[i := y]> g) + weight x = total g + weight y)%nat.
Proof. apply sum_insert. Qed.

Lemma down_total a g i :
  g !! i = Some Down → (total (down i (a, g)).2 < total g)%nat.
Proof.
  intros Hi. unfold down. destruct (spec_down i a) as [[] a']; cbn [snd].
  - pose proof (total_insert g i Down Up Hi) as E. cbn in E. lia.
  - pose proof (total_insert g i Down Wait Hi) as E. cbn in E. lia.
Qed.

Lemma up_total opened a g i :
  inv opened a g → g !! i = Some Up → (total (up i (a, g)).2 < total g)%nat.
Proof.
  intros Hinv Hi. unfold up, spec_up. pose proof (total_insert g i Up Done Hi) as E. cbn in E.
  destruct (queue a) as [|j w] eqn:Eq; cbn [snd]; [lia|].
  assert (Hj : g !! j = Some Wait) by (apply (gi_queue _ _ _ Hinv); rewrite Eq; by left).
  assert (i ≠ j) by congruence.
  pose proof (total_insert (<[i := Done]> g) j Wait Up) as E2. cbn in E2.
  rewrite list_lookup_insert_ne in E2 by done. specialize (E2 Hj). lia.
Qed.

End Gate.

(** ** template <typename T> class Future *)

Module Future.

(** The program counters of [get()] and of [set(v)]; [GDone x] has returned
    [x]. *)
Inductive pc :=
| GTest | GDown | GWait | GUp | GRet | GDone (x : Z)
| SAssert (v : Z) | SVal (v : Z) | SReady | SUp | SDone.

Record future := MkFuture { go : permits; isReady : bool; t : Z; pcs : list pc }.

Definition set_pc (i : nat) (p : pc) (s : future) : future :=
  MkFuture (go s) (isReady s) (t s) (<[i := p]> (pcs s)).

(** [go.down()]: the thread goes on at [GUp] now or when it is woken. *)
Definition go_down (i : nat) (s : future) : future :=
  let '(got, a) := spec_down i (go s) in
  MkFuture a (isReady s) (t s) (<[i := if got : bool then GUp else GWait]> (pcs s)).

(** [go.up()]: the thread goes on at [p], a waiting thread at [GUp]. *)
Definition go_up (i : nat) (p : pc) (s : future) : future :=
  match spec_up (go s) with
  | (Some j, a) => MkFuture a (isReady s) (t s) (<[j := GUp]> (<[i := p]> (pcs s)))
  | (None, a) => MkFuture a (isReady s) (t s) (<[i := p]> (pcs s))
  end.

(** The next statement of thread [i]; [None] when it waits or has finished. *)
Definition step (i : nat) (s : future) : outcome (option future) :=
  match pcs s !! i with
  | Some GTest => Ret (Some (set_pc i (if negb (isReady s) then GDown else GRet) s))
  | Some GDown => Ret (Some (go_down i s))
  | Some GUp => Ret (Some (go_up i GRet s))
  | Some GRet => Ret (Some (set_pc i (GDone (t s)) s))
  | Some (SAssert v) =>
      _ ← ASSERT (negb (isReady s)) "!isReady";
      Ret (Some (set_pc i (SVal v) s))
  | Some (SVal v) => Ret (Some (MkFuture (go s) (isReady s) v (<[i := SReady]> (pcs s))))
  | Some SReady => Ret (Some (MkFuture (go s) true (t s) (<[i := SUp]> (pcs s))))
  | Some SUp => Ret (Some (go_up i SDone s))
  | _ => Ret None
  end.

(** [Future()] with [n] threads calling [get] before and [m] after the one that
    calls [set(v)]. *)
Definition init (n m : nat) (v : Z) : future :=
  MkFuture (Permits 0 []) false 0 (replicate n GTest ++ SAssert v :: replicate m GTest).

Definition place_of (p : pc) : Gate.place :=
  match p with
  | GTest | SAssert _ | SVal _ | SReady => Gate.Out
  | GDown => Gate.Down
  | GWait => Gate.Wait
  | GUp | SUp => Gate.Up
  | GRet | GDone _ | SDone => Gate.Done
  end.

Definition places (s : future) : list Gate.place := place_of <$> pcs s.

(** What each program counter tells about the data. *)
Definition pc_ok (v : Z) (ready : bool) (t : Z) (p : pc) : Prop :=
  match p with
  | GTest | GDown | GWait => True
  | GUp | GRet | SUp | SDone => ready = true
  | GDone x => ready = true ∧ x = v
  | SAssert w | SVal w => ready = false ∧ w = v
  | SReady => ready = false ∧ t = v
  end.

Definition is_setter (p : pc) : bool :=
  match p with SAssert _ | SVal _ | SReady | SUp | SDone => true | _ => false end.

Record inv (c : nat) (v : Z) (s : future) : Prop := Inv {
  iv_gate : Gate.inv (isReady s) (go s) (places s);
  iv_val : isReady s = true → t s = v;
  iv_pcs : Forall (pc_ok v (isReady s) (t s)) (pcs s);
  iv_setter i p : pcs s !! i = Some p → is_setter p = true ↔ i = c;
  iv_has : (c < length (pcs s))%nat;
}.

Lemma place_lookup s i p : pcs s !! i = Some p → places s !! i = Some (place_of p).
Proof. intros Hi. unfold places. by rewrite list_lookup_fmap, Hi. Qed.

Lemma setter_insert (c i : nat) (l : list pc) p0 p :
  (∀ j q, l !! j = Some q → is_setter q = true ↔ j = c) → l !! i = Some p0 →
  is_setter p = is_setter p0 →
  ∀ j q, <[i := p]> l !! j = Some q → is_setter q = true ↔ j = c.
Proof.
  intros H Hi Hp j q [(-> & <- & _)|[_ Hj]]%list_lookup_insert_Some; [|by apply H].
  rewrite Hp. by apply H.
Qed.

(** Waking a waiting getter. *)
Lemma waiting_pc s j : places s !! j = Some Gate.Wait → pcs s !! j = Some GWait.
Proof.
  unfold places. rewrite list_lookup_fmap. destruct (pcs s !! j) as [[]|]; cbn; congruence.
Qed.

Lemma set_pc_inv c v s i p0 p :
  inv c v s → pcs s !! i = Some p0 → is_setter p = is_setter p0 →
  pc_ok v (isReady s) (t s) p → Gate.inv (isReady s) (go s) (<[i := place_of p]> (places s)) →
  inv c v (set_pc i p s).
Proof.
  intros [Hg Hv Hp Hs Hc] Hi Hsp Hok Hg'. split; cbn; try done.
  - unfold places, set_pc. cbn. by rewrite list_fmap_insert.
  - by apply Forall_insert.
  - by eapply setter_insert.
  - by rewrite length_insert.
Qed.

Lemma go_up_inv c v s i p0 p :
  inv c v s → pcs s !! i = Some p0 → place_of p0 = Gate.Up → place_of p = Gate.Done →
  is_setter p = is_setter p0 → pc_ok v (isReady s) (t s) p →
  inv c v (go_up i p s) ∧ places (go_up i p s) = (Gate.up i (go s, places s)).2.
Proof.
  intros Hinv Hi Hp0 Hp Hsp Hok. pose proof Hinv as [Hg Hv Hpc Hs Hc].
  pose proof (place_lookup _ _ _ Hi) as Hpl. rewrite Hp0 in Hpl.
  pose proof (Gate.inv_up _ _ _ _ Hg Hpl) as Hg'.
  assert (Hready : isReady s = true).
  { rewrite Forall_forall in Hpc. specialize (Hpc p0 (list_elem_of_lookup_2 _ _ _ Hi)).
    destruct p0; try done; apply Hpc. }
  unfold go_up, Gate.up in *. unfold spec_up in *.
  destruct (queue (go s)) as [|j w] eqn:Eq; cbn [fst snd] in *.
  - split; [|unfold places; cbn; by rewrite list_fmap_insert, Hp].
    split; cbn; try done.
    + unfold places in *. cbn. by rewrite list_fmap_insert, Hp.
    + by apply Forall_insert.
    + by eapply setter_insert.
    + by rewrite length_insert.
  - assert (Hj : pcs s !! j = Some GWait).
    { apply waiting_pc, (Gate.gi_queue _ _ _ Hg). rewrite Eq. by left. }
    assert (i ≠ j) by (intros ->; rewrite Hj in Hi; injection Hi as <-; done).
    split; [|unfold places; cbn; by rewrite !list_fmap_insert, Hp].
    split; cbn; try done.
    + unfold places in *. cbn. by rewrite !list_fmap_insert, Hp.
    + by apply Forall_insert; [apply Forall_insert|].
    + eapply setter_insert; [by eapply setter_insert| |].
      * by rewrite list_lookup_insert_ne.
      * done.
    + by rewrite !length_insert.
Qed.

(** The steps that are left. *)
Definition extra (p : pc) : nat :=
  match p with GRet => 1 | SAssert _ => 2 | SVal _ => 1 | _ => 0 end.

Definition measure (s : future) : nat :=
  (2 * Gate.total (places s) + sum_list_with extra (pcs s))%nat.

Lemma set_pc_measure s i p0 p :
  pcs s !! i = Some p0 →
  (2 * Gate.weight (place_of p) + extra p < 2 * Gate.weight (place_of p0) + extra p0)%nat →
  ∀ s', pcs s' = <[i := p]> (pcs s) → (measure s' < measure s)%nat.
Proof.
  intros Hi Hlt s' Hs'. unfold measure, places. rewrite Hs', list_fmap_insert.
  pose proof (sum_insert extra _ i _ p Hi) as H1.
  pose proof (Gate.total_insert _ i _ (place_of p) (place_lookup _ _ _ Hi)) as H2.
  unfold places in H2. lia.
Qed.

Lemma go_up_measure c v s i p0 p :
  inv c v s → pcs s !! i = Some p0 → place_of p0 = Gate.Up → place_of p = Gate.Done →
  is_setter p = is_setter p0 → pc_ok v (isReady s) (t s) p → (extra p <= 1)%nat → extra p0 = 0%nat →
  inv c v (go_up i p s) ∧ (measure (go_up i p s) < measure s)%nat.
Proof.
  intros Hinv Hi Hp0 Hp Hsp Hok He He0.
  destruct (go_up_inv c v s i p0 p) as [Hinv' Hpl]; [done..|]. split; [done|].
  unfold measure. rewrite Hpl. pose proof (place_lookup _ _ _ Hi) as Hpi. rewrite Hp0 in Hpi.
  pose proof (Gate.up_total _ (go s) (places s) i (iv_gate _ _ _ Hinv) Hpi) as Ht.
  assert (sum_list_with extra (pcs (go_up i p s)) <= sum_list_with extra (pcs s) + 1)%nat; [|lia].
  pose proof (sum_insert extra _ i _ p Hi) as H1.
  unfold go_up, spec_up. destruct (queue (go s)) as [|j w] eqn:Eq; cbn [pcs]; [lia|].
  assert (Hj : pcs s !! j = Some GWait).
  { apply waiting_pc, (Gate.gi_queue _ _ _ (iv_gate _ _ _ Hinv)). rewrite Eq. by left. }
  assert (i ≠ j) by (intros ->; rewrite Hj in Hi; injection Hi as <-; done).
  pose proof (sum_insert extra (<[i := p]> (pcs s)) j GWait GUp) as H2.
  rewrite list_lookup_insert_ne in H2 by done. specialize (H2 Hj). cbn [extra] in H2. lia.
Qed.

Lemma go_down_ok c v s i :
  inv c v s → pcs s !! i = Some GDown →
  inv c v (go_down i s) ∧ (measure (go_down i s) < measure s)%nat.
Proof.
  intros Hinv Hi. pose proof Hinv as [Hg Hv Hpc Hs Hc].
  pose proof (place_lookup _ _ _ Hi) as Hpl. cbn in Hpl.
  pose proof (Gate.inv_down _ _ _ _ Hg Hpl) as Hg'.
  unfold go_down, Gate.down in *. unfold spec_down in *.
  destruct (Z.ltb_spec 0 (free (go s))) as [Hp|Hz]; cbn [fst snd] in *.
  - split; [|by eapply set_pc_measure; [exact Hi| |done]; cbn; lia].
    assert (Hready : isReady s = true).
    { pose proof (Gate.gi_total _ _ _ Hg). pose proof (Gate.ups_nonneg (places s)).
      destruct (isReady s); [done|lia]. }
    split; cbn; try done.
    + unfold places. cbn. by rewrite list_fmap_insert.
    + by apply Forall_insert.
    + by eapply setter_insert.
    + by rewrite length_insert.
  - split; [|by eapply set_pc_measure; [exact Hi| |done]; cbn; lia].
    split; cbn; try done.
    + unfold places. cbn. by rewrite list_fmap_insert.
    + by apply Forall_insert.
    + by eapply setter_insert.
    + by rewrite length_insert.
Qed.

(** The setter's two writes. *)
Lemma set_val_ok c v s i w :
  inv c v s → pcs s !! i = Some (SVal w) →
  inv c v (MkFuture (go s) (isReady s) w (<[i := SReady]> (pcs s))).
Proof.
  intros [Hg Hv Hpc Hs Hc] Hi. pose proof (place_lookup _ _ _ Hi) as Hpl. cbn in Hpl.
  pose proof Hpc as Hpc'. rewrite Forall_forall in Hpc'.
  destruct (Hpc' _ (list_elem_of_lookup_2 _ _ _ Hi)) as [Hr ->]. split; cbn; try done.
  - unfold places. cbn. rewrite list_fmap_insert. cbn.
    eapply Gate.inv_move; [exact Hg|exact Hpl|done..].
  - apply Forall_insert; [|done]. apply Forall_forall. intros q Hq. specialize (Hpc' q Hq).
    destruct q; cbn in *; try done; naive_solver.
  - by eapply setter_insert.
  - by rewrite length_insert.
Qed.

Lemma set_ready_ok c v s i :
  inv c v s → pcs s !! i = Some SReady →
  inv c v (MkFuture (go s) true (t s) (<[i := SUp]> (pcs s))).
Proof.
  intros [Hg Hv Hpc Hs Hc] Hi. pose proof (place_lookup _ _ _ Hi) as Hpl. cbn in Hpl.
  pose proof Hpc as Hpc'. rewrite Forall_forall in Hpc'.
  destruct (Hpc' _ (list_elem_of_lookup_2 _ _ _ Hi)) as [Hr Ht]. rewrite Hr in Hg.
  assert (Hic : i = c) by (by apply (Hs i SReady Hi)). split; cbn; try done.
  - unfold places. cbn. rewrite list_fmap_insert. by apply Gate.inv_open.
  - apply Forall_lookup_2. intros j q [(-> & <- & _)|[Hne Hj]]%list_lookup_insert_Some; [done|].
    specialize (Hpc' q (list_elem_of_lookup_2 _ _ _ Hj)). rewrite Hr in Hpc'.
    destruct q; cbn in *; try done; try (by destruct Hpc').
    + assert (j = c) by (by apply (Hs j _ Hj)). congruence.
    + assert (j = c) by (by apply (Hs j _ Hj)). congruence.
    + assert (j = c) by (by apply (Hs j _ Hj)). congruence.
  - by eapply setter_insert.
  - by rewrite length_insert.
Qed.

(** Every step succeeds, keeps the invariant and gets closer to the end. *)
Lemma future_step_ok c v s i :
  inv c v s →
  ∃ r, step i s = Ret r ∧
    match r with Some s' => inv c v s' ∧ (measure s' < measure s)%nat | None => True end.
Proof.
  intros Hinv. pose proof Hinv as [Hg Hv Hpc Hs Hc]. unfold step.
  destruct (pcs s !! i) as [p|] eqn:Hi; [|by exists None].
  pose proof (place_lookup _ _ _ Hi) as Hpl.
  pose proof Hpc as Hok. rewrite Forall_forall in Hok.
  specialize (Hok p (list_elem_of_lookup_2 _ _ _ Hi)).
  destruct p as [| | | | |x|w|w| | |]; cbn in Hpl, Hok; try (by exists None).
  - eexists. split; [done|]. destruct (isReady s) eqn:Hr; cbn [negb].
    + split; [|by eapply set_pc_measure; [exact Hi| |done]; cbn; lia].
      eapply set_pc_inv; [exact Hinv|exact Hi|done|by rewrite Hr|]. rewrite Hr.
      by eapply Gate.inv_move.
    + split; [|by eapply set_pc_measure; [exact Hi| |done]; cbn; lia].
      eapply set_pc_inv; [exact Hinv|exact Hi|done|done|]. rewrite Hr.
      by eapply Gate.inv_move.
  - eexists. split; [done|]. by apply go_down_ok.
  - eexists. split; [done|]. by eapply go_up_measure.
  - eexists. split; [done|].
    split; [|by eapply set_pc_measure; [exact Hi| |done]; cbn; lia].
    eapply set_pc_inv; [exact Hinv|exact Hi|done|by split; auto|]. by eapply Gate.inv_move.
  - destruct Hok as [Hr ->]. rewrite Hr. cbn [negb ASSERT mbind outcome_bind].
    eexists. split; [done|].
    split; [|by eapply set_pc_measure; [exact Hi| |done]; cbn; lia].
    eapply set_pc_inv; [exact Hinv|exact Hi|done|done|]. by eapply Gate.inv_move.
  - eexists. split; [done|]. split; [by eapply set_val_ok|].
    by eapply set_pc_measure; [exact Hi| |done]; cbn; lia.
  - eexists. split; [done|]. split; [by eapply set_ready_ok|].
    by eapply set_pc_measure; [exact Hi| |done]; cbn; lia.
  - eexists. split; [done|]. eapply go_up_measure; [done|exact Hi|done..|cbn; lia|done].
Qed.

Lemma future_init_inv n m v : inv n v (init n m v).
Proof.
  split; cbn; try done.
  - split; cbn; [lia| |done| |constructor].
    + unfold Gate.ups, places. cbn. rewrite fmap_app, fmap_cons, !fmap_replicate.
      rewrite filter_app, filter_cons. cbn.
      assert (∀ j, filter (λ p, p = Gate.Up) (replicate j Gate.Out) = []) as E.
      { intros j. induction j as [|j IH]; [done|]. exact IH. }
      by rewrite !E.
    + intros i. split; [set_solver|]. intros Hw. exfalso. apply (waiting_pc (init n m v)) in Hw. cbn in Hw.
      apply list_elem_of_lookup_2 in Hw. rewrite elem_of_app, elem_of_cons, !elem_of_replicate in Hw.
      intuition congruence.
  - apply Forall_app. split; [by apply Forall_replicate|]. constructor; [done|].
    by apply Forall_replicate.
  - intros i p Hi. apply lookup_app_Some in Hi as [[-> Hl]%lookup_replicate|[Hl Hi]].
    + cbn. split; [done|]. lia.
    + rewrite length_replicate in *. destruct (i - n)%nat as [|j] eqn:E; cbn in Hi.
      * injection Hi as <-. cbn. split; [lia|done].
      * apply lookup_replicate in Hi as [-> _]. cbn. split; [done|]. lia.
  - rewrite length_app, length_replicate. cbn. lia.
Qed.

Definition steps : future → future → Prop := star (λ s s', ∃ i, step i s = Ret (Some s')).

(** C13 (liveness): a future that is set once delivers its value to everybody.
    For any number of threads calling [get] while one thread calls [set(v)], in
    every interleaving: no assertion fails; whatever [get] returns is [v]; every
    step reduces the number of steps that are left, so every execution ends;
    and it can only end with every [get] having returned [v]. *)
Theorem future_delivers (n m : nat) (v : Z) (s : future) (Hs : steps (init n m v) s) :
  (∀ i, ∃ r, step i s = Ret r ∧ ∀ s', r = Some s' → (measure s' < measure s)%nat) ∧
  (∀ i x, pcs s !! i = Some (GDone x) → x = v) ∧
  ((∀ i, step i s = Ret None) →
     ∀ i p, pcs s !! i = Some p → p = GDone v ∨ p = SDone).
Proof.
  assert (Hinv : inv n v s).
  { eapply star_invariant; [apply future_init_inv| |exact Hs]. intros x y Hx [i E].
    destruct (future_step_ok n v x i Hx) as (r & E' & Hr). rewrite E in E'. injection E' as <-. apply Hr. }
  pose proof Hinv as [Hg Hv Hpc Hst Hc]. rewrite Forall_forall in Hpc.
  split; [|split].
  - intros i. destruct (future_step_ok n v s i Hinv) as (r & E & Hr). exists r. split; [done|].
    intros s' ->. apply Hr.
  - intros i x Hi%list_elem_of_lookup_2. by apply Hpc in Hi as [_ ?].
  - intros Hend i p Hi. pose proof (Hend i) as Hn. unfold step in Hn. rewrite Hi in Hn.
    destruct p; try done.
    + exfalso. destruct (lookup_lt_is_Some_2 _ _ Hc) as [q Hq].
      assert (is_setter q = true) as Hsq by (by apply (Hst _ _ Hq)).
      pose proof (Hend n) as Hq'. unfold step in Hq'. rewrite Hq in Hq'.
      destruct q; try done; [by destruct (isReady s)|].
      assert (isReady s = true) as Hr by (apply (Hpc SDone); by eapply list_elem_of_lookup_2).
      rewrite Hr in Hg. apply place_lookup in Hi. cbn in Hi.
      destruct (Gate.inv_progress _ _ _ Hg Hi) as [j Hj].
      unfold places in Hj. rewrite list_lookup_fmap in Hj.
      pose proof (Hend j) as Hnj. unfold step in Hnj.
      by destruct (pcs s !! j) as [[]|].
    + left. apply list_elem_of_lookup_2 in Hi. by apply Hpc in Hi as [_ ->].
    + by destruct (isReady s).
    + by right.
Qed.

(** A second [set] trips the assertion. *)
Lemma set_twice i w s :
  pcs s !! i = Some (SAssert w) → isReady s = true → step i s = Panic "!isReady".
Proof. intros Hi Hr. unfold step. by rewrite Hi, Hr. Qed.

Lemma future_delivers_witness :
  ∃ s, steps (init 1 0 7) s ∧ ∀ i x, pcs s !! i = Some (GDone x) → x = 7.
Proof.
  exists (set_pc 0 GDown (init 1 0 7)).
  assert (Hs : steps (init 1 0 7) (set_pc 0 GDown (init 1 0 7))).
  { eapply star_step; [apply star_refl|]. exists 0%nat. reflexivity. }
  split; [exact Hs|]. apply (future_delivers 1 0 7 _ Hs).
Defined.

End Future.

(** ** class Barrier *)

Module Barrier.
Import Gate.

(** Every thread runs [sync()]: [Out] before the decrement, then [Down] or, for
    the last one, [Up]. *)
Record barrier := MkBarrier { count : Z; sem : permits; pcs : list place }.

Definition step (i : nat) (s : barrier) : outcome (option barrier) :=
  match pcs s !! i with
  | Some Out =>
      let x := i32 (count s - 1) in
      if x <? 0 then Panic "count went negative in barrier"
      else if x =? 0 then Ret (Some (MkBarrier x (sem s) (<[i := Up]> (pcs s))))
      else Ret (Some (MkBarrier x (sem s) (<[i := Down]> (pcs s))))
  | Some Down => let '(a, g) := down i (sem s, pcs s) in Ret (Some (MkBarrier (count s) a g))
  | Some Up => let '(a, g) := up i (sem s, pcs s) in Ret (Some (MkBarrier (count s) a g))
  | _ => Ret None
  end.

(** [Barrier(n)] and [n] threads that will call [sync]. *)
Definition init (n : nat) : barrier := MkBarrier (Z.of_nat n) (Permits 0 []) (replicate n Out).

(** The threads that still have to arrive. *)
Definition outs (g : list place) : nat :=
  sum_list_with (λ p, match p with Out => 1 | _ => 0 end)%nat g.

Arguments outs : simpl never.

Definition passed (p : place) : Prop := match p with Up | Done => True | _ => False end.

Record inv (s : barrier) : Prop := Inv {
  bi_gate : Gate.inv (count s =? 0) (sem s) (pcs s);
  bi_count : count s = Z.of_nat (outs (pcs s));
  bi_max : count s < 2147483648;
  bi_passed : Exists passed (pcs s) → count s = 0;
}.

Lemma outs_insert g i x y :
  g !! i = Some x →
  (outs (<[i := y]> g) + (match x with Out => 1 | _ => 0 end) =
   outs g + (match y with Out => 1 | _ => 0 end))%nat.
Proof. apply (sum_insert (λ p, match p with Out => 1 | _ => 0 end)%nat). Qed.

Lemma outs_pos g i : g !! i = Some Out → (0 < outs g)%nat.
Proof. intros Hi. pose proof (outs_insert g i Out Down Hi) as E. cbn in E. lia. Qed.

Lemma passed_insert i y g : Exists passed (<[i := y]> g) → passed y ∨ Exists passed g.
Proof.
  rewrite !Exists_exists. intros (x & [j Hj]%list_elem_of_lookup & Hp).
  apply list_lookup_insert_Some in Hj as [(_ & -> & _)|[_ Hj]]; [by left|right].
  exists x. split; [by eapply list_elem_of_lookup_2|done].
Qed.

Lemma outs_down a g i : g !! i = Some Down → outs (down i (a, g)).2 = outs g.
Proof.
  intros Hi. unfold down. destruct (spec_down i a) as [[] a']; cbn.
  - pose proof (outs_insert g i Down Up Hi) as E. cbn in E. lia.
  - pose proof (outs_insert g i Down Wait Hi) as E. cbn in E. lia.
Qed.

Lemma outs_up opened a g i :
  Gate.inv opened a g → g !! i = Some Up → outs (up i (a, g)).2 = outs g.
Proof.
  intros Hg Hi. unfold up, spec_up. pose proof (outs_insert g i Up Done Hi) as E. cbn in E.
  destruct (queue a) as [|j w] eqn:Eq; cbn; [lia|].
  assert (Hj : g !! j = Some Wait) by (apply (gi_queue _ _ _ Hg); rewrite Eq; by left).
  assert (i ≠ j) by congruence.
  pose proof (outs_insert (<[i := Done]> g) j Wait Up) as E2.
  rewrite list_lookup_insert_ne in E2 by done. specialize (E2 Hj). cbn in E2. lia.
Qed.

Lemma barrier_step_ok s i :
  inv s →
  ∃ r, step i s = Ret r ∧
    match r with Some s' => inv s' ∧ (total (pcs s') < total (pcs s))%nat | None => True end.
Proof.
  intros [Hg Hc Hm Hp]. unfold step. destruct (pcs s !! i) as [p|] eqn:Hi; [|by exists None].
  destruct p; try (by exists None).
  - pose proof (outs_pos _ _ Hi) as Hpos. unfold i32.
    rewrite u32_small by (unfold is_u32; lia). rewrite (proj2 (Z.ltb_lt (count s - 1) 2147483648)) by lia.
    rewrite (proj2 (Z.ltb_ge (count s - 1) 0)) by lia.
    rewrite (proj2 (Z.eqb_neq (count s) 0)) in Hg by lia.
    destruct (Z.eqb_spec (count s - 1) 0) as [E|E]; eexists; (split; [done|]).
    + split; [split; cbn|].
      * rewrite E. by apply inv_open.
      * pose proof (outs_insert (pcs s) i Out Up Hi) as Eo. cbn in Eo. lia.
      * lia.
      * done.
      * pose proof (total_insert (pcs s) i Out Up Hi) as Et. cbn in Et |- *. lia.
    + split; [split; cbn|].
      * rewrite (proj2 (Z.eqb_neq _ 0)) by done. by eapply inv_move.
      * pose proof (outs_insert (pcs s) i Out Down Hi) as Eo. cbn in Eo. lia.
      * lia.
      * intros [?|Hex]%passed_insert; [done|]. specialize (Hp Hex). lia.
      * pose proof (total_insert (pcs s) i Out Down Hi) as Et. cbn in Et |- *. lia.
  - pose proof (inv_down _ _ _ _ Hg Hi) as Hg'. pose proof (outs_down (sem s) _ _ Hi) as Ho.
    pose proof (down_total (sem s) _ _ Hi) as Ht. unfold down in *. unfold spec_down in *.
    destruct (Z.ltb_spec 0 (free (sem s))) as [Hf|Hf]; cbn [fst snd] in *;
      (eexists; split; [done|]; split; [|done]; split; cbn; [done|lia|lia|]).
    + intros _. pose proof (gi_total _ _ _ Hg) as Htot. pose proof (ups_nonneg (pcs s)).
      destruct (Z.eqb_spec (count s) 0); [done|lia].
    + intros [?|Hex]%passed_insert; [done|]. auto.
  - pose proof (inv_up _ _ _ _ Hg Hi) as Hg'. pose proof (outs_up _ _ _ _ Hg Hi) as Ho.
    pose proof (up_total _ _ _ _ Hg Hi) as Ht.
    destruct (up i (sem s, pcs s)) as [a g]. cbn [fst snd] in *.
    eexists. split; [done|]. split; [|done]. split; cbn; [done|lia|lia|].
    intros _. apply Hp. apply Exists_exists. exists Up.
    split; [by eapply list_elem_of_lookup_2|done].
Qed.

Lemma barrier_init_inv n : (0 < n)%nat → Z.of_nat n < 2147483648 → inv (init n).
Proof.
  intros Hn Hm. assert (∀ j, outs (replicate j Out) = j) as Ho.
  { intros j. induction j as [|j IH]; [done|]. unfold outs in *. cbn. by rewrite IH. }
  split; cbn.
  - rewrite (proj2 (Z.eqb_neq _ 0)) by lia. split; cbn; [lia| |done| |constructor].
    + unfold ups. assert (∀ j, filter (λ p, p = Up) (replicate j Out) = []) as ->; [|done].
      intros j. induction j as [|j IH]; [done|exact IH].
    + intros i. split; [set_solver|]. by intros [[=] _]%lookup_replicate.
  - by rewrite Ho.
  - done.
  - intros (x & [-> _]%elem_of_replicate & Hx)%Exists_exists. done.
Qed.

Definition steps : barrier → barrier → Prop := star (λ s s', ∃ i, step i s = Ret (Some s')).

(** C14 (liveness): [n] threads that call [sync] on [Barrier(n)] all get through,
    and none gets through before all have arrived.  In every interleaving the
    counter does not go negative, a thread has returned only if no thread is
    still to arrive, every step reduces the steps that are left, and an
    execution can only end with every thread through. *)
Theorem barrier_releases (n : nat) (s : barrier) (Hn : (0 < n)%nat) (Hm : Z.of_nat n < 2147483648)
    (Hs : steps (init n) s) :
  (∀ i, ∃ r, step i s = Ret r ∧ ∀ s', r = Some s' → (total (pcs s') < total (pcs s))%nat) ∧
  (Done ∈ pcs s → Out ∉ pcs s) ∧
  ((∀ i, step i s = Ret None) → ∀ i p, pcs s !! i = Some p → p = Done).
Proof.
  assert (Hinv : inv s).
  { eapply star_invariant; [by apply barrier_init_inv| |exact Hs]. intros x y Hx [i E].
    destruct (barrier_step_ok x i Hx) as (r & E' & Hr). rewrite E in E'. injection E' as <-. apply Hr. }
  split; [|split].
  - intros i. destruct (barrier_step_ok s i Hinv) as (r & E & Hr). exists r. split; [done|].
    intros s' ->. apply Hr.
  - intros Hd [i Hi]%list_elem_of_lookup. pose proof (outs_pos _ _ Hi).
    assert (count s = 0) by (apply (bi_passed _ Hinv), Exists_exists; by exists Done).
    pose proof (bi_count _ Hinv). lia.
  - intros Hend i p Hi. pose proof (Hend i) as Hn'. unfold step in Hn'. rewrite Hi in Hn'.
    destruct p; try done.
    + by repeat case_match.
    + by destruct (down i (sem s, pcs s)).
    + exfalso. assert (count s = 0) as Hc.
      { rewrite (bi_count _ Hinv). destruct (outs (pcs s)) as [|k] eqn:Ek; [done|].
        exfalso. assert (∃ j : nat, pcs s !! j = Some Out) as [j Hj].
        { clear -Ek. induction (pcs s) as [|x l IH]; [done|]. unfold outs in *. cbn in Ek.
          destruct x; [by exists 0%nat|..]; destruct IH as [j Hj]; try done; by exists (S j). }
        pose proof (Hend j) as Hj'. unfold step in Hj'. rewrite Hj in Hj'. by repeat case_match. }
      pose proof (bi_gate _ Hinv) as Hg. rewrite Hc in Hg.
      destruct (inv_progress _ _ _ Hg Hi) as [j Hj].
      pose proof (Hend j) as Hj'. unfold step in Hj'. rewrite Hj in Hj'.
      by destruct (up j (sem s, pcs s)).
    + by destruct (up i (sem s, pcs s)).
Qed.

Lemma barrier_releases_witness :
  let s := MkBarrier 0 (Permits 0 []) [Up; Done] in
  steps (init 2) s ∧ (Done ∈ pcs s → Out ∉ pcs s).
Proof.
  intros s. assert (Hs : steps (init 2) s).
  { eapply star_step; [eapply star_step; [eapply star_step; [eapply star_step;
      [apply star_refl|]|]|]|].
    - exists 0%nat. reflexivity.
    - exists 0%nat. reflexivity.
    - exists 1%nat. reflexivity.
    - exists 1%nat. reflexivity. }
  split; [exact Hs|]. apply (barrier_releases 2 s); [lia|lia|exact Hs].
Defined.

End Barrier.
