(* ===== verification/Locks.v ===== *)
(** * Atomic variables, interrupts and spinning locks: src/kernel/atomic.h

    The processors execute the statements of [lock] and [unlock] one shared
    access at a time, in any interleaving, each with its own interrupt flag.
    A processor is outside, inside the critical section, or at a statement of
    the two methods; outside it may enable and disable interrupts at will. *)

From S2P Require Import Prelude.
Local Open Scope Z_scope.

(** ** class Atomic<T> *)

Module Atomic.
Section Ops.
Context (wrap : Z → Z).
(** Each operation gives the result and the new value. *)
Definition fetch_add (inc value : Z) : Z * Z := (value, wrap (value + inc)).
Definition add_fetch (inc value : Z) : Z * Z := (wrap (value + inc), wrap (value + inc)).
End Ops.
Definition exchange {T} (v value : T) : T * T := (value, v).
Definition set {T} (inc value : T) : T := inc.
Definition get {T} (value : T) : T := value.
End Atomic.

(** ** class Interrupts *)

(** The flag says whether interrupts are disabled; [disable] returns the state
    it found. *)
Definition disable (disabled : bool) : bool * bool := (disabled, true).
Definition restore (wasDisabled disabled : bool) : bool := if negb wasDisabled then false else disabled.

(** ** Counting the owners of a lock *)

Section Owners.
Context {pc : Type} (owns : pc → bool).

Definition owners (pcs : list pc) : nat :=
  sum_list_with (λ p, if owns p then 1 else 0)%nat pcs.

Lemma owners_insert (pcs : list pc) i x y :
  pcs !! i = Some x →
  (owners (<[i := y]> pcs) + (if owns x then 1 else 0) =
   owners pcs + (if owns y then 1 else 0))%nat.
Proof. apply (sum_insert (λ p, if owns p then 1 else 0)%nat). Qed.

Lemma owners_le_1 (pcs : list pc) i j x y :
  (owners pcs <= 1)%nat → pcs !! i = Some x → pcs !! j = Some y →
  owns x = true → owns y = true → i = j.
Proof.
  intros Hle Hi Hj Hx Hy. destruct (decide (i = j)) as [|Hne]; [done|exfalso].
  apply list_elem_of_split_length in Hi as (l1 & l2 & -> & ->). unfold owners in Hle.
  rewrite sum_list_with_app in Hle. cbn in Hle. rewrite Hx in Hle.
  assert (∃ k (l : list pc), l !! k = Some y ∧ (l = l1 ∨ l = l2)) as (k & l & Hk & Hl).
  { apply lookup_app_Some in Hj as [Hj|[Hl Hj]]; [eauto|].
    destruct (j - length l1)%nat as [|k] eqn:E; [lia|]. cbn in Hj. eauto. }
  apply list_elem_of_split_length in Hk as (m1 & m2 & -> & _).
  assert (1 <= sum_list_with (λ p, if owns p then 1 else 0) (m1 ++ y :: m2))%nat.
  { rewrite sum_list_with_app. cbn. rewrite Hy. lia. }
  destruct Hl as [<- | <-]; lia.
Qed.

End Owners.
Arguments owners : simpl never.

(** ** class SpinLock *)

Module SpinLock.

Inductive pc := Outside | Locking | Inside | Unlocking.

Record state := MkState { taken : bool; pcs : list pc }.

(** [while (taken.exchange(true)) ...] one exchange per step; [taken.set(false)]. *)
Definition step (i : nat) (s : state) : option state :=
  match pcs s !! i with
  | Some Outside => Some (MkState (taken s) (<[i := Locking]> (pcs s)))
  | Some Locking =>
      let '(old, new) := Atomic.exchange true (taken s) in
      Some (MkState new (<[i := if old : bool then Locking else Inside]> (pcs s)))
  | Some Inside => Some (MkState (taken s) (<[i := Unlocking]> (pcs s)))
  | Some Unlocking => Some (MkState (Atomic.set false (taken s)) (<[i := Outside]> (pcs s)))
  | None => None
  end.

Definition owns (p : pc) : bool := match p with Inside | Unlocking => true | _ => false end.

Definition inv (s : state) : Prop := owners owns (pcs s) = if taken s then 1%nat else 0%nat.

Lemma spin_step_inv i s s' : inv s → step i s = Some s' → inv s'.
Proof.
  unfold inv, step. intros H. destruct (pcs s !! i) as [p|] eqn:Hi; [|done].
  destruct p; cbn; intros [= <-]; cbn [taken pcs].
  - pose proof (owners_insert owns _ i _ Locking Hi) as E. cbn in E. destruct (taken s); lia.
  - destruct (taken s).
    + pose proof (owners_insert owns _ i _ Locking Hi) as E. cbn in E. lia.
    + pose proof (owners_insert owns _ i _ Inside Hi) as E. cbn in E. lia.
  - pose proof (owners_insert owns _ i _ Unlocking Hi) as E. cbn in E. destruct (taken s); lia.
  - pose proof (owners_insert owns _ i _ Outside Hi) as E. cbn in E |- *. destruct (taken s); lia.
Qed.

Definition init (n : nat) : state := MkState false (replicate n Outside).

Lemma spin_init_inv n : inv (init n).
Proof. unfold inv, owners. cbn. induction n as [|n IH]; [done|exact IH]. Qed.

End SpinLock.

(** ** class InterruptSafeLock *)

Module SafeLock.

(** [w] is the interrupt state the thread found when it entered [lock]; [r] is
    what [unlock] read from the field [was]. *)
Inductive pc :=
| Outside
| Exchange (w : bool)          (* if (!taken.exchange(true)) *)
| Remember (w : bool)          (* was = wasDisabled *)
| Retry (w : bool)             (* Interrupts::restore(wasDisabled) *)
| Inside (w : bool)
| Release (w r : bool)         (* taken.set(false) *)
| Restore (w r : bool).        (* Interrupts::restore(wasDisabled) *)

Record state := MkState { taken : bool; was : bool; flags : list bool; pcs : list pc }.

Definition goto (i : nat) (p : pc) (s : state) : state :=
  MkState (taken s) (was s) (flags s) (<[i := p]> (pcs s)).

Definition set_flag (i : nat) (d : bool) (s : state) : state :=
  MkState (taken s) (was s) (<[i := d]> (flags s)) (pcs s).

(** One statement of processor [i]. *)
Inductive step (i : nat) : state → state → Prop :=
| st_flag s d :
    pcs s !! i = Some Outside → step i s (set_flag i d s)
| st_disable s w d :
    pcs s !! i = Some Outside → flags s !! i = Some d → disable d = (w, true) →
    step i s (goto i (Exchange w) (set_flag i true s))
| st_exchange s w old new :
    pcs s !! i = Some (Exchange w) → Atomic.exchange true (taken s) = (old, new) →
    step i s (MkState new (was s) (flags s)
                (<[i := if old : bool then Retry w else Remember w]> (pcs s)))
| st_retry s w d :
    pcs s !! i = Some (Retry w) → flags s !! i = Some d →
    step i s (goto i Outside (set_flag i (restore w d) s))
| st_remember s w :
    pcs s !! i = Some (Remember w) →
    step i s (MkState (taken s) w (flags s) (<[i := Inside w]> (pcs s)))
| st_read s w :
    pcs s !! i = Some (Inside w) → step i s (goto i (Release w (was s)) s)
| st_release s w r :
    pcs s !! i = Some (Release w r) →
    step i s (MkState (Atomic.set false (taken s)) (was s) (flags s) (<[i := Restore w r]> (pcs s)))
| st_restore s w r d :
    pcs s !! i = Some (Restore w r) → flags s !! i = Some d →
    step i s (goto i Outside (set_flag i (restore r d) s)).

Definition owns (p : pc) : bool :=
  match p with Remember _ | Inside _ | Release _ _ => true | _ => false end.

(** What a program counter says of the field [was] and of the processor's flag. *)
Definition pc_ok (was d : bool) (p : pc) : Prop :=
  match p with
  | Outside => True
  | Exchange _ | Remember _ | Retry _ => d = true
  | Inside w => d = true ∧ was = w
  | Release w r => d = true ∧ r = w
  | Restore w r => d = true ∧ r = w
  end.

Record inv (n : nat) (s : state) : Prop := Inv {
  iv_owners : owners owns (pcs s) = if taken s then 1%nat else 0%nat;
  iv_len : length (pcs s) = n ∧ length (flags s) = n;
  iv_pcs i p d : pcs s !! i = Some p → flags s !! i = Some d → pc_ok (was s) d p;
}.

Lemma owners_goto (l : list pc) i x y (b b' : bool) :
  l !! i = Some x →
  owners owns l = (if b then 1 else 0)%nat →
  ((if owns x then 1 else 0) + (if b' then 1 else 0) =
   (if owns y then 1 else 0) + (if b then 1 else 0))%nat →
  owners owns (<[i := y]> l) = (if b' then 1 else 0)%nat.
Proof. intros Hi Ho Hb. pose proof (owners_insert owns _ i _ y Hi) as E. lia. Qed.

Lemma pcs_goto (was was' : bool) (l : list pc) (fl : list bool) i x y d0 d1 :
  (∀ j p d, l !! j = Some p → fl !! j = Some d → pc_ok was d p) →
  l !! i = Some x → fl !! i = Some d0 → pc_ok was' d1 y →
  (∀ j p d, j ≠ i → l !! j = Some p → pc_ok was d p → pc_ok was' d p) →
  ∀ j p d, <[i := y]> l !! j = Some p → <[i := d1]> fl !! j = Some d → pc_ok was' d p.
Proof.
  intros H Hi Hd Hy Ho j p d Hj Hjd. destruct (decide (j = i)) as [->|Hne].
  - rewrite list_lookup_insert_eq in Hj by (by eapply lookup_lt_Some).
    rewrite list_lookup_insert_eq in Hjd by (by eapply lookup_lt_Some). congruence.
  - rewrite list_lookup_insert_ne in Hj by done. rewrite list_lookup_insert_ne in Hjd by done. eapply Ho; eauto.
Qed.

Lemma safe_step_inv n i s s' : inv n s → step i s s' → inv n s'.
Proof.
  intros [Ho [Hl1 Hl2] Hp] Hs.
  assert (Hfl : ∀ p, pcs s !! i = Some p → ∃ d, flags s !! i = Some d).
  { intros p Hi. apply lookup_lt_is_Some. rewrite Hl2, <- Hl1. by eapply lookup_lt_Some. }
  assert (Hone : (owners owns (pcs s) <= 1)%nat) by (rewrite Ho; destruct (taken s); lia).
  destruct Hs as [s d Hi|s w d Hi Hd E|s w old new Hi E|s w d Hi Hd|s w Hi|s w Hi|s w r Hi|s w r d Hi Hd];
    pose proof (Hfl _ Hi) as [d' Hd']; pose proof (Hp i _ _ Hi Hd') as Hok; cbn in Hok.
  - split; cbn; [done|by rewrite length_insert|]. intros j p dj Hj Hdj.
    destruct (decide (j = i)) as [->|Hne]; [by assert (p = Outside) as -> by congruence|].
    rewrite list_lookup_insert_ne in Hdj by done. by eapply Hp.
  - split; cbn; [by eapply owners_goto|by rewrite !length_insert|].
    by eapply (pcs_goto (was s)).
  - unfold Atomic.exchange in E. injection E as <- <-. split; cbn.
    + apply (owners_goto _ i _ _ (taken s) true Hi Ho). by destruct (taken s).
    + by rewrite length_insert.
    + rewrite <- (list_insert_id (flags s) i d') by done.
      eapply (pcs_goto (was s)); [exact Hp|exact Hi|exact Hd'| |done]. by destruct (taken s).
  - split; cbn; [by eapply owners_goto|by rewrite !length_insert|].
    by eapply (pcs_goto (was s)).
  - split; cbn; [by eapply owners_goto|by rewrite length_insert|].
    rewrite <- (list_insert_id (flags s) i d') by done.
    eapply (pcs_goto (was s)); [exact Hp|exact Hi|exact Hd'|done|].
    intros j p d Hne Hj Hpj. destruct p; try done.
    exfalso. apply Hne. by eapply (owners_le_1 owns).
  - split; cbn; [by eapply owners_goto|by rewrite length_insert|].
    rewrite <- (list_insert_id (flags s) i d') by done.
    by eapply (pcs_goto (was s)); [exact Hp|exact Hi|exact Hd'| |].
  - split; cbn; [|by rewrite length_insert|].
    + pose proof (owners_insert owns _ i _ (Restore w r) Hi) as E. cbn in E.
      destruct (taken s); lia.
    + rewrite <- (list_insert_id (flags s) i d') by done.
      by eapply (pcs_goto (was s)); [exact Hp|exact Hi|exact Hd'| |].
  - split; cbn; [by eapply owners_goto|by rewrite !length_insert|].
    by eapply (pcs_goto (was s)).
Qed.

Definition init (fl : list bool) : state :=
  MkState false false fl (replicate (length fl) Outside).

Lemma safe_init_inv fl : inv (length fl) (init fl).
Proof.
  split; cbn.
  - unfold owners. induction fl as [|x fl IH]; [done|exact IH].
  - by rewrite length_replicate.
  - by intros i p d [-> _]%lookup_replicate _.
Qed.

End SafeLock.

(** ** class ISL *)

Module Isl.

(** Like InterruptSafeLock, but the caller of [lock] keeps [wasDisabled] and
    the caller of [unlock] says whether interrupts stay disabled. *)
Inductive pc := Outside | Exchange (w : bool) | Retry (w : bool) | Inside (w : bool) | Flags (d : bool).

Record state := MkState { taken : bool; flags : list bool; pcs : list pc }.

Inductive step (i : nat) : state → state → Prop :=
| st_disable s w d :
    pcs s !! i = Some Outside → flags s !! i = Some d → disable d = (w, true) →
    step i s (MkState (taken s) (<[i := true]> (flags s)) (<[i := Exchange w]> (pcs s)))
| st_exchange s w old new :
    pcs s !! i = Some (Exchange w) → Atomic.exchange true (taken s) = (old, new) →
    step i s (MkState new (flags s) (<[i := if old : bool then Retry w else Inside w]> (pcs s)))
| st_retry s w d :
    pcs s !! i = Some (Retry w) → flags s !! i = Some d →
    step i s (MkState (taken s) (<[i := restore w d]> (flags s)) (<[i := Outside]> (pcs s)))
| st_unlock s w disable_ :
    pcs s !! i = Some (Inside w) →
    step i s (MkState (Atomic.set false (taken s)) (flags s) (<[i := Flags disable_]> (pcs s)))
| st_flags s d :
    pcs s !! i = Some (Flags d) →
    step i s (MkState (taken s) (<[i := d]> (flags s)) (<[i := Outside]> (pcs s))).

Definition owns (p : pc) : bool := match p with Inside _ => true | _ => false end.

Definition inv (s : state) : Prop :=
  owners owns (pcs s) = (if taken s then 1 else 0)%nat ∧
  ∀ i p d, pcs s !! i = Some p → flags s !! i = Some d →
    match p with Exchange _ | Retry _ | Inside _ | Flags _ => d = true | Outside => True end.

Lemma isl_step_inv i s s' : inv s → step i s s' → inv s'.
Proof.
  intros [Ho Hp] Hs.
  destruct Hs as [s w d Hi Hd E|s w old new Hi E|s w d Hi Hd|s w dis Hi|s d Hi].
  - split; cbn.
    + pose proof (owners_insert owns _ i _ (Exchange w) Hi) as Eo. cbn in Eo. destruct (taken s); lia.
    + intros j p dj [(-> & <- & _)|[Hne Hj]]%list_lookup_insert_Some.
      * by intros [(_ & <- & _)|[? _]]%list_lookup_insert_Some.
      * rewrite list_lookup_insert_ne by done. by apply Hp.
  - injection E as <- <-. split; cbn.
    + pose proof (owners_insert owns _ i _ (if taken s then Retry w else Inside w) Hi) as Eo.
      cbn in Eo. destruct (taken s); cbn in Eo; lia.
    + intros j p dj [(-> & <- & _)|[Hne Hj]]%list_lookup_insert_Some Hdj; [|by eapply Hp].
      pose proof (Hp _ _ _ Hi Hdj). by destruct (taken s).
  - split; cbn.
    + pose proof (owners_insert owns _ i _ Outside Hi) as Eo. cbn in Eo. destruct (taken s); lia.
    + intros j p dj [(-> & <- & _)|[Hne Hj]]%list_lookup_insert_Some; [done|].
      rewrite list_lookup_insert_ne by done. by apply Hp.
  - split; cbn.
    + pose proof (owners_insert owns _ i _ (Flags dis) Hi) as Eo. cbn in Eo. destruct (taken s); lia.
    + intros j p dj [(-> & <- & _)|[Hne Hj]]%list_lookup_insert_Some Hdj; [|by eapply Hp].
      exact (Hp _ _ _ Hi Hdj).
  - split; cbn.
    + pose proof (owners_insert owns _ i _ Outside Hi) as Eo. cbn in Eo. destruct (taken s); lia.
    + intros j p dj [(-> & <- & _)|[Hne Hj]]%list_lookup_insert_Some; [done|].
      rewrite list_lookup_insert_ne by done. by apply Hp.
Qed.

Definition init (fl : list bool) : state := MkState false fl (replicate (length fl) Outside).

Lemma isl_init_inv fl : inv (init fl).
Proof.
  split; cbn.
  - unfold owners. induction fl as [|x fl IH]; [done|exact IH].
  - by intros i p d [-> _]%lookup_replicate _.
Qed.

End Isl.

(** ** Properties *)

(** C15 (safety): [InterruptSafeLock] is correct.  In every interleaving of the
    processors at most one is in the critical section; while a processor is
    inside, its interrupts are disabled; and although [was] is shared and not
    protected by an atomic access, [unlock] always restores the interrupt state
    its own [lock] found. *)
Theorem interrupt_safe_lock_correct (fl : list bool) (s : SafeLock.state)
    (Hs : star (λ a b, ∃ i, SafeLock.step i a b) (SafeLock.init fl) s) :
  (∀ i j w w', SafeLock.pcs s !! i = Some (SafeLock.Inside w) →
     SafeLock.pcs s !! j = Some (SafeLock.Inside w') → i = j) ∧
  (∀ i w, SafeLock.pcs s !! i = Some (SafeLock.Inside w) → SafeLock.flags s !! i = Some true) ∧
  (∀ i w r s', SafeLock.pcs s !! i = Some (SafeLock.Restore w r) → SafeLock.step i s s' →
     SafeLock.pcs s' !! i = Some SafeLock.Outside ∧ SafeLock.flags s' !! i = Some w).
Proof.
  assert (SafeLock.inv (length fl) s) as [Ho [Hl1 Hl2] Hp].
  { eapply star_invariant; [apply SafeLock.safe_init_inv| |exact Hs].
    intros a b Ha [i Hi]. by eapply SafeLock.safe_step_inv. }
  assert (Hone : (owners SafeLock.owns (SafeLock.pcs s) <= 1)%nat).
  { rewrite Ho. destruct (SafeLock.taken s); lia. }
  assert (Hfl : ∀ i p, SafeLock.pcs s !! i = Some p → ∃ d, SafeLock.flags s !! i = Some d).
  { intros i p Hi. apply lookup_lt_is_Some. rewrite Hl2, <- Hl1. by eapply lookup_lt_Some. }
  split; [|split].
  - intros i j w w' Hi Hj. by eapply (owners_le_1 SafeLock.owns).
  - intros i w Hi. destruct (Hfl _ _ Hi) as [d Hd]. by destruct (Hp _ _ _ Hi Hd) as [-> _].
  - intros i w r s' Hi Hstep. destruct (Hfl _ _ Hi) as [d Hd].
    destruct (Hp _ _ _ Hi Hd) as [-> ->].
    destruct Hstep as [? ? H|? ? ? H|? ? ? ? H|? ? ? H|? ? H|? ? H|? ? ? H|s w0 r0 d0 H Hd0];
      rewrite Hi in H; try discriminate. injection H as <- <-.
    cbn. split; [apply list_lookup_insert_eq; by eapply lookup_lt_Some|].
    rewrite list_lookup_insert_eq by (by eapply lookup_lt_Some).
    assert (d0 = true) as -> by congruence. by destruct w.
Qed.

(** C16 (safety): [SpinLock] and [ISL] admit at most one processor, and [ISL]
    keeps its interrupts disabled. *)
Theorem spin_locks_exclusive (n : nat) (fl : list bool) (s : SpinLock.state) (s' : Isl.state)
    (Hs : star (λ a b, ∃ i, SpinLock.step i a = Some b) (SpinLock.init n) s)
    (Hs' : star (λ a b, ∃ i, Isl.step i a b) (Isl.init fl) s') :
  (∀ i j, SpinLock.pcs s !! i = Some SpinLock.Inside →
     SpinLock.pcs s !! j = Some SpinLock.Inside → i = j) ∧
  (∀ i j w w', Isl.pcs s' !! i = Some (Isl.Inside w) →
     Isl.pcs s' !! j = Some (Isl.Inside w') → i = j) ∧
  (∀ i w d, Isl.pcs s' !! i = Some (Isl.Inside w) → Isl.flags s' !! i = Some d → d = true).
Proof.
  assert (SpinLock.inv s) as H1.
  { eapply star_invariant; [apply (SpinLock.spin_init_inv n)| |exact Hs].
    intros a b Ha [i Hi]. by eapply SpinLock.spin_step_inv. }
  assert (Isl.inv s') as [H2 H3].
  { eapply star_invariant; [apply Isl.isl_init_inv| |exact Hs'].
    intros a b Ha [i Hi]. by eapply Isl.isl_step_inv. }
  unfold SpinLock.inv in H1. split; [|split].
  - intros i j Hi Hj. eapply (owners_le_1 SpinLock.owns); [|exact Hi|exact Hj|done|done].
    rewrite H1. destruct (SpinLock.taken s); lia.
  - intros i j w w' Hi Hj. eapply (owners_le_1 Isl.owns); [|exact Hi|exact Hj|done|done].
    rewrite H2. destruct (Isl.taken s'); lia.
  - intros i w d Hi Hd. exact (H3 _ _ _ Hi Hd).
Qed.

(** ** Witnesses *)

(** Processor 0 is inside and processor 1 has tried in vain. *)
Definition demo_safe : SafeLock.state :=
  SafeLock.MkState true false [true; true] [SafeLock.Inside false; SafeLock.Retry true].

Lemma interrupt_safe_lock_correct_witness :
  star (λ a b, ∃ i, SafeLock.step i a b) (SafeLock.init [false; true]) demo_safe ∧
  SafeLock.flags demo_safe !! 0%nat = Some true.
Proof.
  assert (Hs : star (λ a b, ∃ i, SafeLock.step i a b) (SafeLock.init [false; true]) demo_safe).
  { eapply star_step; [eapply star_step; [eapply star_step; [eapply star_step;
      [eapply star_step; [apply star_refl|]|]|]|]|].
    - exists 0%nat. by apply (SafeLock.st_disable 0 (SafeLock.init [false; true]) false false).
    - exists 0%nat. by eapply (SafeLock.st_exchange 0 _ false false true).
    - exists 0%nat. by eapply (SafeLock.st_remember 0 _ false).
    - exists 1%nat. by eapply (SafeLock.st_disable 1 _ true true).
    - exists 1%nat. by apply (SafeLock.st_exchange 1 (SafeLock.MkState true false [true; true]
        [SafeLock.Inside false; SafeLock.Exchange true]) true true true). }
  split; [exact Hs|].
  destruct (interrupt_safe_lock_correct _ _ Hs) as (_ & H & _). by apply (H 0%nat false).
Defined.

(** One of two processors holds the lock, in both kinds. *)
Definition demo_spin : SpinLock.state := SpinLock.MkState true [SpinLock.Inside; SpinLock.Locking].

Definition demo_isl : Isl.state :=
  Isl.MkState true [true; false] [Isl.Inside false; Isl.Outside].

Lemma spin_locks_exclusive_witness :
  star (λ a b, ∃ i, SpinLock.step i a = Some b) (SpinLock.init 2) demo_spin ∧
  star (λ a b, ∃ i, Isl.step i a b) (Isl.init [false; false]) demo_isl ∧
  SpinLock.pcs demo_spin !! 1%nat ≠ Some SpinLock.Inside ∧
  Isl.flags demo_isl !! 0%nat = Some true.
Proof.
  assert (Hs : star (λ a b, ∃ i, SpinLock.step i a = Some b) (SpinLock.init 2) demo_spin).
  { eapply star_step; [eapply star_step; [eapply star_step; [apply star_refl|]|]|];
      [exists 0%nat|exists 0%nat|exists 1%nat]; reflexivity. }
  assert (Hs' : star (λ a b, ∃ i, Isl.step i a b) (Isl.init [false; false]) demo_isl).
  { eapply star_step; [eapply star_step; [apply star_refl|]|].
    - exists 0%nat. by apply (Isl.st_disable 0 (Isl.init [false; false]) false false).
    - exists 0%nat. by apply (Isl.st_exchange 0 (Isl.MkState false [true; false]
        [Isl.Exchange false; Isl.Outside]) false false true). }
  destruct (spin_locks_exclusive 2 [false; false] demo_spin demo_isl Hs Hs') as (H1 & _ & H3).
  split; [exact Hs|]. split; [exact Hs'|]. split.
  - intros E. discriminate (H1 0%nat 1%nat eq_refl E).
  - pose proof (H3 0%nat false true eq_refl eq_refl). reflexivity.
Defined.
