(* ===== verification/Fork.v ===== *)
(** * Copying and releasing the private half of an address space

    The loops of [Process::fork] (src/kernel/process.cc) that copy the pages of
    the parent into the child, and what [delete_private] and [delete_pd] (file
    Paging) give back to the frame allocator.  A page is named by its number
    [n = va / 4096]; the private half of an address space is [524288 <= n]. *)

From S2P Require Import Prelude Mem Config PhysMem Paging.
Local Open Scope Z_scope.

(** ** The code *)

(** One iteration of the inner loop. *)
Definition copy_pte (parent_pt child_pt pti : Z) (s : mach) : outcome mach :=
  let child_pte := entry (ram s) child_pt pti in
  if negb (absent child_pte) then Ret s else
  let parent_pte := entry (ram s) parent_pt pti in
  if absent parent_pte then Ret s else
  let parent_frame := base parent_pte in
  '(child_frame, s) ← alloc_frame s;
  let s := set_ram (memcpy (ram s) child_frame parent_frame FRAME_SIZE) s in
  Ret (set_entry child_pt pti (Z.lor child_frame 7) s).

(** One iteration of the outer loop; [child_pd] is [child->pd]. *)
Definition copy_pde (pd child_pd pdi : Z) (s : mach) : outcome mach :=
  let parent_pde := entry (ram s) pd pdi in
  if absent parent_pde then Ret s else
  let parent_pt := base parent_pde in
  let child_pde := entry (ram s) child_pd pdi in
  '(child_pt, s) ←
    (if absent child_pde then
       '(child_pt, s) ← alloc_frame s;
       Ret (child_pt, set_entry child_pd pdi (Z.lor child_pt 7) s)
     else Ret (base child_pde, s));
  for_range 0 1024 (copy_pte parent_pt child_pt) s.

Definition copy_private (pd child_pd : Z) (s : mach) : outcome mach :=
  for_range 512 512 (copy_pde pd child_pd) s.

(** ** Pages *)

(** The entry that maps page [n]. *)
Definition page (m : mach) (pd n : Z) : option Z := walk (ram m) pd (4096 * n).

(** Frame [f] of [m'] holds what frame [p] of [m] holds. *)
Definition copy_of (m : mach) (p : Z) (m' : mach) (f : Z) : Prop :=
  ∀ i, 0 <= i < 4096 → ld8 (ram m') (f + i) = ld8 (ram m) (p + i).

(** The frames and tables the copy needs at most. *)
Definition table_cost (m : mach) (pt : Z) (n : nat) : Z :=
  sum_below (λ i, if absent (entry (ram m) pt i) then 0 else 1) n.

Definition pde_cost (m : mach) (pd k : Z) : Z :=
  let pde := entry (ram m) pd (512 + k) in
  if absent pde then 0 else 1 + table_cost m (base pde) 1024.

Definition copy_cost (m : mach) (pd : Z) : Z := sum_below (pde_cost m pd) 512.

Lemma page_at m pd pdi pti :
  0 <= pti < 1024 →
  page m pd (1024 * pdi + pti) =
    (let pde := entry (ram m) pd pdi in
     if absent pde then None else
     let pte := entry (ram m) (base pde) pti in if absent pte then None else Some pte).
Proof.
  intros Hi. unfold page, walk. destruct (page_index (4096 * (1024 * pdi + pti))) as [E1 E2].
  rewrite E1, E2. replace (4096 * (1024 * pdi + pti) / 4096) with (1024 * pdi + pti) by zlia.
  replace ((1024 * pdi + pti) / 1024) with pdi by zlia.
  by replace ((1024 * pdi + pti) mod 1024) with pti by zlia.
Qed.

Lemma va_of_page pdi pti : 0 <= pdi → 0 <= pti < 1024 → va_of pdi pti = 4096 * (1024 * pdi + pti).
Proof.
  intros Hd Ht. unfold va_of. rewrite !Z.shiftl_mul_pow2 by lia.
  change (2 ^ 22) with 4194304. change (2 ^ 12) with 4096.
  rewrite <- Z.add_nocarry_lor; [lia|]. apply Z.bits_inj'. intros k Hk.
  rewrite Z.land_spec, Z.bits_0. destruct (Z.lt_ge_cases k 22).
  - rewrite <- (Z.mod_pow2_bits_low (pdi * 4194304) 22 k) by lia. change (2 ^ 22) with 4194304.
    by rewrite Z_mod_mult, Z.bits_0.
  - destruct (Z.eq_dec pti 0) as [->|Hne]; [by rewrite Z.mul_0_l, Z.bits_0, andb_false_r|].
    rewrite (Z.bits_above_log2 (pti * 4096) k); [apply andb_false_r|lia|].
    apply Z.lt_le_trans with 22; [apply Z.log2_lt_pow2; lia|lia].
Qed.

Lemma page_u32 n : 0 <= n < 1048576 → is_u32 (4096 * n).
Proof. unfold is_u32. lia. Qed.

Lemma page_range n : 524288 <= n < 1048576 → 512 <= pdi_of (4096 * n) < 1024.
Proof.
  intros. destruct (page_index (4096 * n)) as [_ ->].
  replace (4096 * n / 4096) with n by zlia. zlia.
Qed.

Lemma page_walk m pd va : walk (ram m) pd va = page m pd (va / 4096).
Proof. apply walk_page. zlia. Qed.

Lemma table_cost_nonneg m pt n : 0 <= table_cost m pt n.
Proof.
  apply (sum_below_le _ 0 n); [|lia]. intros i. by destruct (absent _).
Qed.

Lemma table_cost_step m pt i n :
  0 <= i < Z.of_nat n →
  table_cost m pt (Z.to_nat i) + (if absent (entry (ram m) pt i) then 0 else 1) <= table_cost m pt n.
Proof.
  apply (sum_below_step (λ i, if absent (entry (ram m) pt i) then 0 else 1)).
  intros j. by destruct (absent _).
Qed.

Lemma table_cost_succ m pt i :
  0 <= i → table_cost m pt (Z.to_nat (i + 1)) =
    table_cost m pt (Z.to_nat i) + (if absent (entry (ram m) pt i) then 0 else 1).
Proof. apply (sum_below_succ (λ i, if absent (entry (ram m) pt i) then 0 else 1)). Qed.

Lemma pde_cost_nonneg m pd k : 0 <= pde_cost m pd k.
Proof.
  unfold pde_cost. destruct (absent _); [done|]. pose proof (table_cost_nonneg m (base (entry (ram m) pd (512 + k))) 1024). lia.
Qed.

(** What copying the frame [src] to a new frame [p] for page [n] promises. *)
Record page_placed (lo : Z) (fl : list Z) (m : mach) (pd n src p : Z) (fl' : list Z) (m' : mach)
  : Prop := PagePlaced {
  pp_wf : alloc_wf lo fl' m';
  pp_as : as_wf (allocated lo fl' m') (ram m') pd;
  pp_fresh : ¬ allocated lo fl m p;
  pp_alloc : allocated lo fl' m' p;
  pp_mono q : allocated lo fl m q → allocated lo fl' m' q;
  pp_dir : agree (ram m') (ram m) pd 4096;
  pp_page : page m' pd n = Some (p + 7);
  pp_other k : 0 <= k < 1048576 → k ≠ n → page m' pd k = page m pd k;
  pp_same q : allocated lo fl m q → q ≠ base (entry (ram m) pd (pdi_of (4096 * n))) → same_frame m m' q;
  pp_copy : copy_of m src m' p;
  pp_only q : allocated lo fl' m' q → q = p ∨ allocated lo fl m q;
  pp_left : frames_left fl' m' = frames_left fl m - 1;
  pp_steady : steady lo m m';
}.

Lemma copied_page_ok lo fl m pd pdi pti src p fl1 m1 (n := 1024 * pdi + pti)
    (pt := base (entry (ram m) pd pdi)) :
  alloc_wf lo fl m → as_wf (allocated lo fl m) (ram m) pd →
  0 <= pdi < 1024 → 0 <= pti < 1024 → absent (entry (ram m) pd pdi) = false →
  allocated lo fl m src → alloc_post lo fl m p fl1 m1 →
  page_placed lo fl m pd n src p fl1
    (set_entry pt pti (Z.lor p 7) (set_ram (memcpy (ram m1) p src 4096) m1)).
Proof.
  intros Hwf Has Hpdi Hpti Hpres Hsrc Hap.
  assert (Hn : 0 <= n < 1048576) by (unfold n; zlia).
  set (m2 := set_ram (memcpy (ram m1) p src 4096) m1).
  destruct (fill_fresh lo fl m pd p fl1 m1 (memcpy (ram m1) p src 4096) Hwf Has Hap)
    as (Hwf2 & Has2 & Hp2 & Hne & Hwalk2); [intros b k Hb; by apply memcpy_agree|].
  fold m2 in Hwf2, Has2, Hp2, Hne, Hwalk2.
  destruct (Hne pd (as_pd _ _ _ Has)) as (_ & _ & Hc2).
  assert (Hidx : pdi_of (4096 * n) = pdi ∧ pti_of (4096 * n) = pti).
  { destruct (page_index (4096 * n)) as [-> ->]. unfold n. split; zlia. }
  destruct Hidx as [Ei Et].
  assert (Hent2 : entry (ram m2) pd pdi = entry (ram m) pd pdi) by (by apply entry_agree).
  destruct (as_table _ _ _ Has pdi Hpdi Hpres) as [Hpta _]. fold pt in Hpta.
  destruct (Hne pt Hpta) as (Hppt & Hpta2 & _).
  destruct (set_pte_walk lo fl1 m2 pd (4096 * n) (Z.lor p 7) Has2 (page_u32 n Hn))
    as (Hc3 & Has3 & Hw3 & Ho3); [by rewrite Ei, Hent2|].
  rewrite Ei, Et, Hent2 in Hc3, Has3, Hw3, Ho3. fold pt in Hc3, Has3, Hw3, Ho3.
  pose proof (allocated_range _ _ _ _ Hwf2 Hp2). pose proof (allocated_aligned _ _ _ _ Hp2) as Hpal.
  assert (Hpte : u32 (Z.lor p 7) = p + 7).
  { rewrite flags_u32, lor_flags; [done|done|lia|unfold is_u32; lia|done|lia]. }
  rewrite Hpte in Hw3. replace (absent (p + 7)) with false in Hw3.
  2:{ rewrite <- lor_flags, absent_flags by (done || lia). done. }
  split; try done.
  - by apply alloc_wf_set_entry.
  - apply Hap.
  - intros q Hq. by apply (Hne q Hq).
  - by eapply agree_trans.
  - intros k Hk Hkn. unfold page. rewrite Ho3; [|by apply page_u32|zlia].
    apply Hwalk2. by apply page_u32.
  - rewrite Ei. intros q Hq Hqp. eapply agree_trans; [|by apply (Hne q Hq)].
    apply set_entry_agree; [by eapply allocated_aligned..|done|lia].
  - intros i Hi. assert (Hpp : agree (ram (set_entry pt pti (Z.lor p 7) m2)) (ram m2) p 4096)
      by (apply set_entry_agree; [by eapply allocated_aligned|done|done|lia]).
    rewrite (ld8_agree _ _ p 4096 _ Hpp) by lia. cbn [m2 ram set_ram].
    rewrite ld8_memcpy by lia. replace (src + (p + i - p)) with (src + i) by lia.
    apply (ld8_agree _ _ src 4096); [|lia]. apply (ap_frame _ _ _ _ _ _ Hap).
    destruct (Hne _ Hsrc) as [Hpe _]. apply frames_disjoint; [done|by eapply allocated_aligned|done].
  - intros q. apply Hap.
  - apply Hap.
  - destruct (steady_alloc _ _ _ _ _ _ Hwf Hap) as [Hst ?].
    apply steady_entry; [by destruct Hpta as [[_ [? _]] _]|lia|].
    eapply steady_trans; [exact Hst|]. apply steady_ram, memcpy_agree; lia.
Qed.

(** ** The invariant of the copy *)

Section Copy.
Context (lo : Z) (flb : list Z) (mb : mach) (pd c : Z) (fl0 : list Z) (m0 : mach).

Abbreviation old q := (allocated lo flb mb q).

(** [mb] is the machine before the fork and [m0] the one in which the child's
    directory [c] has been made. *)
Record fork_ready : Prop := ForkReady {
  fr_parent : as_wf (allocated lo flb mb) (ram mb) pd;
  fr_child : new_space lo flb mb fl0 m0 c;
  fr_src n e : 524288 <= n < 1048576 → page mb pd n = Some e → page m0 c n = None → old (base e);
}.

(** The pages below [N] are done: [U] lists the copied pages with their frames. *)
Record copying (N : Z) (fl : list Z) (U : list (Z * Z)) (K : Z) (m : mach) : Prop := Copying {
  cp_wf : alloc_wf lo fl m;
  cp_as : as_wf (allocated lo fl m) (ram m) c;
  cp_old q : old q → allocated lo fl m q ∧ same_frame mb m q;
  cp_tables i : 512 <= i < 1024 → absent (entry (ram m) c i) = false →
    ¬ old (base (entry (ram m) c i));
  cp_only q : allocated lo fl m q → old q ∨ q = c ∨ q ∈ U.*2 ∨
    ∃ i, 512 <= i < 1024 ∧ absent (entry (ram m) c i) = false ∧ base (entry (ram m) c i) = q;
  cp_user n f : (n, f) ∈ U →
    524288 <= n < N ∧ allocated lo fl m f ∧ ¬ old f ∧ f ≠ c ∧
    (∀ i, 0 <= i < 1024 → absent (entry (ram m) c i) = false → base (entry (ram m) c i) ≠ f) ∧
    page m c n = Some (f + 7) ∧
    ∃ e, page mb pd n = Some e ∧ page m0 c n = None ∧ copy_of mb (base e) m f;
  cp_inj : NoDup U.*2;
  cp_done n e : 524288 <= n < N → page m0 c n = None → page mb pd n = Some e → ∃ f, (n, f) ∈ U;
  cp_kept n : 0 <= n < 1048576 →
    n < 524288 ∨ N <= n ∨ page m0 c n ≠ None ∨ page mb pd n = None → page m c n = page m0 c n;
  cp_left : frames_left fl0 m0 <= frames_left fl m + K;
  cp_steady : steady lo mb m;
  cp_kernel i : 0 <= i < 512 → entry (ram m) c i = entry (ram m0) c i;
}.

Lemma copying_init : fork_ready → copying 524288 fl0 [] 0 m0.
Proof.
  intros [_ [Hwf Has Hnew Hold Htab Honly Hst] _]. split; try done; try lia.
  - intros q [?|[?|?]]%Honly; [by left|by right; left|by do 3 right].
  - intros n f H. by apply not_elem_of_nil in H.
  - constructor.
Qed.

(** A directory slot the parent does not use. *)
Lemma copying_gap N fl U K m N' :
  copying N fl U K m → N <= N' → (∀ n, N <= n < N' → page mb pd n = None) → copying N' fl U K m.
Proof.
  intros [] Hle Hn. split; try done.
  - intros n f H. destruct (cp_user0 n f H) as (?&?). split; [lia|done].
  - intros n e Hr H0 He. apply (cp_done0 n e); [|done..].
    destruct (decide (n < N)); [lia|]. rewrite Hn in He; [done|lia].
  - intros n Hr H. apply cp_kept0; [done|]. destruct H as [?|[?|H]]; [by left|right; left; lia|by do 2 right].
Qed.

(** A page that needs no copy. *)
Lemma copying_skip N fl U K m :
  copying N fl U K m → (page m0 c N = None → page mb pd N = None) → copying (N + 1) fl U K m.
Proof.
  intros [] Hn. split; try done.
  - intros n f H. destruct (cp_user0 n f H) as (?&?). split; [lia|done].
  - intros n e Hr H0 He. destruct (decide (n = N)) as [->|]; [|apply (cp_done0 n e); [lia|done..]].
    rewrite Hn in He; done.
  - intros n Hr H. destruct (decide (n = N)) as [->|]; apply cp_kept0; [done|lia|done|].
    destruct H as [?|[?|H]]; [by left|right; left; lia|by do 2 right].
Qed.

(** A copied frame stays what it is when the machine changes elsewhere. *)
Lemma copied_frame_kept m m' p f : copy_of mb p m f → same_frame m m' f → copy_of mb p m' f.
Proof. intros Hc Hs i Hi. rewrite <- Hc by done. by apply (ld8_agree _ _ f 4096); [|lia]. Qed.

Lemma copying_more N fl U K K' m : copying N fl U K m → K <= K' → copying N fl U K' m.
Proof. intros [] HK. split; try done. lia. Qed.

Section Steps.
Context (Hr : fork_ready).

(** The parent's tables are as they were. *)
Lemma parent_entry N fl U K m t i :
  copying N fl U K m → old t → 0 <= i < 1024 → entry (ram m) t i = entry (ram mb) t i.
Proof. intros Hc Ht Hi. apply entry_agree; [by apply (cp_old _ _ _ _ _ Hc)|done]. Qed.

(** Adding a copied page. *)
Lemma copying_extend n fl U K m e p fl' m' :
  copying n fl U K m → 524288 <= n < 1048576 → page m0 c n = None → page mb pd n = Some e →
  absent (entry (ram m) c (pdi_of (4096 * n))) = false →
  page_placed lo fl m c n (base e) p fl' m' →
  copying (n + 1) fl' (U ++ [(n, p)]) (K + 1) m'.
Proof.
  intros Hc Hn H0 He Hpres [Hwf3 Has3 Hfr Hp3 Hmono Hdir Hpg Hoth Hsame Hcopy Hppo Hl Hst].
  pose proof Hc as [Hwf Has Hold Htab Honly Husr Hinj Hdone Hkept Hleft Hst0 Hker].
  pose proof (page_range n Hn) as Hpdi. set (pdi := pdi_of (4096 * n)) in *.
  assert (Hent : ∀ i, 0 <= i < 1024 → entry (ram m') c i = entry (ram m) c i)
    by (intros; by apply entry_agree).
  assert (Hptold : ¬ old (base (entry (ram m) c pdi))) by (by apply Htab).
  assert (Hpold : ¬ old p) by (intros Ho; by apply Hfr, Hold).
  split; try done.
  - intros q Hq. destruct (Hold q Hq) as [Hqa Hqs]. split; [by apply Hmono|].
    eapply agree_trans; [apply Hsame; [done|by intros ->]|exact Hqs].
  - intros i Hi. rewrite Hent by lia. by apply Htab.
  - intros q Hq. rewrite fmap_app, elem_of_app. cbn [fmap list_fmap snd]. rewrite list_elem_of_singleton.
    destruct (Hppo q Hq) as [->|Hqa]; [by right; right; left; right|].
    destruct (Honly q Hqa) as [?|[?|[?|(i & Hi & Hab)]]]; [by left|by right; left|by right; right; left; left|].
    do 3 right. exists i. split; [done|]. by rewrite Hent by lia.
  - intros k f [Hin|Hin]%elem_of_app.
    + destruct (Husr k f Hin) as (H1 & H2 & H3 & H4 & H5 & H6 & e' & H7 & H8 & H9).
      split; [lia|]. split; [by apply Hmono|]. do 2 (split; [done|]).
      split; [intros i Hi; rewrite Hent by lia; by apply H5|].
      split; [rewrite Hoth by lia; done|]. exists e'. do 2 (split; [done|]).
      eapply copied_frame_kept; [exact H9|]. apply Hsame; [done|].
      intros ->. by apply (H5 pdi ltac:(lia) Hpres).
    + apply list_elem_of_singleton in Hin. injection Hin as -> ->.
      split; [lia|]. do 2 (split; [done|]). split; [intros ->; by apply Hfr, Has|].
      split; [|split; [exact Hpg|]].
      * intros i Hi. rewrite Hent by lia. intros Ha <-. by apply Hfr, (as_table _ _ _ Has i Hi Ha).
      * exists e. do 2 (split; [done|]). intros i Hi. rewrite Hcopy by done.
        apply (ld8_agree _ _ (base e) 4096); [|lia]. apply Hold. by apply (fr_src Hr n).
  - rewrite fmap_app. apply NoDup_app. split; [done|]. split; [|apply NoDup_singleton].
    intros f Hf%list_elem_of_fmap Hin. cbn in Hin. apply list_elem_of_singleton in Hin.
    destruct Hf as ([k f'] & Hff & Hk). cbn in Hff. destruct (Husr k f' Hk) as (_ & Hfa & _).
    apply Hfr. congruence.
  - intros k e' Hk Hk0 Hke. destruct (decide (k = n)) as [->|Hkn].
    + exists p. apply elem_of_app. right. by apply list_elem_of_singleton.
    + destruct (Hdone k e') as [f Hf]; [lia|done|done|]. exists f. apply elem_of_app. by left.
  - intros k Hk Hcase. assert (k ≠ n) as Hkn.
    { intros ->. destruct Hcase as [?|[?|[?|?]]]; [lia|lia|done|congruence]. }
    rewrite Hoth by done. apply Hkept; [done|].
    destruct Hcase as [?|[?|?]]; [by left|right; left; lia|by do 2 right].
  - lia.
  - by eapply steady_trans.
  - intros i Hi. rewrite Hent by lia. by apply Hker.
Qed.

(** Mapping a copy of the parent's page [n] in an existing table of the child. *)
Lemma copy_page_ok pdi pti fl U K m e (n := 1024 * pdi + pti) (pt := base (entry (ram m) c pdi)) :
  512 <= pdi < 1024 → 0 <= pti < 1024 → copying n fl U K m →
  absent (entry (ram m) c pdi) = false → page m0 c n = None → page mb pd n = Some e →
  returns_or "no more frames" (frames_left fl0 m0 <= K)
    ('(child_frame, s) ← alloc_frame m;
     Ret (set_entry pt pti (Z.lor child_frame 7)
            (set_ram (memcpy (ram s) child_frame (base e) FRAME_SIZE) s)))
    (λ m', (∃ fl' U', copying (n + 1) fl' U' (K + 1) m') ∧ agree (ram m') (ram m) c 4096).
Proof.
  intros Hpdi Hpti Hc Hpres H0 He. pose proof Hc as [Hwf Has Hold _ _ _ _ _ _ Hleft _ _].
  assert (Hn : 524288 <= n < 1048576) by (unfold n; zlia).
  pose proof (fr_src Hr n e Hn He H0) as Hsrc. destruct (Hold _ Hsrc) as [Hsa Hss].
  destruct (alloc_frame_cases lo fl m Hwf) as [[Hz ->]|(p & fl1 & m1 & -> & Hap)];
    cbn [mbind outcome_bind].
  { left. split; [done|lia]. }
  right. eexists. split; [done|]. change FRAME_SIZE with 4096.
  pose proof (copied_page_ok lo fl m c pdi pti (base e) p fl1 m1 Hwf Has ltac:(lia) Hpti Hpres Hsa Hap)
    as Hpp. split; [|apply Hpp]. exists fl1, (U ++ [(n, p)]).
  assert (Ei : pdi_of (4096 * n) = pdi).
  { destruct (page_index (4096 * n)) as [_ ->]. unfold n. zlia. }
  apply (copying_extend n fl U K m e p); try done. by rewrite Ei.
Qed.

(** One iteration of the inner loop of the copy. *)
Lemma copy_pte_ok pdi pti parent_pt child_pt fl U K m (n := 1024 * pdi + pti) :
  512 <= pdi < 1024 → 0 <= pti < 1024 → copying n fl U K m →
  absent (entry (ram m) c pdi) = false → base (entry (ram m) c pdi) = child_pt →
  absent (entry (ram mb) pd pdi) = false → base (entry (ram mb) pd pdi) = parent_pt →
  returns_or "no more frames"
    (frames_left fl0 m0 < K + if absent (entry (ram mb) parent_pt pti) then 0 else 1)
    (copy_pte parent_pt child_pt pti m)
    (λ m', (∃ fl' U', copying (n + 1) fl' U'
                        (K + if absent (entry (ram mb) parent_pt pti) then 0 else 1) m') ∧
           agree (ram m') (ram m) c 4096).
Proof.
  intros Hpdi Hpti Hc Hpres <- Hpar <-. unfold copy_pte.
  pose proof (page_at m c pdi pti Hpti) as Hchild. cbv zeta in Hchild. rewrite Hpres in Hchild.
  pose proof (page_at mb pd pdi pti Hpti) as Hparent. cbv zeta in Hparent. rewrite Hpar in Hparent.
  fold n in Hchild, Hparent.
  assert (Hn : 524288 <= n < 1048576) by (unfold n; zlia).
  rewrite (cp_kept _ _ _ _ _ Hc n) in Hchild by (lia || (right; left; lia)).
  assert (Hold : old (base (entry (ram mb) pd pdi))) by (apply (fr_parent Hr); [lia|done]).
  rewrite (parent_entry n fl U K m _ pti Hc Hold Hpti).
  destruct (absent (entry (ram m) (base (entry (ram m) c pdi)) pti)) eqn:Ec; cbn [negb].
  - destruct (absent (entry (ram mb) (base (entry (ram mb) pd pdi)) pti)) eqn:Ep.
    + apply returns_or_ret. split; [|done]. exists fl, U. rewrite Z.add_0_r.
      apply (copying_skip n fl U K m); [done|congruence].
    + eapply returns_or_mono; [by apply (copy_page_ok pdi pti fl U K m)|lia|done].
  - apply returns_or_ret. split; [|done]. exists fl, U.
    assert (0 <= if absent (entry (ram mb) (base (entry (ram mb) pd pdi)) pti) then 0 else 1)
      by (destruct (absent (entry (ram mb) (base (entry (ram mb) pd pdi)) pti)); lia).
    apply (copying_more _ _ _ K); [|lia].
    apply (copying_skip n fl U K m); [done|congruence].
Qed.

(** The child's table for directory slot [pdi]. *)
Lemma copy_table_ok pdi fl U K m :
  512 <= pdi < 1024 → copying (1024 * pdi) fl U K m →
  returns_or "no more frames" (frames_left fl0 m0 <= K)
    (if absent (entry (ram m) c pdi) then
       '(child_pt, s) ← alloc_frame m; Ret (child_pt, set_entry c pdi (Z.lor child_pt 7) s)
     else Ret (base (entry (ram m) c pdi), m))
    (λ '(child_pt, m'), (∃ fl', copying (1024 * pdi) fl' U (K + 1) m') ∧
       absent (entry (ram m') c pdi) = false ∧ base (entry (ram m') c pdi) = child_pt).
Proof.
  intros Hpdi Hc. pose proof Hc as [Hwf Has Hold Htab Honly Husr Hinj Hdone Hkept Hleft Hst0 Hker].
  destruct (absent (entry (ram m) c pdi)) eqn:Ha.
  2:{ apply returns_or_ret. split; [|done]. exists fl. eapply copying_more; [done|lia]. }
  destruct (alloc_frame_cases lo fl m Hwf) as [[Hz ->]|(f & fl1 & m1 & -> & Hap)];
    cbn [mbind outcome_bind].
  { left. split; [done|lia]. }
  apply returns_or_ret.
  destruct (install_table lo fl m c pdi f fl1 m1 Hwf Has ltac:(lia) Ha Hap)
    as (Hwf2 & Has2 & He2 & Hb2 & Ha2 & Hej & Hsame & Hwalk).
  set (m2 := set_entry c pdi (Z.lor f 7) m1) in *.
  assert (Hmono : ∀ q, allocated lo fl m q → allocated lo fl1 m2 q).
  { intros q Hq. apply (ap_alloc _ _ _ _ _ _ Hap). by right. }
  split; [|done]. exists fl1. split; try done.
  - intros q Hq. destruct (Hold q Hq) as [Hqa Hqs]. split; [by apply Hmono|].
    eapply agree_trans; [apply Hsame; [done|]|exact Hqs]. intros ->. by apply (ns_new _ _ _ _ _ _ (fr_child Hr)).
  - intros i Hi. destruct (decide (i = pdi)) as [->|Hne].
    + intros _. rewrite Hb2. intros Ho. by apply (ap_fresh _ _ _ _ _ _ Hap), Hold.
    + rewrite Hej by (done || lia). by apply Htab.
  - intros q [->|Hqa]%(ap_alloc _ _ _ _ _ _ Hap); [do 3 right; by exists pdi|].
    destruct (Honly q Hqa) as [?|[?|[?|(i & Hi & Hab & Hb)]]]; [by left|by right; left|by right; right; left|].
    do 3 right. exists i. split; [done|]. assert (i ≠ pdi) by congruence. by rewrite Hej by (done || lia).
  - intros k g Hin. destruct (Husr k g Hin) as (H1 & H2 & H3 & H4 & H5 & H6 & e' & H7 & H8 & H9).
    split; [lia|]. split; [by apply Hmono|]. do 2 (split; [done|]). split; [|split].
    + intros i Hi. destruct (decide (i = pdi)) as [->|Hne].
      * intros _. rewrite Hb2. intros ->. by apply (ap_fresh _ _ _ _ _ _ Hap).
      * rewrite Hej by done. by apply H5.
    + unfold page. rewrite Hwalk; [done|]. apply page_u32. lia.
    + exists e'. do 2 (split; [done|]). eapply copied_frame_kept; [exact H9|]. by apply Hsame.
  - intros n Hn Hcase. unfold page at 1. rewrite Hwalk by (by apply page_u32). by apply Hkept.
  - change (frames_left fl1 m2) with (frames_left fl1 m1). rewrite (ap_left _ _ _ _ _ _ Hap). lia.
  - destruct (steady_alloc _ _ _ _ _ _ Hwf Hap) as [Hst _]. eapply steady_trans; [exact Hst0|].
    apply steady_entry; [by destruct (as_pd _ _ _ Has) as [[_ [? _]] _]|lia|done].
  - intros i Hi. rewrite Hej by lia. by apply Hker.
Qed.

(** One iteration of the outer loop. *)
Lemma copy_pde_ok pdi fl U K m :
  512 <= pdi < 1024 → copying (1024 * pdi) fl U K m →
  returns_or "no more frames" (frames_left fl0 m0 < K + pde_cost mb pd (pdi - 512))
    (copy_pde pd c pdi m)
    (λ m', ∃ fl' U', copying (1024 * (pdi + 1)) fl' U' (K + pde_cost mb pd (pdi - 512)) m').
Proof.
  intros Hpdi Hc. unfold copy_pde, pde_cost. replace (512 + (pdi - 512)) with pdi by lia.
  rewrite (parent_entry _ fl U K m pd pdi Hc (as_pd _ _ _ (fr_parent Hr))) by lia.
  destruct (absent (entry (ram mb) pd pdi)) eqn:Hpar.
  { apply returns_or_ret. exists fl, U. rewrite Z.add_0_r.
    apply (copying_gap _ _ _ _ _ _ Hc); [lia|]. intros n Hn.
    replace n with (1024 * pdi + (n - 1024 * pdi)) by lia.
    rewrite page_at by lia. cbv zeta. by rewrite Hpar. }
  set (pt := base (entry (ram mb) pd pdi)).
  pose proof (table_cost_nonneg mb pt 1024) as Hcost.
  eapply returns_or_bind.
  { eapply returns_or_mono; [by apply (copy_table_ok pdi fl U K m)|lia|]. intros a Ha. exact Ha. }
  intros [child_pt m1] ((fl1 & Hc1) & Hpres & Hbase).
  pose (I := λ pti m', (∃ fl' U', copying (1024 * pdi + pti) fl' U'
                                  (K + 1 + table_cost mb pt (Z.to_nat pti)) m') ∧
                       agree (ram m') (ram m1) c 4096).
  eapply (returns_or_mono _ _ _ _ (I 1024)); [apply (for_range_or _ _ I)|exact (λ x, x)|].
  - split; [|done]. exists fl1, U. cbn. by rewrite !Z.add_0_r.
  - intros pti m2 Hpti ((fl2 & U2 & Hc2) & Hag). change (0 + Z.of_nat 1024) with 1024 in Hpti.
    assert (Hent : entry (ram m2) c pdi = entry (ram m1) c pdi) by (apply entry_agree; [done|lia]).
    pose proof (table_cost_step mb pt pti 1024 Hpti) as Hstep.
    eapply returns_or_mono.
    + refine (copy_pte_ok pdi pti pt child_pt fl2 U2 (K + 1 + table_cost mb pt (Z.to_nat pti)) m2
        ltac:(lia) Hpti Hc2 _ _ Hpar eq_refl); by rewrite Hent.
    + intros Hl. lia.
    + intros m3 [(fl3 & U3 & Hc3) Hag3]. split; [|by eapply agree_trans].
      exists fl3, U3. rewrite table_cost_succ by lia.
      replace (1024 * pdi + (pti + 1)) with (1024 * pdi + pti + 1) by lia.
      rewrite Z.add_assoc. exact Hc3.
  - intros m' ((fl' & U' & Hc') & _). exists fl', U'.
    replace (1024 * (pdi + 1)) with (1024 * pdi + 1024) by lia.
    by rewrite Z.add_assoc.
Qed.

(** The whole copy. *)
Lemma copy_private_ok :
  returns_or "no more frames" (frames_left fl0 m0 < copy_cost mb pd) (copy_private pd c m0)
    (λ m', ∃ fl' U', copying 1048576 fl' U' (copy_cost mb pd) m').
Proof.
  pose (I := λ pdi m', ∃ fl' U',
    copying (1024 * pdi) fl' U' (sum_below (pde_cost mb pd) (Z.to_nat (pdi - 512))) m').
  eapply (returns_or_mono _ _ _ _ (I 1024)); [apply (for_range_or _ _ I)|exact (λ x, x)|done].
  - exists fl0, []. by apply copying_init.
  - intros pdi m Hpdi (fl & U & Hc). change (512 + Z.of_nat 512) with 1024 in Hpdi.
    pose proof (sum_below_step (pde_cost mb pd) (pdi - 512) 512 (pde_cost_nonneg mb pd)) as Hstep.
    change (Z.of_nat 512) with 512 in Hstep. specialize (Hstep ltac:(lia)).
    eapply returns_or_mono; [exact (copy_pde_ok pdi fl U _ m Hpdi Hc)|unfold copy_cost; lia|].
    intros m' (fl' & U' & Hc'). exists fl', U'.
    replace (pdi + 1 - 512) with (pdi - 512 + 1) by lia. by rewrite sum_below_succ by lia.
Qed.
End Steps.
End Copy.

(** ** Releasing an address space *)

Section Release.
Context (kConfig : Config) (lo : Z) (fl0 : list Z) (m0 : mach) (pd : Z).

Definition private_page (n : Z) : Prop := 524288 <= n < 1048576 ∧ is_special kConfig (4096 * n) = false.

(** Every page of the private half, the APIC's apart, has a frame of its own. *)
Record user_frames : Prop := UserFrames {
  uf_frame n e : private_page n → page m0 pd n = Some e →
    allocated lo fl0 m0 (base e) ∧ base e ≠ pd ∧
    ∀ i, 0 <= i < 1024 → absent (entry (ram m0) pd i) = false → base (entry (ram m0) pd i) ≠ base e;
  uf_inj n n' e e' : private_page n → private_page n' → n ≠ n' →
    page m0 pd n = Some e → page m0 pd n' = Some e' → base e ≠ base e';
}.

(** [q] is the frame of a private page below [N], or a table of a slot below [T]. *)
Definition user_frame (N q : Z) : Prop :=
  ∃ n e, private_page n ∧ n < N ∧ page m0 pd n = Some e ∧ base e = q.

Definition user_table (T q : Z) : Prop :=
  ∃ i, 512 <= i < T ∧ absent (entry (ram m0) pd i) = false ∧ base (entry (ram m0) pd i) = q.

(** The frames of [D] have been given back, and no other is touched. *)
Record released (D : Z → Prop) (fl : list Z) (m : mach) : Prop := Released {
  rl_wf : alloc_wf lo fl m;
  rl_alloc q : allocated lo fl m q ↔ allocated lo fl0 m0 q ∧ ¬ D q;
  rl_same q : allocated lo fl0 m0 q → ¬ D q → same_frame m0 m q;
}.

Lemma released_ext D D' fl m : (∀ q, D q ↔ D' q) → released D fl m → released D' fl m.
Proof.
  intros HD [Hwf Ha Hs]. split; [done|..]; intros q; rewrite <- HD; [apply Ha|apply Hs].
Qed.

Lemma release_frame D fl m p :
  released D fl m → allocated lo fl0 m0 p → ¬ D p →
  ∃ fl' m', dealloc_frame p m = Ret m' ∧ released (λ q, D q ∨ q = p) fl' m'.
Proof.
  intros [Hwf Ha Hs] Hp Hn. assert (allocated lo fl m p) as Hpa by (by apply Ha).
  destruct (dealloc_frame_ok _ _ _ _ Hwf Hpa) as (m' & E & Hwf' & Hal & Hag & _).
  exists (p :: fl), m'. split; [done|]. split; [done|..].
  - intros q. rewrite Hal, Ha. intuition congruence.
  - intros q Hq HD. eapply agree_trans; [|apply Hs; tauto]. apply Hag.
    destruct (frames_disjoint p q); [by eapply allocated_aligned..| |lia|lia].
    intros <-. tauto.
Qed.

Lemma user_frame_succ n q :
  524288 <= n < 1048576 →
  user_frame (n + 1) q ↔ user_frame n q ∨
    (is_special kConfig (4096 * n) = false ∧ ∃ e, page m0 pd n = Some e ∧ base e = q).
Proof.
  intros Hn. split.
  - intros (k & e & Hk & Hlt & He & Hb). destruct (decide (k = n)) as [->|].
    + right. split; [apply Hk|eauto].
    + left. exists k, e. split; [done|]. split; [lia|done].
  - intros [(k & e & Hk & Hlt & He)|(Hsp & e & He)].
    + exists k, e. split; [done|]. split; [lia|done].
    + exists n, e. split; [by split|]. split; [lia|done].
Qed.

Lemma user_frame_gap N N' q :
  N <= N' → (∀ n, N <= n < N' → page m0 pd n = None) → user_frame N' q ↔ user_frame N q.
Proof.
  intros Hle Hn. split; intros (k & e & Hk & Hlt & He & Hb); exists k, e; split; try done.
  - split; [|done]. destruct (decide (k < N)); [done|]. rewrite Hn in He; [done|lia].
  - split; [lia|done].
Qed.

Lemma user_table_succ i q :
  512 <= i → user_table (i + 1) q ↔ user_table i q ∨
    (absent (entry (ram m0) pd i) = false ∧ base (entry (ram m0) pd i) = q).
Proof.
  intros Hi. split.
  - intros (k & Hk & Ha & Hb). destruct (decide (k = i)) as [->|]; [by right|].
    left. exists k. split; [lia|done].
  - intros [(k & Hk & Hb)|Hb]; [exists k|exists i]; (split; [lia|done]).
Qed.

(** ** [delete_pd] *)

Section Steps.
Context (Has : as_wf (allocated lo fl0 m0) (ram m0) pd) (Huf : user_frames).

Lemma released_entry D fl m t i :
  released D fl m → allocated lo fl0 m0 t → ¬ D t → 0 <= i < 1024 →
  entry (ram m) t i = entry (ram m0) t i.
Proof. intros Hr Ht HD Hi. apply entry_agree; [by apply (rl_same _ _ _ Hr)|done]. Qed.

Lemma table_kept pdi n :
  512 <= pdi < 1024 → absent (entry (ram m0) pd pdi) = false →
  ¬ (user_frame n (base (entry (ram m0) pd pdi)) ∨ user_table pdi (base (entry (ram m0) pd pdi))).
Proof.
  intros Hi Ha [(k & e & Hk & _ & He & Hb)|(j & Hj & Haj & Hb)].
  - destruct (uf_frame Huf k e Hk He) as (_ & _ & Hn). apply (Hn pdi); [lia|done|congruence].
  - apply (as_inj _ _ _ Has j pdi); [lia|lia|lia|done..].
Qed.

Lemma directory_kept n T : T <= 1024 → ¬ (user_frame n pd ∨ user_table T pd).
Proof.
  intros HT [(k & e & Hk & _ & He & Hb)|(j & Hj & Haj & Hb)].
  - destruct (uf_frame Huf k e Hk He) as (_ & Hn & _). congruence.
  - destruct (as_table _ _ _ Has j) as [_ Hn]; [lia|done|congruence].
Qed.

Lemma delete_pd_pte_ok pdi pti fl m (n := 1024 * pdi + pti) (pt := base (entry (ram m0) pd pdi)) :
  512 <= pdi < 1024 → 0 <= pti < 1024 → absent (entry (ram m0) pd pdi) = false →
  released (λ q, user_frame n q ∨ user_table pdi q) fl m →
  ∃ m', delete_pd_pte kConfig pdi pt pti m = Ret m' ∧
    ∃ fl', released (λ q, user_frame (n + 1) q ∨ user_table pdi q) fl' m'.
Proof.
  intros Hpdi Hpti Ha Hr. unfold delete_pd_pte. assert (Hn : 524288 <= n < 1048576) by (unfold n; zlia).
  rewrite (va_of_page pdi pti) by lia. fold n.
  destruct (as_table _ _ _ Has pdi ltac:(lia) Ha) as [Hpt _].
  rewrite (released_entry _ fl m pt pti Hr Hpt) by (done || by apply table_kept).
  pose proof (page_at m0 pd pdi pti Hpti) as Hpage. cbv zeta in Hpage. rewrite Ha in Hpage.
  fold n pt in Hpage. destruct (absent (entry (ram m0) pt pti)) eqn:Hpte.
  { eexists. split; [done|]. exists fl. eapply released_ext; [|exact Hr]. intros q. cbv beta.
    rewrite user_frame_succ, Hpage by done. naive_solver. }
  destruct (is_special kConfig (4096 * n)) eqn:Hsp; cbn [negb].
  { eexists. split; [done|]. exists fl. eapply released_ext; [|exact Hr]. intros q. cbv beta.
    rewrite user_frame_succ, Hsp by done. naive_solver. }
  destruct (uf_frame Huf n _ (conj Hn Hsp) Hpage) as (Hf1 & Hf2 & Hf3).
  destruct (release_frame _ fl m (base (entry (ram m0) pt pti)) Hr Hf1) as (fl' & m' & E & Hr').
  { intros [(k & e & Hk & Hlt & He & Hb)|(j & Hj & Haj & Hb)].
    - apply (uf_inj Huf k n e (entry (ram m0) pt pti)); [done|by split|lia|done..].
    - apply (Hf3 j); [lia|done..]. }
  exists m'. split; [exact E|]. exists fl'. eapply released_ext; [|exact Hr']. intros q. cbv beta.
  rewrite user_frame_succ, Hpage, Hsp by done. naive_solver.
Qed.

Lemma delete_pd_pde_ok pdi fl m :
  512 <= pdi < 1024 →
  released (λ q, user_frame (1024 * pdi) q ∨ user_table pdi q) fl m →
  ∃ m', delete_pd_pde kConfig pd pdi m = Ret m' ∧
    ∃ fl', released (λ q, user_frame (1024 * (pdi + 1)) q ∨ user_table (pdi + 1) q) fl' m'.
Proof.
  intros Hpdi Hr. unfold delete_pd_pde.
  rewrite (released_entry _ fl m pd pdi Hr (as_pd _ _ _ Has)) by (lia || (apply directory_kept; lia)).
  destruct (absent (entry (ram m0) pd pdi)) eqn:Ha.
  { eexists. split; [done|]. exists fl. eapply released_ext; [|exact Hr]. intros q. cbv beta.
    rewrite user_table_succ, Ha by lia. rewrite (user_frame_gap (1024 * pdi) (1024 * (pdi + 1))); [naive_solver|lia|].
    intros n Hn. replace n with (1024 * pdi + (n - 1024 * pdi)) by lia.
    rewrite page_at by lia. cbv zeta. by rewrite Ha. }
  destruct (for_range_inv (λ pti m', ∃ fl', released (λ q, user_frame (1024 * pdi + pti) q ∨ user_table pdi q) fl' m')
    (delete_pd_pte kConfig pdi (base (entry (ram m0) pd pdi))) 1024 0 m) as (m1 & E & fl1 & Hr1).
  { exists fl. by rewrite Z.add_0_r. }
  { intros pti m1 Hpti (fl1 & Hr1). change (0 + Z.of_nat 1024) with 1024 in Hpti.
    replace (1024 * pdi + (pti + 1)) with (1024 * pdi + pti + 1) by lia.
    by apply (delete_pd_pte_ok pdi pti fl1). }
  change (0 + Z.of_nat 1024) with 1024 in Hr1. rewrite E. cbn [mbind outcome_bind].
  destruct (as_table _ _ _ Has pdi ltac:(lia) Ha) as [Hpt _].
  destruct (release_frame _ fl1 m1 _ Hr1 Hpt) as (fl2 & m2 & E2 & Hr2); [by apply table_kept|].
  exists m2. split; [exact E2|]. exists fl2. eapply released_ext; [|exact Hr2]. intros q. cbv beta.
  rewrite user_table_succ, Ha by lia. replace (1024 * (pdi + 1)) with (1024 * pdi + 1024) by lia.
  generalize (base (entry (ram m0) pd pdi)). intros b.
  assert ((false = false ∧ b = q) ↔ q = b) by (split; [by intros [_ ->]|by intros ->]). tauto.
Qed.

Lemma delete_pd_ok cr3 fl :
  fl = fl0 → alloc_wf lo fl0 m0 → pd ≠ cr3 →
  ∃ m' fl', delete_pd kConfig cr3 pd m0 = Ret m' ∧
    released (λ q, user_frame 1048576 q ∨ user_table 1024 q ∨ q = pd) fl' m'.
Proof.
  intros -> Hwf Hne. unfold delete_pd. rewrite (proj2 (Z.eqb_neq _ _) Hne).
  cbn [negb ASSERT mbind outcome_bind].
  destruct (for_range_inv (λ pdi m', ∃ fl', released (λ q, user_frame (1024 * pdi) q ∨ user_table pdi q) fl' m')
    (delete_pd_pde kConfig pd) 512 512 m0) as (m1 & E & fl1 & Hr1).
  { exists fl0. split; [done|..].
    - intros q. split; [|tauto]. intros Hq. split; [done|].
      intros [(k & e & Hk & Hlt & _)|(j & Hj & _)]; [destruct Hk; lia|lia].
    - by intros q _ _ ? _. }
  { intros pdi m1 Hpdi (fl1 & Hr1). change (512 + Z.of_nat 512) with 1024 in Hpdi.
    by apply (delete_pd_pde_ok pdi fl1). }
  change (512 + Z.of_nat 512) with 1024 in Hr1. rewrite E. cbn [mbind outcome_bind].
  destruct (release_frame _ fl1 m1 pd Hr1 (as_pd _ _ _ Has)) as (fl2 & m2 & E2 & Hr2).
  { apply directory_kept. lia. }
  exists m2, fl2. split; [exact E2|]. eapply released_ext; [|exact Hr2]. intros q. cbv beta.
  change (1024 * 1024) with 1048576. tauto.
Qed.
End Steps.
End Release.

Lemma NoDup_fmap_snd {A B} (l : list (A * B)) x x' y :
  NoDup l.*2 → (x, y) ∈ l → (x', y) ∈ l → x = x'.
Proof.
  intros Hnd Hx Hx'. apply list_elem_of_lookup in Hx as [i Hi], Hx' as [j Hj].
  assert (i = j) as ->; [|congruence].
  eapply (NoDup_lookup l.*2 i j y); [done|by rewrite list_lookup_fmap, Hi|by rewrite list_lookup_fmap, Hj].
Qed.

(** ** The two together *)

Section Fork.
Context (kConfig : Config) (lo : Z) (fl : list Z) (m : mach) (shared pd : Z).
Context (Hwf : alloc_wf lo fl m) (Hsh : as_wf (allocated lo fl m) (ram m) shared).
Context (Hpd : as_wf (allocated lo fl m) (ram m) pd) (Hcfg : config_ok kConfig).
Context (Huf : user_frames kConfig lo fl m pd).

(** The pages of the directory made by [make_pd]. *)
Lemma new_pages (c : Z) (s1 : mach) n :
  (∀ va, is_u32 va → walk (ram s1) c va =
      if va / 4194304 <? (memSize kConfig + 4194303) / 4194304 then walk (ram m) shared va
      else if va / 4096 =? ioAPIC kConfig / 4096 then Some (ioAPIC kConfig + 3)
      else if va / 4096 =? localAPIC kConfig / 4096 then Some (localAPIC kConfig + 3)
      else None) →
  524288 <= n < 1048576 → page s1 c n = None ↔ is_special kConfig (4096 * n) = false.
Proof.
  intros Hw Hn. destruct Hcfg as [Hms (_ & Hio & _) (_ & Hla & _) _].
  unfold page. rewrite Hw by (apply page_u32; lia). unfold is_special.
  destruct (Z.ltb_spec (4096 * n / 4194304) ((memSize kConfig + 4194303) / 4194304)); [zlia|].
  destruct (Z.ltb_spec (4096 * n) 0x80000000); [lia|].
  destruct (Z.eqb_spec (4096 * n) (ioAPIC kConfig)), (Z.eqb_spec (4096 * n / 4096) (ioAPIC kConfig / 4096));
    try zlia; [by split|].
  destruct (Z.eqb_spec (4096 * n) (localAPIC kConfig)),
    (Z.eqb_spec (4096 * n / 4096) (localAPIC kConfig / 4096)); try zlia; by split.
Qed.

Lemma fork_memory_ok :
  3 + copy_cost m pd <= frames_left fl m →
  ∃ c s1 fl1 fl' s' U, make_pd kConfig shared m = Ret (c, s1) ∧ copy_private pd c s1 = Ret s' ∧
    new_space lo fl m fl1 s1 c ∧
    copying lo fl m pd c fl1 s1 1048576 fl' U (copy_cost m pd) s' ∧
    ∀ n, 524288 <= n < 1048576 → page s1 c n = None ↔ is_special kConfig (4096 * n) = false.
Proof.
  intros Hleft. assert (0 <= copy_cost m pd).
  { apply (sum_below_le _ 0 512); [|lia]. apply pde_cost_nonneg. }
  destruct (make_pd_ok kConfig lo fl m shared Hwf Hsh Hcfg) as [[_ ?]|([c s1] & E & fl1 & Hns & Hl & Hw & _)]; [lia|].
  pose proof (λ n, new_pages c s1 n Hw) as Hnew.
  destruct (copy_private_ok lo fl m pd c fl1 s1) as [[_ Hlt]|(s' & E' & fl' & U & Hc)].
  - split; [done|done|]. intros n e Hn He H0. apply Hnew in H0; [|done].
    by apply (uf_frame _ _ _ _ _ Huf n).
  - lia.
  - exists c, s1, fl1, fl', s', U. auto.
Qed.

(** The copied pages are the child's own. *)
Lemma child_frames c fl1 s1 fl' U K s' :
  copying lo fl m pd c fl1 s1 1048576 fl' U K s' →
  (∀ n, 524288 <= n < 1048576 → page s1 c n = None ↔ is_special kConfig (4096 * n) = false) →
  user_frames kConfig lo fl' s' c ∧
  (∀ q, user_frame kConfig s' c 1048576 q ↔ q ∈ U.*2) ∧
  ∀ n, private_page kConfig n → match page m pd n with
    | None => page s' c n = None
    | Some e => ∃ f, page s' c n = Some (f + 7) ∧ (n, f) ∈ U ∧ base (f + 7) = f ∧
                  ¬ allocated lo fl m f ∧ copy_of m (base e) s' f
    end.
Proof.
  intros Hc Hnew. pose proof Hc as [Hwf' Has' Hold Htab Honly Husr Hinj Hdone Hkept _ _ _].
  assert (Hbase : ∀ n f, (n, f) ∈ U → base (f + 7) = f).
  { intros n f Hin. destruct (Husr n f Hin) as (_ & Hf & _).
    pose proof (allocated_range _ _ _ _ Hwf' Hf). pose proof (allocated_aligned _ _ _ _ Hf).
    rewrite <- lor_flags by (done || lia). apply base_flags; [unfold is_u32; lia|done|lia]. }
  assert (Hpage : ∀ n, private_page kConfig n → match page m pd n with
    | None => page s' c n = None
    | Some e => ∃ f, page s' c n = Some (f + 7) ∧ (n, f) ∈ U ∧ base (f + 7) = f ∧
                  ¬ allocated lo fl m f ∧ copy_of m (base e) s' f
    end).
  { intros n [Hn Hsp]. apply Hnew in Hsp; [|done]. destruct (page m pd n) as [e|] eqn:He.
    - destruct (Hdone n e Hn Hsp He) as [f Hf]. exists f.
      destruct (Husr n f Hf) as (_ & _ & Hno & _ & _ & Hpg & e' & He' & _ & Hcp).
      split; [done|]. split; [done|]. split; [by eapply Hbase|]. split; [done|].
      by assert (e = e') as -> by congruence.
    - rewrite Hkept, Hsp by (lia || auto). done. }
  assert (Hmapped : ∀ n e', private_page kConfig n → page s' c n = Some e' →
    ∃ f, (n, f) ∈ U ∧ e' = f + 7 ∧ base e' = f).
  { intros n e' Hn He'. specialize (Hpage n Hn). destruct (page m pd n); [|congruence].
    destruct Hpage as (f & Hf & Hin & Hb & _). exists f. split; [done|]. split; congruence. }
  split; [split|split; [|exact Hpage]].
  - intros n e' Hn He'. destruct (Hmapped n e' Hn He') as (f & Hin & _ & ->).
    destruct (Husr n f Hin) as (_ & H1 & _ & H2 & H3 & _). auto.
  - intros n n' e e' Hn Hn' Hne He He'.
    destruct (Hmapped n e Hn He) as (f & Hin & _ & ->), (Hmapped n' e' Hn' He') as (f' & Hin' & _ & ->).
    intros ->. apply Hne. apply (NoDup_fmap_snd U n n' f' Hinj Hin Hin').
  - intros q. split.
    + intros (n & e' & Hn & _ & He' & <-). destruct (Hmapped n e' Hn He') as (f & Hin & _ & ->).
      apply list_elem_of_fmap. by exists (n, f).
    + intros ([n f] & -> & Hin)%list_elem_of_fmap.
      destruct (Husr n f Hin) as (Hn & _ & _ & _ & _ & Hpg & e & _ & H0 & _).
      exists n, (f + 7). split; [split; [done|by apply Hnew]|]. split; [lia|]. split; [done|by eapply Hbase].
Qed.
End Fork.

(** ** Properties *)

(** C17 (functional): [fork]'s copy of the address space.  With enough free
    frames (three for the new directory, then one for every page and every
    table of the parent's private half) [make_pd] and the copy loops return; the
    child's space is well formed; every frame that was in use before, the
    parent's pages and tables among them, keeps its contents; and each private
    page that the parent had is mapped in the child, writable, to a frame that
    was not in use, holds the same bytes, and shares no frame with any other
    page.  Pages the parent had not are not mapped in the child. *)
Theorem fork_copies_space (kConfig : Config) (lo : Z) (fl : list Z) (m : mach) (shared pd : Z)
    (Hwf : alloc_wf lo fl m) (Hsh : as_wf (allocated lo fl m) (ram m) shared)
    (Hpd : as_wf (allocated lo fl m) (ram m) pd) (Hcfg : config_ok kConfig)
    (Huf : user_frames kConfig lo fl m pd) (Hleft : 3 + copy_cost m pd <= frames_left fl m) :
  ∃ c s1 fl' s', make_pd kConfig shared m = Ret (c, s1) ∧ copy_private pd c s1 = Ret s' ∧
    alloc_wf lo fl' s' ∧ as_wf (allocated lo fl' s') (ram s') c ∧ user_frames kConfig lo fl' s' c ∧
    (∀ q, allocated lo fl m q → allocated lo fl' s' q ∧ same_frame m s' q) ∧
    ∀ n, private_page kConfig n → match page m pd n with
      | None => page s' c n = None
      | Some e => ∃ f, page s' c n = Some (f + 7) ∧ ¬ allocated lo fl m f ∧ copy_of m (base e) s' f
      end.
Proof.
  destruct (fork_memory_ok kConfig lo fl m shared pd Hwf Hsh Hpd Hcfg Huf Hleft)
    as (c & s1 & fl1 & fl' & s' & U & E1 & E2 & _ & Hc & Hnew).
  destruct (child_frames kConfig lo fl m pd c fl1 s1 fl' U _ s' Hc Hnew) as (Hcu & _ & Hpage).
  exists c, s1, fl', s'. do 2 (split; [done|]). do 2 (split; [apply Hc|]). split; [done|].
  split; [apply Hc|]. intros n Hn. specialize (Hpage n Hn). destruct (page m pd n); [|done].
  destruct Hpage as (f & ? & _ & _ & ? & ?). eauto.
Qed.

(** C18 (safety): the memory a forked process takes is given back when it ends:
    [delete_pd] of the child leaves exactly the frames allocated that were
    allocated before the fork, and none of them has changed. *)
Theorem fork_exit_restores (kConfig : Config) (lo : Z) (fl : list Z) (m : mach) (shared pd cr3 : Z)
    (Hwf : alloc_wf lo fl m) (Hsh : as_wf (allocated lo fl m) (ram m) shared)
    (Hpd : as_wf (allocated lo fl m) (ram m) pd) (Hcfg : config_ok kConfig)
    (Huf : user_frames kConfig lo fl m pd) (Hleft : 3 + copy_cost m pd <= frames_left fl m)
    (Hcr3 : allocated lo fl m cr3) :
  ∃ c s1 s' fl2 s2, make_pd kConfig shared m = Ret (c, s1) ∧ copy_private pd c s1 = Ret s' ∧
    delete_pd kConfig cr3 c s' = Ret s2 ∧ alloc_wf lo fl2 s2 ∧
    (∀ q, allocated lo fl2 s2 q ↔ allocated lo fl m q) ∧
    ∀ q, allocated lo fl m q → same_frame m s2 q.
Proof.
  destruct (fork_memory_ok kConfig lo fl m shared pd Hwf Hsh Hpd Hcfg Huf Hleft)
    as (c & s1 & fl1 & fl' & s' & U & E1 & E2 & Hns & Hc & Hnew).
  destruct (child_frames kConfig lo fl m pd c fl1 s1 fl' U _ s' Hc Hnew) as (Hcu & HU & _).
  destruct (delete_pd_ok kConfig lo fl' s' c (cp_as _ _ _ _ _ _ _ _ _ _ _ _ Hc) Hcu cr3 fl' eq_refl
    (cp_wf _ _ _ _ _ _ _ _ _ _ _ _ Hc)) as (s2 & fl2 & E3 & Hr).
  { intros ->. by apply (ns_new _ _ _ _ _ _ Hns). }
  assert (Hold : ∀ q, allocated lo fl m q →
    ¬ (user_frame kConfig s' c 1048576 q ∨ user_table s' c 1024 q ∨ q = c)).
  { intros q Hq [Hu|[(i & Hi & Ha & Hb)| ->]].
    - apply HU, list_elem_of_fmap in Hu as ([n f] & -> & Hin).
      by destruct (cp_user _ _ _ _ _ _ _ _ _ _ _ _ Hc n f Hin) as (_ & _ & Hno & _).
    - apply (cp_tables _ _ _ _ _ _ _ _ _ _ _ _ Hc i Hi Ha). by rewrite Hb.
    - by apply (ns_new _ _ _ _ _ _ Hns). }
  exists c, s1, s', fl2, s2. do 3 (split; [done|]). split; [apply Hr|]. split.
  - intros q. rewrite (rl_alloc _ _ _ _ _ _ Hr). split.
    + intros [Hq Hn]. destruct (cp_only _ _ _ _ _ _ _ _ _ _ _ _ Hc q Hq) as [?|[?|[?|Ht]]]; [done|..];
        exfalso; apply Hn; [by right; right|left; by apply HU|right; by left].
    + intros Hq. split; [by apply Hc|by apply Hold].
  - intros q Hq. eapply agree_trans; [|by apply (cp_old _ _ _ _ _ _ _ _ _ _ _ _ Hc)].
    apply (rl_same _ _ _ _ _ _ Hr); [by apply Hc|by apply Hold].
Qed.

(** A process that ends gives back every frame its private pages map, those of
    shared file mappings too; the list of shared files is not consulted, so a
    file that is still listed keeps a frame that is free. *)
Lemma exit_frees_shared_frame (kConfig : Config) lo fl m pd cr3 n e :
  alloc_wf lo fl m → as_wf (allocated lo fl m) (ram m) pd → user_frames kConfig lo fl m pd →
  pd ≠ cr3 → private_page kConfig n → page m pd n = Some e →
  ∃ fl' m', delete_pd kConfig cr3 pd m = Ret m' ∧ alloc_wf lo fl' m' ∧ ¬ allocated lo fl' m' (base e).
Proof.
  intros Hwf Has Huf Hne Hn He.
  destruct (delete_pd_ok kConfig lo fl m pd Has Huf cr3 fl eq_refl Hwf Hne) as (m' & fl' & E & Hr).
  exists fl', m'. split; [done|]. split; [apply Hr|]. rewrite (rl_alloc _ _ _ _ _ _ Hr).
  intros [_ Hno]. apply Hno. left. exists n, e. split; [done|]. split; [apply Hn|done].
Qed.

(** ** Witnesses: forking the space of [dm3], which has one private page *)

Lemma dm3_fork : ∃ fl, alloc_wf 6291456 fl dm3 ∧
  as_wf (allocated 6291456 fl dm3) (ram dm3) 6291456 ∧
  user_frames demo_config 6291456 fl dm3 6291456 ∧
  copy_cost dm3 6291456 = 2 ∧ frames_left fl dm3 = 2557.
Proof.
  destruct dm3_space as (fl & Hwf & Has & Hal & Hb & Hn & Hl). exists fl.
  do 2 (split; [done|]).
  assert (Hpage : ∀ n e, private_page demo_config n → page dm3 6291456 n = Some e →
    n = 524289 ∧ base e = 6295552).
  { intros n e [Hr _] He. destruct (decide (n = 524289)) as [->|Hne].
    - assert (page dm3 6291456 524289 = Some (6295552 + 7)) as Hw by (by vm_compute).
      assert (e = 6295552 + 7) as -> by congruence. split; reflexivity.
    - unfold page in He. rewrite Hn in He; [discriminate|apply page_u32; lia|zlia]. }
  split; [split|].
  - intros n e Hp He. destruct (Hpage n e Hp He) as [_ ->]. split; [done|]. split; [lia|done].
  - intros n n' e e' Hp Hp' Hne He He'. destruct (Hpage n e Hp He), (Hpage n' e' Hp' He'). lia.
  - split; [by vm_compute|done].
Qed.

Lemma fork_copies_space_witness :
  ∃ c s1 s' f, make_pd demo_config 6291456 dm3 = Ret (c, s1) ∧ copy_private 6291456 c s1 = Ret s' ∧
    page s' c 524289 = Some (f + 7) ∧ copy_of dm3 6295552 s' f.
Proof.
  destruct dm3_fork as (fl & Hwf & Has & Huf & Hc & Hl).
  destruct (fork_copies_space demo_config 6291456 fl dm3 6291456 6291456 Hwf Has Has demo_config_ok
    Huf ltac:(rewrite Hc, Hl; lia)) as (c & s1 & fl' & s' & E1 & E2 & _ & _ & _ & _ & Hp).
  assert (page dm3 6291456 524289 = Some (6295552 + 7)) as Hw by (by vm_compute).
  specialize (Hp 524289 ltac:(split; [lia|done])). rewrite Hw in Hp.
  destruct Hp as (f & Hf & _ & Hcp). exists c, s1, s', f. split; [exact E1|]. split; [exact E2|].
  split; [exact Hf|exact Hcp].
Defined.

Lemma fork_exit_restores_witness :
  ∃ fl c s1 s' s2, make_pd demo_config 6291456 dm3 = Ret (c, s1) ∧
    copy_private 6291456 c s1 = Ret s' ∧ delete_pd demo_config 6291456 c s' = Ret s2 ∧
    ∀ q, allocated 6291456 fl dm3 q → same_frame dm3 s2 q.
Proof.
  destruct dm3_fork as (fl & Hwf & Has & Huf & Hc & Hl).
  destruct (fork_exit_restores demo_config 6291456 fl dm3 6291456 6291456 6291456 Hwf Has Has
    demo_config_ok Huf ltac:(rewrite Hc, Hl; lia) (as_pd _ _ _ Has)) as (c & s1 & s' & fl2 & s2 & E1 & E2 & E3 & _ & _ & H).
  exists fl, c, s1, s', s2. split; [exact E1|]. split; [exact E2|]. split; [exact E3|exact H].
Defined.
