(* ===== verification/Process.v ===== *)
(** * Processes: src/kernel/process.h, process.cc

    A process holds its open files, semaphores and children in three tables of
    ten slots and hands out integers as their names: a kind in the upper bits
    and the slot in the lower ones.  The objects are shared between processes
    through [Shared] pointers, so the tables hold locations of the stores
    [objects].  The operations that take the process's [mutex] are single
    transitions of the model. *)

From S2P Require Import Prelude Mem Config PhysMem Paging Vmm Queue Semaphore Fork.
Local Open Scope Z_scope.

(** ** Names *)

Definition FL : Z := 0x00000000.
Definition PROC : Z := 0x10000000.
Definition SEM : Z := 0x20000000.
Definition INDEX_MASK : Z := 0x0FFFFFFF.
Definition NSEM : Z := 10.
Definition NCHILD : Z := 10.
Definition NFILE : Z := 10.

Definition kind_of (id : Z) : Z := Z.land (u32 id) 0xF0000000.
Definition index_of (id : Z) : Z := Z.land (u32 id) INDEX_MASK.

Definition getSemaphoreIndex (id : Z) : Z :=
  let kind := kind_of id in
  let index := index_of id in
  if negb (kind =? SEM) then -1
  else if NSEM <=? index then -1
  else index.

Definition getChildIndex (id : Z) : Z :=
  let kind := kind_of id in
  let index := index_of id in
  if negb (kind =? PROC) then -1
  else if NCHILD <=? index then -1
  else index.

Definition getFileIndex (id : Z) : Z :=
  let kind := kind_of id in
  let index := index_of id in
  if negb (kind =? FL) then -1
  else if NFILE <=? index then -1
  else index.

(** ** State *)

(** The objects that processes share; a future is the value it was set to. *)
Record objects := MkObjects {
  semaphores : gmap loc Semaphore;
  futures : gmap loc (option Z);
  bools : gmap loc bool;
}.

Section Process.
Context {F : Type} `{FileNode F} (kConfig : Config).

Record Process := MkProcess {
  files : list (option loc);
  sems : list (option loc);
  children : list (option loc);
  kill_flags : list (option loc);
  output : loc;
  kill_flag : loc;
  pd : Z;
  entry_list : list (@VMEntry F);
}.

Definition set_files (t : list (option loc)) (p : Process) : Process :=
  MkProcess t (sems p) (children p) (kill_flags p) (output p) (kill_flag p) (pd p) (entry_list p).
Definition set_sems (t : list (option loc)) (p : Process) : Process :=
  MkProcess (files p) t (children p) (kill_flags p) (output p) (kill_flag p) (pd p) (entry_list p).
Definition set_children (t : list (option loc)) (p : Process) : Process :=
  MkProcess (files p) (sems p) t (kill_flags p) (output p) (kill_flag p) (pd p) (entry_list p).
Definition set_kill_flags (t : list (option loc)) (p : Process) : Process :=
  MkProcess (files p) (sems p) (children p) t (output p) (kill_flag p) (pd p) (entry_list p).
Definition set_entry_list (es : list (@VMEntry F)) (p : Process) : Process :=
  MkProcess (files p) (sems p) (children p) (kill_flags p) (output p) (kill_flag p) (pd p) es.

(** The loops [for (i = 0; i < N; i++) if (t[i] == nullptr) ...]. *)
Fixpoint first_free (t : list (option loc)) : option nat :=
  match t with
  | [] => None
  | None :: _ => Some O
  | Some _ :: t' => S <$> first_free t'
  end.

(** [t[i]] for an index that has been tested. *)
Definition slot (t : list (option loc)) (i : Z) : option loc := default None (t !! Z.to_nat i).

Definition clear_slot (t : list (option loc)) (i : Z) : list (option loc) := <[Z.to_nat i := None]> t.

(** [Process::Process(isInit)] with its member initialisers. *)
Definition new_process (isInit : bool) (console : loc) (shared : Z) (m : mach) (o : objects)
  : outcome (Process * mach * objects) :=
  let out := fresh (dom (futures o)) in
  let flag := fresh (dom (bools o)) in
  let o := MkObjects (semaphores o) (<[out := None]> (futures o)) (<[flag := false]> (bools o)) in
  '(pd, m) ← make_pd kConfig shared m;
  let files := if isInit then replicate 3 (Some console) ++ replicate 7 None else replicate 10 None in
  Ret (MkProcess files (replicate 10 None) (replicate 10 None) (replicate 10 None) out flag pd [],
       m, o).

(** ** Semaphores and files *)

Definition newSemaphore (init : Z) (p : Process) (o : objects) : Z * Process * objects :=
  match first_free (sems p) with
  | Some i =>
      let l := fresh (dom (semaphores o)) in
      (Z.lor SEM (Z.land (Z.of_nat i) INDEX_MASK), set_sems (<[i := Some l]> (sems p)) p,
       MkObjects (<[l := make init]> (semaphores o)) (futures o) (bools o))
  | None => (-1, p, o)
  end.

Definition getSemaphore (id : Z) (p : Process) : option loc :=
  let idx := index_of id in
  if (NSEM <=? idx) || negb (kind_of id =? SEM) then None else slot (sems p) idx.

Definition getFile (fd : Z) (p : Process) : option loc :=
  if getFileIndex fd <? 0 then None else slot (files p) fd.

Definition setFile (file : loc) (p : Process) : Z * Process :=
  match first_free (files p) with
  | Some i => (Z.of_nat i, set_files (<[i := Some file]> (files p)) p)
  | None => (-1, p)
  end.

Definition close (id : Z) (p : Process) : Z * Process :=
  let index := getSemaphoreIndex id in
  if negb (index =? -1) then
    match slot (sems p) index with
    | None => (-1, p)
    | Some _ => (0, set_sems (clear_slot (sems p) index) p)
    end
  else
  let index := getChildIndex id in
  if negb (index =? -1) then
    match slot (children p) index with
    | None => (-1, p)
    | Some _ => (0, set_children (clear_slot (children p) index) p)
    end
  else
  let index := getFileIndex id in
  if negb (index =? -1) then
    match slot (files p) index with
    | None => (-1, p)
    | Some _ => (0, set_files (clear_slot (files p) index) p)
    end
  else (-1, p).

(** ** Children *)

(** [None]: the caller waits in [e->get()] until the child's future is set, and
    then goes on from here.  The second component is the value for [*ptr]. *)
Definition wait (id : Z) (p : Process) (o : objects) : outcome (option (Z * option Z * Process)) :=
  let index := getChildIndex id in
  if index <? 0 then Ret (Some (index, None, p))
  else
    match slot (children p) index with
    | None => Ret (Some (-1, None, p))
    | Some e =>
        v ← deref (futures o !! e);
        match v with
        | None => Ret None
        | Some v => Ret (Some (0, Some v, set_children (clear_slot (children p) index) p))
        end
    end.

Definition kill (id : Z) (p : Process) (o : objects) : outcome (Z * Process * objects) :=
  let index := getChildIndex id in
  if index <? 0 then Ret (index, p, o)
  else
    match slot (kill_flags p) index with
    | None => Ret (-1, p, o)
    | Some k =>
        _ ← deref (bools o !! k);
        Ret (0, set_kill_flags (clear_slot (kill_flags p) index) p,
             MkObjects (semaphores o) (futures o) (<[k := true]> (bools o)))
    end.

(** [exit(v)], [output->set(v)]. *)
Definition set_output (v : Z) (p : Process) (o : objects) : outcome objects :=
  old ← deref (futures o !! output p);
  _ ← ASSERT (match old with None => true | Some _ => false end) "!isReady";
  Ret (MkObjects (semaphores o) (<[output p := Some v]> (futures o)) (bools o)).

(** ** Mapped files *)

(** [temp->node->num_processes += d] for every entry with a node. *)
Fixpoint add_counts (d : Z) (es : list (@VMEntry F)) (s : @vmm F) : outcome vmm :=
  match es with
  | [] => Ret s
  | temp :: es' =>
      s ← (match node temp with
           | None => Ret s
           | Some l => n ← deref (nodes s !! l); Ret (set_node l (with_count (num_processes n + d) n) s)
           end);
      add_counts d es' s
  end.

Definition decrementFiles (p : Process) (s : @vmm F) : outcome vmm := add_counts (-1) (entry_list p) s.

(** The deep copy of the list: a new entry, then its [node]. *)
Definition copy_entry (e : @VMEntry F) : VMEntry :=
  with_node (node e)
    (MkVMEntry (file e) (Vmm.size e) (starting_address e) (offset e) (flags e) (prot e) None).

(** ** fork *)

Definition fork (shared : Z) (p : Process) (s : @vmm F) (o : objects)
  : outcome (option Process * Z * Process * vmm * objects) :=
  match first_free (children p) with
  | None => Ret (None, -1, p, s, o)
  | Some index =>
      '(child, m, o) ← new_process false 0%nat shared (vm_mach s) o;
      m ← copy_private (pd p) (pd child) m;
      let child := set_entry_list (copy_entry <$> entry_list p) child in
      s ← add_counts 1 (entry_list child) (set_mach m s);
      let child := set_sems (sems p) child in
      let child := set_files (files p) child in
      let p := set_children (<[index := Some (output child)]> (children p)) p in
      let p := set_kill_flags (<[index := Some (kill_flag child)]> (kill_flags p)) p in
      Ret (Some child, Z.lor PROC (Z.of_nat index), p, s, o)
  end.

(** [clear_private()], for the process that runs. *)
Definition clear_private (cr3 : Z) (p : Process) (s : @vmm F) : outcome vmm :=
  m ← delete_private kConfig cr3 (pd p) (vm_mach s);
  Ret (set_mach m s).

(** ** Specification: names and what they name *)

Inductive ref := RSem (l : loc) | RChild (l : loc) | RFile (l : loc).

(** [id] decoded: the kind and the slot. *)
Definition handle (p : Process) (id : Z) : option ref :=
  if 0 <=? getSemaphoreIndex id then RSem <$> slot (sems p) (getSemaphoreIndex id)
  else if 0 <=? getChildIndex id then RChild <$> slot (children p) (getChildIndex id)
  else if 0 <=? getFileIndex id then RFile <$> slot (files p) (getFileIndex id)
  else None.

Record proc_wf (p : Process) : Prop := ProcWf {
  pw_files : length (files p) = 10%nat;
  pw_sems : length (sems p) = 10%nat;
  pw_children : length (children p) = 10%nat;
  pw_kill_flags : length (kill_flags p) = 10%nat;
}.

(** ** Lemmas: decoding names *)

Lemma kind_eq x : is_u32 x → Z.land x 0xF0000000 = 268435456 * (x / 268435456).
Proof.
  intros Hx. unfold is_u32 in Hx.
  replace (268435456 * (x / 268435456)) with (Z.shiftl (Z.shiftr x 28) 28).
  2:{ rewrite Z.shiftl_mul_pow2, Z.shiftr_div_pow2 by lia. change (2 ^ 28) with 268435456. lia. }
  apply Z.bits_inj'. intros n Hn. change 0xF0000000 with (Z.shiftl (Z.ones 4) 28).
  rewrite Z.land_spec, !Z.shiftl_spec by lia. destruct (Z.lt_ge_cases n 28).
  - rewrite !(Z.testbit_neg_r _ (n - 28)) by lia. apply andb_false_r.
  - rewrite Z.shiftr_spec by lia. replace (n - 28 + 28) with n by lia.
    destruct (Z.lt_ge_cases n 32).
    + rewrite Z.ones_spec_low by lia. apply andb_true_r.
    + rewrite Z.ones_spec_high, andb_false_r by lia. symmetry.
      rewrite <- (Z.mod_small x (2 ^ 32)) by (change (2 ^ 32) with 4294967296; lia).
      by apply Z.mod_pow2_bits_high.
Qed.

Lemma index_eq x : Z.land x INDEX_MASK = x mod 268435456.
Proof. change INDEX_MASK with (Z.ones 28). by rewrite Z.land_ones by lia. Qed.

(** The three decoders, in closed form. *)
Lemma decode_kind (k id : Z) :
  is_u32 id → k mod 268435456 = 0 →
  (if negb (kind_of id =? k) then -1 else if 10 <=? index_of id then -1 else index_of id) =
  (if (k <=? id) && (id <? k + 10) then id - k else -1).
Proof.
  intros Hid Hk. unfold kind_of, index_of. rewrite u32_small by done.
  rewrite kind_eq, index_eq by done. unfold is_u32 in Hid.
  destruct (Z.eqb_spec (268435456 * (id / 268435456)) k), (Z.leb_spec 10 (id mod 268435456)),
    (Z.leb_spec k id), (Z.ltb_spec id (k + 10)); cbn; zlia.
Qed.

Lemma decode_sem id : is_u32 id →
  getSemaphoreIndex id = if (SEM <=? id) && (id <? SEM + 10) then id - SEM else -1.
Proof. intros. by apply decode_kind. Qed.

Lemma decode_child id : is_u32 id →
  getChildIndex id = if (PROC <=? id) && (id <? PROC + 10) then id - PROC else -1.
Proof. intros. by apply decode_kind. Qed.

Lemma decode_file id : is_u32 id →
  getFileIndex id = if (FL <=? id) && (id <? FL + 10) then id - FL else -1.
Proof. intros. by apply decode_kind. Qed.

(** What a 32-bit name stands for. *)
Lemma handle_eq p id : is_u32 id →
  handle p id =
    if (SEM <=? id) && (id <? SEM + 10) then RSem <$> slot (sems p) (id - SEM)
    else if (PROC <=? id) && (id <? PROC + 10) then RChild <$> slot (children p) (id - PROC)
    else if (0 <=? id) && (id <? 10) then RFile <$> slot (files p) id
    else None.
Proof.
  intros Hid. unfold handle. rewrite decode_sem, decode_child, decode_file by done.
  unfold SEM, PROC, FL. rewrite !Z.sub_0_r. unfold is_u32 in Hid.
  destruct (Z.leb_spec 0x20000000 id), (Z.ltb_spec id (0x20000000 + 10)),
    (Z.leb_spec 0x10000000 id), (Z.ltb_spec id (0x10000000 + 10)),
    (Z.leb_spec 0 id), (Z.ltb_spec id (0 + 10)), (Z.ltb_spec id 10); cbn [andb];
    try lia;
    repeat match goal with |- context [0 <=? ?x] => destruct (Z.leb_spec 0 x) end; done || lia.
Qed.

(** ** Lemmas: tables *)

Lemma first_free_Some t i : first_free t = Some i → t !! i = Some None.
Proof.
  revert i. induction t as [|[x|] t IH]; intros i; cbn; [done| |by intros [= <-]].
  destruct (first_free t) as [j|]; [|done]. intros [= <-]. by apply IH.
Qed.

Lemma first_free_None t i : first_free t = None → (i < length t)%nat → ∃ x, t !! i = Some (Some x).
Proof.
  revert i. induction t as [|[x|] t IH]; intros [|i]; cbn; [lia|lia|by eauto| |done|done].
  destruct (first_free t); [done|]. intros _ Hi. apply IH; [done|lia].
Qed.

Lemma slot_insert_eq t i x : (i < length t)%nat → slot (<[i := x]> t) (Z.of_nat i) = x.
Proof. intros. unfold slot. rewrite Nat2Z.id, list_lookup_insert_eq by done. done. Qed.

Lemma slot_insert_ne t i j x : 0 <= j → Z.of_nat i ≠ j → slot (<[i := x]> t) j = slot t j.
Proof. intros. unfold slot. rewrite list_lookup_insert_ne by lia. done. Qed.

Lemma slot_free t i : first_free t = Some i → slot t (Z.of_nat i) = None.
Proof. intros Hi%first_free_Some. unfold slot. by rewrite Nat2Z.id, Hi. Qed.

Lemma clear_slot_eq t i : 0 <= i < Z.of_nat (length t) → slot (clear_slot t i) i = None.
Proof. intros. unfold clear_slot. rewrite <- (Z2Nat.id i) at 2 by lia. apply slot_insert_eq. lia. Qed.

Lemma clear_slot_ne t i j : 0 <= i → 0 <= j → i ≠ j → slot (clear_slot t i) j = slot t j.
Proof. intros. apply slot_insert_ne; lia. Qed.

(** Updating one slot of one table changes what one name stands for. *)
Lemma handle_sems p i x id :
  is_u32 id → (i < length (sems p))%nat → (i < 10)%nat →
  handle (set_sems (<[i := x]> (sems p)) p) id =
    if id =? SEM + Z.of_nat i then RSem <$> x else handle p id.
Proof.
  intros Hid Hi Hi10. rewrite !handle_eq by done. cbn [sems files children set_sems].
  destruct (Z.eqb_spec id (SEM + Z.of_nat i)) as [->|Hne].
  - rewrite (proj2 (Z.leb_le SEM _)), (proj2 (Z.ltb_lt _ (SEM + 10))) by lia. cbn [andb].
    replace (SEM + Z.of_nat i - SEM) with (Z.of_nat i) by lia. by rewrite slot_insert_eq.
  - destruct (Z.leb_spec SEM id), (Z.ltb_spec id (SEM + 10)); cbn [andb]; try done.
    by rewrite slot_insert_ne by lia.
Qed.

Lemma handle_children p i x id :
  is_u32 id → (i < length (children p))%nat → (i < 10)%nat →
  handle (set_children (<[i := x]> (children p)) p) id =
    if id =? PROC + Z.of_nat i then RChild <$> x else handle p id.
Proof.
  intros Hid Hi Hi10. rewrite !handle_eq by done. cbn [sems files children set_children].
  unfold SEM, PROC in *. destruct (Z.eqb_spec id (0x10000000 + Z.of_nat i)) as [->|Hne].
  - rewrite (proj2 (Z.leb_gt 0x20000000 _)), (proj2 (Z.leb_le 0x10000000 _)),
      (proj2 (Z.ltb_lt _ (0x10000000 + 10))) by lia. cbn [andb].
    replace (0x10000000 + Z.of_nat i - 0x10000000) with (Z.of_nat i) by lia. by rewrite slot_insert_eq.
  - destruct ((0x20000000 <=? id) && _); [done|].
    destruct (Z.leb_spec 0x10000000 id), (Z.ltb_spec id (0x10000000 + 10)); cbn [andb]; try done.
    by rewrite slot_insert_ne by lia.
Qed.

Lemma handle_files p i x id :
  is_u32 id → (i < length (files p))%nat → (i < 10)%nat →
  handle (set_files (<[i := x]> (files p)) p) id =
    if id =? Z.of_nat i then RFile <$> x else handle p id.
Proof.
  intros Hid Hi Hi10. rewrite !handle_eq by done. cbn [sems files children set_files].
  unfold SEM, PROC in *. destruct (Z.eqb_spec id (Z.of_nat i)) as [->|Hne].
  - rewrite (proj2 (Z.leb_gt 0x20000000 _)), (proj2 (Z.leb_gt 0x10000000 _)),
      (proj2 (Z.leb_le 0 _)), (proj2 (Z.ltb_lt _ 10)) by lia. cbn [andb]. by rewrite slot_insert_eq.
  - destruct ((0x20000000 <=? id) && _); [done|]. destruct ((0x10000000 <=? id) && _); [done|].
    destruct (Z.leb_spec 0 id), (Z.ltb_spec id 10); cbn [andb]; try done.
    by rewrite slot_insert_ne by lia.
Qed.

(** A change of one process [p] to [p'] that concerns one name only. *)
Definition only_name (id : Z) (p p' : Process) : Prop :=
  proc_wf p' ∧ ∀ id', is_u32 id' → id' ≠ id → handle p' id' = handle p id'.

Lemma insert_wf p :
  proc_wf p → ∀ i x, proc_wf (set_sems (<[i := x]> (sems p)) p) ∧
    proc_wf (set_children (<[i := x]> (children p)) p) ∧ proc_wf (set_files (<[i := x]> (files p)) p).
Proof. intros [] i x. repeat split; cbn; rewrite ?length_insert; done. Qed.

Lemma free_index t i : length t = 10%nat → first_free t = Some i → (i < length t)%nat ∧ (i < 10)%nat.
Proof. intros Hl Hi%first_free_Some%lookup_lt_Some. lia. Qed.

Lemma full_table t i : length t = 10%nat → first_free t = None → 0 <= i < 10 → slot t i ≠ None.
Proof.
  intros Hl Hf Hi. destruct (first_free_None t (Z.to_nat i) Hf) as [x Hx]; [lia|].
  unfold slot. by rewrite Hx.
Qed.

Lemma newSemaphore_ok init p o :
  proc_wf p →
  let '(r, p', o') := newSemaphore init p o in
  (r = -1 ∧ p' = p ∧ o' = o ∧ ∀ i, 0 <= i < 10 → handle p (SEM + i) ≠ None) ∨
  (is_u32 r ∧ handle p r = None ∧ only_name r p p' ∧ ∃ l, handle p' r = Some (RSem l) ∧
     semaphores o !! l = None ∧ semaphores o' = <[l := make init]> (semaphores o)).
Proof.
  intros Hwf. unfold newSemaphore. destruct (first_free (sems p)) as [i|] eqn:Hi.
  - right. destruct (free_index _ _ (pw_sems _ Hwf) Hi) as [Hl Hlt].
    assert (Z.lor SEM (Z.land (Z.of_nat i) INDEX_MASK) = SEM + Z.of_nat i) as ->.
    { do 10 (destruct i as [|i]; [reflexivity|]). lia. }
    assert (Hu : is_u32 (SEM + Z.of_nat i)) by (unfold is_u32, SEM; lia).
    split; [done|]. split; [|split; [split|]].
    + rewrite handle_eq by done. rewrite (proj2 (Z.leb_le SEM _)), (proj2 (Z.ltb_lt _ (SEM + 10))) by lia.
      cbn [andb]. replace (SEM + Z.of_nat i - SEM) with (Z.of_nat i) by lia. by rewrite slot_free.
    + by apply insert_wf.
    + intros id Hid Hne. rewrite handle_sems by done. by rewrite (proj2 (Z.eqb_neq _ _) Hne).
    + eexists. rewrite handle_sems, Z.eqb_refl by done. split; [done|]. split; [|done].
      apply not_elem_of_dom, is_fresh.
  - left. do 3 (split; [done|]). intros i Hr. rewrite handle_eq by (unfold is_u32, SEM; lia).
    rewrite (proj2 (Z.leb_le SEM _)), (proj2 (Z.ltb_lt _ (SEM + 10))) by lia. cbn [andb].
    replace (SEM + i - SEM) with i by lia. pose proof (full_table _ i (pw_sems _ Hwf) Hi Hr).
    by destruct (slot (sems p) i).
Qed.

Lemma setFile_ok file p :
  proc_wf p →
  let '(r, p') := setFile file p in
  (r = -1 ∧ p' = p ∧ ∀ i, 0 <= i < 10 → handle p i ≠ None) ∨
  (is_u32 r ∧ handle p r = None ∧ only_name r p p' ∧ handle p' r = Some (RFile file)).
Proof.
  intros Hwf. unfold setFile. destruct (first_free (files p)) as [i|] eqn:Hi.
  - right. destruct (free_index _ _ (pw_files _ Hwf) Hi) as [Hl Hlt].
    assert (Hu : is_u32 (Z.of_nat i)) by (unfold is_u32; lia).
    split; [done|]. split; [|split; [split|]].
    + rewrite handle_eq by done. unfold SEM, PROC.
      rewrite (proj2 (Z.leb_gt 0x20000000 _)), (proj2 (Z.leb_gt 0x10000000 _)),
        (proj2 (Z.leb_le 0 _)), (proj2 (Z.ltb_lt _ 10)) by lia. cbn [andb]. by rewrite slot_free.
    + by apply insert_wf.
    + intros id Hid Hne. rewrite handle_files by done. by rewrite (proj2 (Z.eqb_neq _ _) Hne).
    + by rewrite handle_files, Z.eqb_refl by done.
  - left. do 2 (split; [done|]). intros i Hr. rewrite handle_eq by (unfold is_u32; lia).
    unfold SEM, PROC.
    rewrite (proj2 (Z.leb_gt 0x20000000 _)), (proj2 (Z.leb_gt 0x10000000 _)),
      (proj2 (Z.leb_le 0 _)), (proj2 (Z.ltb_lt _ 10)) by lia. cbn [andb].
    pose proof (full_table _ i (pw_files _ Hwf) Hi Hr). by destruct (slot (files p) i).
Qed.

Lemma close_ok id p :
  proc_wf p → is_u32 id →
  let '(rc, p') := close id p in
  (rc = 0 ∧ handle p id ≠ None ∧ handle p' id = None ∧ only_name id p p') ∨
  (rc = -1 ∧ p' = p ∧ handle p id = None).
Proof.
  intros Hwf Hid. unfold close. rewrite decode_sem, decode_child, decode_file by done.
  destruct ((SEM <=? id) && (id <? SEM + 10)) eqn:Hs; [|
    destruct ((PROC <=? id) && (id <? PROC + 10)) eqn:Hc; [|
      destruct ((FL <=? id) && (id <? FL + 10)) eqn:Hf]].
  all: assert (Hh := handle_eq p id Hid); rewrite ?Hs, ?Hc in Hh.
  - bool_to_prop. rewrite (proj2 (Z.eqb_neq (id - SEM) _)) by lia. cbn [negb].
    destruct (slot (sems p) (id - SEM)) as [l|]; [left|right; by auto].
    split; [done|]. split; [by rewrite Hh|]. pose proof (pw_sems _ Hwf).
    assert (E : SEM + Z.of_nat (Z.to_nat (id - SEM)) = id) by lia.
    split; [|split; [by apply insert_wf|]].
    + unfold clear_slot. by rewrite handle_sems, E, Z.eqb_refl by (done || lia).
    + intros id' Hid' Hne. unfold clear_slot. rewrite handle_sems, E by (done || lia).
      by rewrite (proj2 (Z.eqb_neq id' id)).
  - bool_to_prop. rewrite (proj2 (Z.eqb_neq (id - PROC) _)) by lia. cbn [negb].
    change (negb (-1 =? -1)) with false. cbv iota.
    destruct (slot (children p) (id - PROC)) as [l|]; [left|right; by auto].
    split; [done|]. split; [by rewrite Hh|]. pose proof (pw_children _ Hwf).
    assert (E : PROC + Z.of_nat (Z.to_nat (id - PROC)) = id) by lia.
    split; [|split; [by apply insert_wf|]].
    + unfold clear_slot. by rewrite handle_children, E, Z.eqb_refl by (done || lia).
    + intros id' Hid' Hne. unfold clear_slot. rewrite handle_children, E by (done || lia).
      by rewrite (proj2 (Z.eqb_neq id' id)).
  - unfold FL in *. rewrite !Z.sub_0_r, Z.add_0_l in *. rewrite Hf in Hh. bool_to_prop.
    rewrite (proj2 (Z.eqb_neq id _)) by lia. change (negb (-1 =? -1)) with false. cbn [negb].
    destruct (slot (files p) id) as [l|]; [left|right; by auto].
    split; [done|]. split; [by rewrite Hh|]. pose proof (pw_files _ Hwf).
    assert (E : Z.of_nat (Z.to_nat id) = id) by lia.
    split; [|split; [by apply insert_wf|]].
    + unfold clear_slot. by rewrite handle_files, E, Z.eqb_refl by (done || lia).
    + intros id' Hid' Hne. unfold clear_slot. rewrite handle_files, E by (done || lia).
      by rewrite (proj2 (Z.eqb_neq id' id)).
  - change (negb (-1 =? -1)) with false. cbv iota. right. split; [done|]. split; [done|].
    unfold FL in Hf. rewrite Z.add_0_l in Hf. by rewrite Hf in Hh.
Qed.

Lemma lookups_ok id p :
  is_u32 id →
  getSemaphore id p = match handle p id with Some (RSem l) => Some l | _ => None end ∧
  getFile id p = match handle p id with Some (RFile l) => Some l | _ => None end.
Proof.
  intros Hid. split.
  - assert (getSemaphore id p =
      if getSemaphoreIndex id <? 0 then None else slot (sems p) (getSemaphoreIndex id)) as ->.
    { unfold getSemaphore, getSemaphoreIndex, NSEM.
      pose proof (index_eq (u32 id)) as Hx. fold (index_of id) in Hx.
      destruct (kind_of id =? SEM), (10 <=? index_of id) eqn:E; cbn; try done.
      by rewrite (proj2 (Z.ltb_ge _ 0)) by zlia. }
    rewrite decode_sem, handle_eq by done.
    destruct ((SEM <=? id) && (id <? SEM + 10)) eqn:Hs.
    + bool_to_prop. rewrite (proj2 (Z.ltb_ge _ 0)) by lia. by destruct (slot (sems p) _).
    + change (-1 <? 0) with true. cbv iota. repeat (destruct (_ && _)); by try destruct (slot _ _).
  - unfold getFile. rewrite decode_file, handle_eq by done. unfold FL, SEM, PROC.
    rewrite !Z.sub_0_r, Z.add_0_l. destruct ((0 <=? id) && (id <? 10)) eqn:Hf.
    + bool_to_prop. rewrite (proj2 (Z.ltb_ge _ 0)) by lia.
      rewrite (proj2 (Z.leb_gt 0x20000000 id)), (proj2 (Z.leb_gt 0x10000000 id)) by lia. cbn [andb].
      by destruct (slot (files p) _).
    + change (-1 <? 0) with true. cbv iota. repeat (destruct (_ && _)); by try destruct (slot _ _).
Qed.

(** ** Lemmas: reference counts of mapped files *)

(** The number of entries that hold location [l]. *)
Definition uses (es : list (@VMEntry F)) (l : loc) : Z :=
  Z.of_nat (length (filter (λ e, node e = Some l) es)).

Definition nodes_known (es : list (@VMEntry F)) (ns : gmap loc (@NodeEntry F)) : Prop :=
  Forall (λ e, ∀ l, node e = Some l → is_Some (ns !! l)) es.

Lemma uses_cons e es l : uses (e :: es) l = (if decide (node e = Some l) then 1 else 0) + uses es l.
Proof. unfold uses. rewrite filter_cons. destruct (decide _); cbn [length]; lia. Qed.

Lemma u32_add a b : u32 (u32 a + b) = u32 (a + b).
Proof. unfold u32. by rewrite Zplus_mod_idemp_l. Qed.

Lemma add_counts_ok d es (s : @vmm F) :
  nodes_known es (nodes s) →
  ∃ s', add_counts d es s = Ret s' ∧ vm_mach s' = vm_mach s ∧ node_list s' = node_list s ∧
    ∀ l, nodes s' !! l =
      (λ n, if uses es l =? 0 then n else with_count (num_processes n + d * uses es l) n) <$> nodes s !! l.
Proof.
  revert s. induction es as [|e es IH]; intros s Hk; cbn [add_counts].
  - exists s. do 3 (split; [done|]). intros l. change (uses [] l) with 0. by destruct (nodes s !! l).
  - apply Forall_cons in Hk as [He Hk]. destruct (node e) as [l0|] eqn:En.
    + destruct (He l0 eq_refl) as [n0 Hn0]. rewrite Hn0. cbn [deref mbind outcome_bind].
      set (s1 := set_node l0 (with_count (num_processes n0 + d) n0) s).
      destruct (IH s1) as (s' & E & Hm & Hl & Hn).
      { eapply Forall_impl; [exact Hk|]. cbn. intros x Hx l Hxl. destruct (Hx l Hxl) as [n Hn].
        destruct (decide (l = l0)) as [->|]; [rewrite lookup_insert_eq|rewrite lookup_insert_ne by done]; eauto. }
      exists s'. do 3 (split; [done|]). intros l. rewrite Hn, uses_cons, En. cbn [nodes set_node s1].
      destruct (decide (l0 = l)) as [->|Hne].
      * rewrite decide_True, lookup_insert_eq, Hn0 by done. cbn [fmap option_fmap option_map].
        f_equal. unfold uses. destruct (Z.eqb_spec (Z.of_nat (length (filter (λ e, node e = Some l) es))) 0) as [->|Hu].
        -- f_equal. lia.
        -- rewrite (proj2 (Z.eqb_neq _ 0)) by lia. unfold with_count. cbn [ne_file num_processes ne_pa ne_next].
           rewrite u32_add. do 2 f_equal. lia.
      * rewrite decide_False, lookup_insert_ne by congruence. by rewrite Z.add_0_l.
    + cbn [mbind outcome_bind]. destruct (IH s Hk) as (s' & E & Hm & Hl & Hn).
      exists s'. do 3 (split; [done|]). intros l. rewrite Hn, uses_cons, En.
      by rewrite decide_False, Z.add_0_l by done.
Qed.


Lemma copy_entry_eq e : copy_entry e = e.
Proof. by destruct e. Qed.

Lemma copy_entries_eq (es : list (@VMEntry F)) : copy_entry <$> es = es.
Proof. induction es as [|e es IH]; cbn; [done|]. by rewrite copy_entry_eq, IH. Qed.

Lemma child_name i : (i < 10)%nat → Z.lor PROC (Z.of_nat i) = PROC + Z.of_nat i.
Proof. intros Hi. do 10 (destruct i as [|i]; [reflexivity|]). lia. Qed.

(** A slot of the table of children. *)
Lemma handle_child p id f :
  is_u32 id → handle p id = Some (RChild f) →
  getChildIndex id = id - PROC ∧ 0 <= id - PROC < 10 ∧ slot (children p) (id - PROC) = Some f.
Proof.
  intros Hid. rewrite handle_eq, decode_child by done. unfold SEM, PROC.
  destruct (Z.leb_spec 0x20000000 id), (Z.ltb_spec id (0x20000000 + 10)); cbn [andb];
    try (destruct (slot _ _); done);
    (destruct (Z.leb_spec 0x10000000 id), (Z.ltb_spec id (0x10000000 + 10)); cbn [andb];
      [|destruct (_ && _); [by destruct (slot _ _)|done]..]);
    (destruct (slot _ _); intros [= ->]; split; [done|split; [lia|done]]).
Qed.

(** ** Properties *)

(** The names a process hands out.  A new semaphore or file
    gets a name that stood for nothing, or the call returns -1 because all ten
    slots are taken; [close] forgets exactly the given name and fails exactly
    when it stands for nothing; no call changes what any other 32-bit name
    stands for; and [getSemaphore] and [getFile] return what the name stands
    for and nothing when it is of another kind. *)
Lemma names_table (p : Process) (Hwf : proc_wf p) :
  (∀ init o, let '(r, p', o') := newSemaphore init p o in
     (r = -1 ∧ p' = p ∧ o' = o ∧ ∀ i, 0 <= i < 10 → handle p (SEM + i) ≠ None) ∨
     (is_u32 r ∧ handle p r = None ∧ only_name r p p' ∧ ∃ l, handle p' r = Some (RSem l) ∧
        semaphores o !! l = None ∧ semaphores o' = <[l := make init]> (semaphores o))) ∧
  (∀ file, let '(r, p') := setFile file p in
     (r = -1 ∧ p' = p ∧ ∀ i, 0 <= i < 10 → handle p i ≠ None) ∨
     (is_u32 r ∧ handle p r = None ∧ only_name r p p' ∧ handle p' r = Some (RFile file))) ∧
  (∀ id, is_u32 id → let '(rc, p') := close id p in
     (rc = 0 ∧ handle p id ≠ None ∧ handle p' id = None ∧ only_name id p p') ∨
     (rc = -1 ∧ p' = p ∧ handle p id = None)) ∧
  (∀ id, is_u32 id →
     getSemaphore id p = match handle p id with Some (RSem l) => Some l | _ => None end ∧
     getFile id p = match handle p id with Some (RFile l) => Some l | _ => None end).
Proof.
  split; [|split; [|split]].
  - intros init o. by apply newSemaphore_ok.
  - intros file. by apply setFile_ok.
  - intros id Hid. by apply close_ok.
  - intros id Hid. by apply lookups_ok.
Qed.

(** C19 (functional): [fork].  When all ten child slots are taken nothing
    changes and the name is -1.  Otherwise, with enough free frames, the parent
    gets a new name for the child's future and nothing else changes for it; the
    child has the parent's files, semaphores and mapped regions, no children, a
    future that is not set and a kill flag that is down; its private pages are
    copies of the parent's in frames of its own; every frame in use before is
    unchanged; and the user count of each mapped file grows by the number of
    regions of the child that use it. *)
Theorem fork_process (lo : Z) (fl : list Z) (shared : Z) (p : Process) (s : @vmm F) (o : objects)
    (m := vm_mach s)
    (Hp : proc_wf p) (Hk : nodes_known (entry_list p) (nodes s))
    (Hwf : alloc_wf lo fl m) (Hsh : as_wf (allocated lo fl m) (ram m) shared)
    (Hpd : as_wf (allocated lo fl m) (ram m) (pd p)) (Hcfg : config_ok kConfig)
    (Huf : user_frames kConfig lo fl m (pd p)) (Hleft : 3 + copy_cost m (pd p) <= frames_left fl m) :
  match first_free (children p) with
  | None => fork shared p s o = Ret (None, -1, p, s, o)
  | Some index => ∃ child p' fl' s' o', let id := PROC + Z.of_nat index in
      fork shared p s o = Ret (Some child, id, p', s', o') ∧
      (handle p id = None ∧ handle p' id = Some (RChild (output child)) ∧ only_name id p p' ∧
       slot (kill_flags p') (Z.of_nat index) = Some (kill_flag child)) ∧
      (proc_wf child ∧ files child = files p ∧ sems child = sems p ∧
       children child = replicate 10 None ∧ entry_list child = entry_list p) ∧
      (futures o !! output child = None ∧ futures o' = <[output child := None]> (futures o) ∧
       bools o' = <[kill_flag child := false]> (bools o) ∧ semaphores o' = semaphores o) ∧
      (alloc_wf lo fl' (vm_mach s') ∧ user_frames kConfig lo fl' (vm_mach s') (pd child) ∧
       (∀ q, allocated lo fl m q → allocated lo fl' (vm_mach s') q ∧ same_frame m (vm_mach s') q) ∧
       ∀ n, private_page kConfig n → match page m (pd p) n with
         | None => page (vm_mach s') (pd child) n = None
         | Some e => ∃ f, page (vm_mach s') (pd child) n = Some (f + 7) ∧
                       ¬ allocated lo fl m f ∧ copy_of m (base e) (vm_mach s') f
         end) ∧
      ∀ l, nodes s' !! l = (λ n, if uses (entry_list p) l =? 0 then n
             else with_count (num_processes n + 1 * uses (entry_list p) l) n) <$> nodes s !! l
  end.
Proof.
  unfold fork. destruct (first_free (children p)) as [index|] eqn:Hi; [|done].
  destruct (free_index _ _ (pw_children _ Hp) Hi) as [Hil Hi10].
  destruct (fork_memory_ok kConfig lo fl m shared (pd p) Hwf Hsh Hpd Hcfg Huf Hleft)
    as (c & fl1 & m1 & fl' & m' & U & E1 & E2 & _ & Hc & Hnew).
  destruct (child_frames kConfig lo fl m (pd p) c m1 fl1 fl' U _ m' Hc Hnew) as (Hcu & _ & Hpage).
  unfold new_process. fold m. rewrite E1. cbn [mbind outcome_bind pd]. rewrite E2.
  cbn [mbind outcome_bind entry_list set_entry_list]. rewrite copy_entries_eq.
  destruct (add_counts_ok 1 (entry_list p) (set_mach m' s) Hk) as (s' & E3 & Hm & Hl & Hn).
  rewrite E3. cbn [mbind outcome_bind]. change (vm_mach (set_mach m' s)) with m' in Hm.
  do 5 eexists. cbv zeta. split; [by rewrite (child_name index Hi10)|].
  assert (Hu : is_u32 (PROC + Z.of_nat index)) by (unfold is_u32, PROC; lia).
  split; [|split; [|split; [|split]]].
  - split; [|split; [|split]].
    + rewrite handle_eq by done. unfold SEM, PROC.
      rewrite (proj2 (Z.leb_gt 0x20000000 _)), (proj2 (Z.leb_le 0x10000000 _)),
        (proj2 (Z.ltb_lt _ (0x10000000 + 10))) by lia. cbn [andb].
      replace (0x10000000 + Z.of_nat index - 0x10000000) with (Z.of_nat index) by lia.
      by rewrite slot_free.
    + match goal with |- handle (set_kill_flags ?t ?q) ?id = _ =>
        change (handle (set_kill_flags t q) id) with (handle q id) end.
      by rewrite handle_children, Z.eqb_refl by done.
    + split; [split; cbn; rewrite ?length_insert; apply Hp|]. intros id Hid Hne.
      match goal with |- handle (set_kill_flags ?t ?q) ?id = _ =>
        change (handle (set_kill_flags t q) id) with (handle q id) end.
      rewrite handle_children by done. by rewrite (proj2 (Z.eqb_neq _ _) Hne).
    + cbn [kill_flags set_kill_flags set_children]. apply slot_insert_eq.
      by rewrite (pw_kill_flags _ Hp).
  - split; [|done]. split; cbn; apply Hp || done.
  - cbn. split; [|done]. apply not_elem_of_dom, is_fresh.
  - rewrite Hm. split; [apply Hc|]. split; [exact Hcu|]. split; [apply Hc|].
    intros n Hpn. specialize (Hpage n Hpn). destruct (page m (pd p) n); [|done].
    destruct Hpage as (f & ? & _ & _ & ? & ?). eauto.
  - exact Hn.
Qed.

(** C20 (functional): what the parent does with a child's name.  [wait] waits
    until the child has exited; then it returns 0 with the child's status and
    forgets the name, so that a second [wait] returns -1.  A child exits once: a
    second [output->set] is an assertion failure.  [kill] raises the child's
    kill flag, once. *)
Theorem wait_and_kill (p : Process) (o : objects) (id : Z) (f k : loc)
    (Hwf : proc_wf p) (Hid : is_u32 id) (Hf : handle p id = Some (RChild f))
    (Hset : futures o !! f = Some None)
    (Hk : slot (kill_flags p) (id - PROC) = Some k) (Hkb : is_Some (bools o !! k)) :
  wait id p o = Ret None ∧
  (∀ child v w, output child = f → ∃ o' p', set_output v child o = Ret o' ∧
     set_output w child o' = Panic "!isReady" ∧
     wait id p o' = Ret (Some (0, Some v, p')) ∧ handle p' id = None ∧ only_name id p p' ∧
     wait id p' o' = Ret (Some (-1, None, p'))) ∧
  (∃ p' o', kill id p o = Ret (0, p', o') ∧ bools o' = <[k := true]> (bools o) ∧
     (∀ id', handle p' id' = handle p id') ∧ kill id p' o' = Ret (-1, p', o')).
Proof.
  destruct (handle_child p id f Hid Hf) as (Hi & Hr & Hs).
  assert (Hlt : (Z.to_nat (id - PROC) < 10)%nat) by lia.
  split; [|split].
  - unfold wait. rewrite Hi, (proj2 (Z.ltb_ge _ 0)), Hs by lia. by rewrite Hset.
  - intros child v w <-.
    exists (MkObjects (semaphores o) (<[output child := Some v]> (futures o)) (bools o)),
      (set_children (clear_slot (children p) (id - PROC)) p).
    unfold set_output. rewrite Hset. cbn [deref mbind outcome_bind ASSERT futures].
    split; [done|]. rewrite lookup_insert_eq. split; [done|].
    unfold wait. rewrite Hi, (proj2 (Z.ltb_ge _ 0)), Hs by lia. cbn [futures].
    rewrite lookup_insert_eq. split; [done|].
    assert (E : PROC + Z.of_nat (Z.to_nat (id - PROC)) = id) by lia.
    pose proof (pw_children _ Hwf) as Hlc. split; [|split; [split|]].
    + unfold clear_slot. by rewrite handle_children, E, Z.eqb_refl by (done || lia).
    + by apply insert_wf.
    + intros id' Hid' Hne. unfold clear_slot. rewrite handle_children, E by (done || lia).
      by rewrite (proj2 (Z.eqb_neq id' id)).
    + cbn [children set_children]. by rewrite clear_slot_eq by lia.
  - eexists _, _. unfold kill. rewrite Hi, (proj2 (Z.ltb_ge _ 0)), Hk by lia.
    destruct Hkb as [b ->]. cbn [deref mbind outcome_bind kill_flags set_kill_flags].
    split; [done|]. split; [done|]. split; [done|].
    cbn [kill_flags set_kill_flags]. rewrite clear_slot_eq; [done|]. rewrite (pw_kill_flags _ Hwf). lia.
Qed.

End Process.

(** ** Witnesses: a process with one open file, one semaphore and one child *)

Definition demo_process (es : list (@VMEntry DemoFile)) : Process (F := DemoFile) :=
  MkProcess (Some 7%nat :: replicate 9 None) (Some 8%nat :: replicate 9 None)
    (Some 9%nat :: replicate 9 None) (Some 5%nat :: replicate 9 None) 1%nat 2%nat 6291456 es.

Definition demo_objects : objects :=
  MkObjects {[8%nat := make 1]} {[1%nat := None; 9%nat := None]} {[2%nat := false; 5%nat := false]}.

Lemma demo_process_wf es : proc_wf (demo_process es).
Proof. by split. Qed.

Lemma names_table_witness :
  let p := demo_process [] in
  let '(r, p', o') := newSemaphore 3 p demo_objects in
  (r = -1 ∧ p' = p ∧ o' = demo_objects ∧ ∀ i, 0 <= i < 10 → handle p (SEM + i) ≠ None) ∨
  (is_u32 r ∧ handle p r = None ∧ only_name r p p' ∧ ∃ l, handle p' r = Some (RSem l) ∧
     semaphores demo_objects !! l = None ∧ semaphores o' = <[l := make 3]> (semaphores demo_objects)).
Proof.
  destruct (names_table (demo_process []) (demo_process_wf [])) as [H _].
  exact (H 3 demo_objects).
Defined.

(** It forks a second child, which gets slot 1 and shares the mapped file. *)
Lemma fork_process_witness :
  ∃ child p' s' o', fork demo_config 6291456 (demo_process [demo_mapping (Some 0%nat)]) demo_vmm3
      demo_objects = Ret (Some child, PROC + 1, p', s', o') ∧
    num_processes <$> nodes s' !! 0%nat = Some 2.
Proof.
  destruct dm3_fork as (fl & Hwf & Has & Huf & Hc & Hl).
  destruct (fork_process demo_config 6291456 fl 6291456 (demo_process [demo_mapping (Some 0%nat)])
    demo_vmm3 demo_objects) as (child & p' & fl' & s' & o' & E & _ & _ & _ & _ & Hn).
  - apply demo_process_wf.
  - apply Forall_singleton. intros l [= <-]. vm_compute. eauto.
  - exact Hwf.
  - exact Has.
  - exact Has.
  - apply demo_config_ok.
  - exact Huf.
  - change (vm_mach demo_vmm3) with dm3. cbn [pd demo_process]. rewrite Hc, Hl. lia.
  - exists child, p', s', o'. split; [exact E|]. rewrite Hn. reflexivity.
Defined.

Lemma wait_and_kill_witness :
  wait PROC (demo_process []) demo_objects = Ret None ∧
  ∃ p' o', kill PROC (demo_process []) demo_objects = Ret (0, p', o') ∧ bools o' !! 5%nat = Some true.
Proof.
  destruct (wait_and_kill (demo_process []) demo_objects PROC 9%nat 5%nat) as (H1 & _ & H2).
  - apply demo_process_wf.
  - done.
  - reflexivity.
  - reflexivity.
  - reflexivity.
  - exists false. reflexivity.
  - split; [exact H1|]. destruct H2 as (p' & o' & E & Hb & _). exists p', o'. split; [exact E|].
    rewrite Hb. reflexivity.
Defined.
