(* ===== verification/UserMem.v ===== *)
(** * User memory: accesses through the page tables and the page-fault handler

    The kernel reads and writes the memory of the current process through the
    processor's translation; an access to a page that is not mapped raises a
    page fault, [vmm_pageFault] (file Vmm) runs and the access is retried.  The
    system calls (file Sys) use the operations defined here, and the theorem
    states that they implement a flat memory. *)

From S2P Require Import Prelude Mem Config PhysMem Paging BlockIO Vmm Fork.
Local Open Scope Z_scope.

Section UserMem.
Context {F : Type} `{FileNode F} (kConfig : Config).

(** The physical address the processor uses for [va]. *)
Definition phys (m : mach) (pd va : Z) : option Z :=
  match walk (ram m) pd va with Some e => Some (base e + va mod 4096) | None => None end.

(** The state an access works on: the regions of the process and the memory. *)
Record ustate := MkUstate { regions : list (@VMEntry F); uvmm : @vmm F }.

Definition umach (u : ustate) : mach := vm_mach (uvmm u).

Definition uset_ram (r : mem) (u : ustate) : ustate :=
  MkUstate (regions u) (set_mach (set_ram r (umach u)) (uvmm u)).

(** One access: the physical address; the thread ends when the fault handler
    finds no region. Addresses have 32 bits. *)
Definition access (pd va : Z) : prog ustate Z := λ u,
  let va := u32 va in
  match phys (umach u) pd va with
  | Some pa => Ret (Some pa, u)
  | None =>
      '(ok, es, s) ← vmm_pageFault pd pd pd va (regions u) (uvmm u);
      if ok : bool then
        pa ← deref (phys (vm_mach s) pd va);
        Ret (Some pa, MkUstate es s)
      else Ret (None, MkUstate es s)
  end.

Definition user_ld8 (pd va : Z) : prog ustate Z :=
  let! pa := access pd va in pget (λ u, ld8 (ram (umach u)) pa).

Definition user_st8 (pd va v : Z) : prog ustate unit :=
  let! pa := access pd va in pset (λ u, uset_ram (st8 (ram (umach u)) pa v) u).

(** Byte after byte, as [memcpy] does and as a block device fills a buffer. *)
Fixpoint user_store (pd va : Z) (bs : list Z) : prog ustate unit :=
  match bs with
  | [] => pret tt
  | b :: bs' => let! _ := user_st8 pd va b in user_store pd (va + 1) bs'
  end.

Fixpoint user_load (pd va : Z) (n : nat) : prog ustate (list Z) :=
  match n with
  | O => pret []
  | S n' =>
      let! b := user_ld8 pd va in
      let! bs := user_load pd (va + 1) n' in
      pret (b :: bs)
  end.

(** The bytes of a 32-bit word. *)
Definition word (v : Z) : list Z := [u8 v; u8 (Z.shiftr v 8); u8 (Z.shiftr v 16); u8 (Z.shiftr v 24)].

Definition user_st32 (pd va v : Z) : prog ustate unit := user_store pd va (word v).

Definition user_ld32 (pd va : Z) : prog ustate Z :=
  let! bs := user_load pd va 4 in pret (le bs).

(** ** Specification: the memory a process sees *)

(** The region the fault handler finds for the page of [va]. *)
Definition region_of (es : list (@VMEntry F)) (va : Z) : option (@VMEntry F) :=
  List.find (λ e, covers e (framedown va)) es.

(** [va] belongs to memory of the process's own: its page is in an anonymous
    region and is not a page of the APICs. *)
Definition own_memory (es : list (@VMEntry F)) (va : Z) : Prop :=
  is_u32 va ∧ private_page kConfig (va / 4096) ∧
  ∃ e, region_of es va = Some e ∧ (file e = None ∨ Z.land (flags e) 1 = 0).

(** The byte at [va]; pages that are not mapped yet read as zeros. *)
Definition view (s : @vmm F) (pd va : Z) : Z :=
  match phys (vm_mach s) pd va with Some pa => ld8 (ram (vm_mach s)) pa | None => 0 end.

Record user_wf (lo : Z) (fl : list Z) (s : @vmm F) (pd : Z) : Prop := UserWf {
  uw_wf : alloc_wf lo fl (vm_mach s);
  uw_as : as_wf (allocated lo fl (vm_mach s)) (ram (vm_mach s)) pd;
  uw_uf : user_frames kConfig lo fl (vm_mach s) pd;
}.

(** Frames that are in use and do not belong to the process. *)
Definition foreign (lo : Z) (fl : list Z) (m : mach) (pd q : Z) : Prop :=
  allocated lo fl m q ∧ q ≠ pd ∧
  (∀ i, 0 <= i < 1024 → absent (entry (ram m) pd i) = false → base (entry (ram m) pd i) ≠ q) ∧
  (∀ n e, private_page kConfig n → page m pd n = Some e → base e ≠ q).

(** ** Lemmas *)

Lemma region_split es va e :
  region_of es va = Some e →
  ∃ b a, es = b ++ e :: a ∧ Forall (λ x, covers x (framedown va) = false) b ∧
    covers e (framedown va) = true.
Proof.
  unfold region_of. induction es as [|x es IH]; cbn; [done|].
  destruct (covers x (framedown va)) eqn:Hx.
  - intros [= ->]. exists [], es. by split.
  - intros He. destruct (IH He) as (b & a & -> & Hb & Hc). exists (x :: b), a. split; [done|].
    split; [by constructor|done].
Qed.

Lemma own_high es va : own_memory es va → is_u32 va ∧ 2147483648 <= va.
Proof. intros (Hu & [Hn _] & _). split; [done|]. zlia. Qed.

Lemma phys_page m pd va : phys m pd va =
  match page m pd (va / 4096) with Some e => Some (base e + va mod 4096) | None => None end.
Proof. unfold phys. by rewrite page_walk. Qed.

(** ** Lemmas: after a page has been mapped *)

Section Mapped.
Context {lo : Z} {fl : list Z} {m : mach} {pd va pa : Z} {fl' : list Z} {m' : mach}.
Hypothesis Hm : page_mapped lo fl m pd (framedown va) pa fl' m'.
Hypothesis Has : as_wf (allocated lo fl m) (ram m) pd.
Hypothesis Huf : user_frames kConfig lo fl m pd.
Hypothesis Hfresh : ¬ allocated lo fl m pa.
Hypothesis Hu : is_u32 va.
Hypothesis Hnone : page m pd (va / 4096) = None.

Lemma mapped_base : base (pa + 7) = pa.
Proof using Hm.
  destruct (frame_u32 _ _ _ _ (pm_wf _ _ _ _ _ _ _ _ Hm) (pm_pa _ _ _ _ _ _ _ _ Hm)) as [Hpu Hpal].
  rewrite <- lor_flags by (done || lia). by apply base_flags.
Qed.

Lemma mapped_number : framedown va / 4096 = va / 4096.
Proof using Hu. by apply framedown_page. Qed.

Lemma mapped_page : page m' pd (va / 4096) = Some (pa + 7).
Proof using Hm Hu.
  rewrite <- page_walk, (walk_page _ _ va (framedown va)); [apply Hm|]. by rewrite mapped_number.
Qed.

Lemma mapped_other k : 0 <= k < 1048576 → k ≠ va / 4096 → page m' pd k = page m pd k.
Proof using Hm Hu.
  intros Hk Hne. apply (pm_other _ _ _ _ _ _ _ _ Hm); [by apply page_u32|].
  rewrite mapped_number, Z.mul_comm, Z.div_mul; lia.
Qed.

(** A frame that was no table is none afterwards. *)
Lemma mapped_not_table q : allocated lo fl m q →
  (∀ i, 0 <= i < 1024 → absent (entry (ram m) pd i) = false → base (entry (ram m) pd i) ≠ q) →
  (∀ i, 0 <= i < 1024 → absent (entry (ram m') pd i) = false → base (entry (ram m') pd i) ≠ q) ∧
  not_table m pd (framedown va) q.
Proof using Hm Hu.
  intros Hq Hqt. split.
  - intros i Hi Ha. destruct (pm_tables _ _ _ _ _ _ _ _ Hm i Hi Ha) as [E1|[H1 _]].
    + rewrite E1 in Ha |- *. by apply Hqt.
    + by intros <-.
  - intros Ha ->. apply (Hqt (pdi_of (framedown va))); [|done|done]. by apply pdi_range, framedown_page.
Qed.

Lemma mapped_not_new q : allocated lo fl m q → q ≠ pa.
Proof using Hfresh. by intros Hq ->. Qed.

(** The frame of a page is the new one or an old one. *)
Lemma mapped_frame j f : private_page kConfig j → page m' pd j = Some f →
  (j = va / 4096 ∧ base f = pa) ∨ (page m pd j = Some f ∧ allocated lo fl m (base f)).
Proof using Hm Huf Hu.
  intros Hj Hf. destruct (decide (j = va / 4096)) as [->|Hj'].
  - left. rewrite mapped_page in Hf. injection Hf as <-. split; [done|apply mapped_base].
  - right. rewrite mapped_other in Hf by (done || (destruct Hj; lia)). split; [done|].
    by apply (uf_frame _ _ _ _ _ Huf j).
Qed.

Lemma mapped_user_frames : user_frames kConfig lo fl' m' pd.
Proof using Hm Has Huf Hfresh Hu.
  split.
  - intros k e' Hk He'. destruct (decide (k = va / 4096)) as [->|Hne].
    + rewrite mapped_page in He'. injection He' as <-. rewrite mapped_base. split; [apply Hm|]. split.
      * apply not_eq_sym, mapped_not_new, Has.
      * intros i Hi Ha. destruct (pm_tables _ _ _ _ _ _ _ _ Hm i Hi Ha) as [E1|[_ H1]]; [|done].
        rewrite E1 in Ha |- *. apply mapped_not_new. by apply (as_table _ _ _ Has).
    + rewrite mapped_other in He' by (done || (destruct Hk; lia)).
      destruct (uf_frame _ _ _ _ _ Huf k e' Hk He') as (H1 & H2 & H3).
      split; [by apply Hm|]. split; [done|]. by apply (mapped_not_table (base e')).
  - intros k k' e1 e2 Hk Hk' Hne He1 He2.
    destruct (mapped_frame k e1 Hk He1) as [[-> ->]|[H1 H2]], (mapped_frame k' e2 Hk' He2) as [[-> ->]|[H3 H4]].
    + done.
    + apply not_eq_sym. by apply mapped_not_new.
    + by apply mapped_not_new.
    + by apply (uf_inj _ _ _ _ _ Huf k k').
Qed.

Lemma mapped_foreign q : foreign lo fl m pd q → same_frame m m' q ∧ foreign lo fl' m' pd q.
Proof using Hm Hfresh Hu.
  intros (Hq & Hqpd & Hqt & Hqf). destruct (mapped_not_table q Hq Hqt) as [H1 H2].
  split; [by apply Hm|]. split; [by apply Hm|]. do 2 (split; [done|]).
  intros k e' Hk He'. destruct (decide (k = va / 4096)) as [->|Hne].
  - rewrite mapped_page in He'. injection He' as <-. rewrite mapped_base. apply not_eq_sym. by apply mapped_not_new.
  - rewrite mapped_other in He' by (done || (destruct Hk; lia)). by apply (Hqf k).
Qed.

(** A new frame of zeros is what the process saw before. *)
Lemma mapped_view (s s' : @vmm F) x :
  vm_mach s = m → vm_mach s' = m' → frame_is m' pa (λ _, 0) → is_u32 x → private_page kConfig (x / 4096) →
  view s' pd x = view s pd x.
Proof using Hm Huf Hu Hnone.
  intros Es Es' Hzero Hx Hp. unfold view. rewrite Es, Es', !phys_page.
  destruct (decide (x / 4096 = va / 4096)) as [En|Hne].
  - rewrite En, mapped_page, Hnone, mapped_base. unfold ld8.
    by rewrite Hzero by (apply Z.mod_pos_bound; done).
  - rewrite mapped_other by (done || (destruct Hp; lia)).
    destruct (page m pd (x / 4096)) as [e'|] eqn:He'; [|done].
    destruct (uf_frame _ _ _ _ _ Huf _ e' Hp He') as (H1 & H2 & H3).
    apply (ld8_agree _ _ (base e') 4096); [|pose proof (Z.mod_pos_bound x 4096); lia..]. apply (pm_same _ _ _ _ _ _ _ _ Hm); [done|done|].
    by apply mapped_not_table.
Qed.

End Mapped.

(** After a fault on an anonymous page. *)
Lemma fault_own lo fl s pd es va :
  user_wf lo fl s pd → own_memory es va → phys (vm_mach s) pd va = None →
  returns_or "no more frames" (frames_left fl (vm_mach s) <= 1)
    (vmm_pageFault pd pd pd va es s)
    (λ '(ok, es', s'), ok = true ∧ es' = es ∧ (∃ fl', user_wf lo fl' s' pd ∧
        frames_left fl (vm_mach s) - 2 <= frames_left fl' (vm_mach s') ∧
        ∀ q, foreign lo fl (vm_mach s) pd q →
          same_frame (vm_mach s) (vm_mach s') q ∧ foreign lo fl' (vm_mach s') pd q) ∧
       (∃ pa, phys (vm_mach s') pd va = Some pa) ∧
       (∀ va', is_u32 va' → private_page kConfig (va' / 4096) → view s' pd va' = view s pd va') ∧
       nodes s' = nodes s ∧ node_list s' = node_list s).
Proof.
  intros [Hwf Has Huf] Hown Hnone. destruct (own_high es va Hown) as [Hu Hhi].
  destruct Hown as (_ & Hpriv & e & Hreg & Hanon).
  destruct (region_split es va e Hreg) as (b & a & -> & Hb & He).
  destruct (fault_anonymous_ok lo fl s pd va b a e Hwf Has Hu Hhi Hb He Hanon)
    as [[E Hl]|(pa & fl' & s' & E & Hfresh & Hpm & Hzero & Hns & Hnl)]; [by left|right].
  assert (Hn0 : page (vm_mach s) pd (va / 4096) = None).
  { rewrite phys_page in Hnone. by destruct (page (vm_mach s) pd (va / 4096)). }
  eexists. split; [done|]. do 2 (split; [done|]). split; [|split; [|split; [|done]]].
  - exists fl'. split; [split; [apply Hpm|apply Hpm|by apply (mapped_user_frames Hpm Has Huf Hfresh Hu)]|].
    split; [apply Hpm|]. intros q. by apply (mapped_foreign Hpm Hfresh Hu).
  - exists (pa + va mod 4096). by rewrite phys_page, (mapped_page Hpm Hu), (mapped_base Hpm).
  - intros x Hx Hp. by apply (mapped_view Hpm Huf Hu Hn0 s s').
Qed.

(** What an access does to everything else: [w] is the memory the process sees
    afterwards, [K] the number of frames it may take. *)
Record user_step (lo : Z) (fl : list Z) (u : ustate) (pd K : Z) (w : Z → Z) (fl' : list Z) (u' : ustate)
  : Prop := UserStep {
  us_wf : user_wf lo fl' (uvmm u') pd;
  us_regions : regions u' = regions u;
  us_view va : is_u32 va → private_page kConfig (va / 4096) → view (uvmm u') pd va = w va;
  us_foreign q : foreign lo fl (umach u) pd q →
    same_frame (umach u) (umach u') q ∧ foreign lo fl' (umach u') pd q;
  us_nodes : nodes (uvmm u') = nodes (uvmm u) ∧ node_list (uvmm u') = node_list (uvmm u);
  us_left : frames_left fl (umach u) - K <= frames_left fl' (umach u');
}.

Lemma user_step_refl lo fl u pd : user_wf lo fl (uvmm u) pd →
  user_step lo fl u pd 0 (view (uvmm u) pd) fl u.
Proof. split; try done. lia. Qed.

Lemma user_step_trans lo fl u pd K w fl1 u1 K' w' fl2 u2 :
  user_step lo fl u pd K w fl1 u1 → user_step lo fl1 u1 pd K' w' fl2 u2 →
  user_step lo fl u pd (K + K') w' fl2 u2.
Proof.
  intros [W1 R1 V1 F1 [N1 L1] C1] [W2 R2 V2 F2 [N2 L2] C2]. split; try done; try congruence; try lia.
  - intros q Hq. destruct (F1 q Hq) as [S1 Q1], (F2 q Q1) as [S2 Q2]. split; [|done].
    by eapply agree_trans.
  - split; congruence.
Qed.

Lemma user_step_view lo fl u pd K K' w w' fl' u' :
  user_step lo fl u pd K w fl' u' → K <= K' →
  (∀ va, is_u32 va → private_page kConfig (va / 4096) → w va = w' va) →
  user_step lo fl u pd K' w' fl' u'.
Proof.
  intros [] HK Hw. split; try done; try lia. intros va Hu Hp. rewrite us_view0 by done. by apply Hw.
Qed.

Lemma access_own lo fl u pd va :
  user_wf lo fl (uvmm u) pd → own_memory (regions u) va →
  returns_or "no more frames" (frames_left fl (umach u) < 2) (access pd va u)
    (λ '(r, u'), ∃ pa fl', r = Some pa ∧ phys (umach u') pd va = Some pa ∧
       user_step lo fl u pd 2 (view (uvmm u) pd) fl' u').
Proof.
  intros Hwf Hown. unfold access. rewrite u32_small by apply Hown.
  destruct (phys (umach u) pd va) as [pa|] eqn:Hp.
  - right. eexists. split; [done|]. exists pa, fl. split; [done|]. split; [done|].
    eapply user_step_view; [by apply user_step_refl|lia|done].
  - eapply returns_or_bind.
    { eapply returns_or_mono; [by apply (fault_own lo fl (uvmm u) pd (regions u) va)|unfold umach; lia|].
      intros a Ha. exact Ha. }
    intros [[ok es] s] (-> & -> & (fl' & Hwf' & Hleft & Hfor) & [pa Hpa] & Hv & Hn & Hl).
    rewrite Hpa. cbn [deref mbind outcome_bind]. right. eexists. split; [done|]. exists pa, fl'.
    split; [done|]. split; [done|]. by split.
Qed.

(** Writing inside a frame that is no page table. *)
Lemma write_space lo fl m pd p r :
  alloc_wf lo fl m → as_wf (allocated lo fl m) (ram m) pd → allocated lo fl m p → p ≠ pd →
  (∀ i, 0 <= i < 1024 → absent (entry (ram m) pd i) = false → base (entry (ram m) pd i) ≠ p) →
  (∀ b k, p + 4096 <= b ∨ b + k <= p → agree r (ram m) b k) →
  let m' := set_ram r m in
  alloc_wf lo fl m' ∧ as_wf (allocated lo fl m') (ram m') pd ∧
  (∀ i, 0 <= i < 1024 → entry (ram m') pd i = entry (ram m) pd i) ∧
  (∀ va, is_u32 va → walk (ram m') pd va = walk (ram m) pd va) ∧
  (∀ q, q mod 4096 = 0 → q ≠ p → same_frame m m' q).
Proof.
  intros Hwf Has Hp Hne Hnt Hr m'. pose proof (allocated_aligned _ _ _ _ Hp) as Hpa.
  assert (Hsame : ∀ q, q mod 4096 = 0 → q ≠ p → same_frame m m' q).
  { intros q Hq Hqp. apply Hr. destruct (frames_disjoint p q); auto. }
  pose proof (allocated_aligned _ _ _ _ (as_pd _ _ _ Has)) as Hpda.
  split; [|split; [|split; [|split; [|done]]]].
  - apply alloc_wf_write; [done|]. intros f Hf. pose proof (wf_free _ _ _ Hwf) as Hfr.
    rewrite Forall_forall in Hfr. destruct (Hfr f Hf) as [Hfa _]. destruct Hp as [_ Hnf].
    eapply agree_sub; [apply (Hsame f Hfa)|lia|lia]. by intros ->.
  - eapply as_wf_agree; [..|exact Has]; [done|]. by apply Hsame.
  - intros i Hi. apply entry_agree; [by apply Hsame|done].
  - intros va Hva. apply walk_agree; [done|by apply Hsame|]. intros Ha.
    apply Hsame; [apply base_aligned|]. by apply Hnt; [apply pdi_range|].
Qed.

(** Writing a byte of a mapped page of the process's own. *)
Lemma store_mapped lo fl u pd va pa v :
  user_wf lo fl (uvmm u) pd → is_u32 va → private_page kConfig (va / 4096) →
  phys (umach u) pd va = Some pa →
  user_step lo fl u pd 0 (λ x, if x =? va then u8 v else view (uvmm u) pd x) fl
    (uset_ram (st8 (ram (umach u)) pa v) u).
Proof.
  intros [Hwf Has Huf] Hu Hpriv Hp. rewrite phys_page in Hp. fold (umach u) in Hwf, Has, Huf.
  destruct (page (umach u) pd (va / 4096)) as [e|] eqn:He; [|done]. injection Hp as <-.
  destruct (uf_frame _ _ _ _ _ Huf _ e Hpriv He) as (Hb1 & Hb2 & Hb3).
  set (pa := base e + va mod 4096).
  destruct (write_space lo fl (umach u) pd (base e) (st8 (ram (umach u)) pa v) Hwf Has Hb1 Hb2 Hb3)
    as (Hwf' & Has' & Hent & Hwalk & Hsame).
  { intros b k Hb x Hx. unfold st8. destruct (Z.eqb_spec x pa); [|done]. unfold pa in *. zlia. }
  set (m' := set_ram (st8 (ram (umach u)) pa v) (umach u)) in *.
  assert (Hpg : ∀ n, 0 <= n < 1048576 → page m' pd n = page (umach u) pd n).
  { intros n Hn. apply Hwalk. by apply page_u32. }
  split; [split; [done|done|split]|done| | |done|change (umach (uset_ram _ _)) with m'; unfold frames_left; cbn; lia].
  - intros n e' Hn. change (vm_mach _) with m'. rewrite Hpg by (destruct Hn; lia). intros He'.
    destruct (uf_frame _ _ _ _ _ Huf n e' Hn He') as (H1 & H2 & H3). split; [done|]. split; [done|].
    intros i Hi. rewrite Hent by done. by apply H3.
  - intros n n' e1 e2 Hn Hn' Hne. change (vm_mach _) with m'.
    rewrite !Hpg by (destruct Hn, Hn'; lia). by apply (uf_inj _ _ _ _ _ Huf n n').
  - intros x Hx Hpx. unfold view. change (vm_mach (uvmm (uset_ram _ _))) with m'.
    fold (umach u). rewrite !phys_page, Hpg by (destruct Hpx; lia).
    destruct (page (umach u) pd (x / 4096)) as [e'|] eqn:He'.
    + destruct (Z.eqb_spec x va) as [->|Hne].
      * assert (e' = e) as -> by congruence. fold pa. unfold ld8. cbn [m' ram set_ram]. unfold st8.
        by rewrite Z.eqb_refl, u8_idemp.
      * unfold ld8. cbn [m' ram set_ram]. unfold st8. rewrite (proj2 (Z.eqb_neq _ _)); [done|].
        unfold pa. intros Heq. destruct (decide (x / 4096 = va / 4096)) as [E|E].
        -- rewrite E in He'. assert (e' = e) as -> by congruence. apply Hne. zlia.
        -- apply (uf_inj _ _ _ _ _ Huf _ _ e' e Hpx Hpriv E He' He).
           destruct (uf_frame _ _ _ _ _ Huf _ e' Hpx He') as (H1 & _).
           pose proof (allocated_aligned _ _ _ _ H1). pose proof (allocated_aligned _ _ _ _ Hb1). zlia.
    + destruct (Z.eqb_spec x va) as [->|]; [congruence|done].
  - intros q (Hq & Hqpd & Hqt & Hqf). change (umach (uset_ram _ _)) with m'.
    assert (Hqb : q ≠ base e) by (intros ->; by apply (Hqf _ e Hpriv He)).
    split; [apply Hsame; [by eapply allocated_aligned|done]|]. split; [done|]. split; [done|]. split.
    + intros i Hi. rewrite Hent by done. by apply Hqt.
    + intros n e' Hn. rewrite Hpg by (destruct Hn; lia). by apply Hqf.
Qed.

Lemma user_ld8_own lo fl u pd va :
  user_wf lo fl (uvmm u) pd → own_memory (regions u) va →
  returns_or "no more frames" (frames_left fl (umach u) < 2) (user_ld8 pd va u)
    (λ '(r, u'), r = Some (view (uvmm u) pd va) ∧
       ∃ fl', user_step lo fl u pd 2 (view (uvmm u) pd) fl' u').
Proof.
  intros Hwf Hown. unfold user_ld8, pbind. eapply returns_or_bind; [by apply (access_own lo fl)|].
  intros [r u'] (pa & fl' & -> & Hpa & Hs). apply returns_or_ret. split; [|by exists fl'].
  f_equal. rewrite <- (us_view _ _ _ _ _ _ _ _ Hs va); [|apply Hown..].
  unfold view. fold (umach u'). by rewrite Hpa.
Qed.

Lemma user_st8_own lo fl u pd va v :
  user_wf lo fl (uvmm u) pd → own_memory (regions u) va →
  returns_or "no more frames" (frames_left fl (umach u) < 2) (user_st8 pd va v u)
    (λ '(r, u'), r = Some tt ∧
       ∃ fl', user_step lo fl u pd 2 (λ x, if x =? va then u8 v else view (uvmm u) pd x) fl' u').
Proof.
  intros Hwf Hown. unfold user_st8, pbind. eapply returns_or_bind; [by apply (access_own lo fl)|].
  intros [r u'] (pa & fl' & -> & Hpa & Hs). apply returns_or_ret. split; [done|]. exists fl'.
  pose proof (store_mapped lo fl' u' pd va pa v (us_wf _ _ _ _ _ _ _ _ Hs)) as Hw.
  eapply user_step_view; [eapply user_step_trans; [exact Hs|apply Hw; [apply Hown|apply Hown|done]]|lia|].
  intros x Hx Hp. cbn. by rewrite (us_view _ _ _ _ _ _ _ _ Hs x Hx Hp).
Qed.

(** Whole buffers. *)
Lemma user_store_own lo fl u pd va bs :
  user_wf lo fl (uvmm u) pd →
  (∀ i, 0 <= i < Z.of_nat (length bs) → own_memory (regions u) (va + i)) →
  returns_or "no more frames" (frames_left fl (umach u) < 2 * Z.of_nat (length bs))
    (user_store pd va bs u)
    (λ '(r, u'), r = Some tt ∧ ∃ fl', user_step lo fl u pd (2 * Z.of_nat (length bs))
       (store_bytes (view (uvmm u) pd) va bs) fl' u').
Proof.
  revert lo fl u va. induction bs as [|b bs IH]; intros lo fl u va Hwf Hown; cbn [user_store].
  - apply returns_or_ret. split; [done|]. exists fl.
    eapply user_step_view; [by apply user_step_refl|done|]. intros x _ _. unfold store_bytes.
    destruct (Z.leb_spec va x), (Z.ltb_spec x (va + Z.of_nat (length (@nil Z)))); cbn in *; done || lia.
  - cbn [length] in *. unfold pbind. eapply returns_or_bind.
    { eapply returns_or_mono; [apply (user_st8_own lo fl u pd va b Hwf)|lia|intros a Ha; exact Ha].
      replace va with (va + 0) by lia. apply Hown. lia. }
    intros [r u1] (-> & fl1 & Hs). pose proof (us_left _ _ _ _ _ _ _ _ Hs).
    eapply returns_or_mono; [apply (IH lo fl1 u1 (va + 1)); [apply Hs|]|lia|].
    + intros i Hi. rewrite (us_regions _ _ _ _ _ _ _ _ Hs). replace (va + 1 + i) with (va + (i + 1)) by lia.
      apply Hown. lia.
    + intros [r u2] (-> & fl2 & Hs2). split; [done|]. exists fl2.
      eapply user_step_view; [by eapply user_step_trans|lia|]. intros x Hx Hp. unfold store_bytes.
      cbn [length]. rewrite (us_view _ _ _ _ _ _ _ _ Hs x Hx Hp).
      destruct (Z.leb_spec (va + 1) x), (Z.leb_spec va x), (Z.eqb_spec x va),
        (Z.ltb_spec x (va + 1 + Z.of_nat (length bs))), (Z.ltb_spec x (va + Z.of_nat (S (length bs))));
        cbn [andb]; try lia; try done.
      * replace (Z.to_nat (x - va)) with (S (Z.to_nat (x - (va + 1)))) by lia. done.
      * subst x. by rewrite Z.sub_diag.
Qed.

Lemma user_load_own lo fl u pd va n :
  user_wf lo fl (uvmm u) pd →
  (∀ i, 0 <= i < Z.of_nat n → own_memory (regions u) (va + i)) →
  returns_or "no more frames" (frames_left fl (umach u) < 2 * Z.of_nat n) (user_load pd va n u)
    (λ '(r, u'), r = Some (slice (view (uvmm u) pd) va (Z.of_nat n)) ∧
       ∃ fl', user_step lo fl u pd (2 * Z.of_nat n) (view (uvmm u) pd) fl' u').
Proof.
  revert lo fl u va. induction n as [|n IH]; intros lo fl u va Hwf Hown; cbn [user_load].
  - apply returns_or_ret. split; [done|]. exists fl. by apply user_step_refl.
  - unfold pbind. eapply returns_or_bind.
    { eapply returns_or_mono; [apply (user_ld8_own lo fl u pd va Hwf)|lia|intros a Ha; exact Ha].
      replace va with (va + 0) by lia. apply Hown. lia. }
    intros [r u1] (-> & fl1 & Hs). pose proof (us_left _ _ _ _ _ _ _ _ Hs).
    eapply returns_or_bind.
    { eapply returns_or_mono; [apply (IH lo fl1 u1 (va + 1)); [apply Hs|]|lia|intros a Ha; exact Ha].
      intros i Hi. rewrite (us_regions _ _ _ _ _ _ _ _ Hs). replace (va + 1 + i) with (va + (i + 1)) by lia.
      apply Hown. lia. }
    intros [r u2] (-> & fl2 & Hs2). apply returns_or_ret. split.
    + f_equal. replace (Z.of_nat (S n)) with (1 + Z.of_nat n) by lia.
      rewrite slice_app by lia. change (slice (view (uvmm u) pd) va 1) with [view (uvmm u) pd (va + 0)].
      rewrite Z.add_0_r. cbn [app]. f_equal. unfold slice. apply list_fmap_ext. intros i x Hx.
      apply lookup_seq in Hx as [-> Hi].
      pose proof (Hown (1 + Z.of_nat i) ltac:(lia)) as (Hu & Hp & _). rewrite Z.add_assoc in Hu, Hp.
      by apply (us_view _ _ _ _ _ _ _ _ Hs).
    + exists fl2. eapply user_step_view; [by eapply user_step_trans|lia|].
      intros x Hx Hp. by apply (us_view _ _ _ _ _ _ _ _ Hs).
Qed.

(** ** Properties *)

(** C21 (refinement): the demand-paged memory of a process refines a flat
    memory.  On addresses of its own anonymous regions, and with two free
    frames for each byte accessed, a store returns and the process sees exactly
    the memory with those bytes replaced, a load returns the bytes it sees and
    changes nothing it sees; pages come into being on the way, zero filled.
    The address space stays well formed, the regions and the shared files are
    untouched, and no frame of anybody else changes. *)
Theorem user_memory_flat (lo : Z) (fl : list Z) (u : ustate) (pd va : Z) (bs : list Z) (n : nat)
    (Hwf : user_wf lo fl (uvmm u) pd)
    (Hown : ∀ i, 0 <= i < Z.of_nat (Nat.max n (length bs)) → own_memory (regions u) (va + i))
    (Hleft : 2 * Z.of_nat (Nat.max n (length bs)) <= frames_left fl (umach u)) :
  (∃ fl' u', user_store pd va bs u = Ret (Some tt, u') ∧
     user_step lo fl u pd (2 * Z.of_nat (length bs)) (store_bytes (view (uvmm u) pd) va bs) fl' u') ∧
  (∃ fl' u', user_load pd va n u = Ret (Some (slice (view (uvmm u) pd) va (Z.of_nat n)), u') ∧
     user_step lo fl u pd (2 * Z.of_nat n) (view (uvmm u) pd) fl' u').
Proof.
  split.
  - destruct (user_store_own lo fl u pd va bs Hwf) as [[_ ?]|([r u'] & E & -> & fl' & Hs)];
      [intros i Hi; apply Hown; lia|lia|eauto].
  - destruct (user_load_own lo fl u pd va n Hwf) as [[_ ?]|([r u'] & E & -> & fl' & Hs)];
      [intros i Hi; apply Hown; lia|lia|eauto].
Qed.

(** (roundtrip) What a process stores in its own memory it loads back. *)
Theorem user_store_load (lo : Z) (fl : list Z) (u : ustate) (pd va : Z) (bs : list Z)
    (Hwf : user_wf lo fl (uvmm u) pd)
    (Hown : ∀ i, 0 <= i < Z.of_nat (length bs) → own_memory (regions u) (va + i))
    (Hleft : 4 * Z.of_nat (length bs) <= frames_left fl (umach u)) :
  ∃ u', (let! _ := user_store pd va bs in user_load pd va (length bs)) u =
    Ret (Some (u8 <$> bs), u').
Proof.
  unfold pbind. destruct (user_store_own lo fl u pd va bs Hwf Hown)
    as [[_ ?]|([r u1] & -> & -> & fl1 & Hs)]; [lia|]. cbn [mbind outcome_bind].
  pose proof (us_left _ _ _ _ _ _ _ _ Hs).
  destruct (user_load_own lo fl1 u1 pd va (length bs) (us_wf _ _ _ _ _ _ _ _ Hs))
    as [[_ ?]|([r u2] & E & -> & _)]; [|lia|].
  { intros i Hi. rewrite (us_regions _ _ _ _ _ _ _ _ Hs). by apply Hown. }
  exists u2. rewrite E. do 3 f_equal. apply list_eq_nth.
  - unfold slice. rewrite !length_fmap, length_seq. lia.
  - intros k Hk. assert (Hk' : (k < length bs)%nat).
    { unfold slice in Hk. rewrite length_fmap, length_seq in Hk. lia. }
    rewrite <- (Nat2Z.id k) at 1. rewrite slice_lookup by lia.
    pose proof (Hown (Z.of_nat k) ltac:(lia)) as (Hu & Hp & _).
    rewrite (us_view _ _ _ _ _ _ _ _ Hs _ Hu Hp). unfold store_bytes.
    rewrite (proj2 (Z.leb_le _ _)), (proj2 (Z.ltb_lt _ _)) by lia. cbn [andb].
    replace (Z.to_nat (va + Z.of_nat k - va)) with k by lia.
    change 0 with (u8 0) at 2. symmetry. apply (map_nth u8 bs 0 k).
Qed.
End UserMem.

(** ** Witnesses: two pages of an anonymous region, one of them mapped *)

Definition demo_user : ustate (F := DemoFile) :=
  MkUstate [demo_region None 0x80001000 8192 1 3 None] (MkVmm dm3 ∅ None).

Lemma demo_user_wf : ∃ fl, user_wf demo_config 6291456 fl (uvmm demo_user) 6291456 ∧
  frames_left fl (umach demo_user) = 2557.
Proof.
  destruct dm3_fork as (fl & Hwf & Has & Huf & _ & Hl). exists fl. split; [by split|exact Hl].
Qed.

Lemma demo_user_own va : 0x80001000 <= va < 0x80003000 → own_memory demo_config (regions demo_user) va.
Proof.
  intros Hva. split; [unfold is_u32; lia|]. split.
  - split; [zlia|]. unfold is_special. cbn. rewrite !(proj2 (Z.eqb_neq _ _)) by zlia.
    by rewrite (proj2 (Z.ltb_ge _ _)) by zlia.
  - exists (demo_region None 0x80001000 8192 1 3 None). split; [|by left].
    unfold region_of. cbn. unfold covers. change (end_of _) with 0x80003000. cbn [starting_address demo_region].
    rewrite framedown_eq by (unfold is_u32; lia).
    by rewrite (proj2 (Z.leb_le _ _)), (proj2 (Z.ltb_lt _ _)) by zlia.
Qed.

(** The word spans the two pages; the second one is made by the fault handler. *)
Lemma user_memory_flat_witness :
  ∃ fl fl' u', user_store 6291456 0x80001FFE (word 0x12345678) demo_user = Ret (Some tt, u') ∧
    user_step demo_config 6291456 fl demo_user 6291456 (2 * 4)
      (store_bytes (view (uvmm demo_user) 6291456) 0x80001FFE (word 0x12345678)) fl' u'.
Proof.
  destruct demo_user_wf as (fl & Hwf & Hl). exists fl.
  destruct (user_memory_flat demo_config 6291456 fl demo_user 6291456 0x80001FFE (word 0x12345678) 4)
    as [H _].
  - exact Hwf.
  - intros i Hi. apply demo_user_own. cbn in Hi. lia.
  - rewrite Hl. cbn. lia.
  - exact H.
Defined.

Lemma user_store_load_witness :
  ∃ u', (let! _ := user_store 6291456 0x80001FFE (word 0x12345678) in
         user_load 6291456 0x80001FFE 4) demo_user = Ret (Some [0x78; 0x56; 0x34; 0x12], u').
Proof.
  destruct demo_user_wf as (fl & Hwf & Hl).
  apply (user_store_load demo_config 6291456 fl demo_user 6291456 0x80001FFE (word 0x12345678)).
  - exact Hwf.
  - intros i Hi. apply demo_user_own. cbn in Hi. lia.
  - rewrite Hl. cbn. lia.
Defined.
