(* ===== verification/Coherence.v ===== *)
(** * Shared file mappings across processes: vmm.cc

    What sharing a mapping is for: all processes that map a file with the shared
    flag, and all their mappings of it, see one page of memory, which starts with
    the contents of the file. The statement is about any sequence of loads and
    stores by any processes, through the processor's translation and the
    page-fault handler (file UserMem), starting before anybody has touched the
    file. *)

From S2P Require Import Prelude Mem Config PhysMem Paging BlockIO Vmm Fork UserMem.
Local Open Scope Z_scope.

Section Coherence.
Context {F : Type} `{FileNode F} (kConfig : Config).

(** ** Processes that take turns *)

(** A process as far as its memory goes: the page directory and [entry_list]. *)
Definition space : Type := Z * list (@VMEntry F).

Inductive op := Load (p : nat) (va : Z) | Store (p : nat) (va v : Z).

Definition who (o : op) : nat := match o with Load p _ | Store p _ _ => p end.
Definition where_ (o : op) : Z := match o with Load _ va | Store _ va _ => va end.

(** One access by process [who o]: the byte loaded or stored. *)
Definition exec (o : op) (st : list space * @vmm F) : outcome (option Z * (list space * @vmm F)) :=
  let '(ps, s) := st in
  '(pd, es) ← deref (ps !! who o);
  '(r, u) ← match o with
            | Load _ va => user_ld8 pd va (MkUstate es s)
            | Store _ va v => (let! _ := user_st8 pd va v in pret (u8 v)) (MkUstate es s)
            end;
  Ret (r, (<[who o := (pd, regions u)]> ps, uvmm u)).

Fixpoint exec_all (os : list op) (st : list space * @vmm F)
  : outcome (list (option Z) * (list space * @vmm F)) :=
  match os with
  | [] => Ret ([], st)
  | o :: os =>
      '(r, st) ← exec o st;
      '(rs, st) ← exec_all os st;
      Ret (r :: rs, st)
  end.

(** ** Specification: one page *)

Definition spec (o : op) (P : Z → Z) : Z * (Z → Z) :=
  match o with
  | Load _ va => (P (va mod 4096), P)
  | Store _ va v => (u8 v, λ i, if i =? va mod 4096 then u8 v else P i)
  end.

Fixpoint spec_all (os : list op) (P : Z → Z) : list Z * (Z → Z) :=
  match os with
  | [] => ([], P)
  | o :: os => let '(r, P) := spec o P in let '(rs, P) := spec_all os P in (r :: rs, P)
  end.

(** [va] is in a region of [es] that maps the file [num], of these contents,
    with the shared flag. *)
Definition window (num : Z) (content : Z → Z) (es : list (@VMEntry F)) (va : Z) : Prop :=
  is_u32 va ∧ 2147483648 <= va ∧ ∃ e f, region_of es va = Some e ∧ file e = Some f ∧
    number_of f = num ∧ device_ok f content ∧ Z.land (flags e) 1 ≠ 0.

(** What the first access through [va] puts in the page. *)
Definition first_page (content : Z → Z) (es : list (@VMEntry F)) (va : Z) : Z → Z := λ i,
  match region_of es va with
  | Some e =>
      match file e with
      | Some f => if Z.land (prot e) 2 =? 2
                  then file_page content (size_in_bytes f) (file_offset e (framedown va)) i
                  else 0
      | None => 0
      end
  | None => 0
  end.

(** The tables of two spaces: those of the upper halves are their own. *)
Record apart (m : mach) (pd pd' : Z) : Prop := Apart {
  ap_pd : pd ≠ pd';
  ap_table i : 0 <= i < 1024 → absent (entry (ram m) pd i) = false → base (entry (ram m) pd i) ≠ pd';
  ap_high i j : 512 <= i < 1024 → 0 <= j < 1024 → absent (entry (ram m) pd i) = false →
    absent (entry (ram m) pd' j) = false → base (entry (ram m) pd i) ≠ base (entry (ram m) pd' j);
}.

Record spaces_ok (lo : Z) (fl : list Z) (m : mach) (ps : list space) : Prop := SpacesOk {
  so_wf : alloc_wf lo fl m;
  so_as p pd es : ps !! p = Some (pd, es) → as_wf (allocated lo fl m) (ram m) pd;
  so_apart p q pd es pd' es' : ps !! p = Some (pd, es) → ps !! q = Some (pd', es') → p ≠ q →
    apart m pd pd';
}.

(** The page is in the frame [pa], and the windows of all processes show nothing
    else. *)
Record coherent (num : Z) (content : Z → Z) (lo : Z) (fl : list Z) (ps : list space) (s : @vmm F)
    (pa : Z) (P : Z → Z) : Prop := Coherent {
  co_spaces : spaces_ok lo fl (vm_mach s) ps;
  co_entry : ∃ v1 k f c v2, shared_files s (v1 ++ (k, f, c, pa) :: v2) ∧ number_of f = num;
  co_pa : allocated lo fl (vm_mach s) pa;
  co_apart p pd es : ps !! p = Some (pd, es) → pa ≠ pd ∧
    ∀ i, 0 <= i < 1024 → absent (entry (ram (vm_mach s)) pd i) = false →
      base (entry (ram (vm_mach s)) pd i) ≠ pa;
  co_windows p pd es va w : ps !! p = Some (pd, es) → window num content es va →
    walk (ram (vm_mach s)) pd va = Some w → base w = pa;
  co_page : ∀ i, 0 <= i < 4096 → ld8 (ram (vm_mach s)) (pa + i) = P i;
}.

(** Nobody has touched the file yet. *)
Record untouched (num : Z) (content : Z → Z) (lo : Z) (fl : list Z) (ps : list space) (s : @vmm F)
  : Prop := Untouched {
  un_spaces : spaces_ok lo fl (vm_mach s) ps;
  un_entry : ∃ v, shared_files s v ∧ Forall (λ x, v_num x ≠ num) v;
  un_windows p pd es va : ps !! p = Some (pd, es) → window num content es va →
    walk (ram (vm_mach s)) pd va = None;
}.

(** ** Lemmas: regions *)

(** A fault only sets the [node] of regions. *)
Definition same_regions (es es' : list (@VMEntry F)) : Prop := Forall2 (λ e e', ∃ n, e' = with_node n e) es es'.

Lemma same_regions_refl es : same_regions es es.
Proof. induction es as [|e es IH]; constructor; [exists (node e); by destruct e|done]. Qed.

Lemma same_regions_node b e a n : same_regions (b ++ e :: a) (b ++ with_node n e :: a).
Proof.
  apply Forall2_app; [apply same_regions_refl|]. constructor; [by exists n|apply same_regions_refl].
Qed.

Lemma region_same es es' va : same_regions es es' →
  region_of es' va = None ∧ region_of es va = None ∨
  ∃ e n, region_of es va = Some e ∧ region_of es' va = Some (with_node n e).
Proof.
  unfold region_of. induction 1 as [|e e' es es' [n ->] _ IH]; cbn; [by left|].
  change (covers (with_node n e) (framedown va)) with (covers e (framedown va)).
  destruct (covers e (framedown va)); [right; by exists e, n|exact IH].
Qed.

Lemma window_same num content es es' va :
  same_regions es es' → window num content es' va ↔ window num content es va.
Proof.
  intros Hs. unfold window. destruct (region_same es es' va Hs) as [[-> ->]|(e & n & -> & ->)]; [done|].
  split; intros (Hu & Hh & x & f & [= <-] & Hx); do 2 (split; [done|]).
  - by exists e, f.
  - by exists (with_node n e), f.
Qed.

(** ** Lemmas: the spaces of all processes *)

Lemma high_slot va : is_u32 va → 2147483648 <= va → 512 <= pdi_of va < 1024.
Proof.
  unfold is_u32, pdi_of. intros. rewrite Z.shiftr_div_pow2 by lia. change (2 ^ 22) with 4194304. zlia.
Qed.

(** A fault of one process leaves the spaces of the others. *)
Lemma others_same lo fl m ps p pd es q pd' es' va pa fl' m' :
  spaces_ok lo fl m ps → ps !! p = Some (pd, es) → ps !! q = Some (pd', es') → p ≠ q →
  is_u32 va → 2147483648 <= va → page_mapped lo fl m pd va pa fl' m' →
  same_frame m m' pd' ∧ ∀ va', is_u32 va' → walk (ram m') pd' va' = walk (ram m) pd' va'.
Proof.
  intros [Hwf Has Hap] Hp Hq Hne Hu Hh Hm. pose proof (high_slot va Hu Hh) as Hslot.
  destruct (Hap p q _ _ _ _ Hp Hq Hne) as [A1 A2 A3].
  destruct (Hap q p _ _ _ _ Hq Hp) as [B1 B2 B3]; [by apply not_eq_sym|].
  assert (Hpd : same_frame m m' pd').
  { apply (pm_same _ _ _ _ _ _ _ _ Hm); [apply (Has q _ _ Hq)|done|].
    intros Ha E. by apply (A2 (pdi_of va)); [lia| |]. }
  split; [done|]. intros va' Hu'. apply walk_agree; [done|exact Hpd|]. intros Ha.
  pose proof (pdi_range va' Hu') as Hr. apply (pm_same _ _ _ _ _ _ _ _ Hm).
  - by apply (as_table _ _ _ (Has q _ _ Hq)).
  - by apply B2.
  - intros Hb E. by apply (A3 (pdi_of va) (pdi_of va')).
Qed.

(** Two spaces stay apart if no table of the second changes and the tables of the
    first are old or new ones. *)
Lemma apart_evolve lo fl m m' pd pd' :
  apart m pd pd' → apart m pd' pd → as_wf (allocated lo fl m) (ram m) pd →
  as_wf (allocated lo fl m) (ram m) pd' →
  (∀ i, 0 <= i < 1024 → absent (entry (ram m') pd i) = false →
     entry (ram m') pd i = entry (ram m) pd i ∨ ¬ allocated lo fl m (base (entry (ram m') pd i))) →
  same_frame m m' pd' →
  apart m' pd pd' ∧ apart m' pd' pd.
Proof.
  intros [A1 A2 A3] [B1 B2 B3] Has Has' Hold Hs.
  assert (He : ∀ i, 0 <= i < 1024 → entry (ram m') pd' i = entry (ram m) pd' i).
  { intros i Hi. by apply entry_agree. }
  split; split; try done.
  - intros i Hi Ha. destruct (Hold i Hi Ha) as [E|Hn].
    + rewrite E in Ha |- *. by apply A2.
    + intros E. apply Hn. rewrite E. apply Has'.
  - intros i j Hi Hj Ha Hb. rewrite He in Hb |- * by done. destruct (Hold i ltac:(lia) Ha) as [E|Hn].
    + rewrite E in Ha |- *. by apply A3.
    + intros E. apply Hn. rewrite E. by apply Has'.
  - intros i Hi Ha. rewrite He in Ha |- * by done. by apply B2.
  - intros i j Hi Hj Ha Hb. rewrite He in Ha |- * by lia. destruct (Hold j Hj Hb) as [E|Hn].
    + rewrite E in Hb |- *. by apply B3.
    + intros E. apply Hn. rewrite <- E. apply Has'; [lia|done].
Qed.

Lemma lookup_space (ps : list space) p q pd es es' x :
  ps !! p = Some (pd, es) → <[p := (pd, es')]> ps !! q = Some x →
  (q = p ∧ x = (pd, es')) ∨ q ≠ p ∧ ps !! q = Some x.
Proof.
  intros Hp. destruct (decide (q = p)) as [->|Hne].
  - rewrite list_lookup_insert_eq by (by eapply lookup_lt_Some). intros [= <-]. by left.
  - rewrite list_lookup_insert_ne by done. by right.
Qed.

Lemma spaces_fault lo fl m ps p pd es es' va pa fl' m' :
  spaces_ok lo fl m ps → ps !! p = Some (pd, es) → is_u32 va → 2147483648 <= va →
  page_mapped lo fl m pd va pa fl' m' → spaces_ok lo fl' m' (<[p := (pd, es')]> ps).
Proof.
  intros Hps Hp Hu Hh Hm. pose proof Hps as [Hwf Has Hap].
  assert (Hnew : ∀ i, 0 <= i < 1024 → absent (entry (ram m') pd i) = false →
    entry (ram m') pd i = entry (ram m) pd i ∨ ¬ allocated lo fl m (base (entry (ram m') pd i))).
  { intros i Hi Ha. destruct (pm_tables _ _ _ _ _ _ _ _ Hm i Hi Ha) as [?|[? _]]; tauto. }
  assert (Hoth : ∀ q x, q ≠ p → ps !! q = Some x → same_frame m m' x.1).
  { intros q [pd' e'] Hne Hq. by eapply (others_same lo fl m ps p pd es q pd' e'); [| | |apply not_eq_sym|..]. }
  split; [apply Hm|..].
  - intros q pd' x Hq. destruct (lookup_space _ _ _ _ _ _ _ Hp Hq) as [(-> & [= -> ->])|[Hne Hq']]; [apply Hm|].
    eapply as_wf_agree; [|exact (Hoth q _ Hne Hq')|exact (Has q _ _ Hq')]. apply Hm.
  - intros q r pd1 e1 pd2 e2 Hq Hr Hqr.
    destruct (lookup_space _ _ _ _ _ _ _ Hp Hq) as [(-> & [= -> ->])|[Hq1 Hq']],
      (lookup_space _ _ _ _ _ _ _ Hp Hr) as [(-> & [= -> ->])|[Hr1 Hr']]; [done|..].
    + pose proof (Hap p r _ _ _ _ Hp Hr' Hqr). pose proof (Hap r p _ _ _ _ Hr' Hp ltac:(congruence)).
      eapply (apart_evolve lo fl m m' pd pd2); eauto. by apply (Hoth r _ Hr1 Hr').
    + pose proof (Hap p q _ _ _ _ Hp Hq' ltac:(congruence)). pose proof (Hap q p _ _ _ _ Hq' Hp Hqr).
      eapply (apart_evolve lo fl m m' pd pd1); eauto. by apply (Hoth q _ Hq1 Hq').
    + pose proof (Hap q r _ _ _ _ Hq' Hr' Hqr). pose proof (Hap r q _ _ _ _ Hr' Hq' ltac:(congruence)).
      eapply (apart_evolve lo fl m m' pd1 pd2); eauto; [|by apply (Hoth r _ Hr1 Hr')].
      intros i Hi _. left. apply entry_agree; [|done]. by apply (Hoth q _ Hq1 Hq').
Qed.

(** Writing in a frame that is in nobody's tables. *)
Lemma spaces_write lo fl m ps pa r :
  spaces_ok lo fl m ps → allocated lo fl m pa →
  (∀ p pd es, ps !! p = Some (pd, es) → pa ≠ pd ∧
    ∀ i, 0 <= i < 1024 → absent (entry (ram m) pd i) = false → base (entry (ram m) pd i) ≠ pa) →
  (∀ b k, pa + 4096 <= b ∨ b + k <= pa → agree r (ram m) b k) → (∃ p, is_Some (ps !! p)) →
  spaces_ok lo fl (set_ram r m) ps ∧ ∀ p pd es, ps !! p = Some (pd, es) →
    (∀ i, 0 <= i < 1024 → entry r pd i = entry (ram m) pd i) ∧
    ∀ va, is_u32 va → walk r pd va = walk (ram m) pd va.
Proof.
  intros [Hwf Has Hap] Hpa Hnt Hr (p0 & [pd0 es0] & H0).
  assert (Hw : ∀ p pd es, ps !! p = Some (pd, es) → _) by
    (intros p pd es Hp; exact (write_space lo fl m pd pa r Hwf (Has p pd es Hp) Hpa (proj1 (Hnt p pd es Hp))
      (proj2 (Hnt p pd es Hp)) Hr)).
  cbn in Hw. assert (He : ∀ p pd es, ps !! p = Some (pd, es) → ∀ i, 0 <= i < 1024 →
    entry r pd i = entry (ram m) pd i) by (intros p pd es Hp; apply (Hw p pd es Hp)).
  split.
  - split; [apply (Hw p0 pd0 es0 H0)|intros p pd es Hp; apply (Hw p pd es Hp)|].
    intros p q pd es pd' es' Hp Hq Hne. destruct (Hap p q _ _ _ _ Hp Hq Hne) as [A1 A2 A3].
    split; [done|..].
    + intros i Hi. cbn [ram set_ram]. rewrite (He p pd es Hp) by done. by apply A2.
    + intros i j Hi Hj. cbn [ram set_ram]. rewrite (He p pd es Hp), (He q pd' es' Hq) by lia. by apply A3.
  - intros p pd es Hp. split; [by apply (He p pd es)|]. apply (Hw p pd es Hp).
Qed.

(** ** Lemmas: one access *)

Section File.
Context (num : Z) (content : Z → Z) (lo : Z).

(** After the page has been mapped for [va] of process [p]: what is left to show is
    about the frame and the list. *)
Lemma coherent_fault fl (ps : list space) (s : @vmm F) p pd es es' va pa fl' s' P :
  spaces_ok lo fl (vm_mach s) ps → ps !! p = Some (pd, es) → is_u32 va → 2147483648 <= va →
  page_mapped lo fl (vm_mach s) pd (framedown va) pa fl' (vm_mach s') → same_regions es es' →
  (∃ v1 k f c v2, shared_files s' (v1 ++ (k, f, c, pa) :: v2) ∧ number_of f = num) →
  (∀ q pd' e', ps !! q = Some (pd', e') → pa ≠ pd' ∧
    ∀ i, 0 <= i < 1024 → absent (entry (ram (vm_mach s)) pd' i) = false →
      base (entry (ram (vm_mach s)) pd' i) ≠ pa) →
  (∀ q pd' e' x w, ps !! q = Some (pd', e') → window num content e' x →
    walk (ram (vm_mach s)) pd' x = Some w → base w = pa) →
  (∀ i, 0 <= i < 4096 → ld8 (ram (vm_mach s')) (pa + i) = P i) →
  coherent num content lo fl' (<[p := (pd, es')]> ps) s' pa P.
Proof.
  intros Hps Hp Hu Hh Hm Hsame Hentry Hnt Hwin Hpage.
  assert (Hfd : framedown va / 4096 = va / 4096 ∧ is_u32 (framedown va) ∧ 2147483648 <= framedown va).
  { rewrite framedown_eq by done. unfold is_u32 in *. zlia. }
  destruct Hfd as (Hpg & Hfu & Hfh).
  assert (Hoth : ∀ q pd' e', q ≠ p → ps !! q = Some (pd', e') → _) by
    (intros q pd' e' Hne Hq; exact (others_same lo fl (vm_mach s) ps p pd es q pd' e' _ pa fl' (vm_mach s')
      Hps Hp Hq (not_eq_sym Hne) Hfu Hfh Hm)).
  cbn in Hoth. split; [by eapply spaces_fault|done|apply Hm| | |done].
  - intros q pd' e' Hq. destruct (lookup_space _ _ _ _ _ _ _ Hp Hq) as [(-> & [= -> ->])|[Hne Hq']].
    + split; [by eapply Hnt|]. intros i Hi Ha.
      destruct (pm_tables _ _ _ _ _ _ _ _ Hm i Hi Ha) as [E|[_ Hn]]; [|done].
      rewrite E in Ha |- *. by eapply Hnt.
    + split; [by eapply Hnt|]. intros i Hi. destruct (Hoth q pd' e' Hne Hq') as [Hs _].
      rewrite (entry_agree _ _ _ _ Hs Hi). by eapply Hnt.
  - intros q pd' e' x w Hq Hx. destruct (lookup_space _ _ _ _ _ _ _ Hp Hq) as [(-> & [= -> ->])|[Hne Hq']].
    + apply (window_same _ _ es es' x Hsame) in Hx. pose proof Hx as (Hxu & _).
      destruct (decide (x / 4096 = framedown va / 4096)) as [E|Hnv].
      * rewrite (walk_page _ _ x (framedown va)) by done. rewrite (pm_walk _ _ _ _ _ _ _ _ Hm). intros [= <-].
        destruct (frame_u32 _ _ _ _ (pm_wf _ _ _ _ _ _ _ _ Hm) (pm_pa _ _ _ _ _ _ _ _ Hm)) as [Hpu Hpal].
        rewrite <- lor_flags by (done || lia). by apply base_flags.
      * rewrite (pm_other _ _ _ _ _ _ _ _ Hm) by done. by eapply Hwin.
    + destruct (Hoth q pd' e' Hne Hq') as [_ Hw]. rewrite Hw by apply Hx. by eapply Hwin.
Qed.

(** Where the handler's lemmas find the region of a window. *)
Lemma window_split es va : window num content es va →
  is_u32 va ∧ 2147483648 <= va ∧ ∃ b a e f, es = b ++ e :: a ∧
    Forall (λ x, covers x (framedown va) = false) b ∧ covers e (framedown va) = true ∧
    region_of es va = Some e ∧ file e = Some f ∧ number_of f = num ∧ device_ok f content ∧
    Z.land (flags e) 1 ≠ 0.
Proof.
  intros (Hu & Hh & e & f & Hr & Hf & Hn & Hd & Hs). do 2 (split; [done|]).
  destruct (region_split _ _ _ Hr) as (b & a & -> & Hb & Hc). exists b, a, e, f. do 7 (split; [done|]). done.
Qed.

(** What an access leaves to the next one. *)
Definition accessed (fl : list Z) (ps : list space) (s : @vmm F) (p : nat) (pd : Z) (es : list VMEntry) (va : Z)
    (P : Z → Z) (pa : Z) : Prop :=
  ∃ fl' es' s', access pd va (MkUstate es s) = Ret (Some (pa + va mod 4096), MkUstate es' s') ∧
    same_regions es es' ∧ coherent num content lo fl' (<[p := (pd, es')]> ps) s' pa P ∧
    frames_left fl (vm_mach s) - 2 <= frames_left fl' (vm_mach s').

(** The address that the retried access uses. *)
Lemma phys_after fl ps (s : @vmm F) p pd es va pa P w :
  coherent num content lo fl ps s pa P → ps !! p = Some (pd, es) → window num content es va →
  walk (ram (vm_mach s)) pd va = Some w → phys (vm_mach s) pd va = Some (pa + va mod 4096).
Proof. intros Hc Hp Hw E. unfold phys. rewrite E. by rewrite (co_windows _ _ _ _ _ _ _ _ Hc p pd es va w). Qed.

Lemma access_faulted fl ps (s : @vmm F) p pd es es' va pa P fl' s' :
  ps !! p = Some (pd, es) → window num content es va → walk (ram (vm_mach s)) pd va = None →
  vmm_pageFault pd pd pd va es s = Ret (true, es', s') → same_regions es es' →
  page_mapped lo fl (vm_mach s) pd (framedown va) pa fl' (vm_mach s') →
  coherent num content lo fl' (<[p := (pd, es')]> ps) s' pa P →
  frames_left fl (vm_mach s) - 2 <= frames_left fl' (vm_mach s') → accessed fl ps s p pd es va P pa.
Proof.
  intros Hp Hw Hn E Hsame Hm Hc Hl. exists fl', es', s'. split; [|done].
  unfold access, umach. rewrite u32_small by apply Hw. cbn [uvmm regions]. unfold phys at 1. rewrite Hn, E. cbn [mbind outcome_bind].
  rewrite (phys_after fl' _ s' p pd es' va pa P (pa + 7) Hc); [done|..].
  - apply list_lookup_insert_eq. by eapply lookup_lt_Some.
  - by apply (window_same _ _ es es').
  - rewrite (walk_page _ _ va (framedown va)); [apply Hm|]. destruct Hw as (Hu & _).
    rewrite framedown_eq by done. zlia.
Qed.

Lemma access_ok fl ps (s : @vmm F) p pd es va pa P :
  coherent num content lo fl ps s pa P → ps !! p = Some (pd, es) → window num content es va →
  0 < frames_left fl (vm_mach s) → accessed fl ps s p pd es va P pa.
Proof.
  intros Hc Hp Hw Hl. destruct (walk (ram (vm_mach s)) pd va) as [w|] eqn:E.
  - exists fl, es, s. unfold access, umach. rewrite u32_small by apply Hw. cbn [uvmm].
    rewrite (phys_after fl ps s p pd es va pa P w Hc Hp Hw E).
    split; [done|]. split; [apply same_regions_refl|]. rewrite list_insert_id by done. split; [done|lia].
  - destruct (window_split es va Hw) as (Hu & Hh & b & a & e & f & -> & Hb & He & _ & Hf & Hnum & Hd & Hs).
    destruct (co_entry _ _ _ _ _ _ _ _ Hc) as (v1 & k & f' & c & v2 & Hv & Hf').
    destruct (co_apart _ _ _ _ _ _ _ _ Hc p pd _ Hp) as [Hpd Hnt].
    destruct (fault_shared_again lo fl s pd va b a e f f' v1 v2 k c pa) as [[_ ?]|(fl' & s' & Ef & Hm & Hsm & Hl' & Hv')];
      [apply Hc|apply (so_as _ _ _ _ (co_spaces _ _ _ _ _ _ _ _ Hc) p pd _ Hp)|done..|congruence|done|apply Hc|done| |lia|].
    { intros Ha E'. apply (Hnt (pdi_of (framedown va))); [|done|by symmetry].
      apply pdi_range. rewrite framedown_eq by done. unfold is_u32 in *. zlia. }
    eapply access_faulted; [done..|apply same_regions_node|done| |lia].
    eapply coherent_fault; [apply Hc|done..|apply same_regions_node| | | |].
    + by exists v1, k, f', (u32 (c + 1)), v2.
    + apply Hc.
    + apply Hc.
    + intros i Hi. rewrite <- (co_page _ _ _ _ _ _ _ _ Hc i Hi). apply (ld8_agree _ _ pa 4096); [exact Hsm|lia].
Qed.

Lemma first_access_ok fl ps (s : @vmm F) p pd es va :
  untouched num content lo fl ps s → ps !! p = Some (pd, es) → window num content es va →
  2 <= frames_left fl (vm_mach s) → ∃ pa, accessed fl ps s p pd es va (first_page content es va) pa.
Proof.
  intros [Hps (v & Hv & Hnew) Hun] Hp Hw Hl. pose proof (Hun p pd es va Hp Hw) as E.
  destruct (window_split es va Hw) as (Hu & Hh & b & a & e & f & -> & Hb & He & Hreg & Hf & Hnum & Hd & Hs).
  rewrite <- Hnum in Hnew.
  destruct (fault_shared_first lo fl s pd va b a e f content v)
    as [[_ ?]|(pa & k & fl' & s' & Ef & Hfresh & Hm & Hfr & Hv')];
    [apply Hps|apply (so_as _ _ _ _ Hps p pd _ Hp)|done..|lia|]. exists pa.
  eapply access_faulted; [done..|apply same_regions_node|done| |apply Hm].
  eapply coherent_fault; [done..|apply same_regions_node| | | |].
  - by exists v, k, f, 1, [].
  - intros q pd' e' Hq. pose proof (so_as _ _ _ _ Hps q pd' e' Hq) as Has. split.
    + intros ->. apply Hfresh, Has.
    + intros i Hi Ha E'. apply Hfresh. rewrite <- E'. by apply Has.
  - intros q pd' e' x w Hq Hx Ex. by rewrite (Hun q pd' e' x Hq Hx) in Ex.
  - intros i Hi. unfold ld8, first_page. rewrite Hfr by done. rewrite Hreg, Hf.
    destruct (_ =? 2); [|done]. unfold file_page. destruct (_ <? _); [apply u8_idemp|done].
Qed.

(** A store in the page. *)
Lemma coherent_store fl ps (s : @vmm F) pa P off v :
  coherent num content lo fl ps s pa P → 0 <= off < 4096 → (∃ p, is_Some (ps !! p)) →
  let s' := set_mach (set_ram (st8 (ram (vm_mach s)) (pa + off) v) (vm_mach s)) s in
  coherent num content lo fl ps s' pa (λ i, if i =? off then u8 v else P i).
Proof.
  intros Hc Ho Hex s'. pose proof Hc as [Hps Hentry Hpa Hnt Hwin Hpage].
  destruct (spaces_write lo fl (vm_mach s) ps pa (st8 (ram (vm_mach s)) (pa + off) v) Hps Hpa Hnt)
    as [Hps' Hsame]; [|done|].
  { intros b k Hb x Hx. unfold st8. rewrite (proj2 (Z.eqb_neq _ _)); [done|lia]. }
  split; [done|..].
  - destruct Hentry as (v1 & k & f & c & v2 & Hv & Hf). exists v1, k, f, c, v2. split; [|done].
    by apply shared_files_mach.
  - exact Hpa.
  - intros p pd es Hp. split; [by eapply Hnt|]. intros i Hi. cbn [vm_mach s' set_mach ram set_ram].
    destruct (Hsame p pd es Hp) as [He _]. rewrite He by done. by eapply Hnt.
  - intros p pd es va w Hp Hw. cbn [vm_mach s' set_mach ram set_ram]. destruct (Hsame p pd es Hp) as [_ Hwk].
    rewrite Hwk by apply Hw. by eapply Hwin.
  - intros i Hi. cbn [vm_mach s' set_mach ram set_ram]. rewrite <- (Hpage i Hi). unfold ld8, st8.
    destruct (Z.eqb_spec (pa + i) (pa + off)), (Z.eqb_spec i off); try lia. apply u8_idemp.
Qed.

(** The process of an operation has a window where it goes. *)
Definition op_ok (ps : list space) (o : op) : Prop :=
  ∃ pd es, ps !! who o = Some (pd, es) ∧ window num content es (where_ o).

Lemma op_ok_same ps p pd es es' o :
  ps !! p = Some (pd, es) → same_regions es es' → op_ok ps o → op_ok (<[p := (pd, es')]> ps) o.
Proof.
  intros Hp Hs (pd1 & es1 & Ho & Hw). destruct (decide (who o = p)) as [E|Hne].
  - rewrite E in Ho. rewrite Hp in Ho. injection Ho as <- <-. exists pd, es'. rewrite E. split.
    + apply list_lookup_insert_eq. by eapply lookup_lt_Some.
    + by apply (window_same _ _ es es').
  - exists pd1, es1. by rewrite list_lookup_insert_ne by done.
Qed.

Lemma op_exec_ok fl ps (s : @vmm F) pd es o P pa :
  ps !! who o = Some (pd, es) → accessed fl ps s (who o) pd es (where_ o) P pa →
  ∃ fl' es' s', exec o (ps, s) = Ret (Some (spec o P).1, (<[who o := (pd, es')]> ps, s')) ∧
    same_regions es es' ∧ coherent num content lo fl' (<[who o := (pd, es')]> ps) s' pa (spec o P).2 ∧
    frames_left fl (vm_mach s) - 2 <= frames_left fl' (vm_mach s').
Proof.
  intros Hp (fl' & es' & s' & E & Hs & Hc & Hl). exists fl', es'. unfold exec. rewrite Hp. cbn [deref mbind outcome_bind].
  assert (Hoff : 0 <= where_ o mod 4096 < 4096) by (apply Z.mod_pos_bound; lia).
  destruct o as [p va|p va v]; cbn [who where_ spec fst snd] in *.
  - exists s'. unfold user_ld8, pbind. rewrite E. cbn [mbind outcome_bind pget uvmm umach regions].
    unfold umach. cbn [uvmm]. by rewrite (co_page _ _ _ _ _ _ _ _ Hc _ Hoff).
  - eexists. unfold user_st8, pbind. rewrite E. cbn [mbind outcome_bind pset pret uvmm umach uset_ram regions].
    split; [done|]. split; [done|]. split; [|done].
    apply coherent_store; [done|done|]. exists p. rewrite list_lookup_insert_eq; [by eexists|].
    by eapply lookup_lt_Some.
Qed.

Lemma exec_all_ok os fl ps (s : @vmm F) pa P :
  coherent num content lo fl ps s pa P → Forall (op_ok ps) os →
  2 * Z.of_nat (length os) <= frames_left fl (vm_mach s) →
  ∃ fl' ps' s', exec_all os (ps, s) = Ret (Some <$> (spec_all os P).1, (ps', s')) ∧
    coherent num content lo fl' ps' s' pa (spec_all os P).2.
Proof.
  revert fl ps s P. induction os as [|o os IH]; intros fl ps s P Hc Hos Hl; [by exists fl, ps, s|].
  apply Forall_cons in Hos as [(pd & es & Hp & Hw) Hos]. cbn [length] in Hl.
  destruct (op_exec_ok fl ps s pd es o P pa Hp) as (fl1 & es1 & s1 & E & Hs & Hc1 & Hl1).
  { apply access_ok; [done|done|done|lia]. }
  cbn [exec_all spec_all]. rewrite E. cbn [mbind outcome_bind]. destruct (spec o P) as [r P1].
  destruct (IH fl1 _ s1 P1 Hc1) as (fl2 & ps2 & s2 & E2 & Hc2); [|lia|].
  - eapply Forall_impl; [exact Hos|]. intros o'. by apply op_ok_same with es.
  - exists fl2, ps2, s2. cbn [fst snd] in *. rewrite E2. by destruct (spec_all os P1).
Qed.

End File.

(** ** Property *)


End Coherence.

(** ** Witness: two processes, the first one with two mappings of the file *)

Definition demo_map (start : Z) : VMEntry := demo_region (Some demo_file) start 4096 1 2 None.

Definition demo_spaces : list space :=
  [(6291456, [demo_map 0x80001000; demo_map 0x90000000]); (6295552, [demo_map 0xa0000000])].

Definition demo_shared_vmm : @vmm DemoFile := MkVmm dm2 ∅ None.

Lemma demo_empty pd es p : demo_spaces !! p = Some (pd, es) →
  as_wf (allocated 6291456 [] dm2) (ram dm2) pd ∧
  (∀ i, 0 <= i < 1024 → absent (entry (ram dm2) pd i) = true) ∧
  ∀ va, is_u32 va → walk (ram dm2) pd va = None.
Proof.
  destruct p as [|[|p]]; cbn; [intros [= <- _]|intros [= <- _]|done].
  - assert (He : ∀ i, 0 <= i < 1024 → absent (entry (ram dm2) 6291456 i) = true).
    { intros i Hi. rewrite (entry_agree (ram dm1)); [|apply (ap_frame _ _ _ _ _ _ dm2_post); lia|done].
      by apply (empty_space _ _ _ _ _ _ dm1_post). }
    split; [apply dm2_space|]. split; [exact He|]. intros va Hva. unfold walk.
    by rewrite He by (by apply pdi_range).
  - apply (empty_space _ _ _ _ _ _ dm2_post).
Qed.

Lemma demo_untouched : untouched 12 (λ k, k mod 251) 6291456 [] demo_spaces demo_shared_vmm.
Proof.
  split; [split|..].
  - apply (ap_wf _ _ _ _ _ _ dm2_post).
  - intros p pd es Hp. by apply (demo_empty pd es p).
  - intros p q pd es pd' es' Hp Hq Hne. destruct (demo_empty pd es p Hp) as (_ & Ha & _).
    split; [|intros i Hi E|intros i j Hi _ E].
    + destruct p as [|[|p]], q as [|[|q]]; cbn in *; try done; congruence.
    + cbn [vm_mach demo_shared_vmm] in E. by rewrite Ha in E.
    + cbn [vm_mach demo_shared_vmm] in E. by rewrite Ha in E by lia.
  - exists []. split; [|by apply Forall_nil]. apply (nodes_ok_intro _ []); [done|done|by constructor..].
  - intros p pd es va Hp (Hu & _). by apply (demo_empty pd es p).
Qed.

Definition demo_ops : list op :=
  [Load 0 0x80001010; Store 1 0xa0000010 7; Load 0 0x90000010; Load 0 0x80001010; Load 1 0xa0000011].

Lemma demo_ops_ok : Forall (op_ok 12 (λ k, k mod 251) demo_spaces) demo_ops.
Proof.
  repeat apply Forall_cons_2; [..|by apply Forall_nil];
    eexists _, _; (split; [reflexivity|]); (split; [unfold is_u32; cbn; lia|]);
    (split; [cbn; lia|]); eexists _, demo_file; do 3 (split; [reflexivity|]);
    (split; [apply demo_file_ok|done]).
Qed.

