(* ===== verification/Snprintf.v ===== *)
(** * Formatted output: src/kernel/snprintf.cc and src/t0.dir/sbin/printf.c

    The two files hold the same code line for line; the kernel's writes each
    character to an [OutputStream] and the user library's calls [putchar], so
    the definitions here, whose sink is the list of the characters written, are
    both (module [Printf] of the file Libc gives the user library's names).

    A format is a string literal, read through an index that may reach its
    terminator and not beyond (reading further is the outcome [Crash]). A
    variable argument is a word, a pointer with the C string it points to, or a
    floating-point number; fetching an argument that was not passed, or one of
    another kind, is [Crash]. The arithmetic of [long double] is the
    processor's: it is the parameter [FPU]. Signed integers wrap. *)

From Stdlib Require Import Ascii.
From Stdlib Require QArith Qround.
From S2P Require Import Prelude Mem Libk.
Local Open Scope Z_scope.

(** The code of a character. *)
Definition chr (c : ascii) : Z := Z.of_N (N_of_ascii c).

(** ** Floating point *)

Class FPU := {
  LDOUBLE : Type;
  ld_of_Z : Z → LDOUBLE;             (* conversion of a [long] *)
  ld_to_long : LDOUBLE → Z;          (* truncation *)
  ld_neg : LDOUBLE → LDOUBLE;
  ld_sub : LDOUBLE → LDOUBLE → LDOUBLE;
  ld_mul : LDOUBLE → LDOUBLE → LDOUBLE;
  ld_lt : LDOUBLE → LDOUBLE → bool;  (* [<] *)
  ld_half : LDOUBLE;                 (* [0.5] *)
}.

(** ** Flags and states *)

Definition DP_F_MINUS : Z := 1.
Definition DP_F_PLUS : Z := 2.
Definition DP_F_SPACE : Z := 4.
Definition DP_F_NUM : Z := 8.
Definition DP_F_ZERO : Z := 16.
Definition DP_F_UP : Z := 32.
Definition DP_F_UNSIGNED : Z := 64.

Definition DP_C_SHORT : Z := 1.
Definition DP_C_LONG : Z := 2.
Definition DP_C_LDOUBLE : Z := 3.

Inductive dp_state :=
| DP_S_DEFAULT | DP_S_FLAGS | DP_S_MIN | DP_S_DOT | DP_S_MAX | DP_S_MOD | DP_S_CONV | DP_S_DONE.

(** A test of a flag bit: [flags & DP_F_...]. *)
Definition has (flags f : Z) : bool := negb (Z.land flags f =? 0).

(** ** The sink

    [text] is what [buffer.put] has received, [currlen] the counter and [cells]
    the memory that [%n] writes. *)
Record sink := Sink { text : list Z; currlen : Z; cells : mem }.

(** [dopr_outch]: the limit [maxlen] is a parameter and is not looked at. *)
Definition dopr_outch (maxlen : Z) (c : Z) (s : sink) : sink :=
  Sink (text s ++ [u8 c]) (i32 (currlen s + 1)) (cells s).

(** A loop that writes the same character [n] times. *)
Fixpoint outch_times (maxlen c : Z) (n : nat) (s : sink) : sink :=
  match n with
  | O => s
  | S n' => outch_times maxlen c n' (dopr_outch maxlen c s)
  end.

(** A loop that writes the characters of an array. *)
Fixpoint outch_all (maxlen : Z) (cs : list Z) (s : sink) : sink :=
  match cs with
  | [] => s
  | c :: cs' => outch_all maxlen cs' (dopr_outch maxlen c s)
  end.

(** ** Strings: [fmtstr] *)

(** [while (padlen != 0 && cnt < max)] around one space. *)
Fixpoint pad_loop (maxlen : Z) (padlen : nat) (cnt max : Z) (s : sink) : Z * sink :=
  match padlen with
  | O => (cnt, s)
  | S padlen' =>
      if cnt <? max
      then pad_loop maxlen padlen' (cnt + 1) max (dopr_outch maxlen (chr " ") s)
      else (cnt, s)
  end.

(** [while ( *value && cnt < max)]. *)
Fixpoint str_loop (maxlen : Z) (value : list Z) (cnt max : Z) (s : sink) : Z * sink :=
  match value with
  | [] => (cnt, s)
  | c :: value' =>
      if negb (c =? 0) && (cnt <? max)
      then str_loop maxlen value' (cnt + 1) max (dopr_outch maxlen c s)
      else (cnt, s)
  end.

Definition null_text : list Z := map chr ["<"; "N"; "U"; "L"; "L"; ">"]%char.

(** [value] is [None] for a null pointer. *)
Definition fmtstr (maxlen : Z) (value : option (list Z)) (flags min max : Z) (s : sink) : sink :=
  let value := default null_text value in
  let strln := strlen value in
  let padlen := i32 (min - strln) in
  let padlen := if padlen <? 0 then 0 else padlen in
  let padlen := if has flags DP_F_MINUS then - padlen else padlen in
  let '(cnt, s) := pad_loop maxlen (Z.to_nat padlen) 0 max s in
  let '(cnt, s) := str_loop maxlen value cnt max s in
  let '(cnt, s) := pad_loop maxlen (Z.to_nat (- padlen)) cnt max s in
  s.

(** ** Integers: [fmtint] *)

(** The character of a digit: the literal 0123456789abcdef, or its capitals. *)
Definition digit_char (caps : bool) (d : Z) : Z :=
  if d <? 10 then chr "0" + d else (if caps then chr "A" else chr "a") + (d - 10).

(** The do-while loop that fills [convert], least significant digit first;
    [room] is what is left of the array. *)
Fixpoint convert_loop (room : nat) (caps : bool) (base uvalue : Z) : list Z :=
  match room with
  | O => []
  | S room' =>
      digit_char caps (uvalue mod base) ::
      (if uvalue / base =? 0 then [] else convert_loop room' caps base (uvalue / base))
  end.

(** [if (place == 20) place--]: the last digit of a full array is dropped. *)
Definition converted (caps : bool) (base uvalue : Z) : list Z :=
  take 19 (convert_loop 20 caps base uvalue).

Definition sign_of (flags value : Z) : Z :=
  if has flags DP_F_UNSIGNED then 0
  else if value <? 0 then chr "-"
  else if has flags DP_F_PLUS then chr "+"
  else if has flags DP_F_SPACE then chr " "
  else 0.

(** The sign is written when it is not 0. *)
Definition out_sign (maxlen signvalue : Z) (s : sink) : sink :=
  if signvalue =? 0 then s else dopr_outch maxlen signvalue s.

Definition fmtint (maxlen value base min max flags : Z) (s : sink) : sink :=
  let max := if max <? 0 then 0 else max in
  let signvalue := sign_of flags value in
  let uvalue := if negb (has flags DP_F_UNSIGNED) && (value <? 0) then u32 (- value) else u32 value in
  let caps := has flags DP_F_UP in
  let convert := converted caps base uvalue in
  let place := Z.of_nat (length convert) in
  let zpadlen := max - place in
  let spadlen := i32 (min - Z.max max place - (if signvalue =? 0 then 0 else 1)) in
  let zpadlen := if zpadlen <? 0 then 0 else zpadlen in
  let spadlen := if spadlen <? 0 then 0 else spadlen in
  let '(zpadlen, spadlen) :=
    if has flags DP_F_ZERO then (Z.max zpadlen spadlen, 0) else (zpadlen, spadlen) in
  let spadlen := if has flags DP_F_MINUS then - spadlen else spadlen in
  let s := outch_times maxlen (chr " ") (Z.to_nat spadlen) s in
  let s := out_sign maxlen signvalue s in
  let s := outch_times maxlen (chr "0") (Z.to_nat zpadlen) s in
  let s := outch_all maxlen (rev convert) s in
  outch_times maxlen (chr " ") (Z.to_nat (- spadlen)) s.

(** ** Floating-point numbers: [fmtfp] *)

Section Float.
Context `{FPU}.

Definition abs_val (value : LDOUBLE) : LDOUBLE :=
  if ld_lt value (ld_of_Z 0) then ld_neg value else value.

Fixpoint pow10_loop (exp : nat) (result : LDOUBLE) : LDOUBLE :=
  match exp with
  | O => result
  | S exp' => pow10_loop exp' (ld_mul result (ld_of_Z 10))
  end.

Definition pow10 (exp : Z) : LDOUBLE := pow10_loop (Z.to_nat exp) (ld_of_Z 1).

Definition xround (value : LDOUBLE) : Z :=
  let intpart := i32 (ld_to_long value) in
  let value := ld_sub value (ld_of_Z intpart) in
  if ld_lt value ld_half then intpart else i32 (intpart + 1).

(** [iconvert] or [fconvert]: the remainder of a negative number would index
    before the literal of the digits. *)
Definition fconverted (part : Z) : outcome (list Z) :=
  if part <? 0 then Crash else Ret (converted false 10 part).

Definition fmtfp (maxlen : Z) (fvalue : LDOUBLE) (min max flags : Z) (s : sink) : outcome sink :=
  let max := if max <? 0 then 6 else max in
  let ufvalue := abs_val fvalue in
  let signvalue := if ld_lt fvalue (ld_of_Z 0) then chr "-"
                   else if has flags DP_F_PLUS then chr "+"
                   else if has flags DP_F_SPACE then chr " " else 0 in
  let intpart := i32 (ld_to_long ufvalue) in
  let max := if 9 <? max then 9 else max in
  let fracpart := xround (ld_mul (pow10 max) (ld_sub ufvalue (ld_of_Z intpart))) in
  let '(intpart, fracpart) :=
    if negb (ld_lt (ld_of_Z fracpart) (pow10 max))
    then (i32 (intpart + 1), i32 (ld_to_long (ld_sub (ld_of_Z fracpart) (pow10 max))))
    else (intpart, fracpart) in
  iconvert ← fconverted intpart;
  fconvert ← fconverted fracpart;
  let iplace := Z.of_nat (length iconvert) in
  let fplace := Z.of_nat (length fconvert) in
  let padlen := i32 (min - iplace - max - 1 - (if signvalue =? 0 then 0 else 1)) in
  let zpadlen := max - fplace in
  let zpadlen := if zpadlen <? 0 then 0 else zpadlen in
  let padlen := if padlen <? 0 then 0 else padlen in
  let padlen := if has flags DP_F_MINUS then - padlen else padlen in
  let '(padlen, signvalue, s) :=
    if has flags DP_F_ZERO && (0 <? padlen)
    then
      let '(padlen, signvalue, s) :=
        if signvalue =? 0 then (padlen, signvalue, s)
        else (padlen - 1, 0, dopr_outch maxlen signvalue s) in
      (Z.min padlen 0, signvalue, outch_times maxlen (chr "0") (Z.to_nat padlen) s)
    else (padlen, signvalue, s) in
  let s := outch_times maxlen (chr " ") (Z.to_nat padlen) s in
  let s := out_sign maxlen signvalue s in
  let s := outch_all maxlen (rev iconvert) s in
  let s := if 0 <? max
           then outch_all maxlen (rev fconvert) (dopr_outch maxlen (chr ".") s)
           else s in
  let s := outch_times maxlen (chr "0") (Z.to_nat zpadlen) s in
  Ret (outch_times maxlen (chr " ") (Z.to_nat (- padlen)) s).

(** ** Variable arguments *)

Inductive arg :=
| AInt (w : Z)
| APtr (a : Z) (str : list Z)
| ADouble (v : LDOUBLE)
| ALDouble (v : LDOUBLE).

(** [va_arg(args, int)] and the other 32-bit types. *)
Definition va_word (args : list arg) : outcome (Z * list arg) :=
  match args with
  | AInt w :: args' => Ret (u32 w, args')
  | APtr a _ :: args' => Ret (u32 a, args')
  | _ => Crash
  end.

Definition va_int (args : list arg) : outcome (Z * list arg) :=
  '(w, args) ← va_word args; Ret (i32 w, args).

(** [va_arg(args, char * )]: [None] is the null pointer. *)
Definition va_str (args : list arg) : outcome (option (list Z) * list arg) :=
  match args with
  | APtr a str :: args' => Ret (if u32 a =? 0 then None else Some str, args')
  | _ => Crash
  end.

Definition va_double (cflags : Z) (args : list arg) : outcome (LDOUBLE * list arg) :=
  match args with
  | ADouble v :: args' => if cflags =? DP_C_LDOUBLE then Crash else Ret (v, args')
  | ALDouble v :: args' => if cflags =? DP_C_LDOUBLE then Ret (v, args') else Crash
  | _ => Crash
  end.

(** [*num = currlen] for [%hn], and for [%n] and [%ln]. *)
Definition store_count (cflags num : Z) (s : sink) : sink :=
  let n := u32 (currlen s) in
  Sink (text s) (currlen s)
    (if cflags =? DP_C_SHORT then st8 (st8 (cells s) num n) (num + 1) (n / 256)
     else st32 (cells s) num n).

(** ** The conversion: state [DP_S_CONV], without the reads of the format *)

Definition ch_is (c : ascii) (ch : Z) : bool := ch =? chr c.

Definition dopr_conv (maxlen ch cflags flags min max : Z) (args : list arg) (s : sink) :
    outcome (list arg * sink) :=
  if ch_is "d" ch || ch_is "i" ch then
    '(value, args) ← va_int args;
    Ret (args, fmtint maxlen value 10 min max flags s)
  else if ch_is "o" ch then
    let flags := Z.lor flags DP_F_UNSIGNED in
    '(value, args) ← va_word args;
    Ret (args, fmtint maxlen (i32 value) 8 min max flags s)
  else if ch_is "u" ch then
    let flags := Z.lor flags DP_F_UNSIGNED in
    '(value, args) ← va_word args;
    Ret (args, fmtint maxlen (i32 value) 10 min max flags s)
  else if ch_is "X" ch || ch_is "x" ch then
    let flags := if ch_is "X" ch then Z.lor flags DP_F_UP else flags in
    let flags := Z.lor flags DP_F_UNSIGNED in
    '(value, args) ← va_word args;
    Ret (args, fmtint maxlen (i32 value) 16 min max flags s)
  else if ch_is "f" ch then
    '(fvalue, args) ← va_double cflags args;
    s ← fmtfp maxlen fvalue min max flags s;
    Ret (args, s)
  else if ch_is "E" ch || ch_is "e" ch || ch_is "G" ch || ch_is "g" ch then
    '(_, args) ← va_double cflags args;
    Ret (args, s)
  else if ch_is "c" ch then
    '(c, args) ← va_int args;
    Ret (args, dopr_outch maxlen c s)
  else if ch_is "s" ch then
    '(strvalue, args) ← va_str args;
    let max := if max <? 0 then maxlen else max in
    Ret (args, fmtstr maxlen strvalue flags min max s)
  else if ch_is "p" ch then
    '(strvalue, args) ← va_word args;
    Ret (args, fmtint maxlen (i32 strvalue) 16 min max flags s)
  else if ch_is "n" ch then
    '(num, args) ← va_word args;
    Ret (args, store_count cflags num s)
  else if ch_is "%" ch then Ret (args, dopr_outch maxlen ch s)
  else Ret (args, s).

(** ** The format reader: [dopr] *)

Record dp := Dp {
  state : dp_state; ch : Z; pos : nat; args : list arg;
  d_min : Z; d_max : Z; d_flags : Z; d_cflags : Z; out : sink }.

(** [*format++]: the characters of the literal, its terminator, and nothing beyond. *)
Definition fetch (format : list Z) (i : nat) : outcome Z :=
  match format !! i with
  | Some c => Ret c
  | None => if Nat.eqb i (length format) then Ret 0 else Crash
  end.

(** [ch = *format++]. *)
Definition next (format : list Z) (d : dp) : outcome dp :=
  c ← fetch format (pos d);
  Ret (Dp (state d) c (S (pos d)) (args d) (d_min d) (d_max d) (d_flags d) (d_cflags d) (out d)).

Definition goto (st : dp_state) (d : dp) : dp :=
  Dp st (ch d) (pos d) (args d) (d_min d) (d_max d) (d_flags d) (d_cflags d) (out d).

Definition put (s : sink) (d : dp) : dp :=
  Dp (state d) (ch d) (pos d) (args d) (d_min d) (d_max d) (d_flags d) (d_cflags d) s.

Definition or_flag (f : Z) (d : dp) : dp :=
  Dp (state d) (ch d) (pos d) (args d) (d_min d) (d_max d) (Z.lor (d_flags d) f) (d_cflags d) (out d).

Definition set_cflags (f : Z) (d : dp) : dp :=
  Dp (state d) (ch d) (pos d) (args d) (d_min d) (d_max d) (d_flags d) f (out d).

Definition set_min (v : Z) (args : list arg) (d : dp) : dp :=
  Dp (state d) (ch d) (pos d) args v (d_max d) (d_flags d) (d_cflags d) (out d).

Definition set_max (v : Z) (args : list arg) (d : dp) : dp :=
  Dp (state d) (ch d) (pos d) args (d_min d) v (d_flags d) (d_cflags d) (out d).

(** [flags = cflags = min = 0; max = -1]. *)
Definition reset (args : list arg) (s : sink) (d : dp) : dp :=
  Dp (state d) (ch d) (pos d) args 0 (-1) 0 0 s.

(** The flag a character stands for in state [DP_S_FLAGS]. *)
Definition flag_of (c : Z) : option Z :=
  if ch_is "-" c then Some DP_F_MINUS
  else if ch_is "+" c then Some DP_F_PLUS
  else if ch_is " " c then Some DP_F_SPACE
  else if ch_is "#" c then Some DP_F_NUM
  else if ch_is "0" c then Some DP_F_ZERO
  else None.

(** The modifier a character stands for in state [DP_S_MOD]. *)
Definition cflag_of (c : Z) : option Z :=
  if ch_is "h" c then Some DP_C_SHORT
  else if ch_is "l" c then Some DP_C_LONG
  else if ch_is "L" c then Some DP_C_LDOUBLE
  else None.

(** [10 * n + char_to_int(ch)]. *)
Definition add_digit (n c : Z) : Z := i32 (10 * n + (c - chr "0")).

(** One turn of [while (state != DP_S_DONE)]. *)
Definition dopr_step (format : list Z) (maxlen : Z) (d : dp) : outcome dp :=
  let d := if (ch d =? 0) || (maxlen <=? currlen (out d)) then goto DP_S_DONE d else d in
  match state d with
  | DP_S_DEFAULT =>
      next format (if ch_is "%" (ch d) then goto DP_S_FLAGS d
                   else put (dopr_outch maxlen (ch d) (out d)) d)
  | DP_S_FLAGS =>
      match flag_of (ch d) with
      | Some f => next format (or_flag f d)
      | None => Ret (goto DP_S_MIN d)
      end
  | DP_S_MIN =>
      if isdigit (ch d) then next format (set_min (add_digit (d_min d) (ch d)) (args d) d)
      else if ch_is "*" (ch d) then
        '(v, args) ← va_int (args d);
        d ← next format (set_min v args d);
        Ret (goto DP_S_DOT d)
      else Ret (goto DP_S_DOT d)
  | DP_S_DOT =>
      if ch_is "." (ch d) then next format (goto DP_S_MAX d) else Ret (goto DP_S_MOD d)
  | DP_S_MAX =>
      if isdigit (ch d) then
        let max := if d_max d <? 0 then 0 else d_max d in
        next format (set_max (add_digit max (ch d)) (args d) d)
      else if ch_is "*" (ch d) then
        '(v, args) ← va_int (args d);
        d ← next format (set_max v args d);
        Ret (goto DP_S_MOD d)
      else Ret (goto DP_S_MOD d)
  | DP_S_MOD =>
      d ← match cflag_of (ch d) with
          | Some f => next format (set_cflags f d)
          | None => Ret d
          end;
      Ret (goto DP_S_CONV d)
  | DP_S_CONV =>
      '(args, s) ← dopr_conv maxlen (ch d) (d_cflags d) (d_flags d) (d_min d) (d_max d) (args d) (out d);
      d ← (if ch_is "w" (ch d) then next format d else Ret d);
      d ← next format d;
      Ret (reset args s (goto DP_S_DEFAULT d))
  | DP_S_DONE => Ret d
  end.

Definition running (d : dp) : bool := match state d with DP_S_DONE => false | _ => true end.

(** Every turn consumes a character or moves towards [DP_S_CONV], so eight turns
    per character are enough. *)
Definition dopr_fuel (format : list Z) : nat := (8 * length format + 16)%nat.

Definition dopr (maxlen : Z) (format : list Z) (args : list arg) (s : sink) : outcome sink :=
  d ← next format (Dp DP_S_DEFAULT 0 0 args 0 (-1) 0 0 s);
  d ← while_loop (dopr_fuel format) running (dopr_step format maxlen) d;
  Ret (out d).

(** [currlen] is 0 in [dopr]. *)
Definition vsnprintf (maxlen : Z) (format : list Z) (args : list arg) (buffer : list Z) (m : mem) :
    outcome sink :=
  dopr maxlen format args (Sink buffer 0 m).

(** [K::snprintf] passes the arguments after the format on. *)
Definition snprintf := vsnprintf.

End Float.

(** ** What is written

    [emit cs s]: the characters [cs] have been put in the sink. *)
Definition emit (cs : list Z) (s : sink) : sink :=
  Sink (text s ++ map u8 cs) (i32 (currlen s + Z.of_nat (length cs))) (cells s).

Lemma i32_idemp x y : i32 (i32 x + y) = i32 (x + y).
Proof.
  unfold i32, u32. cbv zeta.
  destruct (x mod 4294967296 <? 2147483648) eqn:?; repeat break_if; bool_to_prop; zlia.
Qed.

Lemma i32_signed x : -2147483648 <= x < 2147483648 → i32 x = x.
Proof. intros. unfold i32, u32. cbv zeta. break_if; bool_to_prop; zlia. Qed.

Lemma i32_range x : -2147483648 <= i32 x < 2147483648.
Proof. unfold i32, u32. cbv zeta. break_if; bool_to_prop; zlia. Qed.

Lemma outch_emit maxlen c s : dopr_outch maxlen c s = emit [c] s.
Proof. reflexivity. Qed.

Lemma emit_emit a b s : emit b (emit a s) = emit (a ++ b) s.
Proof.
  unfold emit. cbn. f_equal.
  - by rewrite map_app, (assoc_L (++)).
  - rewrite i32_idemp, length_app. f_equal. lia.
Qed.

Lemma outch_all_emit maxlen c cs s : outch_all maxlen (c :: cs) s = emit (c :: cs) s.
Proof.
  revert c s. induction cs as [|c' cs IH]; intros c s; [done|].
  change (outch_all maxlen (c' :: cs) (emit [c] s) = emit (c :: c' :: cs) s).
  by rewrite IH, emit_emit.
Qed.

(** A sink whose counter is a 32-bit value. *)
Definition sink_ok (s : sink) : Prop := i32 (currlen s) = currlen s.

Lemma emit_nil s : sink_ok s → emit [] s = s.
Proof.
  destruct s as [t n m]. unfold sink_ok, emit. cbn. intros.
  by rewrite app_nil_r, Z.add_0_r, H.
Qed.

Lemma emit_ok cs s : sink_ok (emit cs s).
Proof. unfold sink_ok, emit. cbn [currlen]. apply i32_signed, i32_range. Qed.

Lemma outch_all_ok maxlen cs s : sink_ok s → outch_all maxlen cs s = emit cs s.
Proof. intros. destruct cs; [by rewrite emit_nil|]. apply outch_all_emit. Qed.

Lemma outch_times_ok maxlen c n s :
  sink_ok s → outch_times maxlen c n s = emit (repeat c n) s.
Proof.
  revert s. induction n as [|n IH]; intros s Hs; cbn; [by rewrite emit_nil|].
  rewrite outch_emit, IH by apply emit_ok. by rewrite emit_emit.
Qed.

Lemma out_sign_ok maxlen sg s :
  sink_ok s → out_sign maxlen sg s = emit (if sg =? 0 then [] else [sg]) s.
Proof. intros. unfold out_sign. break_if; [by rewrite emit_nil|done]. Qed.

(** ** The digits of a number *)

(** The value of a digit character, of either case. *)
Definition digit_val (c : Z) : option Z :=
  if isdigit c then Some (c - chr "0")
  else if (chr "a" <=? c) && (c <=? chr "f") then Some (c - chr "a" + 10)
  else if (chr "A" <=? c) && (c <=? chr "F") then Some (c - chr "A" + 10)
  else None.

(** The number that a sequence of digits stands for, most significant first,
    up to the first character that is not a digit. *)
Fixpoint read_digits (base acc : Z) (cs : list Z) : Z :=
  match cs with
  | [] => acc
  | c :: cs' =>
      match digit_val c with
      | Some d => read_digits base (base * acc + d) cs'
      | None => acc
      end
  end.

Lemma digit_val_char caps d : 0 <= d < 16 → digit_val (digit_char caps d) = Some d.
Proof.
  intros Hd. assert (d = 0 ∨ d = 1 ∨ d = 2 ∨ d = 3 ∨ d = 4 ∨ d = 5 ∨ d = 6 ∨ d = 7 ∨ d = 8
    ∨ d = 9 ∨ d = 10 ∨ d = 11 ∨ d = 12 ∨ d = 13 ∨ d = 14 ∨ d = 15) by lia.
  destruct caps; naive_solver.
Qed.

Definition base_ok (base : Z) : Prop := 2 <= base <= 16.

(** Reading the converted digits from the most significant one on. *)
Lemma read_convert room caps base u acc cs :
  base_ok base → 0 <= u < base ^ Z.of_nat room →
  read_digits base acc (rev (convert_loop room caps base u) ++ cs) =
  read_digits base (acc * base ^ Z.of_nat (length (convert_loop room caps base u)) + u) cs.
Proof.
  intros Hb. revert u acc cs. induction room as [|room IH]; intros u acc cs Hu.
  { cbn in *. f_equal. lia. }
  cbn [convert_loop]. rewrite Nat2Z.inj_succ, Z.pow_succ_r in Hu by lia. unfold base_ok in Hb.
  assert (0 <= u mod base < base) by (apply Z.mod_pos_bound; lia).
  pose proof (Z.div_mod u base ltac:(lia)).
  destruct (u / base =? 0) eqn:Hz; bool_to_prop.
  - cbn [rev length app]. cbn [read_digits].
    rewrite digit_val_char by lia. change (Z.of_nat 1) with 1. f_equal. lia.
  - cbn [rev length]. rewrite <- app_assoc. cbn [app].
    rewrite IH by (split; [apply Z.div_pos; lia|apply Z.div_lt_upper_bound; lia]).
    cbn [read_digits]. rewrite digit_val_char by lia.
    rewrite Nat2Z.inj_succ, Z.pow_succ_r by lia. f_equal. lia.
Qed.

(** A number below [base ^ k] has at most [k] digits. *)
Lemma convert_length room caps base u k :
  base_ok base → 0 <= u < base ^ Z.of_nat (S k) →
  (length (convert_loop room caps base u) <= S k)%nat.
Proof.
  intros Hb. revert u k. induction room as [|room IH]; intros u k Hu; cbn [convert_loop length]; [lia|].
  unfold base_ok in Hb.
  destruct (u / base =? 0) eqn:Hz; bool_to_prop; cbn [length]; [lia|].
  destruct k as [|k].
  - rewrite Z.pow_1_r in Hu. rewrite Z.div_small in Hz by lia. lia.
  - rewrite Nat2Z.inj_succ, Z.pow_succ_r in Hu by lia.
    apply le_n_S, IH. split; [apply Z.div_pos; lia|apply Z.div_lt_upper_bound; lia].
Qed.

(** The three bases of the conversions. *)
Definition conv_base (base : Z) : Prop := base = 8 ∨ base = 10 ∨ base = 16.

Lemma conv_base_ok base : conv_base base → base_ok base.
Proof. unfold base_ok. intros [->|[->| ->]]; lia. Qed.

(** A 32-bit number needs at most 11 of the 20 places of [convert]. *)
Lemma converted_length caps base u :
  conv_base base → is_u32 u → (length (converted caps base u) <= 11)%nat.
Proof.
  intros Hb Hu. unfold converted. rewrite length_take.
  enough (length (convert_loop 20 caps base u) <= 11)%nat by lia.
  apply convert_length; [by apply conv_base_ok|]. unfold is_u32 in Hu.
  destruct Hb as [->|[->| ->]]; cbn; lia.
Qed.

Lemma converted_full caps base u :
  conv_base base → is_u32 u → converted caps base u = convert_loop 20 caps base u.
Proof.
  intros Hb Hu. unfold converted. apply take_ge.
  assert (length (convert_loop 20 caps base u) <= 11)%nat; [|lia].
  apply convert_length; [by apply conv_base_ok|]. unfold is_u32 in Hu.
  destruct Hb as [->|[->| ->]]; cbn; lia.
Qed.

Lemma read_converted caps base u cs :
  conv_base base → is_u32 u →
  read_digits base 0 (rev (converted caps base u) ++ cs) = read_digits base u cs.
Proof.
  intros Hb Hu. rewrite converted_full by done. rewrite read_convert; [done|by apply conv_base_ok|].
  unfold is_u32 in Hu. destruct Hb as [->|[->| ->]]; cbn; lia.
Qed.

Lemma read_zeros base n cs : read_digits base 0 (repeat (chr "0") n ++ cs) = read_digits base 0 cs.
Proof.
  induction n as [|n IH]; [done|]. cbn [repeat app read_digits].
  change (digit_val (chr "0")) with (Some 0). cbv beta iota. by rewrite Z.mul_0_r, Z.add_0_r.
Qed.

(** ** What [fmtint] writes *)

(** The magnitude that is converted. *)
Definition magnitude (flags value : Z) : Z :=
  if negb (has flags DP_F_UNSIGNED) && (value <? 0) then u32 (- value) else u32 value.

Definition digits_of (value base flags : Z) : list Z :=
  converted (has flags DP_F_UP) base (magnitude flags value).

(** The space and zero padding: [spadlen] before its sign is changed, and [zpadlen]. *)
Definition padding (value base min max flags : Z) : Z * Z :=
  let place := Z.of_nat (length (digits_of value base flags)) in
  let max := Z.max max 0 in
  let sg := if sign_of flags value =? 0 then 0 else 1 in
  let spad := Z.max (i32 (min - Z.max max place - sg)) 0 in
  let zpad := Z.max (max - place) 0 in
  if has flags DP_F_ZERO then (0, Z.max zpad spad) else (spad, zpad).

Definition sign_text (flags value : Z) : list Z :=
  if sign_of flags value =? 0 then [] else [sign_of flags value].

Definition int_field (value base min max flags : Z) : list Z :=
  let '(spad, zpad) := padding value base min max flags in
  let left := has flags DP_F_MINUS in
  repeat (chr " ") (Z.to_nat (if left then 0 else spad)) ++
  sign_text flags value ++
  repeat (chr "0") (Z.to_nat zpad) ++
  rev (digits_of value base flags) ++
  repeat (chr " ") (Z.to_nat (if left then spad else 0)).

Lemma if_lt_max x : (if x <? 0 then 0 else x) = Z.max x 0.
Proof. destruct (Z.ltb_spec x 0); lia. Qed.

Lemma fmtint_emit maxlen value base min max flags s :
  sink_ok s →
  fmtint maxlen value base min max flags s = emit (int_field value base min max flags) s.
Proof.
  intros Hs. unfold fmtint, int_field, padding. cbv zeta. fold (magnitude flags value).
  fold (digits_of value base flags). rewrite !if_lt_max.
  set (place := Z.of_nat _).
  set (spad := Z.max (i32 _) 0). set (zpad := Z.max (Z.max max 0 - place) 0).
  assert (0 <= spad) by (unfold spad; lia).
  destruct (has flags DP_F_ZERO), (has flags DP_F_MINUS);
    rewrite (outch_times_ok _ _ _ s Hs), (out_sign_ok _ _ (emit _ _) (emit_ok _ _)), emit_emit;
    rewrite (outch_times_ok _ _ _ (emit _ _) (emit_ok _ _)), emit_emit;
    rewrite (outch_all_ok _ _ (emit _ _) (emit_ok _ _)), emit_emit;
    rewrite (outch_times_ok _ _ _ (emit _ _) (emit_ok _ _)), emit_emit;
    rewrite <- ?app_assoc; repeat (f_equal; try lia).
Qed.

(** ** Reading a field back *)

(** What a reader of numbers makes of a field: leading spaces are skipped, a
    sign may follow, and then digits. *)
Fixpoint scan_int (base : Z) (cs : list Z) : Z :=
  match cs with
  | [] => 0
  | c :: cs' =>
      if ch_is " " c then scan_int base cs'
      else if ch_is "-" c then - read_digits base 0 cs'
      else if ch_is "+" c then read_digits base 0 cs'
      else read_digits base 0 cs
  end.

Lemma scan_spaces base n cs : scan_int base (repeat (chr " ") n ++ cs) = scan_int base cs.
Proof. by induction n. Qed.

Lemma read_spaces base acc n : read_digits base acc (repeat (chr " ") n) = acc.
Proof. by destruct n. Qed.

Lemma digit_char_code caps d : 0 <= d < 16 →
  48 <= digit_char caps d <= 57 ∨ 65 <= digit_char caps d <= 70 ∨ 97 <= digit_char caps d <= 102.
Proof.
  intros. unfold digit_char. change (chr "0") with 48. change (chr "A") with 65. change (chr "a") with 97.
  destruct (Z.ltb_spec d 10); [lia|]. destruct caps; lia.
Qed.

Lemma convert_codes room caps base u : base_ok base →
  Forall (λ c, 48 <= c <= 57 ∨ 65 <= c <= 70 ∨ 97 <= c <= 102) (convert_loop room caps base u).
Proof.
  intros Hb. unfold base_ok in Hb.
  revert u. induction room as [|room IH]; intros u; cbn [convert_loop]; [done|].
  constructor.
  - apply digit_char_code. pose proof (Z.mod_pos_bound u base). lia.
  - break_if; [done|apply IH].
Qed.

Lemma digits_codes value base flags : conv_base base →
  Forall (λ c, 48 <= c <= 57 ∨ 65 <= c <= 70 ∨ 97 <= c <= 102) (rev (digits_of value base flags)).
Proof.
  intros Hb. apply Forall_rev, Forall_take, convert_codes. by apply conv_base_ok.
Qed.

Lemma digits_nonempty value base flags : digits_of value base flags ≠ [].
Proof. discriminate. Qed.

Lemma magnitude_u32 flags value : is_u32 (magnitude flags value).
Proof. unfold magnitude. break_if; apply u32_range. Qed.

(** A number whose first character is a digit is read without a sign. *)
Lemma scan_digits base n ds cs :
  ds ≠ [] → Forall (λ c, 48 <= c <= 57 ∨ 65 <= c <= 70 ∨ 97 <= c <= 102) ds →
  scan_int base (repeat (chr "0") n ++ ds ++ cs) = read_digits base 0 (repeat (chr "0") n ++ ds ++ cs).
Proof.
  intros Hds Hall. destruct n as [|n]; [|reflexivity].
  destruct Hall as [|d ds Hd _]; [done|]. cbn [repeat app scan_int].
  unfold ch_is. change (chr " ") with 32. change (chr "-") with 45. change (chr "+") with 43.
  by rewrite !(proj2 (Z.eqb_neq d _)) by lia.
Qed.

Lemma read_field base value flags n m :
  conv_base base →
  read_digits base 0 (repeat (chr "0") n ++ rev (digits_of value base flags) ++ repeat (chr " ") m)
  = magnitude flags value.
Proof.
  intros Hb. rewrite read_zeros. unfold digits_of.
  rewrite read_converted by (done || apply magnitude_u32). apply read_spaces.
Qed.

Lemma sign_cases flags value :
  sign_of flags value = 0 ∨ sign_of flags value = chr "-" ∨
  sign_of flags value = chr "+" ∨ sign_of flags value = chr " ".
Proof. unfold sign_of. repeat break_if; tauto. Qed.

Lemma sign_scan base value flags cs :
  scan_int base cs = read_digits base 0 cs →
  scan_int base (sign_text flags value ++ cs) =
    (if sign_of flags value =? chr "-" then -1 else 1) * read_digits base 0 cs.
Proof.
  intros Hcs. unfold sign_text. generalize (sign_cases flags value).
  intros [->|[->|[->| ->]]].
  - change (scan_int base cs = 1 * read_digits base 0 cs). lia.
  - change (- read_digits base 0 cs = -1 * read_digits base 0 cs). lia.
  - change (read_digits base 0 cs = 1 * read_digits base 0 cs). lia.
  - change (scan_int base cs = 1 * read_digits base 0 cs). lia.
Qed.

Lemma scan_field base value min max flags :
  conv_base base → -2147483648 <= value < 2147483648 →
  scan_int base (int_field value base min max flags) =
    if has flags DP_F_UNSIGNED then u32 value else value.
Proof.
  intros Hb Hv. unfold int_field. destruct (padding _ _ _ _ _) as [spad zpad]. cbv zeta.
  rewrite scan_spaces, sign_scan by
    (try done; apply scan_digits; [intros E; apply (f_equal length) in E; by rewrite length_rev in E|by apply digits_codes]).
  rewrite read_field by done. unfold magnitude, sign_of.
  destruct (has flags DP_F_UNSIGNED); cbn [negb andb]; cbv iota.
  { change (0 =? chr "-") with false.
    cbv iota. lia. }
  destruct (Z.ltb_spec value 0) as [Hneg|Hpos].
  - rewrite Z.eqb_refl. rewrite u32_small by (unfold is_u32; lia). lia.
  - rewrite u32_small by (unfold is_u32; lia).
    destruct (has flags DP_F_PLUS); [change (chr "+" =? chr "-") with false; cbv iota; lia|].
    destruct (has flags DP_F_SPACE); [change (chr " " =? chr "-") with false; cbv iota; lia|].
    change (0 =? chr "-") with false. cbv iota. lia.
Qed.

(** The length of a field: the requested width, or what the sign and the digits
    need; with [DP_F_ZERO] the zeros fill the width unless the precision asks
    for more digits than the number has. *)
Lemma field_length value base min max flags :
  conv_base base → -1073741824 <= min < 1073741824 → max < 1073741824 →
  has flags DP_F_ZERO = false ∨ max <= 0 →
  Z.of_nat (length (int_field value base min max flags)) =
    Z.max min (Z.max max (Z.of_nat (length (digits_of value base flags)))
               + Z.of_nat (length (sign_text flags value))).
Proof.
  intros Hb Hmin Hmax Hz. unfold int_field, padding. cbv zeta.
  assert (0 < length (digits_of value base flags) <= 11)%nat as Hd.
  { split; [apply Nat.lt_0_succ|]. apply converted_length; [done|apply magnitude_u32]. }
  rewrite (i32_signed (min - _ - _)) by (destruct (sign_of flags value =? 0); lia).
  unfold sign_text.
  destruct (has flags DP_F_ZERO); [destruct Hz as [?|Hz]; [done|]|];
    destruct (has flags DP_F_MINUS), (sign_of flags value =? 0);
    rewrite !length_app, length_rev, !repeat_length; cbn [length]; lia.
Qed.

Lemma bytes_id cs : Forall (λ c, 0 <= c < 256) cs → map u8 cs = cs.
Proof.
  induction 1 as [|c cs Hc _ IH]; [done|]. cbn [map]. rewrite IH. f_equal.
  by apply Z.mod_small.
Qed.

Lemma field_bytes value base min max flags :
  conv_base base → map u8 (int_field value base min max flags) = int_field value base min max flags.
Proof.
  intros Hb. apply bytes_id. unfold int_field. destruct (padding _ _ _ _ _) as [spad zpad]. cbv zeta.
  assert (∀ c n, 0 <= chr c < 256 → Forall (λ c, 0 <= c < 256) (repeat (chr c) n)) as Hr.
  { intros c n Hc. induction n; cbn [repeat]; by constructor. }
  pose proof (digits_codes value base flags Hb) as Hd. revert Hd. generalize (rev (digits_of value base flags)).
  intros ds Hd. rewrite !Forall_app. repeat split; try (apply Hr; cbv; split; congruence).
  - unfold sign_text. destruct (sign_of flags value =? 0) eqn:E; [done|]. constructor; [|done].
    destruct (sign_cases flags value) as [->|[->|[->| ->]]]; cbv; split; congruence.
  - eapply Forall_impl; [done|]. cbn. lia.
Qed.

(** C27 (roundtrip): [fmtint] only appends characters, and a reader of numbers
    that is given what it appended gets the value back: the signed value, or
    its 32-bit unsigned reading under [DP_F_UNSIGNED], whatever the width, the
    precision and the other flags. *)
Theorem fmtint_roundtrip maxlen value base min max flags s :
  conv_base base → -2147483648 <= value < 2147483648 → sink_ok s →
  let s' := fmtint maxlen value base min max flags s in
  let field := drop (length (text s)) (text s') in
  text s' = text s ++ field ∧
  scan_int base field = (if has flags DP_F_UNSIGNED then u32 value else value) ∧
  currlen s' = i32 (currlen s + Z.of_nat (length field)) ∧ cells s' = cells s.
Proof.
  intros Hb Hv Hs. rewrite fmtint_emit by done. cbn. rewrite drop_app_length, field_bytes by done.
  split; [done|]. split; [by apply scan_field|]. done.
Qed.

Lemma fmtint_roundtrip_witness :
  let s' := fmtint 1000 (-305) 10 8 5 DP_F_PLUS (Sink [chr "v"] 1 (λ _, 0)) in
  scan_int 10 (drop 1 (text s')) = -305.
Proof.
  destruct (fmtint_roundtrip 1000 (-305) 10 8 5 DP_F_PLUS (Sink [chr "v"] 1 (λ _, 0))
    (or_intror (or_introl eq_refl)) ltac:(lia) eq_refl) as (_ & H & _). exact H.
Defined.



(** ** The format reader ends *)

Section Reader.
Context `{FPU}.

(** What is left to read, and how far the state is from [DP_S_CONV]. *)
Definition rank (st : dp_state) : Z :=
  match st with
  | DP_S_DEFAULT => 7 | DP_S_FLAGS => 6 | DP_S_MIN => 5 | DP_S_DOT => 4
  | DP_S_MAX => 3 | DP_S_MOD => 2 | DP_S_CONV => 1 | DP_S_DONE => 0
  end.

Definition dp_measure (format : list Z) (d : dp) : Z :=
  8 * (Z.of_nat (length format) + 1 - Z.of_nat (pos d)) + rank (state d).

Definition in_format (format : list Z) (d : dp) : Prop := (pos d <= S (length format))%nat.

Lemma fetch_end format i : ret_or_crash (fetch format i).
Proof. unfold fetch. by repeat break_match. Qed.

Lemma fetch_bound format i c : fetch format i = Ret c → (i <= length format)%nat.
Proof.
  unfold fetch. destruct (format !! i) eqn:E; [apply lookup_lt_Some in E; lia|].
  destruct (Nat.eqb_spec i (length format)); [lia|done].
Qed.

Lemma next_end format d : ret_or_crash (next format d).
Proof. unfold next. pose proof (fetch_end format (pos d)). by destruct (fetch _ _). Qed.

(** What [next] changes. *)
Lemma next_Ret format d d' : next format d = Ret d' →
  (pos d <= length format)%nat ∧ pos d' = S (pos d) ∧ state d' = state d.
Proof.
  unfold next. destruct (fetch format (pos d)) eqn:E; cbn; [|done..].
  intros [= <-]. split; [by eapply fetch_bound|done].
Qed.

Lemma va_word_end l : ret_or_crash (va_word l).
Proof. unfold va_word. by repeat break_match. Qed.

Lemma va_int_end l : ret_or_crash (va_int l).
Proof. unfold va_int. apply ret_or_crash_bind; [apply va_word_end|]. by intros []. Qed.

Lemma va_double_end k l : ret_or_crash (va_double k l).
Proof. unfold va_double. by repeat break_match. Qed.

Lemma va_str_end l : ret_or_crash (va_str l).
Proof. unfold va_str. by repeat break_match. Qed.

Lemma fmtfp_end maxlen v min max flags s : ret_or_crash (fmtfp maxlen v min max flags s).
Proof.
  unfold fmtfp. cbv zeta. match goal with |- context [if ?b then (?a, ?c) else ?e] =>
    destruct (if b then (a, c) else e) as [ip fp] end.
  apply ret_or_crash_bind; [unfold fconverted; by break_if|]. intros ? _.
  apply ret_or_crash_bind; [unfold fconverted; by break_if|]. intros ? _.
  by repeat break_match.
Qed.

Lemma dopr_conv_end maxlen c cf fl mn mx l s : ret_or_crash (dopr_conv maxlen c cf fl mn mx l s).
Proof.
  unfold dopr_conv.
  repeat match goal with |- context [if ?b then _ else _] =>
    lazymatch b with orb _ _ => destruct b | ch_is _ c => destruct b end end;
  repeat (apply ret_or_crash_bind;
    [first [apply va_int_end|apply va_word_end|apply va_double_end|apply va_str_end|apply fmtfp_end]
    |intros [] ?]); done.
Qed.

Lemma dp_measure_pos format d : in_format format d → running d = true → 0 < dp_measure format d.
Proof.
  unfold in_format, dp_measure, running. intros. destruct (state d); cbn [rank]; (done || lia).
Qed.

(** A turn that started in [d0] crashes, or goes down. *)
Definition down (format : list Z) (d0 d : dp) : Prop :=
  in_format format d ∧ 0 <= dp_measure format d < dp_measure format d0.

Definition turn_ends (format : list Z) (d0 : dp) (m : outcome dp) : Prop :=
  ret_or_crash m ∧ ∀ d, m = Ret d → down format d0 d.

Lemma turn_bind {A} format d0 (m : outcome A) f :
  ret_or_crash m → (∀ a, m = Ret a → turn_ends format d0 (f a)) → turn_ends format d0 (m ≫= f).
Proof.
  intros Hm Hf. split.
  - apply ret_or_crash_bind; [done|]. intros a Ha. apply (Hf a Ha).
  - intros d (a & Ha & Hd)%bind_Ret_inv. by apply (Hf a Ha).
Qed.

Lemma turn_goto format d0 st : in_format format d0 → rank st < rank (state d0) →
  turn_ends format d0 (Ret (goto st d0)).
Proof.
  intros Hin Hr. split; [done|]. intros d [= <-]. unfold down, in_format, dp_measure in *.
  cbn [pos state goto]. assert (0 <= rank st) by (destruct st; cbn; lia). lia.
Qed.

(** A turn that has read the next character goes down, whatever the next state. *)
Lemma turn_read format d0 d g :
  running d0 = true → in_format format d0 → (pos d0 <= pos d)%nat → (∀ e, pos (g e) = pos e) →
  turn_ends format d0 (d ← next format d; Ret (g d)).
Proof.
  intros Hrun Hin Hpos Hg. apply turn_bind; [apply next_end|].
  intros e (Hp & Hp' & Hs)%next_Ret. split; [done|]. intros d' [= <-].
  unfold down, in_format, dp_measure in *. rewrite Hg, Hp'.
  assert (1 <= rank (state d0)) by (unfold running in Hrun; destruct (state d0); (done || cbn; lia)).
  assert (0 <= rank (state (g e)) <= 7) by (destruct (state (g e)); cbn; lia). lia.
Qed.

Lemma turn_next format d0 d :
  running d0 = true → in_format format d0 → pos d = pos d0 →
  turn_ends format d0 (next format d).
Proof.
  intros Hrun Hin Hpos.
  replace (next format d) with (d ← next format d; Ret (id d)) by by destruct (next format d).
  apply turn_read; [done|done|lia|done].
Qed.

Lemma dopr_step_end format maxlen d : in_format format d → running d = true →
  turn_ends format d (dopr_step format maxlen d).
Proof.
  intros Hin Hrun. unfold dopr_step. pose proof (va_int_end (args d)).
  destruct ((ch d =? 0) || (maxlen <=? currlen (out d))).
  { cbn [state goto]. apply turn_goto; [done|].
    unfold running in Hrun. destruct (state d); (done || cbn; lia). }
  destruct (state d) eqn:Hst; cbv zeta.
  - apply turn_next; [done|done|by break_if].
  - destruct (flag_of (ch d)); [by apply turn_next|]. apply turn_goto; [done|]. rewrite Hst. cbn. lia.
  - repeat break_if; [by apply turn_next| |apply turn_goto; [done|rewrite Hst; cbn; lia]].
    apply turn_bind; [done|]. intros [v l] _. by apply turn_read.
  - break_if; [by apply turn_next|]. apply turn_goto; [done|]. rewrite Hst. cbn. lia.
  - destruct (isdigit (ch d)); [by apply turn_next|].
    break_if; [|apply turn_goto; [done|rewrite Hst; cbn; lia]].
    apply turn_bind; [done|]. intros [v l] _. by apply turn_read.
  - destruct (cflag_of (ch d)); [by apply turn_read|].
    apply turn_goto; [done|]. rewrite Hst. cbn. lia.
  - apply turn_bind; [apply dopr_conv_end|]. intros [l s] _. break_if.
    + apply turn_bind; [apply next_end|]. intros e (Hp & Hp' & _)%next_Ret.
      apply turn_read; [done|done|lia|done].
    + cbn [mbind outcome_bind]. by apply turn_read.
  - unfold running in Hrun. by rewrite Hst in Hrun.
Qed.

(** ** Enough arguments *)

(** A pointer to a C string serves every conversion but the floating-point ones. *)
Definition is_ptr (a : arg) : Prop := match a with APtr _ _ => True | _ => False end.

#[export] Instance is_ptr_dec a : Decision (is_ptr a).
Proof. destruct a; cbn; apply _. Defined.

Definition float_conv (c : Z) : bool :=
  ch_is "f" c || ch_is "e" c || ch_is "E" c || ch_is "g" c || ch_is "G" c.

(** A format that a list of pointers can serve: no floating-point conversion,
    and [w], which skips a character, is not its last character. *)
Definition plain_format (format : list Z) : bool :=
  forallb (λ c, negb (float_conv c)) format && negb (ch_is "w" (List.last format 0)).

(** [c] is the character before position [i], and there is an argument for every
    character from it on. *)
Definition fed (format : list Z) (i : nat) (c : Z) (l : list arg) : Prop :=
  (0 < i)%nat ∧ fetch format (i - 1) = Ret c ∧ Forall is_ptr l ∧ (S (length format) <= i + length l)%nat.

Definition fed_dp (format : list Z) (d : dp) : Prop := fed format (pos d) (ch d) (args d).

Lemma fed_inside format i c l : fed format i c l → c ≠ 0 → (i <= length format)%nat ∧ format !! (i - 1)%nat = Some c.
Proof.
  intros (Hi & Hf & _) Hc. unfold fetch in Hf.
  destruct (format !! (i - 1)%nat) eqn:E; [apply lookup_lt_Some in E; split; [lia|congruence]|].
  break_if; congruence.
Qed.

Lemma fetch_Ret format i : (i <= length format)%nat → ∃ c, fetch format i = Ret c.
Proof.
  intros Hi. unfold fetch. destruct (format !! i) eqn:E; [eauto|].
  apply lookup_ge_None in E. destruct (Nat.eqb_spec i (length format)); [eauto|lia].
Qed.

(** Reading on, with one argument less at most. *)
Lemma fed_next format d :
  (pos d <= length format)%nat → Forall is_ptr (args d) →
  (length format <= pos d + length (args d))%nat →
  ∃ d', next format d = Ret d' ∧ fed_dp format d' ∧ pos d' = S (pos d) ∧ args d' = args d.
Proof.
  intros Hi Hp Hl. unfold next. destruct (fetch_Ret _ _ Hi) as [c Hc]. rewrite Hc. cbn.
  eexists. split; [done|]. split; [|done]. unfold fed_dp, fed. cbn. split; [lia|].
  rewrite Nat.sub_0_r. split; [done|]. split; [done|lia].
Qed.

Lemma va_word_ptr l : Forall is_ptr l → l ≠ [] → ∃ w l', va_word l = Ret (w, l') ∧ Forall is_ptr l' ∧ length l = S (length l').
Proof. destruct 1 as [|[] l Ha Hl]; try done. intros _. cbn. eauto. Qed.

Lemma va_int_ptr l : Forall is_ptr l → l ≠ [] → ∃ w l', va_int l = Ret (w, l') ∧ Forall is_ptr l' ∧ length l = S (length l').
Proof.
  intros Hl Hn. destruct (va_word_ptr l Hl Hn) as (w & l' & E & H').
  unfold va_int. rewrite E. cbn. eauto.
Qed.

Lemma va_str_ptr l : Forall is_ptr l → l ≠ [] → ∃ w l', va_str l = Ret (w, l') ∧ Forall is_ptr l' ∧ length l = S (length l').
Proof. destruct 1 as [|[] l Ha Hl]; try done. intros _. cbn. eauto. Qed.

Lemma dopr_conv_ptr maxlen c cf fl mn mx l s :
  float_conv c = false → Forall is_ptr l → l ≠ [] →
  ∃ l' s', dopr_conv maxlen c cf fl mn mx l s = Ret (l', s') ∧ Forall is_ptr l' ∧ (length l <= S (length l'))%nat.
Proof.
  intros Hf Hl Hn. unfold float_conv in Hf. bool_to_prop. unfold dopr_conv.
  destruct (va_word_ptr l Hl Hn) as (w & l1 & Ew & Hl1 & Hn1).
  destruct (va_int_ptr l Hl Hn) as (v & l2 & Ei & Hl2 & Hn2).
  destruct (va_str_ptr l Hl Hn) as (t & l3 & Es & Hl3 & Hn3).
  repeat match goal with H : ch_is _ c = false |- _ => rewrite H; clear H end.
  cbn [orb].
  repeat match goal with |- context [if ?b then _ else _] =>
    lazymatch b with orb _ _ => destruct b | ch_is _ c => destruct b end end;
  rewrite ?Ew, ?Ei, ?Es; do 2 eexists; (split; [reflexivity|]); (split; [done|]); lia.
Qed.

Lemma plain_float format c : plain_format format = true → c ∈ format → float_conv c = false.
Proof.
  unfold plain_format. intros [Hall _]%andb_true_iff Hc.
  rewrite forallb_forall in Hall. apply negb_true_iff, Hall. by apply list_elem_of_In.
Qed.

(** The last character of a plain format is not [w]. *)
Lemma plain_w format i : plain_format format = true → format !! i = Some (chr "w") →
  (S i < length format)%nat.
Proof.
  unfold plain_format. intros [_ Hw]%andb_true_iff Hi. apply negb_true_iff in Hw.
  pose proof (lookup_lt_Some _ _ _ Hi). destruct (decide (S i = length format)) as [E|]; [|lia].
  exfalso. revert Hw. rewrite (app_removelast_last 0 (l := format)) in Hi by (intros ->; done).
  assert (length format = S (length (removelast format))) as Hl.
  { rewrite (app_removelast_last 0 (l := format)) at 1 by (intros ->; done).
    rewrite length_app. cbn. lia. }
  rewrite lookup_app_r in Hi by lia. replace (i - _)%nat with 0%nat in Hi by lia.
  injection Hi as ->. done.
Qed.

(** Every turn on a plain format with enough pointers returns. *)
Lemma dopr_step_fed format maxlen d :
  plain_format format = true → fed_dp format d → running d = true →
  ∃ d', dopr_step format maxlen d = Ret d' ∧ fed_dp format d'.
Proof.
  intros Hplain Hfed Hrun. unfold dopr_step.
  destruct (Z.eqb_spec (ch d) 0) as [|Hc]; [cbn; eauto|].
  destruct (maxlen <=? currlen (out d)); [cbn; eauto|]. cbn [orb].
  destruct (fed_inside _ _ _ _ Hfed Hc) as [Hin Hch]. pose proof Hfed as (Hi & Hf & Hp & Hl).
  assert (∀ e, pos e = pos d → args e = args d → ∃ d', next format e = Ret d' ∧ fed_dp format d') as Hnext.
  { intros e Hpe Hae. destruct (fed_next format e) as (d' & ? & ? & _); rewrite ?Hpe, ?Hae; (done || lia || eauto). }
  assert (args d ≠ []) as Hn by (intros E; rewrite E in Hl; cbn in Hl; lia).
  destruct (va_int_ptr _ Hp Hn) as (v & l & Ev & Hpl & Hll).
  destruct (state d); cbv zeta.
  - apply Hnext; by break_if.
  - destruct (flag_of (ch d)); [by apply Hnext|eauto].
  - repeat break_if; [by apply Hnext| |eauto]. rewrite Ev. cbn [mbind outcome_bind].
    destruct (fed_next format (set_min v l d)) as (d' & -> & Hd' & _); [done|done|cbn; lia|].
    cbn. eauto.
  - break_if; [by apply Hnext|eauto].
  - destruct (isdigit (ch d)); [by apply Hnext|]. break_if; [|eauto]. rewrite Ev. cbn [mbind outcome_bind].
    destruct (fed_next format (set_max v l d)) as (d' & -> & Hd' & _); [done|done|cbn; lia|].
    cbn. eauto.
  - destruct (cflag_of (ch d)); [|cbn; eauto].
    destruct (Hnext (set_cflags z d)) as (d' & -> & Hd'); [done|done|]. cbn. eauto.
  - destruct (dopr_conv_ptr maxlen (ch d) (d_cflags d) (d_flags d) (d_min d) (d_max d) (args d) (out d))
      as (l' & s' & -> & Hpl' & Hll'); [by eapply plain_float, list_elem_of_lookup_2|done..|].
    cbn [mbind outcome_bind]. destruct (ch_is "w" (ch d)) eqn:Hw.
    + unfold ch_is in Hw. bool_to_prop. rewrite Hw in Hch. apply plain_w in Hch; [|done].
      destruct (fed_next format d) as (d1 & -> & _ & Hp1 & _); [done|done|lia|]. cbn [mbind outcome_bind].
      unfold next. rewrite Hp1. destruct (fetch_Ret format (S (pos d))) as [c Ec]; [lia|]. rewrite Ec. cbn.
      eexists. split; [done|]. unfold fed_dp, fed. cbn. rewrite ?Nat.sub_0_r. repeat split; (done || lia).
    + cbn [mbind outcome_bind]. unfold next. destruct (fetch_Ret format (pos d)) as [c Ec]; [lia|]. rewrite Ec. cbn.
      eexists. split; [done|]. unfold fed_dp, fed. cbn. rewrite ?Nat.sub_0_r. repeat split; (done || lia).
  - eauto.
Qed.

Lemma dopr_start format args s :
  next format (Dp DP_S_DEFAULT 0 0 args 0 (-1) 0 0 s) =
    Ret (Dp DP_S_DEFAULT (default 0 (head format)) 1 args 0 (-1) 0 0 s).
Proof. by destruct format. Qed.


End Reader.

(** ** Formats as directives

    What the reader makes of a format, without its state machine: a format is a
    sequence of literal characters and conversions. *)

Inductive amount := Digits (ds : list Z) | Star.

Inductive flag := Minus | Plus | Blank | Sharp | Zero.
Inductive modifier := Short | Long | LongDouble.

Inductive directive :=
| Lit (c : Z)
| Conv (flags : list flag) (width : amount) (prec : option amount) (mo : option modifier) (conv : Z).

Definition flag_char (f : flag) : Z :=
  chr match f with Minus => "-" | Plus => "+" | Blank => " " | Sharp => "#" | Zero => "0" end.

Definition flag_bit (f : flag) : Z :=
  match f with
  | Minus => DP_F_MINUS | Plus => DP_F_PLUS | Blank => DP_F_SPACE
  | Sharp => DP_F_NUM | Zero => DP_F_ZERO
  end.

Definition mod_char (m : modifier) : Z :=
  chr match m with Short => "h" | Long => "l" | LongDouble => "L" end.

Definition mod_bit (m : modifier) : Z :=
  match m with Short => DP_C_SHORT | Long => DP_C_LONG | LongDouble => DP_C_LDOUBLE end.

Definition mod_text (m : option modifier) : list Z :=
  match m with Some k => [mod_char k] | None => [] end.

Definition is_flag (c : Z) : bool :=
  existsb (λ f, flag_char f =? c) [Minus; Plus; Blank; Sharp; Zero].

Definition is_modifier (c : Z) : bool :=
  existsb (λ m, mod_char m =? c) [Short; Long; LongDouble].

Definition unparse_amount (a : amount) : list Z :=
  match a with Digits ds => ds | Star => [chr "*"] end.

Definition unparse (d : directive) : list Z :=
  match d with
  | Lit c => [c]
  | Conv fl w p m c =>
      chr "%" :: map flag_char fl ++ unparse_amount w ++
      match p with Some a => chr "." :: unparse_amount a | None => [] end ++ mod_text m ++ [c]
  end.

Definition all_digits (a : amount) : bool :=
  match a with Digits ds => forallb isdigit ds | Star => true end.

(** The width does not start with 0, which is a flag; a conversion character is
    not one that an earlier part of the directive would take. *)
Definition directive_ok (d : directive) : bool :=
  match d with
  | Lit c => negb (c =? 0) && negb (ch_is "%" c)
  | Conv fl w p m c =>
      all_digits w && negb (is_flag (default 1 (head (unparse_amount w)))) &&
      match p with Some a => all_digits a | None => true end &&
      negb (is_flag c) && negb (isdigit c) && negb (ch_is "*" c) &&
      negb (ch_is "." c) && negb (is_modifier c) &&
      negb (ch_is "w" c) && negb (c =? 0)
  end.

Lemma flag_of_char f : flag_of (flag_char f) = Some (flag_bit f).
Proof. by destruct f. Qed.

Lemma cflag_of_char m : cflag_of (mod_char m) = Some (mod_bit m).
Proof. by destruct m. Qed.

Lemma flag_of_none c : is_flag c = false → flag_of c = None.
Proof.
  unfold is_flag, flag_of, ch_is, flag_char. cbn [existsb]. rewrite !orb_false_iff, !(Z.eqb_sym _ c).
  intros (H1 & H2 & H3 & H4 & H5 & _). by rewrite H1, H2, H3, H4, H5.
Qed.

Lemma cflag_of_none c : is_modifier c = false → cflag_of c = None.
Proof.
  unfold is_modifier, cflag_of, ch_is, mod_char. cbn [existsb]. rewrite !orb_false_iff, !(Z.eqb_sym _ c).
  intros (H1 & H2 & H3 & _). by rewrite H1, H2, H3.
Qed.

Section Directives.
Context `{FPU}.

Definition width_of (a : amount) (l : list arg) : outcome (Z * list arg) :=
  match a with
  | Digits ds => Ret (fold_left add_digit ds 0, l)
  | Star => va_int l
  end.

(** A precision without digits is no precision. *)
Definition prec_of (p : option amount) (l : list arg) : outcome (Z * list arg) :=
  match p with
  | None => Ret (-1, l)
  | Some (Digits ds) => Ret (fold_left (λ m c, add_digit (if m <? 0 then 0 else m) c) ds (-1), l)
  | Some Star => va_int l
  end.

Definition flags_of (fl : list flag) : Z := fold_left (λ v f, Z.lor v (flag_bit f)) fl 0.

Definition mod_of (m : option modifier) : Z := match m with Some k => mod_bit k | None => 0 end.

Definition render (maxlen : Z) (d : directive) (l : list arg) (s : sink) : outcome (list arg * sink) :=
  match d with
  | Lit c => Ret (l, dopr_outch maxlen c s)
  | Conv fl w p m c =>
      '(mn, l) ← width_of w l;
      '(mx, l) ← prec_of p l;
      dopr_conv maxlen c (mod_of m) (flags_of fl) mn mx l s
  end.

Fixpoint render_all (maxlen : Z) (ds : list directive) (l : list arg) (s : sink) : outcome sink :=
  match ds with
  | [] => Ret s
  | d :: ds' =>
      if maxlen <=? currlen s then Ret s
      else '(l, s) ← render maxlen d l s; render_all maxlen ds' l s
  end.

(** ** The reader on a suffix of its format *)

Variable format : list Z.
Variable maxlen : Z.

(** The reader with [suf] left, its first character in [ch]. *)
Definition rd (suf : list Z) (st : dp_state) (l : list arg) (mn mx fl cf : Z) (s : sink) : dp :=
  Dp st (default 0 (head suf)) (S (length format - length suf)) l mn mx fl cf s.

(** [n] turns at most lead from [d] to the outcome [m]. *)
Definition leads (n : nat) (d : dp) (m : outcome dp) : Prop :=
  ∃ k, (k <= n)%nat ∧ ∀ f,
    while_loop (k + f) running (dopr_step format maxlen) d =
    m ≫= while_loop f running (dopr_step format maxlen).

Lemma leads_refl d : leads 0 d (Ret d).
Proof. exists 0%nat. split; [lia|done]. Qed.

Lemma leads_turn d : running d = true → leads 1 d (dopr_step format maxlen d).
Proof. intros Hr. exists 1%nat. split; [lia|]. intros f. cbn. by rewrite Hr. Qed.

Lemma leads_le n k d m : leads n d m → (n <= k)%nat → leads k d m.
Proof. intros (a & Ha & Hf) Hk. exists a. split; [lia|done]. Qed.

Lemma leads_bind n k d m g :
  leads n d m → (∀ d', m = Ret d' → leads k d' (g d')) → leads (n + k) d (m ≫= g).
Proof.
  intros (a & Ha & Hf) Hg. destruct m as [d'| | |]; try (exists a; split; [lia|exact Hf]).
  destruct (Hg d' eq_refl) as (b & Hb & Hf'). exists (a + b)%nat. split; [lia|]. intros f.
  rewrite <- Nat.add_assoc, Hf. apply Hf'.
Qed.

Lemma leads_seq {A} n k d (m : outcome A) (h : A → dp) (g : A → outcome dp) :
  leads n d (a ← m; Ret (h a)) → (∀ a, m = Ret a → leads k (h a) (g a)) → leads (n + k) d (m ≫= g).
Proof.
  intros Hm Hg. destruct m as [a|w| |]; cbn [mbind outcome_bind] in *.
  2-4: by eapply leads_le; [exact Hm|lia].
  apply (leads_bind n k d (Ret (h a)) (λ _, g a)); [done|]. intros d' [= <-]. by apply Hg.
Qed.

Lemma leads_trans n k d d' m : leads n d (Ret d') → leads k d' m → leads (n + k) d m.
Proof. intros H1 H2. apply (leads_bind n k d (Ret d') (λ _, m)); [done|]. by intros ? [= <-]. Qed.

Lemma next_rd c suf st l mn mx fl cf s :
  suffix (c :: suf) format →
  next format (rd (c :: suf) st l mn mx fl cf s) = Ret (rd suf st l mn mx fl cf s).
Proof.
  intros [pre E]. unfold next, rd, fetch. cbn [pos head default length].
  assert (length format = length pre + S (length suf))%nat as Hl by (rewrite E, length_app; done).
  replace (S (length format - S (length suf))) with (S (length pre)) by lia.
  replace (format !! S (length pre)) with (head suf).
  2:{ rewrite E, lookup_app_r by lia. replace (S (length pre) - length pre)%nat with 1%nat by lia.
      by destruct suf. }
  destruct suf as [|c' suf]; cbn [head default].
  - rewrite (proj2 (Nat.eqb_eq _ _)) by (cbn in Hl; lia). cbn. repeat f_equal. cbn in Hl. lia.
  - cbn. repeat f_equal. cbn in Hl. lia.
Qed.

(** A turn in the middle of a directive: no end of the format, no limit. *)
Lemma step_rd c suf st l mn mx fl cf s :
  (c =? 0) = false → (maxlen <=? currlen s) = false →
  let d := rd (c :: suf) st l mn mx fl cf s in
  dopr_step format maxlen d =
  match st with
  | DP_S_DEFAULT => next format (if ch_is "%" c then goto DP_S_FLAGS d else put (dopr_outch maxlen c s) d)
  | DP_S_FLAGS => match flag_of c with
                  | Some f => next format (or_flag f d) | None => Ret (goto DP_S_MIN d) end
  | DP_S_MIN => if isdigit c then next format (set_min (add_digit mn c) l d)
                else if ch_is "*" c then
                  '(v, l) ← va_int l; d ← next format (set_min v l d); Ret (goto DP_S_DOT d)
                else Ret (goto DP_S_DOT d)
  | DP_S_DOT => if ch_is "." c then next format (goto DP_S_MAX d) else Ret (goto DP_S_MOD d)
  | DP_S_MAX => if isdigit c then next format (set_max (add_digit (if mx <? 0 then 0 else mx) c) l d)
                else if ch_is "*" c then
                  '(v, l) ← va_int l; d ← next format (set_max v l d); Ret (goto DP_S_MOD d)
                else Ret (goto DP_S_MOD d)
  | DP_S_MOD => d ← match cflag_of c with Some f => next format (set_cflags f d) | None => Ret d end;
                Ret (goto DP_S_CONV d)
  | DP_S_CONV =>
      '(l, s) ← dopr_conv maxlen c cf fl mn mx l s;
      d ← (if ch_is "w" c then next format d else Ret d);
      d ← next format d;
      Ret (reset l s (goto DP_S_DEFAULT d))
  | DP_S_DONE => Ret d
  end.
Proof. intros Hc Hs d. unfold dopr_step. cbn. rewrite Hc, Hs. by destruct st. Qed.

Lemma goto_rd st' suf st l mn mx fl cf s :
  goto st' (rd suf st l mn mx fl cf s) = rd suf st' l mn mx fl cf s.
Proof. reflexivity. Qed.

Lemma suffix_tail (c : Z) suf : suffix (c :: suf) format → suffix suf format.
Proof. intros [pre ->]. exists (pre ++ [c]). by rewrite <- app_assoc. Qed.

Lemma suffix_app_tail (a suf : list Z) : suffix (a ++ suf) format → suffix suf format.
Proof. intros [pre ->]. exists (pre ++ a). by rewrite <- app_assoc. Qed.

Lemma flag_nonzero c f : flag_of c = Some f → (c =? 0) = false.
Proof. destruct (Z.eqb_spec c 0) as [->|]; done. Qed.

Lemma digit_nonzero c : isdigit c = true → (c =? 0) = false.
Proof. destruct (Z.eqb_spec c 0) as [->|]; done. Qed.

Lemma cflag_nonzero c f : cflag_of c = Some f → (c =? 0) = false.
Proof. destruct (Z.eqb_spec c 0) as [->|]; done. Qed.

Section Live.
Variable s : sink.
Hypothesis live : (maxlen <=? currlen s) = false.

Lemma leads_flags fs suf l mn mx fl cf :
  suffix (map flag_char fs ++ suf) format →
  leads (length fs) (rd (map flag_char fs ++ suf) DP_S_FLAGS l mn mx fl cf s)
    (Ret (rd suf DP_S_FLAGS l mn mx (fold_left (λ v f, Z.lor v (flag_bit f)) fs fl) cf s)).
Proof.
  revert fl. induction fs as [|f fs IH]; intros fl Hs; [apply leads_refl|]. cbn [map app] in *.
  pose proof (flag_of_char f) as Ef.
  apply (leads_trans 1 _ _ (rd (map flag_char fs ++ suf) DP_S_FLAGS l mn mx (Z.lor fl (flag_bit f)) cf s)).
  - pose proof (leads_turn (rd (flag_char f :: map flag_char fs ++ suf) DP_S_FLAGS l mn mx fl cf s) eq_refl) as H1.
    rewrite step_rd, Ef in H1 by (done || by eapply flag_nonzero). cbv zeta in H1.
    change (or_flag _ _) with (rd (flag_char f :: map flag_char fs ++ suf) DP_S_FLAGS l mn mx
      (Z.lor fl (flag_bit f)) cf s) in H1.
    by rewrite next_rd in H1.
  - cbn [fold_left]. apply IH. by eapply suffix_tail.
Qed.

Lemma leads_width ds suf l mn mx fl cf :
  suffix (ds ++ suf) format → forallb isdigit ds = true →
  leads (length ds) (rd (ds ++ suf) DP_S_MIN l mn mx fl cf s)
    (Ret (rd suf DP_S_MIN l (fold_left add_digit ds mn) mx fl cf s)).
Proof.
  revert mn. induction ds as [|c ds IH]; intros mn Hs Hf; [apply leads_refl|].
  cbn in Hf. apply andb_true_iff in Hf as [Hc Hf].
  apply (leads_trans 1 _ _ (rd (ds ++ suf) DP_S_MIN l (add_digit mn c) mx fl cf s)).
  - pose proof (leads_turn (rd (c :: ds ++ suf) DP_S_MIN l mn mx fl cf s) eq_refl) as H1.
    rewrite step_rd, Hc in H1 by (done || by apply digit_nonzero). cbv zeta in H1.
    change (set_min _ _ _) with (rd (c :: ds ++ suf) DP_S_MIN l (add_digit mn c) mx fl cf s) in H1.
    by rewrite next_rd in H1.
  - apply IH; [by eapply suffix_tail|done].
Qed.

Lemma leads_prec ds suf l mn mx fl cf :
  suffix (ds ++ suf) format → forallb isdigit ds = true →
  leads (length ds) (rd (ds ++ suf) DP_S_MAX l mn mx fl cf s)
    (Ret (rd suf DP_S_MAX l mn (fold_left (λ m c, add_digit (if m <? 0 then 0 else m) c) ds mx) fl cf s)).
Proof.
  revert mx. induction ds as [|c ds IH]; intros mx Hs Hf; [apply leads_refl|].
  cbn in Hf. apply andb_true_iff in Hf as [Hc Hf].
  apply (leads_trans 1 _ _ (rd (ds ++ suf) DP_S_MAX l mn (add_digit (if mx <? 0 then 0 else mx) c) fl cf s)).
  - pose proof (leads_turn (rd (c :: ds ++ suf) DP_S_MAX l mn mx fl cf s) eq_refl) as H1.
    rewrite step_rd, Hc in H1 by (done || by apply digit_nonzero). cbv zeta in H1.
    change (set_max ?v _ _) with (rd (c :: ds ++ suf) DP_S_MAX l mn v fl cf s) in H1.
    by rewrite next_rd in H1.
  - apply IH; [by eapply suffix_tail|done].
Qed.

(** A character that ends a width or a precision. *)
Definition ends_amount (c : Z) : Prop := (c =? 0) = false ∧ isdigit c = false ∧ ch_is "*" c = false.

Lemma leads_width_of w c suf l mx fl cf :
  suffix (unparse_amount w ++ c :: suf) format → all_digits w = true → ends_amount c →
  leads (length (unparse_amount w) + 1) (rd (unparse_amount w ++ c :: suf) DP_S_MIN l 0 mx fl cf s)
    (a ← width_of w l; Ret (rd (c :: suf) DP_S_DOT a.2 a.1 mx fl cf s)).
Proof.
  intros Hs Hw (Hc0 & Hcd & Hcs). destruct w as [ds|]; cbn [unparse_amount width_of] in *.
  - eapply leads_trans; [by apply leads_width|].
    pose proof (leads_turn (rd (c :: suf) DP_S_MIN l (fold_left add_digit ds 0) mx fl cf s) eq_refl) as H1.
    by rewrite step_rd, Hcd, Hcs in H1 by done.
  - pose proof (leads_turn (rd ([chr "*"] ++ c :: suf) DP_S_MIN l 0 mx fl cf s) eq_refl) as H1.
    cbn [app] in H1. rewrite step_rd in H1 by done. cbv zeta in H1. change (isdigit (chr "*")) with false in H1.
    change (ch_is "*" (chr "*")) with true in H1. cbv iota in H1.
    apply (leads_le 1); [|cbn; lia]. destruct (va_int l) as [[v l']| | |]; try exact H1.
    cbn [mbind outcome_bind] in H1 |- *.
    change (set_min v l' _) with (rd (chr "*" :: c :: suf) DP_S_MIN l' v mx fl cf s) in H1.
    by rewrite next_rd in H1.
Qed.

Definition prec_text (p : option amount) : list Z :=
  match p with Some a => chr "." :: unparse_amount a | None => [] end.

Lemma leads_prec_of p c suf l mn fl cf :
  suffix (prec_text p ++ c :: suf) format → match p with Some a => all_digits a | None => true end = true →
  ends_amount c → ch_is "." c = false →
  leads (length (prec_text p) + 1) (rd (prec_text p ++ c :: suf) DP_S_DOT l mn (-1) fl cf s)
    (a ← prec_of p l; Ret (rd (c :: suf) DP_S_MOD a.2 mn a.1 fl cf s)).
Proof.
  intros Hs Hp (Hc0 & Hcd & Hcs) Hdot. destruct p as [a|]; cbn [prec_text] in *.
  2:{ pose proof (leads_turn (rd (c :: suf) DP_S_DOT l mn (-1) fl cf s) eq_refl) as H1.
      by rewrite step_rd, Hdot in H1 by done. }
  apply (leads_trans 1 _ _ (rd (unparse_amount a ++ c :: suf) DP_S_MAX l mn (-1) fl cf s)).
  { pose proof (leads_turn (rd (chr "." :: unparse_amount a ++ c :: suf) DP_S_DOT l mn (-1) fl cf s) eq_refl) as H1.
    rewrite step_rd in H1 by done. cbv zeta in H1. change (ch_is "." (chr ".")) with true in H1. cbv iota in H1.
    rewrite goto_rd in H1. by rewrite next_rd in H1. }
  assert (suffix (unparse_amount a ++ c :: suf) format) as Hs' by (by eapply suffix_tail).
  destruct a as [ds|]; cbn [unparse_amount prec_of] in *.
  - eapply leads_trans; [by apply leads_prec|].
    match goal with |- leads _ (rd _ _ _ _ ?mx _ _ _) _ =>
      pose proof (leads_turn (rd (c :: suf) DP_S_MAX l mn mx fl cf s) eq_refl) as H1 end.
    by rewrite step_rd, Hcd, Hcs in H1 by done.
  - pose proof (leads_turn (rd ([chr "*"] ++ c :: suf) DP_S_MAX l mn (-1) fl cf s) eq_refl) as H1.
    cbn [app] in H1. rewrite step_rd in H1 by done. cbv zeta in H1. change (isdigit (chr "*")) with false in H1.
    change (ch_is "*" (chr "*")) with true in H1. cbv iota in H1.
    apply (leads_le 1); [|cbn; lia]. destruct (va_int l) as [[v l']| | |]; try exact H1.
    cbn [mbind outcome_bind] in H1 |- *.
    change (set_max v l' _) with (rd (chr "*" :: c :: suf) DP_S_MAX l' mn v fl cf s) in H1.
    by rewrite next_rd in H1.
Qed.

Lemma leads_mod m c suf l mn mx fl :
  suffix (mod_text m ++ c :: suf) format → (c =? 0) = false → cflag_of c = None →
  leads 1 (rd (mod_text m ++ c :: suf) DP_S_MOD l mn mx fl 0 s)
    (Ret (rd (c :: suf) DP_S_CONV l mn mx fl (mod_of m) s)).
Proof.
  intros Hs Hc0 Hc. destruct m as [k|]; cbn [mod_text mod_of app] in *.
  - pose proof (cflag_of_char k) as Ef.
    pose proof (leads_turn (rd (mod_char k :: c :: suf) DP_S_MOD l mn mx fl 0 s) eq_refl) as H1.
    rewrite step_rd, Ef in H1 by (done || by eapply cflag_nonzero). cbv zeta in H1.
    change (set_cflags _ _) with (rd (mod_char k :: c :: suf) DP_S_MOD l mn mx fl (mod_bit k) s) in H1.
    by rewrite next_rd in H1.
  - pose proof (leads_turn (rd (c :: suf) DP_S_MOD l mn mx fl 0 s) eq_refl) as H1.
    by rewrite step_rd, Hc in H1 by done.
Qed.

Lemma leads_conv c suf l mn mx fl cf :
  suffix (c :: suf) format → (c =? 0) = false → ch_is "w" c = false →
  leads 1 (rd (c :: suf) DP_S_CONV l mn mx fl cf s)
    ('(l, s) ← dopr_conv maxlen c cf fl mn mx l s; Ret (rd suf DP_S_DEFAULT l 0 (-1) 0 0 s)).
Proof.
  intros Hs Hc Hw. pose proof (leads_turn (rd (c :: suf) DP_S_CONV l mn mx fl cf s) eq_refl) as H1.
  rewrite step_rd, Hw in H1 by done. cbv zeta in H1. cbn [mbind outcome_bind] in H1.
  rewrite next_rd in H1 by done. exact H1.
Qed.

(** A character that may end every part of a directive. *)
Definition conv_char (c : Z) : Prop := ends_amount c ∧ ch_is "." c = false ∧ flag_of c = None.

Lemma head_mod m c suf : conv_char c → ∃ k rest, mod_text m ++ c :: suf = k :: rest ∧ conv_char k.
Proof.
  intros Hc. destruct m as [k|]; cbn; [|eauto]. do 2 eexists. split; [done|]. by destruct k.
Qed.

Lemma head_prec p m c suf : conv_char c →
  ∃ k rest, prec_text p ++ mod_text m ++ c :: suf = k :: rest ∧ ends_amount k ∧ flag_of k = None.
Proof.
  intros Hc. destruct p as [a|]; cbn [prec_text app]; [do 2 eexists; split; done|].
  destruct (head_mod m c suf Hc) as (k & rest & -> & ? & ? & ?). eauto 6.
Qed.

Lemma leads_lit c suf l :
  suffix (c :: suf) format → (c =? 0) = false → ch_is "%" c = false →
  leads 1 (rd (c :: suf) DP_S_DEFAULT l 0 (-1) 0 0 s)
    (Ret (rd suf DP_S_DEFAULT l 0 (-1) 0 0 (dopr_outch maxlen c s))).
Proof.
  intros Hs Hc Hp. pose proof (leads_turn (rd (c :: suf) DP_S_DEFAULT l 0 (-1) 0 0 s) eq_refl) as H1.
  rewrite step_rd, Hp in H1 by done. cbv zeta in H1.
  change (put _ _) with (rd (c :: suf) DP_S_DEFAULT l 0 (-1) 0 0 (dopr_outch maxlen c s)) in H1.
  by rewrite next_rd in H1.
Qed.

Lemma leads_percent suf l :
  suffix (chr "%" :: suf) format →
  leads 1 (rd (chr "%" :: suf) DP_S_DEFAULT l 0 (-1) 0 0 s) (Ret (rd suf DP_S_FLAGS l 0 (-1) 0 0 s)).
Proof.
  intros Hs. pose proof (leads_turn (rd (chr "%" :: suf) DP_S_DEFAULT l 0 (-1) 0 0 s) eq_refl) as H1.
  rewrite step_rd in H1 by done. cbv zeta in H1. change (ch_is "%" (chr "%")) with true in H1. cbv iota in H1.
  rewrite goto_rd in H1. by rewrite next_rd in H1.
Qed.

(** The flags are over when the next character is not one. *)
Lemma leads_min k rest l fl :
  flag_of k = None → (k =? 0) = false →
  leads 1 (rd (k :: rest) DP_S_FLAGS l 0 (-1) fl 0 s) (Ret (rd (k :: rest) DP_S_MIN l 0 (-1) fl 0 s)).
Proof.
  intros Hk Hk0. pose proof (leads_turn (rd (k :: rest) DP_S_FLAGS l 0 (-1) fl 0 s) eq_refl) as H1.
  by rewrite step_rd, Hk in H1 by done.
Qed.

Lemma unparse_app fs w p m c suf :
  unparse (Conv fs w p m c) ++ suf =
  chr "%" :: map flag_char fs ++ unparse_amount w ++ prec_text p ++ mod_text m ++ c :: suf.
Proof. cbn [unparse]. fold (prec_text p). cbn [app]. by rewrite <- !app_assoc. Qed.

Lemma conv_ok_inv fs w p m c : directive_ok (Conv fs w p m c) = true →
  all_digits w = true ∧ flag_of (default 1 (head (unparse_amount w))) = None ∧
  match p with Some a => all_digits a | None => true end = true ∧
  conv_char c ∧ cflag_of c = None ∧ ch_is "w" c = false.
Proof.
  cbn [directive_ok]. unfold conv_char, ends_amount. rewrite !andb_true_iff, !negb_true_iff.
  intros (((((((((Hw & Hf) & Hp) & Hc) & ?) & ?) & ?) & Hm) & ?) & ?).
  apply flag_of_none in Hf, Hc. apply cflag_of_none in Hm. tauto.
Qed.

(** The head of the width and of what follows it is not a flag. *)
Lemma head_width w p m c suf :
  flag_of (default 1 (head (unparse_amount w))) = None → all_digits w = true → conv_char c →
  ∃ k rest, unparse_amount w ++ prec_text p ++ mod_text m ++ c :: suf = k :: rest ∧
    flag_of k = None ∧ (k =? 0) = false.
Proof.
  intros Hf Hw Hc. destruct w as [[|d ds]|]; cbn [unparse_amount app] in *.
  - destruct (head_prec p m c suf Hc) as (k & rest & -> & (? & _) & ?). eauto.
  - do 2 eexists. split; [done|]. split; [done|]. apply digit_nonzero.
    cbn in Hw. by apply andb_true_iff in Hw as [? _].
  - do 2 eexists. split; [done|]. done.
Qed.

Lemma leads_conversion fs w p m c suf l :
  directive_ok (Conv fs w p m c) = true → suffix (unparse (Conv fs w p m c) ++ suf) format →
  leads (8 * length (unparse (Conv fs w p m c)))
    (rd (unparse (Conv fs w p m c) ++ suf) DP_S_DEFAULT l 0 (-1) 0 0 s)
    ('(l, s) ← render maxlen (Conv fs w p m c) l s; Ret (rd suf DP_S_DEFAULT l 0 (-1) 0 0 s)).
Proof.
  intros (Hw & Hwf & Hp & Hc & Hcf & Hcw)%conv_ok_inv Hs.
  rewrite unparse_app in *. cbn [render].
  pose proof (suffix_tail _ _ Hs) as Hs1. pose proof (suffix_app_tail _ _ Hs1) as Hs2.
  pose proof (suffix_app_tail _ _ Hs2) as Hs3. pose proof (suffix_app_tail _ _ Hs3) as Hs4.
  pose proof (suffix_app_tail _ _ Hs4) as Hs5.
  apply (leads_le (1 + (length fs + (1 + (length (unparse_amount w) + 1 + (length (prec_text p) + 1 + (1 + 1))))))).
  2:{ cbn [unparse length]. fold (prec_text p). rewrite !length_app, length_map. cbn [length]. lia. }
  eapply leads_trans; [by apply leads_percent|].
  eapply leads_trans; [by apply leads_flags|]. fold (flags_of fs).
  destruct (head_width w p m c suf Hwf Hw Hc) as (k & rest & E & Hk & Hk0).
  apply (leads_trans 1 _ _
    (rd (unparse_amount w ++ prec_text p ++ mod_text m ++ c :: suf) DP_S_MIN l 0 (-1) (flags_of fs) 0 s)).
  { rewrite E. by apply leads_min. }
  destruct (head_prec p m c suf Hc) as (k1 & rest1 & E1 & Hk1 & _).
  rewrite bind_assoc. clear E.
  apply (leads_seq _ _ _ _
    (λ a, rd (prec_text p ++ mod_text m ++ c :: suf) DP_S_DOT a.2 a.1 (-1) (flags_of fs) 0 s)).
  { rewrite E1 in *. by apply leads_width_of. }
  intros [mn l1] _. destruct (head_mod m c suf Hc) as (k2 & rest2 & E2 & Hk2 & Hdot & _).
  rewrite bind_assoc.
  apply (leads_seq _ _ _ _
    (λ a, rd (mod_text m ++ c :: suf) DP_S_MOD a.2 mn a.1 (flags_of fs) 0 s)).
  { clear E1. rewrite E2 in *. by apply leads_prec_of. }
  intros [mx l2] _. destruct Hc as [(Hc0 & _) _].
  eapply leads_trans; [by apply leads_mod|]. by apply leads_conv.
Qed.

(** The reader on a whole directive. *)
Lemma leads_directive d suf l :
  directive_ok d = true → suffix (unparse d ++ suf) format →
  leads (8 * length (unparse d)) (rd (unparse d ++ suf) DP_S_DEFAULT l 0 (-1) 0 0 s)
    ('(l, s) ← render maxlen d l s; Ret (rd suf DP_S_DEFAULT l 0 (-1) 0 0 s)).
Proof.
  destruct d as [c|fs w p m c]; [|apply leads_conversion].
  cbn [directive_ok unparse render]. intros [Hc Hp]%andb_true_iff Hs.
  apply (leads_le 1); [|cbn; lia]. apply leads_lit; [done|by apply negb_true_iff..].
Qed.

End Live.

Lemma reader_stops fuel suf l mn mx fl cf s :
  (2 <= fuel)%nat → (default 0 (head suf) =? 0) || (maxlen <=? currlen s) = true →
  (d ← while_loop fuel running (dopr_step format maxlen) (rd suf DP_S_DEFAULT l mn mx fl cf s); Ret (out d))
  = Ret s.
Proof.
  destruct fuel as [|[|fuel]]; [lia..|]. intros _ Hstop.
  assert (dopr_step format maxlen (rd suf DP_S_DEFAULT l mn mx fl cf s)
          = Ret (rd suf DP_S_DONE l mn mx fl cf s)) as E.
  { unfold dopr_step. change (ch (rd _ _ _ _ _ _ _ _)) with (default 0 (head suf)).
    change (out (rd _ _ _ _ _ _ _ _)) with s. by rewrite Hstop. }
  cbn [while_loop]. change (running (rd _ DP_S_DEFAULT _ _ _ _ _ _)) with true. cbv iota. by rewrite E.
Qed.

Lemma reader_renders ds l s fuel :
  forallb directive_ok ds = true → suffix (concat (map unparse ds)) format →
  (8 * length (concat (map unparse ds)) + 2 <= fuel)%nat →
  (d ← while_loop fuel running (dopr_step format maxlen)
         (rd (concat (map unparse ds)) DP_S_DEFAULT l 0 (-1) 0 0 s); Ret (out d))
  = render_all maxlen ds l s.
Proof.
  revert l s fuel. induction ds as [|d ds IH]; intros l s fuel Hok Hs Hfuel; cbn [map concat render_all] in *.
  { apply reader_stops; [lia|done]. }
  cbn [forallb] in Hok. apply andb_true_iff in Hok as [Hd Hok].
  destruct (maxlen <=? currlen s) eqn:Hlive.
  { apply reader_stops; [lia|]. rewrite Hlive. apply orb_true_r. }
  destruct (leads_directive s Hlive d (concat (map unparse ds)) l Hd Hs) as (k & Hk & Hf).
  rewrite length_app in Hfuel. replace fuel with (k + (fuel - k))%nat by lia. rewrite Hf, !bind_assoc.
  destruct (render maxlen d l s) as [[l' s']| | |]; cbn [mbind outcome_bind]; try done.
  apply IH; [done|by eapply suffix_app_tail|lia].
Qed.

End Directives.

(** C25 (equivalence): the state machine of [dopr], which reads its format a
    character at a time, does what the directives of the format say: on the text
    of a sequence of directives it writes, takes arguments and fails exactly as
    the directives rendered one after the other, the limit being looked at
    between two of them. *)
Theorem dopr_renders `{FPU} maxlen ds args s :
  forallb directive_ok ds = true →
  dopr maxlen (concat (map unparse ds)) args s = render_all maxlen ds args s.
Proof.
  intros Hok. unfold dopr. rewrite dopr_start. cbn [mbind outcome_bind].
  rewrite <- (reader_renders (concat (map unparse ds)) maxlen ds args s
    (dopr_fuel (concat (map unparse ds)))); [|done|done|unfold dopr_fuel; lia].
  unfold rd. by rewrite Nat.sub_diag.
Qed.

(** ** Sample runs

    Exact arithmetic on rationals in the place of the processor's. *)
Definition exact : FPU := {|
  LDOUBLE := QArith_base.Q;
  ld_of_Z := QArith_base.inject_Z;
  ld_to_long q := if QArith_base.Qle_bool (QArith_base.inject_Z 0) q
                  then Qround.Qfloor q else Qround.Qceiling q;
  ld_neg := QArith_base.Qopp;
  ld_sub := QArith_base.Qminus;
  ld_mul := QArith_base.Qmult;
  ld_lt a b := negb (QArith_base.Qle_bool b a);
  ld_half := QArith_base.Qmake 1 2;
|}.

Definition codes (s : string) : list Z := map chr (list_ascii_of_string s).

(** The text that [snprintf] writes. *)
Definition printed (format : string) (args : list (@arg exact)) : outcome (list Z) :=
  s ← snprintf 1000 (codes format) args [] (λ _, 0); Ret (text s).

Lemma dopr_renders_witness :
  (s ← @dopr exact 80 (codes "id %-*.3lX!") [AInt 6; AInt 43981] (Sink [] 0 (λ _, 0)); Ret (text s))
  = Ret (codes "id ABCD  !").
Proof.
  pose proof (@dopr_renders exact 80
    [Lit (chr "i"); Lit (chr "d"); Lit (chr " ");
     Conv [Minus] Star (Some (Digits [chr "3"])) (Some Long) (chr "X"); Lit (chr "!")]
    [AInt 6; AInt 43981] (Sink [] 0 (λ _, 0)) eq_refl) as H.
  change (concat (map unparse _)) with (codes "id %-*.3lX!") in H. rewrite H. reflexivity.
Defined.


(** The fraction digits are written before the zeros that belong in front of
    them: 1.05 is printed as 1.50. *)
Lemma fraction_zeros_after : printed "%.2f" [@ADouble exact (QArith_base.Qmake 105 100)] = Ret (codes "1.50").
Proof. reflexivity. Qed.

(** [%p] prints an address of the upper half of the space as a negative number. *)
Lemma pointer_negative : printed "%p" [APtr 0xFFFF0000 []] = Ret (codes "-10000").
Proof. reflexivity. Qed.

(** The output is not limited to [maxlen] characters: the limit stops the reader
    between two directives only. *)
Lemma maxlen_exceeded :
  (s ← @snprintf exact 3 (codes "%d|%d") [AInt 123456789; AInt 5] [] (λ _, 0); Ret (text s))
    = Ret (codes "123456789").
Proof. reflexivity. Qed.

(** [%w] at the end of a format makes the reader go past its terminator. *)
Lemma w_reads_past_end : printed "%w" [] = Crash.
Proof. reflexivity. Qed.
