(* ===== verification/Heap.v ===== *)
(** * The heap: src/kernel/heap.cc and src/t0.dir/sbin/heap.c

    The heap is an array of [int]s cut into blocks. A block of [n] words starts
    and ends with a tag: [n] when it is available and [-n] when it is taken; an
    available block holds the links of a doubly linked list in its second and
    third words. The array is a function of the index, whose values outside the
    heap are the words of the memory around it. The kernel's functions run under
    [theLock] (file Locks); here is what they do while they hold it.

    [Heap] is the kernel's best fit among the first twenty blocks that fit;
    [UserHeap] is the user library's first fit, on the same blocks. *)

From S2P Require Import Prelude.
Local Open Scope Z_scope.

Definition upd (a : Z → Z) (i v : Z) : Z → Z := λ j, if j =? i then v else a j.

(** [base] is the address of [array]; [safe] says whether [sanity] looks. *)
Record heap := { base : Z; array : Z → Z; len : Z; avail : Z }.

Definition set_array (h : heap) (a : Z → Z) : heap :=
  {| base := base h; array := a; len := len h; avail := avail h |}.

Definition set_avail (h : heap) (i : Z) : heap :=
  {| base := base h; array := array h; len := len h; avail := i |}.

Definition put (i v : Z) (h : heap) : heap := set_array h (upd (array h) i v).

Definition abs (x : Z) : Z := if x <? 0 then - x else x.

Definition size (h : heap) (i : Z) : Z := abs (array h i).

Definition headerFromFooter (h : heap) (i : Z) : Z := i - size h i + 1.

Definition footerFromHeader (h : heap) (i : Z) : Z := i + size h i - 1.

(** [static int safe = 0]: the kernel does not look. *)
Definition safe : bool := false.

Definition sanity (h : heap) (i : Z) : outcome Z :=
  if safe then
    if i =? 0 then Ret 0
    else if (i <? 0) || (len h <=? i) then Panic "bad header index"
    else
      let footer := footerFromHeader h i in
      if (footer <? 0) || (len h <=? footer) then Panic "bad footer index"
      else if negb (array h i =? array h footer) then Panic "bad block"
      else Ret i
  else Ret i.

Definition left (h : heap) (i : Z) : outcome Z := sanity h (headerFromFooter h (i - 1)).

Definition right (h : heap) (i : Z) : outcome Z := sanity h (i + size h i).

Definition next (h : heap) (i : Z) : outcome Z := sanity h (array h (i + 1)).

Definition prev (h : heap) (i : Z) : outcome Z := sanity h (array h (i + 2)).

Definition setNext (i x : Z) (h : heap) : heap := put (i + 1) x h.

Definition setPrev (i x : Z) (h : heap) : heap := put (i + 2) x h.

Definition remove (i : Z) (h : heap) : outcome heap :=
  prevIndex ← prev h i;
  nextIndex ← next h i;
  let h := if prevIndex =? 0 then set_avail h nextIndex else setNext prevIndex nextIndex h in
  Ret (if negb (nextIndex =? 0) then setPrev nextIndex prevIndex h else h).

Definition makeAvail (i ints : Z) (h : heap) : heap :=
  let h := put i ints h in
  let h := put (footerFromHeader h i) ints h in
  let h := setNext i (avail h) h in
  let h := setPrev i 0 h in
  let h := if negb (avail h =? 0) then setPrev (avail h) i h else h in
  set_avail h i.

Definition makeTaken (i ints : Z) (h : heap) : heap :=
  let h := put i (- ints) h in
  put (footerFromHeader h i) (- ints) h.

Definition isAvail (h : heap) (i : Z) : bool := 0 <? array h i.

Definition isTaken (h : heap) (i : Z) : bool := array h i <? 0.

(** [heapInit], before it allocates [theLock]: the two ends are taken blocks. *)
Definition heapInit (b bytes : Z) (a : Z → Z) : heap :=
  let h := {| base := b; array := a; len := bytes / 4; avail := 0 |} in
  let h := makeTaken 0 2 h in
  let h := makeAvail 2 (len h - 4) h in
  makeTaken (len h - 2) 2 h.

(** The words of a request, with the two tags; the sum is 32 bits wide. *)
Definition ints_of (bytes : Z) : Z :=
  let ints := u32 (bytes + 3) / 4 + 2 in
  if ints <? 4 then 4 else ints.

Record search := { p : Z; mx : Z; it : Z; countDown : Z; go : bool }.

(** One turn of the search for the smallest of the first twenty blocks that fit;
    [go] is false after the [break]. *)
Definition search_step (h : heap) (ints : Z) (s : search) : outcome search :=
  if negb (isAvail h (p s)) then Panic "block is not available in malloc"
  else
    let sz := size h (p s) in
    if ints <=? sz then
      let '(m, i) := if sz <? mx s then (sz, p s) else (mx s, it s) in
      let cd := countDown s - 1 in
      if cd =? 0 then Ret {| p := p s; mx := m; it := i; countDown := cd; go := false |}
      else
        q ← next h (p s);
        Ret {| p := q; mx := m; it := i; countDown := cd; go := true |}
    else
      q ← next h (p s);
      Ret {| p := q; mx := mx s; it := it s; countDown := countDown s; go := true |}.

Definition searching (s : search) : bool := go s && negb (p s =? 0).

(** A block has four words at least, so the list is shorter than the array. *)
Definition heap_fuel (h : heap) : nat := Z.to_nat (len h).

Definition find_block (h : heap) (ints : Z) : outcome search :=
  while_loop (heap_fuel h) searching (search_step h ints)
    {| p := avail h; mx := 0x7FFFFFFF; it := 0; countDown := 20; go := true |}.

(** Take block [i] of [sz] words out of the list, and give back what is left. *)
Definition take_block (i sz ints : Z) (h : heap) : outcome heap :=
  h ← remove i h;
  let extra := sz - ints in
  Ret (if 4 <=? extra then makeAvail (i + ints) extra (makeTaken i ints h)
       else makeTaken i sz h).

(** [&array[i]]. *)
Definition address (h : heap) (i : Z) : Z := base h + 4 * i.

(** The result 0 is the null pointer. *)
Definition malloc (bytes : Z) (h : heap) : outcome (Z * heap) :=
  if bytes =? 0 then Ret (base h, h)
  else
    let ints := ints_of bytes in
    s ← find_block h ints;
    if negb (it s =? 0) then
      h' ← take_block (it s) (mx s) ints h;
      Ret (address h (it s + 1), h')
    else Ret (0, h).

(** The index of the block whose data starts at a pointer. *)
Definition index_of (h : heap) (ptr : Z) : Z := i32 (u32 (ptr - base h) / 4 - 1).

(** Merge with the neighbours that are available. *)
Definition free_block (idx : Z) (h : heap) : outcome heap :=
  let sz := size h idx in
  leftIndex ← left h idx;
  rightIndex ← right h idx;
  '(idx, sz, h) ←
    (if isAvail h leftIndex
     then h ← remove leftIndex h; Ret (leftIndex, sz + size h leftIndex, h)
     else Ret (idx, sz, h));
  '(sz, h) ←
    (if isAvail h rightIndex
     then h ← remove rightIndex h; Ret (sz + size h rightIndex, h)
     else Ret (sz, h));
  Ret (makeAvail idx sz h).

Definition free (ptr : Z) (h : heap) : outcome heap :=
  if ptr =? 0 then Ret h
  else if ptr =? base h then Ret h
  else
    let idx := index_of h ptr in
    _ ← sanity h idx;
    if negb (isTaken h idx) then Panic "freeing free block"
    else free_block idx h.

(** [operator new] and [operator new[]]; the operators [delete] are [free]. *)
Definition operator_new (n : Z) (h : heap) : outcome (Z * heap) :=
  '(ptr, h) ← malloc n h;
  if ptr =? 0 then Panic "out of memory" else Ret (ptr, h).

Definition operator_delete := free.

(** ** The user library's heap *)

Module UserHeap.

(** [INTS] words, in the library's own data. *)
Definition INTS : Z := 0x100000.

Definition abs := abs.
Definition size := size.
Definition headerFromFooter := headerFromFooter.
Definition footerFromHeader := footerFromHeader.

(** The checks are made, but the panics are commented out: the index is
    returned whatever they find. *)
Definition sanity (h : heap) (i : Z) : Z :=
  if i =? 0 then 0
  else if (i <? 0) || (len h <=? i) then i
  else
    let footer := footerFromHeader h i in
    if (footer <? 0) || (len h <=? footer) then i
    else if negb (array h i =? array h footer) then i
    else i.

Definition left (h : heap) (i : Z) : Z := sanity h (headerFromFooter h (i - 1)).
Definition right (h : heap) (i : Z) : Z := sanity h (i + size h i).
Definition next1 (h : heap) (i : Z) : Z := sanity h (array h (i + 1)).
Definition prev1 (h : heap) (i : Z) : Z := sanity h (array h (i + 2)).
Definition set_next := setNext.
Definition set_prev := setPrev.

Definition remove (i : Z) (h : heap) : heap :=
  let prevIndex := prev1 h i in
  let nextIndex := next1 h i in
  let h := if prevIndex =? 0 then set_avail h nextIndex else set_next prevIndex nextIndex h in
  if negb (nextIndex =? 0) then set_prev nextIndex prevIndex h else h.

Definition makeAvail := makeAvail.
Definition makeTaken := makeTaken.
Definition isAvail := isAvail.
Definition isTaken := isTaken.

Definition heap_init (b : Z) (a : Z → Z) : heap :=
  let h := {| base := b; array := a; len := INTS; avail := 0 |} in
  let h := makeTaken 0 2 h in
  let h := makeAvail 2 (len h - 4) h in
  makeTaken (len h - 2) 2 h.

(** The walk of [malloc]: the first block that fits is taken; [res] is the index
    of its data, or 0 ([&array[p + 1]] is not null). *)
Fixpoint first_fit (fuel : nat) (ints p : Z) (h : heap) : outcome (Z * heap) :=
  if p =? 0 then Ret (0, h)
  else
    match fuel with
    | O => OutOfFuel
    | S fuel' =>
        let sz := size h p in
        if ints <=? sz then
          let h := remove p h in
          let extra := sz - ints in
          let h := if 4 <=? extra then makeAvail (p + ints) extra (makeTaken p ints h)
                   else makeTaken p sz h in
          Ret (p + 1, h)
        else first_fit fuel' ints (next1 h p) h
    end.

Definition malloc (bytes : Z) (h : heap) : outcome (Z * heap) :=
  if bytes =? 0 then Ret (base h, h)
  else
    '(i, h) ← first_fit (heap_fuel h) (ints_of bytes) (avail h) h;
    Ret (if i =? 0 then 0 else address h i, h).

(** The index of a pointer: here the difference is a signed [long]. *)
Definition index_of (h : heap) (ptr : Z) : Z := Z.quot (i32 (ptr - base h)) 4 - 1.

Definition free (ptr : Z) (h : heap) : heap :=
  if ptr =? 0 then h
  else if ptr =? base h then h
  else
    let idx := index_of h ptr in
    if negb (isTaken h idx) then h
    else
      let sz := size h idx in
      let leftIndex := left h idx in
      let rightIndex := right h idx in
      let '(idx, sz, h) :=
        if isAvail h leftIndex
        then let h := remove leftIndex h in (leftIndex, sz + size h leftIndex, h)
        else (idx, sz, h) in
      let '(sz, h) :=
        if isAvail h rightIndex
        then let h := remove rightIndex h in (sz + size h rightIndex, h)
        else (sz, h) in
      makeAvail idx sz h.

(** [n] bytes from the word [src] on over the word [dest] and what follows. *)
Fixpoint copy_words (n : nat) (dest src : Z) (a : Z → Z) : Z → Z :=
  match n with
  | O => a
  | S n' => copy_words n' (dest + 1) (src + 1) (upd a dest (a src))
  end.

(** The low [r] bytes of a word over those of another. *)
Definition merge_word (r dst src : Z) : Z :=
  i32 (u32 dst - u32 dst mod 256 ^ r + u32 src mod 256 ^ r).

Definition memcpy_words (n dest src : Z) (a : Z → Z) : Z → Z :=
  let a := copy_words (Z.to_nat (n / 4)) dest src a in
  let d := dest + n / 4 in
  if n mod 4 =? 0 then a else upd a d (merge_word (n mod 4) (a d) (a (src + n / 4))).

Definition realloc (ptr newSize : Z) (h : heap) : outcome (Z * heap) :=
  if ptr =? 0 then malloc newSize h
  else if newSize =? 0 then Ret (0, free ptr h)
  else
    let idx := index_of h ptr in
    if negb (isTaken h idx) then Ret (0, h)
    else
      let sz := size h idx * 4 in
      '(newPtr, h) ← malloc newSize h;
      let h :=
        if negb (newPtr =? 0) then
          let m := if sz <? newSize then sz else newSize in
          set_array h (memcpy_words m (index_of h newPtr + 1) (idx + 1) (array h))
        else h in
      Ret (newPtr, free ptr h).

End UserHeap.

(** ** Blocks

    A heap is described by its blocks in the order of the addresses, each with
    its size and whether it is taken, and by its available blocks in the order
    of the list. *)

Abbreviation block := (Z * bool)%type.

Definition tag (b : block) : Z := if b.2 then - b.1 else b.1.

Fixpoint total (bs : list block) : Z :=
  match bs with [] => 0 | b :: bs' => b.1 + total bs' end.

Definition block_ok (b : block) : Prop := if b.2 then 2 <= b.1 else 4 <= b.1.

(** The tags of the blocks [bs] that start at [i]. *)
Fixpoint tags (a : Z → Z) (i : Z) (bs : list block) : Prop :=
  match bs with
  | [] => True
  | b :: bs' =>
      block_ok b ∧ a i = tag b ∧ a (i + b.1 - 1) = tag b ∧ tags a (i + b.1) bs'
  end.

(** The indices of the blocks that satisfy a test, with their sizes. *)
Fixpoint starts (t : bool) (i : Z) (bs : list block) : list (Z * Z) :=
  match bs with
  | [] => []
  | b :: bs' => (if Bool.eqb b.2 t then [(i, b.1)] else []) ++ starts t (i + b.1) bs'
  end.

Abbreviation taken := (starts true).
Abbreviation available := (starts false).

(** The links of the list [l], between [q] and [n]. *)
Fixpoint links (a : Z → Z) (q : Z) (l : list Z) (n : Z) : Prop :=
  match l with
  | [] => True
  | x :: l' => a (x + 2) = q ∧ a (x + 1) = hd n l' ∧ links a x l' n
  end.

(** No two neighbours are both available. *)
Fixpoint coalesced (bs : list block) : Prop :=
  match bs with
  | b :: ((c :: _) as bs') => (b.2 || c.2 = true) ∧ coalesced bs'
  | _ => True
  end.

Record heap_ok (h : heap) (bs : list block) (l : list Z) : Prop := {
  ok_len : total bs = len h;
  ok_small : len h < 0x20000000;
  ok_tags : tags (array h) 0 bs;
  ok_first : head bs = Some (2, true);
  ok_last : last bs = Some (2, true);
  ok_coalesced : coalesced bs;
  ok_avail : avail h = hd 0 l;
  ok_list : l ≡ₚ (available 0 bs).*1;
  ok_links : links (array h) 0 l 0;
}.

(** ** Lemmas on tags *)

Lemma upd_eq a i v : upd a i v i = v.
Proof. unfold upd. by rewrite Z.eqb_refl. Qed.

Lemma upd_ne a i v j : j ≠ i → upd a i v j = a j.
Proof. unfold upd. intros. by destruct (Z.eqb_spec j i). Qed.

Lemma total_app b1 b2 : total (b1 ++ b2) = total b1 + total b2.
Proof. induction b1; cbn; lia. Qed.

Lemma block_ok_size b : block_ok b → 2 <= b.1.
Proof. unfold block_ok. destruct (b.2); lia. Qed.

Lemma tags_total a i bs : tags a i bs → 0 <= total bs.
Proof.
  revert i. induction bs as [|b bs IH]; intros i; cbn; [lia|].
  intros (Hb%block_ok_size & _ & _ & ?%IH). lia.
Qed.

Lemma tags_app a i b1 b2 : tags a i (b1 ++ b2) ↔ tags a i b1 ∧ tags a (i + total b1) b2.
Proof.
  revert i. induction b1 as [|b b1 IH]; intros i; cbn.
  - rewrite Z.add_0_r. tauto.
  - rewrite IH, Z.add_assoc. tauto.
Qed.

Lemma starts_app t i b1 b2 : starts t i (b1 ++ b2) = starts t i b1 ++ starts t (i + total b1) b2.
Proof.
  revert i. induction b1 as [|b b1 IH]; intros i; cbn.
  - by rewrite Z.add_0_r.
  - by rewrite IH, <- app_assoc, Z.add_assoc.
Qed.

(** A block is one of those that lie between the two ends. *)
Lemma starts_inside a t i bs x n :
  tags a i bs → (x, n) ∈ starts t i bs →
  i <= x ∧ x + n <= i + total bs ∧ block_ok (n, t) ∧ a x = tag (n, t) ∧ a (x + n - 1) = tag (n, t).
Proof.
  revert i. induction bs as [|b bs IH]; intros i; cbn; [by intros _ ?%elem_of_nil|].
  intros (Hb & Ha & Hf & Ht) Hx. pose proof (tags_total _ _ _ Ht). pose proof (block_ok_size _ Hb).
  apply elem_of_app in Hx as [Hx|Hx].
  - destruct (Bool.eqb b.2 t) eqn:E; [|by apply elem_of_nil in Hx].
    apply eqb_prop in E as <-. apply list_elem_of_singleton in Hx as [= -> ->].
    destruct b as [n t]. cbn in *. repeat split; (done || lia).
  - destruct (IH _ Ht Hx) as (? & ? & ? & ? & ?). repeat split; (done || lia).
Qed.

(** A block is known by its index. *)
Lemma starts_split a t i bs x n :
  tags a i bs → (x, n) ∈ starts t i bs →
  ∃ b1 b2, bs = b1 ++ (n, t) :: b2 ∧ x = i + total b1.
Proof.
  revert i. induction bs as [|b bs IH]; intros i; cbn; [by intros _ ?%elem_of_nil|].
  intros (Hb & Ha & Hf & Ht) [Hx|Hx]%elem_of_app.
  - destruct (Bool.eqb b.2 t) eqn:E; [|by apply elem_of_nil in Hx].
    apply eqb_prop in E as <-. apply list_elem_of_singleton in Hx as [= -> ->].
    exists [], bs. destruct b. split; [done|]. cbn. lia.
  - destruct (IH _ Ht Hx) as (b1 & b2 & -> & ->). exists (b :: b1), b2. split; [done|]. cbn. lia.
Qed.

(** Two blocks are the same or apart. *)
Lemma starts_apart a t u i bs x n y m :
  tags a i bs → (x, n) ∈ starts t i bs → (y, m) ∈ starts u i bs →
  (x = y ∧ n = m ∧ t = u) ∨ x + n <= y ∨ y + m <= x.
Proof.
  intros Ht Hx Hy. destruct (starts_split _ _ _ _ _ _ Ht Hx) as (b1 & b2 & -> & ->).
  apply tags_app in Ht as [Ht1 Ht2]. cbn in Ht2. destruct Ht2 as (Hb & _ & _ & Ht2).
  rewrite starts_app in Hy. apply elem_of_app in Hy as [Hy|Hy].
  - destruct (starts_inside _ _ _ _ _ _ Ht1 Hy) as (? & ? & _). lia.
  - cbn in Hy. apply elem_of_app in Hy as [Hy|Hy].
    + destruct (Bool.eqb t u) eqn:E; [|by apply elem_of_nil in Hy].
      apply eqb_prop in E as <-. apply list_elem_of_singleton in Hy as [= -> ->]. tauto.
    + destruct (starts_inside _ _ _ _ _ _ Ht2 Hy) as (? & ? & _). lia.
Qed.

(** Writing outside the blocks, or between the tags of an available block. *)
Lemma tags_outside a i bs j v : (j < i ∨ i + total bs <= j) → tags a i bs → tags (upd a j v) i bs.
Proof.
  revert i. induction bs as [|b bs IH]; intros i Hj; cbn; [done|].
  intros (Hb & Ha & Hf & Ht). pose proof (block_ok_size _ Hb). pose proof (tags_total _ _ _ Ht).
  cbn in Hj. rewrite !upd_ne by lia. repeat split; try done. apply IH; [lia|done].
Qed.

Lemma tags_inside a i bs x n j v :
  (x, n) ∈ available i bs → x < j < x + n - 1 → tags a i bs → tags (upd a j v) i bs.
Proof.
  intros Hx Hj Ht. destruct (starts_split _ _ _ _ _ _ Ht Hx) as (b1 & b2 & -> & ->).
  apply tags_app in Ht as [Ht1 Ht2]. cbn in Ht2. destruct Ht2 as (Hb & Ha & Hf & Ht2).
  apply tags_app. split; [apply tags_outside; [lia|done]|]. cbn. rewrite !upd_ne by lia.
  repeat split; try done. apply tags_outside; [lia|done].
Qed.

(** The links of an available block are between its tags. *)
Lemma avail_links a i bs x : tags a i bs → x ∈ (available i bs).*1 →
  ∃ n, (x, n) ∈ available i bs ∧ 4 <= n.
Proof.
  intros Ht Hx. apply list_elem_of_fmap in Hx as ([y n] & -> & Hx).
  exists n. split; [done|]. by destruct (starts_inside _ _ _ _ _ _ Ht Hx) as (_ & _ & ? & _).
Qed.

Lemma avail_apart a i bs x y :
  tags a i bs → x ∈ (available i bs).*1 → y ∈ (available i bs).*1 → x = y ∨ x + 4 <= y ∨ y + 4 <= x.
Proof.
  intros Ht Hx Hy. destruct (avail_links _ _ _ _ Ht Hx) as (n & Hx' & Hn).
  destruct (avail_links _ _ _ _ Ht Hy) as (m & Hy' & Hm).
  destruct (starts_apart _ _ _ _ _ _ _ _ _ Ht Hx' Hy') as [(-> & _)|?]; lia.
Qed.

Lemma starts_NoDup a t i bs : tags a i bs → NoDup (starts t i bs).*1.
Proof.
  revert i. induction bs as [|b bs IH]; intros i; cbn; [constructor|].
  intros (Hb & _ & _ & Ht). pose proof (block_ok_size _ Hb).
  destruct (Bool.eqb b.2 t); [|by apply IH]. cbn. constructor; [|by apply IH].
  intros ([y n] & E & Hy)%list_elem_of_fmap.
  destruct (starts_inside _ _ _ _ _ _ Ht Hy) as (? & _). cbn in E. lia.
Qed.

(** ** Lemmas on links *)

Definition last_of (q : Z) (l : list Z) : Z := List.last l q.

Lemma last_of_snoc q l x : last_of q (l ++ [x]) = x.
Proof. apply last_last. Qed.

Lemma last_of_cons q x l : last_of q (x :: l) = last_of x l.
Proof.
  revert q x. induction l as [|y l IH]; intros q x; [done|].
  change (last_of q (y :: l) = last_of x (y :: l)). by rewrite !IH.
Qed.

Lemma links_app a q l1 l2 n :
  links a q (l1 ++ l2) n ↔ links a q l1 (hd n l2) ∧ links a (last_of q l1) l2 n.
Proof.
  revert q. induction l1 as [|x l1 IH]; intros q; cbn [app links]; [cbn; tauto|].
  rewrite IH. assert (hd n (l1 ++ l2) = hd (hd n l2) l1) as -> by by destruct l1.
  rewrite last_of_cons. tauto.
Qed.

Lemma links_frame a q l n j v :
  (∀ x, x ∈ l → j ≠ x + 1 ∧ j ≠ x + 2) → links a q l n → links (upd a j v) q l n.
Proof.
  revert q. induction l as [|x l IH]; intros q Hj; cbn [links]; [done|]. intros (H1 & H2 & H3).
  destruct (Hj x ltac:(left)). rewrite !upd_ne by lia. split; [done|]. split; [done|].
  apply IH; [|done]. intros y Hy. apply Hj. by right.
Qed.

(** Links of different blocks are different words. *)
Definition apart (l : list Z) : Prop := ∀ x y, x ∈ l → y ∈ l → x = y ∨ x + 4 <= y ∨ y + 4 <= x.

Lemma apart_mono l l' : (∀ x, x ∈ l → x ∈ l') → apart l' → apart l.
Proof. intros Hl Ha x y Hx Hy. apply Ha; by apply Hl. Qed.

Lemma links_set_next a q l x n n' :
  apart (l ++ [x]) → NoDup (l ++ [x]) → links a q (l ++ [x]) n →
  links (upd a (x + 1) n') q (l ++ [x]) n'.
Proof.
  intros Ha Hn. rewrite !links_app. cbn [links hd]. intros (H1 & H2 & _).
  rewrite upd_eq, upd_ne by lia. split; [|done].
  apply links_frame; [|done]. intros y Hy.
  destruct (Ha x y); [set_solver..| |lia]. subst y.
  apply NoDup_app in Hn as (_ & Hn & _). destruct (Hn x Hy). by left.
Qed.

Lemma links_set_prev a q l x n q' :
  apart (x :: l) → NoDup (x :: l) → links a q (x :: l) n →
  links (upd a (x + 2) q') q' (x :: l) n.
Proof.
  intros Ha Hn. cbn [links]. intros (H1 & H2 & H3). rewrite upd_eq, upd_ne by lia.
  split; [done|]. split; [done|]. apply links_frame; [|done]. intros y Hy.
  destruct (Ha x y); [set_solver..| |lia]. subst y. by apply NoDup_cons in Hn as [? _].
Qed.

(** ** A heap around a gap

    The blocks [b1] from the beginning and [b2] from [k], with the list [l] of
    some of their available blocks; between them a block is being worked on. *)

Definition members (b1 : list block) (k : Z) (b2 : list block) : list Z :=
  (available 0 b1 ++ available k b2).*1.

Record around (h : heap) (b1 : list block) (k : Z) (b2 : list block) (l : list Z) : Prop := {
  ar_low : tags (array h) 0 b1;
  ar_high : tags (array h) k b2;
  ar_gap : total b1 <= k;
  ar_in : ∀ x, x ∈ l → x ∈ members b1 k b2;
  ar_pos : ∀ x, x ∈ l → 0 < x;
  ar_nodup : NoDup l;
  ar_avail : avail h = hd 0 l;
  ar_links : links (array h) 0 l 0;
}.

(** The words of the taken blocks are kept. *)
Definition keeps (a a' : Z → Z) (i : Z) (bs : list block) : Prop :=
  ∀ y m j, (y, m) ∈ taken i bs → y <= j < y + m → a' j = a j.

Record kept (h h' : heap) (b1 : list block) (k : Z) (b2 : list block) : Prop := {
  kp_low : keeps (array h) (array h') 0 b1;
  kp_high : keeps (array h) (array h') k b2;
  kp_base : base h' = base h;
  kp_len : len h' = len h;
}.

Lemma kept_refl h b1 k b2 : kept h h b1 k b2.
Proof. by split. Qed.

Lemma kept_trans h h' h'' b1 k b2 : kept h h' b1 k b2 → kept h' h'' b1 k b2 → kept h h'' b1 k b2.
Proof.
  intros [A1 A2 A3 A4] [B1 B2 B3 B4]. split; try congruence; intros y m j Hy Hj.
  - rewrite (B1 _ _ _ Hy Hj). by eapply A1.
  - rewrite (B2 _ _ _ Hy Hj). by eapply A2.
Qed.

Lemma keeps_outside a i bs j v :
  tags a i bs → (j < i ∨ i + total bs <= j) → keeps a (upd a j v) i bs.
Proof.
  intros Ht Hj y m x Hy Hx. destruct (starts_inside _ _ _ _ _ _ Ht Hy) as (? & ? & _).
  apply upd_ne. lia.
Qed.

Lemma keeps_inside a i bs x n j v :
  tags a i bs → (x, n) ∈ available i bs → x <= j < x + n → keeps a (upd a j v) i bs.
Proof.
  intros Ht Hx Hj y m z Hy Hz.
  destruct (starts_apart _ _ _ _ _ _ _ _ _ Ht Hx Hy) as [(_ & _ & ?)|?]; [done|].
  apply upd_ne. lia.
Qed.

(** Writing a word of the gap. *)
Lemma put_gap h b1 k b2 l j v :
  around h b1 k b2 l → total b1 <= j < k →
  around (put j v h) b1 k b2 l ∧ kept h (put j v h) b1 k b2.
Proof.
  intros [Hl Hh Hg Hin Hp Hn Ha Hk] Hj. split; split; cbn; try done.
  - apply tags_outside; [lia|done].
  - apply tags_outside; [lia|done].
  - apply links_frame; [|done]. intros x Hx. apply Hin in Hx. unfold members in Hx.
    rewrite fmap_app, elem_of_app in Hx.
    destruct Hx as [Hx|Hx]; apply list_elem_of_fmap in Hx as ([y n] & -> & Hx).
    + destruct (starts_inside _ _ _ _ _ _ Hl Hx) as (? & ? & H4 & _). cbn in *. lia.
    + destruct (starts_inside _ _ _ _ _ _ Hh Hx) as (? & ? & H4 & _). cbn in *. lia.
  - apply keeps_outside; [done|lia].
  - apply keeps_outside; [done|lia].
Qed.

(** The links of the list are words of available blocks outside the gap. *)
Lemma put_link_tags h b1 k b2 x j v :
  tags (array h) 0 b1 → tags (array h) k b2 → total b1 <= k → x ∈ members b1 k b2 →
  j = x + 1 ∨ j = x + 2 →
  tags (array (put j v h)) 0 b1 ∧ tags (array (put j v h)) k b2 ∧ kept h (put j v h) b1 k b2 ∧
  (j < total b1 ∨ k <= j).
Proof.
  intros Hl Hh Hg Hx Hj. unfold members in Hx. rewrite fmap_app, elem_of_app in Hx.
  pose proof (tags_total _ _ _ Hl) as Ht1.
  destruct Hx as [Hx|Hx]; apply list_elem_of_fmap in Hx as ([y n] & -> & Hx); cbn in Hj.
  - destruct (starts_inside _ _ _ _ _ _ Hl Hx) as (? & ? & H4 & _). cbn in H4.
    split; [eapply tags_inside; (done || lia)|]. split; [apply tags_outside; [lia|done]|].
    split; [|lia]. split; [eapply keeps_inside; (done || lia)|apply keeps_outside; [done|lia]|done..].
  - destruct (starts_inside _ _ _ _ _ _ Hh Hx) as (? & ? & H4 & _). cbn in H4.
    split; [apply tags_outside; [lia|done]|]. split; [eapply tags_inside; (done || lia)|].
    split; [|lia]. split; [apply keeps_outside; [done|lia]|eapply keeps_inside; (done || lia)|done..].
Qed.

Lemma members_apart h b1 k b2 :
  tags (array h) 0 b1 → tags (array h) k b2 → total b1 <= k → apart (members b1 k b2).
Proof.
  intros Hl Hh Hg x y Hx Hy. unfold members in Hx, Hy. rewrite fmap_app, elem_of_app in Hx.
  rewrite fmap_app, elem_of_app in Hy.
  destruct Hx as [Hx|Hx], Hy as [Hy|Hy].
  - exact (avail_apart _ _ _ _ _ Hl Hx Hy).
  - destruct (avail_links _ _ _ _ Hl Hx) as (n & Hx' & ?), (avail_links _ _ _ _ Hh Hy) as (m & Hy' & ?).
    destruct (starts_inside _ _ _ _ _ _ Hl Hx') as (? & ? & _), (starts_inside _ _ _ _ _ _ Hh Hy') as (? & ? & _). lia.
  - destruct (avail_links _ _ _ _ Hh Hx) as (n & Hx' & ?), (avail_links _ _ _ _ Hl Hy) as (m & Hy' & ?).
    destruct (starts_inside _ _ _ _ _ _ Hh Hx') as (? & ? & _), (starts_inside _ _ _ _ _ _ Hl Hy') as (? & ? & _). lia.
  - exact (avail_apart _ _ _ _ _ Hh Hx Hy).
Qed.

(** ** The operations on blocks *)

Lemma sanity_ret h i : sanity h i = Ret i.
Proof. reflexivity. Qed.

(** The words of the gap. *)
Definition same_gap (h h' : heap) (b1 : list block) (k : Z) : Prop :=
  ∀ j, total b1 <= j < k → array h' j = array h j.

Lemma hd_app (n : Z) l1 l2 : hd n (l1 ++ l2) = hd (hd n l2) l1.
Proof. by destruct l1. Qed.

(** First half of [remove]: the predecessor, or [avail], goes past the block. *)
Lemma skip_next h b1 k b2 l1 l2 i n :
  tags (array h) 0 b1 → tags (array h) k b2 → total b1 <= k →
  (∀ x, x ∈ l1 ++ l2 → x ∈ members b1 k b2) → (∀ x, x ∈ l1 ++ l2 → 0 < x) → NoDup (l1 ++ l2) →
  links (array h) 0 l1 i → links (array h) i l2 0 → avail h = hd i l1 →
  let h' := if last_of 0 l1 =? 0 then set_avail h n else setNext (last_of 0 l1) n h in
  tags (array h') 0 b1 ∧ tags (array h') k b2 ∧ kept h h' b1 k b2 ∧ same_gap h h' b1 k ∧
  links (array h') 0 l1 n ∧ links (array h') i l2 0 ∧ avail h' = hd n l1.
Proof.
  intros Hl Hh Hg Hin Hp Hn H1 H2 Ha h'. subst h'.
  destruct l1 as [|x l0 _] using rev_ind.
  { change (last_of 0 [] =? 0) with true. cbv iota. by repeat split. }
  rewrite last_of_snoc.
  assert (x ∈ (l0 ++ [x]) ++ l2) as Hx by set_solver.
  pose proof (Hp x Hx). rewrite (proj2 (Z.eqb_neq x 0)) by lia.
  destruct (put_link_tags h b1 k b2 x (x + 1) n Hl Hh Hg (Hin x Hx) ltac:(lia)) as (T1 & T2 & K & Hj).
  assert (apart ((l0 ++ [x]) ++ l2)) as Hap.
  { eapply apart_mono; [exact Hin|]. exact (members_apart h b1 k b2 Hl Hh Hg). }
  split; [done|]. split; [done|]. split; [done|].
  split; [intros j ?; apply upd_ne; lia|].
  split; [|split].
  - cbn. eapply links_set_next; [|by apply NoDup_app in Hn as [? _]|exact H1].
    eapply apart_mono; [|exact Hap]. set_solver.
  - cbn. apply links_frame; [|done]. intros y Hy.
    destruct (Hap x y Hx ltac:(set_solver)) as [->| ]; [|lia].
    apply NoDup_app in Hn as (_ & Hn & _). destruct (Hn y); set_solver.
  - cbn. rewrite Ha, !hd_app. by destruct l0.
Qed.

Lemma unlink_ok h b1 k b2 l1 l2 i :
  tags (array h) 0 b1 → tags (array h) k b2 → total b1 <= k →
  (∀ x, x ∈ l1 ++ l2 → x ∈ members b1 k b2) → (∀ x, x ∈ l1 ++ l2 → 0 < x) → NoDup (l1 ++ l2) →
  links (array h) 0 (l1 ++ i :: l2) 0 → avail h = hd 0 (l1 ++ i :: l2) →
  ∃ h', remove i h = Ret h' ∧ around h' b1 k b2 (l1 ++ l2) ∧ kept h h' b1 k b2 ∧ same_gap h h' b1 k.
Proof.
  intros Hl Hh Hg Hin Hp Hn Hlk Ha.
  rewrite links_app in Hlk. cbn [hd links] in Hlk. destruct Hlk as (L1 & Eprev & Enext & L2).
  rewrite hd_app in Ha. cbn [hd] in Ha.
  unfold remove, prev, next. rewrite !sanity_ret, Eprev, Enext. cbn [mbind outcome_bind].
  destruct (skip_next h b1 k b2 l1 l2 i (hd 0 l2) Hl Hh Hg Hin Hp Hn L1 L2 Ha)
    as (T1 & T2 & K & G & M1 & M2 & Ha').
  set (h1 := if _ : bool then _ else _) in *.
  eexists. split; [reflexivity|].
  assert (apart (l1 ++ l2)) as Hap.
  { eapply apart_mono; [exact Hin|]. exact (members_apart h b1 k b2 Hl Hh Hg). }
  destruct l2 as [|y l2]; cbn [hd] in *.
  { rewrite app_nil_r in *. split; [by split|]. done. }
  assert (y ∈ l1 ++ y :: l2) as Hy by set_solver. pose proof (Hp y Hy).
  rewrite (proj2 (Z.eqb_neq y 0)) by lia. cbn [negb].
  destruct (put_link_tags h1 b1 k b2 y (y + 2) (last_of 0 l1) T1 T2 Hg (Hin y Hy) ltac:(lia))
    as (T1' & T2' & K' & Hj).
  split; [|split; [by eapply kept_trans|]].
  - split; try done.
    + unfold setPrev, put, set_array. cbn [avail]. rewrite Ha'. by rewrite hd_app.
    + apply links_app. cbn [hd]. split.
      * cbn. apply links_frame; [|done]. intros x Hx.
        destruct (Hap y x Hy ltac:(set_solver)) as [->| ]; [|lia].
        apply NoDup_app in Hn as (_ & Hn & _). destruct (Hn x); set_solver.
      * cbn -[links]. eapply links_set_prev; [|by apply NoDup_app in Hn as (_ & _ & ?)|exact M2].
        eapply apart_mono; [|exact Hap]. set_solver.
  - intros j Hj'. cbn. rewrite upd_ne by lia. by apply G.
Qed.

Lemma size_put h i n : 0 <= n → size (put i (- n) h) i = n ∧ size (put i n h) i = n.
Proof.
  intros. unfold size, abs. cbn. rewrite !upd_eq. split; break_if; bool_to_prop; lia.
Qed.

(** Both tags of a block that starts a gap. *)
Lemma put_tags h b1 k b2 l n t :
  around h b1 k b2 l → block_ok (n, t) → total b1 + n <= k →
  let i := total b1 in
  let h' := put (i + n - 1) (tag (n, t)) (put i (tag (n, t)) h) in
  around h' b1 k b2 l ∧ kept h h' b1 k b2 ∧ tags (array h') 0 (b1 ++ [(n, t)]).
Proof.
  intros Har Hb Hk i h'. pose proof (block_ok_size _ Hb) as Hn. cbn in Hn.
  destruct (put_gap h b1 k b2 l i (tag (n, t)) Har ltac:(lia)) as [H1 K1].
  destruct (put_gap _ b1 k b2 l (i + n - 1) (tag (n, t)) H1 ltac:(lia)) as [H2 K2].
  split; [done|]. split; [by eapply kept_trans|].
  apply tags_app. split; [apply H2|]. cbn [tags total fst]. cbn [Z.add]. fold i.
  split; [done|]. cbn. split; [rewrite upd_ne by lia; by rewrite upd_eq|]. by rewrite upd_eq.
Qed.

Lemma makeTaken_ok h b1 k b2 l n :
  around h b1 k b2 l → 2 <= n → total b1 + n <= k →
  around (makeTaken (total b1) n h) (b1 ++ [(n, true)]) k b2 l ∧
  kept h (makeTaken (total b1) n h) b1 k b2.
Proof.
  intros Har Hn Hk. unfold makeTaken, footerFromHeader.
  rewrite (proj1 (size_put h (total b1) n ltac:(lia))).
  destruct (put_tags h b1 k b2 l n true Har ltac:(cbn; lia) Hk) as ([H1 H2 H3 H4 H5 H6 H7 H8] & K & T).
  split; [|done]. split; try done.
  - rewrite total_app. cbn. lia.
  - intros x Hx. apply H4 in Hx. unfold members in *. rewrite starts_app. cbn. by rewrite app_nil_r.
Qed.

(** The gap is not in the list. *)
Lemma gap_not_linked h b1 k b2 l : around h b1 k b2 l → total b1 < k → total b1 ∉ l.
Proof.
  intros [T1 Th _ Hin _ _ _ _] Hk Hx%Hin. unfold members in Hx. rewrite fmap_app, elem_of_app in Hx.
  destruct Hx as [Hx|Hx]; apply list_elem_of_fmap in Hx as ([y m] & E & Hx); cbn in E; subst y.
  - destruct (starts_inside _ _ _ _ _ _ T1 Hx) as (? & ? & ? & _). cbn in *. lia.
  - destruct (starts_inside _ _ _ _ _ _ Th Hx) as (? & _). lia.
Qed.

Lemma makeAvail_ok h b1 k b2 l n :
  around h b1 k b2 l → 4 <= n → total b1 + n = k → 0 < total b1 →
  around (makeAvail (total b1) n h) (b1 ++ [(n, false)]) k b2 (total b1 :: l) ∧
  kept h (makeAvail (total b1) n h) b1 k b2.
Proof.
  intros Har Hn Hk Hi. pose proof (gap_not_linked _ _ _ _ _ Har ltac:(lia)) as Hnew.
  unfold makeAvail, footerFromHeader.
  rewrite (proj2 (size_put h (total b1) n ltac:(lia))). set (i := total b1) in *.
  destruct (put_tags h b1 k b2 l n false Har Hn ltac:(lia)) as (A2 & K2 & T2).
  fold i in A2, K2, T2. change (tag (n, false)) with n in *.
  set (h2 := put (i + n - 1) n (put i n h)) in *.
  assert (array h2 i = n ∧ array h2 (i + n - 1) = n) as [E1 E2].
  { cbn. rewrite upd_eq, (upd_ne _ (i + n - 1) _ i), upd_eq by lia. done. }
  change (avail (put _ _ _)) with (avail h). unfold setNext, setPrev.
  destruct (put_gap h2 b1 k b2 l (i + 1) (avail h) A2 ltac:(lia)) as [A3 K3].
  destruct (put_gap _ b1 k b2 l (i + 2) 0 A3 ltac:(lia)) as [A4 K4].
  set (h4 := put (i + 2) 0 _) in *. change (avail h4) with (avail h).
  assert (kept h h4 b1 k b2) as K by (by repeat (eapply kept_trans; [eassumption|])).
  assert (array h4 i = n ∧ array h4 (i + n - 1) = n ∧ array h4 (i + 1) = avail h ∧ array h4 (i + 2) = 0)
    as (F1 & F2 & F3 & F4).
  { cbn. rewrite !(upd_ne _ (i + 2)) by lia. rewrite !(upd_ne _ (i + 1) _ i) by lia.
    rewrite !(upd_ne _ (i + 1) _ (i + n - 1)), !upd_eq by lia. done. }
  clearbody h4. destruct A4 as [T1 Th Hg Hin Hp Hnd Hav Hlk].
  assert (avail h = hd 0 l) as Ha by apply Har.
  assert (∀ x, x ∈ i :: l → x ∈ members (b1 ++ [(n, false)]) k b2) as Hmem.
  { intros x [->|Hx%Hin]%elem_of_cons; unfold members in *; rewrite starts_app, !fmap_app, !elem_of_app in *;
      cbn; [left; right; by left|tauto]. }
  destruct l as [|y l]; cbn [hd] in Ha; rewrite Ha.
  { cbn [Z.eqb negb]. split; [|destruct K; by split]. split; try done.
    - cbn. apply tags_app. cbn. repeat split; (done || lia).
    - rewrite total_app. cbn. lia.
    - intros x [->|?%elem_of_nil]%elem_of_cons; done.
    - by apply NoDup_cons.
    - cbn. rewrite F3, F4. done. }
  assert (y ∈ y :: l) as Hy by left. pose proof (Hp y Hy). rewrite (proj2 (Z.eqb_neq y 0)) by lia. cbn [negb].
  destruct (put_link_tags h4 b1 k b2 y (y + 2) i T1 Th Hg (Hin y Hy) ltac:(lia)) as (T1' & Th' & K' & Hj).
  split; [|destruct (kept_trans _ _ _ _ _ _ K K'); by split].
  split; try done.
  - cbn in *. apply tags_app. cbn. rewrite !upd_ne by lia. repeat split; (done || lia).
  - rewrite total_app. cbn. lia.
  - intros x [->|?]%elem_of_cons; [done|by apply Hp].
  - by apply NoDup_cons.
  - cbn -[links]. cbn [links hd]. cbn -[links]. rewrite !(upd_ne _ (y + 2) _ (i + _)) by lia.
    rewrite F3, F4. split; [done|]. split; [done|].
    eapply links_set_prev; [|done|exact Hlk]. eapply apart_mono; [exact Hin|].
    exact (members_apart h4 b1 k b2 T1 Th Hg).
Qed.

(** ** Taking blocks out of the list *)

(** [remove] on a member of the list, given where the others are. *)
Lemma remove_member h b1 k b2 l i :
  tags (array h) 0 b1 → tags (array h) k b2 → total b1 <= k → i ∈ l → NoDup l →
  (∀ x, x ∈ l → x ≠ i → x ∈ members b1 k b2) → (∀ x, x ∈ l → 0 < x) →
  links (array h) 0 l 0 → avail h = hd 0 l →
  ∃ h' l', remove i h = Ret h' ∧ l ≡ₚ i :: l' ∧ around h' b1 k b2 l' ∧ kept h h' b1 k b2 ∧
    same_gap h h' b1 k.
Proof.
  intros Hl Hh Hg Hi Hn Hin Hp Hlk Ha.
  apply list_elem_of_split in Hi as (l1 & l2 & ->).
  pose proof Hn as Hn'. rewrite <- Permutation_middle in Hn'. apply NoDup_cons in Hn' as [Hi Hn'].
  destruct (unlink_ok h b1 k b2 l1 l2 i Hl Hh Hg) as (h' & E & Har & K & G); try done.
  - intros x Hx. apply Hin; [set_solver|]. by intros ->.
  - intros x Hx. apply Hp. set_solver.
  - exists h', (l1 ++ l2). split; [done|]. split; [by rewrite Permutation_middle|done].
Qed.

Lemma members_high b1 k b x b2 :
  x ∈ members b1 k (b :: b2) ↔ x ∈ members b1 (k + b.1) b2 ∨ (x = k ∧ b.2 = false).
Proof.
  unfold members. cbn [starts]. rewrite !fmap_app, !elem_of_app.
  destruct b as [n []]; cbn; set_solver.
Qed.

Lemma members_low b1 b k x b2 :
  x ∈ members (b1 ++ [b]) k b2 ↔ x ∈ members b1 k b2 ∨ (x = total b1 ∧ b.2 = false).
Proof.
  unfold members. rewrite starts_app, !fmap_app, !elem_of_app. cbn [starts Z.add].
  destruct b as [n []]; cbn; set_solver.
Qed.

(** The block after the gap joins it. *)
Lemma drop_high h b1 k r b2 l :
  around h b1 k ((r, false) :: b2) l → k ∈ l →
  ∃ h' l', remove k h = Ret h' ∧ l ≡ₚ k :: l' ∧ around h' b1 (k + r) b2 l' ∧
    kept h h' b1 (k + r) b2 ∧ same_gap h h' b1 (k + r).
Proof.
  intros [Hl (Hb & _ & _ & Hh) Hg Hin Hp Hn Ha Hlk] Hk. cbn in Hb.
  apply remove_member; try done; [lia|].
  intros x Hx Hne. by apply Hin, members_high in Hx as [?|[? _]].
Qed.

(** The block before the gap joins it. *)
Lemma drop_low h b1 m k b2 l :
  around h (b1 ++ [(m, false)]) k b2 l → total b1 ∈ l →
  ∃ h' l', remove (total b1) h = Ret h' ∧ l ≡ₚ total b1 :: l' ∧ around h' b1 k b2 l' ∧
    kept h h' b1 k b2 ∧ same_gap h h' b1 k.
Proof.
  intros [Hl Hh Hg Hin Hp Hn Ha Hlk] Hk. apply tags_app in Hl as [Hl (Hb & _)].
  rewrite total_app in Hg. cbn in Hb, Hg.
  apply remove_member; try done; [lia|].
  intros x Hx Hne. by apply Hin, members_low in Hx as [?|[? _]].
Qed.

(** A taken block after the gap may join it. *)
Lemma skip_taken h b1 k n b2 l :
  around h b1 k ((n, true) :: b2) l → around h b1 (k + n) b2 l.
Proof.
  intros [Hl (Hb & _ & _ & Hh) Hg Hin Hp Hn Ha Hlk]. cbn in Hb. split; (done || lia).
Qed.

(** ** From a heap to a gap and back *)

Lemma available_pos a bs x :
  tags a 0 bs → head bs = Some (2, true) → x ∈ (available 0 bs).*1 → 0 < x.
Proof.
  destruct bs as [|b bs]; cbn; [done|]. intros (_ & _ & _ & Ht) [= ->] Hx. cbn in Hx.
  apply list_elem_of_fmap in Hx as ([y n] & -> & Hx).
  destruct (starts_inside _ _ _ _ _ _ Ht Hx) as (? & _). cbn in *. lia.
Qed.

Lemma heap_around h b1 b2 l : heap_ok h (b1 ++ b2) l → around h b1 (total b1) b2 l.
Proof.
  intros [Hlen Hs Ht Hf Hla Hc Ha Hl Hlk]. pose proof Ht as [T1 T2]%tags_app. split; try done.
  - intros x Hx. unfold members. rewrite starts_app in Hl. by rewrite <- Hl.
  - intros x Hx. rewrite Hl in Hx. exact (available_pos _ _ _ Ht Hf Hx).
  - rewrite Hl. exact (starts_NoDup _ _ _ _ Ht).
Qed.

Lemma heap_close h b1 b2 l :
  around h b1 (total b1) b2 l → total (b1 ++ b2) = len h → len h < 0x20000000 →
  head (b1 ++ b2) = Some (2, true) → last (b1 ++ b2) = Some (2, true) → coalesced (b1 ++ b2) →
  l ≡ₚ (available 0 (b1 ++ b2)).*1 → heap_ok h (b1 ++ b2) l.
Proof. intros [] ??????. split; try done. by apply tags_app. Qed.

(** Two neighbours are not both available. *)
Definition joint (o1 o2 : option block) : Prop :=
  match o1, o2 with Some b, Some c => b.2 || c.2 = true | _, _ => True end.

Lemma coalesced_cons b bs : coalesced (b :: bs) ↔ joint (Some b) (head bs) ∧ coalesced bs.
Proof. destruct bs; cbn; tauto. Qed.

Lemma coalesced_app b1 b2 :
  coalesced (b1 ++ b2) ↔ coalesced b1 ∧ joint (last b1) (head b2) ∧ coalesced b2.
Proof.
  induction b1 as [|b b1 IH]; [cbn; tauto|]. cbn [app]. rewrite !coalesced_cons, IH.
  destruct b1 as [|c b1]; cbn [app head]; [cbn; tauto|]. rewrite last_cons_cons. tauto.
Qed.

Lemma last_middle (b1 b2 : list block) b c : last (b1 ++ b :: b2) = Some c → b ≠ c →
  ∃ d b2', b2 = d :: b2' ∧ ∀ b1', last (b1' ++ b2) = Some c.
Proof.
  destruct b2 as [|d b2].
  - rewrite last_snoc. congruence.
  - intros H _. exists d, b2. split; [done|]. intros b1'. rewrite last_app_cons. by rewrite last_app_cons, last_cons_cons in H.
Qed.

Lemma head_middle (b1 b2 : list block) b c : head (b1 ++ b :: b2) = Some c → b ≠ c →
  b1 ≠ [] ∧ ∀ b2', head (b1 ++ b2') = Some c.
Proof. destruct b1; cbn; [congruence|]. done. Qed.

Lemma kept_less h h' b1 c k b2 : kept h h' (b1 ++ c) k b2 → kept h h' b1 k b2.
Proof.
  intros [H1 H2 H3 H4]. split; try done. intros y m j Hy. apply H1.
  rewrite starts_app, elem_of_app. by left.
Qed.

Lemma kept_more h h' b1 k b b2 : kept h h' b1 k (b :: b2) → kept h h' b1 (k + b.1) b2.
Proof.
  intros [H1 H2 H3 H4]. split; try done. intros y m j Hy. apply H2.
  cbn [starts]. rewrite elem_of_app. by right.
Qed.

(** ** [malloc] *)

(** What an available block of [sz] words becomes when [ints] are taken. *)
Definition piece (sz ints : Z) : list block :=
  if 4 <=? sz - ints then [(ints, true); (sz - ints, false)] else [(sz, true)].

Lemma total_piece sz ints : total (piece sz ints) = sz.
Proof. unfold piece. break_if; cbn; lia. Qed.

Lemma list_of_drop h b1 r b2 l l' :
  heap_ok h (b1 ++ (r, false) :: b2) l → l ≡ₚ total b1 :: l' →
  l' ≡ₚ (available 0 b1).*1 ++ (available (total b1 + r) b2).*1.
Proof.
  intros Hok Hl. pose proof (ok_list _ _ _ Hok) as H. rewrite Hl, starts_app in H. cbn in H.
  rewrite fmap_app in H. cbn in H. rewrite <- Permutation_middle in H.
  by apply Permutation_cons_inv in H.
Qed.

(** The first block is taken, so an available one has a positive index. *)
Lemma heap_available_pos h b1 sz b2 l : heap_ok h (b1 ++ (sz, false) :: b2) l → 0 < total b1.
Proof.
  intros Hok. apply (available_pos (array h) (b1 ++ (sz, false) :: b2)); [apply Hok..|].
  rewrite starts_app, fmap_app, elem_of_app. right. cbn. left.
Qed.

(** Putting blocks in the place of an available one. *)
Lemma heap_replace h h' b1 sz b2 l c l' :
  heap_ok h (b1 ++ (sz, false) :: b2) l →
  around h' (b1 ++ c) (total b1 + sz) b2 l' → total c = sz → len h' = len h →
  coalesced c → (∀ b, head c = Some b → b.2 = true) →
  l' ≡ₚ (available 0 (b1 ++ c)).*1 ++ (available (total b1 + sz) b2).*1 →
  heap_ok h' (b1 ++ c ++ b2) l'.
Proof.
  intros [Hlen Hs Ht Hf Hla Hc Hav Hl Hlk] Har Hc' Hlen' Hcc Hhd Hl'. rewrite (assoc_L (++)).
  destruct (last_middle _ _ _ _ Hla ltac:(done)) as (d & b2' & -> & Hlast).
  destruct (head_middle _ _ _ _ Hf ltac:(done)) as [Hne Hhead].
  rewrite coalesced_app, coalesced_cons in Hc. destruct Hc as (C1 & J1 & J2 & C2). cbn in J2.
  apply heap_close; try done.
  - rewrite total_app, Hc'. done.
  - rewrite Hlen', <- Hlen, !total_app, Hc'. cbn. lia.
  - lia.
  - by rewrite <- (assoc_L (++)).
  - rewrite !coalesced_app. split; [|split; [|done]].
    + split; [done|]. split; [|done]. destruct (head c) eqn:E; [|destruct (last b1); exact I].
      cbn. destruct (last b1); [|done]. cbn. rewrite (Hhd _ eq_refl). apply orb_true_r.
    + destruct (last (b1 ++ c)); [|done]. cbn. rewrite J2. apply orb_true_r.
  - rewrite starts_app, fmap_app, total_app, Hc'. done.
Qed.

Lemma take_block_ok h b1 sz b2 l ints :
  heap_ok h (b1 ++ (sz, false) :: b2) l → 4 <= ints <= sz →
  ∃ h' l', take_block (total b1) sz ints h = Ret h' ∧
    heap_ok h' (b1 ++ piece sz ints ++ b2) l' ∧ kept h h' b1 (total b1 + sz) b2.
Proof.
  intros Hok Hi. pose proof (heap_around _ _ _ _ Hok) as Har.
  pose proof (heap_available_pos _ _ _ _ _ Hok) as Hpos.
  assert (total b1 ∈ l) as Hin.
  { rewrite (ok_list _ _ _ Hok), starts_app, fmap_app, elem_of_app. right. cbn. left. }
  destruct (drop_high _ _ _ _ _ _ Har Hin) as (h1 & l' & E & Hl' & Har1 & K1 & _).
  pose proof (list_of_drop _ _ _ _ _ _ Hok Hl') as Hl2.
  unfold take_block. rewrite E. cbn [mbind outcome_bind]. unfold piece.
  destruct (Z.leb_spec 4 (sz - ints)).
  - destruct (makeTaken_ok h1 b1 _ _ _ ints Har1 ltac:(lia) ltac:(lia)) as [Har2 K2].
    destruct (makeAvail_ok _ (b1 ++ [(ints, true)]) _ _ _ (sz - ints) Har2) as [Har3 K3];
      rewrite ?total_app; cbn [total fst]; try lia.
    apply kept_less in K3. rewrite total_app in Har3, K3. cbn [total fst] in Har3, K3.
    rewrite Z.add_0_r in Har3, K3. rewrite <- (assoc_L (++)) in Har3.
    eexists _, _. split; [done|]. split; [|by repeat (eapply kept_trans; [eassumption|])].
    eapply heap_replace; [exact Hok|exact Har3|cbn; lia| |done|by intros ? [= <-]|].
    + rewrite (kp_len _ _ _ _ _ K3), (kp_len _ _ _ _ _ K2). apply K1.
    + rewrite Hl2, starts_app, fmap_app. cbn. rewrite <- (assoc_L (++)). cbn.
      by rewrite <- Permutation_middle.
  - destruct (makeTaken_ok h1 b1 _ _ _ sz Har1 ltac:(lia) ltac:(lia)) as [Har2 K2].
    eexists _, _. split; [done|]. split; [|by eapply kept_trans].
    eapply heap_replace; [exact Hok|exact Har2|cbn; lia| |done|by intros ? [= <-]|].
    + rewrite (kp_len _ _ _ _ _ K2). apply K1.
    + rewrite Hl2, starts_app, fmap_app. cbn. by rewrite app_nil_r.
Qed.

(** The size of an available block is its tag. *)
Lemma avail_size h bs l x : heap_ok h bs l → x ∈ l →
  (x, size h x) ∈ available 0 bs ∧ isAvail h x = true ∧ 4 <= size h x < 0x20000000 ∧ 0 < x.
Proof.
  intros Hok Hx. rewrite (ok_list _ _ _ Hok) in Hx.
  pose proof (available_pos _ _ _ (ok_tags _ _ _ Hok) (ok_first _ _ _ Hok) Hx).
  destruct (avail_links _ _ _ _ (ok_tags _ _ _ Hok) Hx) as (n & Hx' & Hn).
  destruct (starts_inside _ _ _ _ _ _ (ok_tags _ _ _ Hok) Hx') as (? & Hle & _ & Ha & _).
  rewrite (ok_len _ _ _ Hok) in Hle. pose proof (ok_small _ _ _ Hok). cbn in Ha.
  unfold isAvail, size, abs. rewrite Ha. rewrite (proj2 (Z.ltb_lt 0 n)), (proj2 (Z.ltb_ge n 0)) by lia.
  repeat split; (done || lia).
Qed.

(** What the search has found among the blocks [seen]. *)
Definition found (h : heap) (ints : Z) (seen : list Z) (s : search) : Prop :=
  (it s = 0 ∧ mx s = 0x7FFFFFFF ∧ ∀ x, x ∈ seen → size h x < ints) ∨
  (it s ∈ seen ∧ mx s = size h (it s) ∧ ints <= mx s ∧
   ∀ x, x ∈ seen → ints <= size h x → mx s <= size h x).

Definition fitting (h : heap) (ints : Z) (seen : list Z) : Z :=
  Z.of_nat (length (List.filter (λ x, ints <=? size h x) seen)).

Lemma fitting_snoc h ints seen x :
  fitting h ints (seen ++ [x]) = fitting h ints seen + (if ints <=? size h x then 1 else 0).
Proof. unfold fitting. rewrite List.filter_app, length_app. cbn. break_if; cbn; lia. Qed.

Lemma found_snoc h ints seen x s s' :
  found h ints seen s → size h x < 0x7FFFFFFF →
  (if ints <=? size h x
   then if size h x <? mx s then it s' = x ∧ mx s' = size h x else it s' = it s ∧ mx s' = mx s
   else it s' = it s ∧ mx s' = mx s) →
  found h ints (seen ++ [x]) s'.
Proof.
  unfold found. intros Hf Hb Hs. setoid_rewrite elem_of_app. setoid_rewrite list_elem_of_singleton.
  destruct (Z.leb_spec ints (size h x)).
  - right. destruct (Z.ltb_spec (size h x) (mx s)); destruct Hs as [-> ->].
    + split; [by right|]. repeat split; try done. intros y [Hy| ->] Hfit; [|lia].
      destruct Hf as [(_ & _ & Hf)|(_ & _ & _ & Hf)]; [specialize (Hf y Hy)|specialize (Hf y Hy Hfit)]; lia.
    + destruct Hf as [(_ & Hmx & _)|(Hi & Hm & Hle & Hf)]; [lia|].
      repeat split; try done; [by left|]. intros y [Hy| ->] Hfit; [by apply Hf|lia].
  - destruct Hs as [-> ->]. destruct Hf as [(-> & -> & Hf)|(Hi & Hm & Hle & Hf)]; [left|right].
    + repeat split; try done. intros y [Hy| ->]; [by apply Hf|lia].
    + repeat split; try done; [by left|]. intros y [Hy| ->] Hfit; [by apply Hf|lia].
Qed.

(** The walk goes over a prefix [seen] of the list and stops at its end, or when
    twenty blocks that fit have been seen. *)
Lemma search_ok h bs l ints rest seen s fuel :
  heap_ok h bs l → l = seen ++ rest → (length rest <= fuel)%nat →
  go s = true → p s = hd 0 rest → found h ints seen s → countDown s = 20 - fitting h ints seen →
  0 < countDown s →
  ∃ s' seen' rest', while_loop fuel searching (search_step h ints) s = Ret s' ∧
    l = seen' ++ rest' ∧ found h ints seen' s' ∧ (rest' = [] ∨ fitting h ints seen' = 20).
Proof.
  intros Hok. revert seen s fuel. induction rest as [|x rest IH]; intros seen s fuel Hl Hfuel Hgo Hp Hf Hcd Hpos.
  { assert (searching s = false) as Hs by (unfold searching; rewrite Hp; apply andb_false_r).
    exists s, seen, []. split; [destruct fuel; cbn [while_loop]; by rewrite Hs|by eauto]. }
  destruct fuel as [|fuel]; [cbn in Hfuel; lia|].
  assert (x ∈ l) as Hx by (subst l; set_solver).
  destruct (avail_size _ _ _ _ Hok Hx) as (_ & Hav & Hsz & Hx0).
  assert (next h x = Ret (hd 0 rest)) as Hnext.
  { unfold next. rewrite sanity_ret. f_equal. pose proof (ok_links _ _ _ Hok) as Hlk.
    rewrite Hl in Hlk. apply links_app in Hlk as [_ Hlk]. cbn in Hlk. tauto. }
  assert (∀ s', go s' = true → p s' = hd 0 rest → found h ints (seen ++ [x]) s' →
    countDown s' = 20 - fitting h ints (seen ++ [x]) → 0 < countDown s' →
    ∃ s'' seen' rest', while_loop fuel searching (search_step h ints) s' = Ret s'' ∧
    l = seen' ++ rest' ∧ found h ints seen' s'' ∧ (rest' = [] ∨ fitting h ints seen' = 20)) as Hgo'.
  { intros s' ?????. apply (IH (seen ++ [x])); try done; [|cbn in Hfuel; lia]. by rewrite <- (assoc_L (++)). }
  cbn in Hp. cbn [while_loop]. unfold searching at 1. rewrite Hgo, Hp, (proj2 (Z.eqb_neq x 0)) by lia. cbn [negb andb].
  set (k := while_loop fuel searching (search_step h ints)) in *.
  change (λ s', k s') with k. unfold search_step. rewrite Hp, Hav. cbn [negb]. cbv zeta.
  assert (∀ s', (if ints <=? size h x
    then if size h x <? mx s then it s' = x ∧ mx s' = size h x else it s' = it s ∧ mx s' = mx s
    else it s' = it s ∧ mx s' = mx s) → found h ints (seen ++ [x]) s') as Hfound.
  { intros s' Hs'. eapply found_snoc; [done|lia|done]. }
  pose proof (fitting_snoc h ints seen x) as Hfs.
  destruct (ints <=? size h x) eqn:Hfit.
  - destruct (countDown s - 1 =? 0) eqn:Hz; bool_to_prop.
    + destruct (size h x <? mx s) eqn:Hlt; cbn [mbind outcome_bind];
        (eexists _, (seen ++ [x]), rest; split; [by destruct fuel|];
         split; [by rewrite <- (assoc_L (++))|]; split; [by apply Hfound|right; lia]).
    + rewrite Hnext. destruct (size h x <? mx s) eqn:Hlt; cbn [mbind outcome_bind];
        (apply Hgo'; cbn; try done; [by apply Hfound|lia..]).
  - rewrite Hnext. cbn [mbind outcome_bind]. apply Hgo'; cbn; try done; [by apply Hfound|lia].
Qed.

(** The list is shorter than the array. *)
Lemma list_short h bs l : heap_ok h bs l → (length l <= heap_fuel h)%nat.
Proof.
  intros Hok. unfold heap_fuel. rewrite (ok_list _ _ _ Hok), length_fmap, <- (ok_len _ _ _ Hok).
  pose proof (ok_tags _ _ _ Hok) as Ht. revert Ht. generalize 0.
  clear. induction bs as [|b bs IH]; intros i; cbn; [lia|]. intros (Hb & _ & _ & Ht).
  pose proof (block_ok_size _ Hb). pose proof (tags_total _ _ _ Ht). specialize (IH _ Ht).
  rewrite length_app. destruct (Bool.eqb b.2 false); cbn; lia.
Qed.

Lemma find_block_ok h bs l ints :
  heap_ok h bs l →
  ∃ s seen rest, find_block h ints = Ret s ∧ l = seen ++ rest ∧ found h ints seen s ∧
    (rest = [] ∨ fitting h ints seen = 20).
Proof.
  intros Hok. unfold find_block. eapply (search_ok h bs l ints l []); try done.
  - by eapply list_short.
  - apply (ok_avail _ _ _ Hok).
  - left. cbn. repeat split; try done. by intros x ?%elem_of_nil.
Qed.

(** ** [free] *)

(** The blocks before the freed one: the last one joins the gap if it is available. *)
Definition low_part (b1 : list block) (m : Z) (t : bool) : list block :=
  if t then b1 ++ [(m, true)] else b1.

Definition high_part (r : Z) (u : bool) (b2 : list block) : list block :=
  if u then (r, true) :: b2 else b2.

Lemma avail_tag h i b : array h i = tag b → block_ok b → isAvail h i = negb b.2 ∧ size h i = b.1.
Proof.
  intros E Hb. pose proof (block_ok_size _ Hb). unfold isAvail, size, abs. rewrite E. unfold tag.
  destruct (b.2); cbn [negb]; split; try (apply Z.ltb_lt || apply Z.ltb_ge); try break_if; bool_to_prop; lia.
Qed.

Lemma join_left h b1 m t k b2 l sz :
  around h (b1 ++ [(m, t)]) k b2 l → (t = false → total b1 ∈ l) →
  ∃ h' l',
    (if isAvail h (total b1)
     then h' ← remove (total b1) h; Ret (total b1, sz + size h' (total b1), h')
     else Ret (total b1 + m, sz, h)) =
    Ret (total (low_part b1 m t), sz + (total b1 + m - total (low_part b1 m t)), h') ∧
    around h' (low_part b1 m t) k b2 l' ∧ kept h h' (low_part b1 m t) k b2 ∧
    l ≡ₚ (if t then [] else [total b1]) ++ l'.
Proof.
  intros Har Hin. pose proof (ar_low _ _ _ _ _ Har) as T. apply tags_app in T as [_ (Hb & Ha & _)].
  rewrite Z.add_0_l in Ha. destruct (avail_tag _ _ _ Ha Hb) as [-> Hs]. cbn [snd fst] in *.
  destruct t; cbn [negb low_part app].
  - exists h, l. rewrite total_app. cbn. split; [do 3 f_equal; lia|]. split; [done|]. split; [apply kept_refl|done].
  - pose proof (ar_gap _ _ _ _ _ Har) as Hg. rewrite total_app in Hg. cbn in Hg, Hb.
    destruct (drop_low _ _ _ _ _ _ Har (Hin eq_refl)) as (h' & l' & -> & Hl & Har' & K & G).
    exists h', l'. split; [|done]. cbn [mbind outcome_bind]. do 4 f_equal.
    unfold size in *. rewrite G by lia. lia.
Qed.

Lemma join_right h b1 k r u b2 l sz :
  around h b1 k ((r, u) :: b2) l → (u = false → k ∈ l) →
  ∃ h' l',
    (if isAvail h k
     then h' ← remove k h; Ret (sz + size h' k, h')
     else Ret (sz, h)) =
    Ret (sz + (if u then 0 else r), h') ∧
    around h' b1 (k + (if u then 0 else r)) (high_part r u b2) l' ∧
    kept h h' b1 (k + (if u then 0 else r)) (high_part r u b2) ∧
    l ≡ₚ (if u then [] else [k]) ++ l'.
Proof.
  intros Har Hin. pose proof (ar_high _ _ _ _ _ Har) as T. destruct T as (Hb & Ha & _).
  destruct (avail_tag _ _ _ Ha Hb) as [-> Hs]. cbn [snd fst] in *.
  destruct u; cbn [negb high_part app].
  - exists h, l. rewrite !Z.add_0_r. split; [done|]. split; [done|]. split; [apply kept_refl|done].
  - pose proof (ar_gap _ _ _ _ _ Har) as Hg. cbn in Hb.
    destruct (drop_high _ _ _ _ _ _ Har (Hin eq_refl)) as (h' & l' & -> & Hl & Har' & K & G).
    exists h', l'. split; [|done]. cbn [mbind outcome_bind]. do 3 f_equal.
    unfold size in *. rewrite G by lia. lia.
Qed.

(** The taken blocks of both parts are those around the freed block. *)
Lemma taken_parts b1 m t n r u b2 :
  (taken 0 (b1 ++ (m, t) :: (n, true) :: (r, u) :: b2)) ≡ₚ
  (total b1 + m, n) :: taken 0 (low_part b1 m t) ++
    taken (total b1 + m + n + (if u then 0 else r)) (high_part r u b2).
Proof.
  rewrite starts_app. cbn [starts Z.add fst snd Bool.eqb].
  destruct t, u; cbn [low_part high_part app Bool.eqb];
    rewrite ?starts_app; cbn [starts fst snd Bool.eqb app Z.add]; rewrite ?Z.add_0_r, ?app_nil_r;
    rewrite ?Z.add_assoc, <- ?(assoc_L (++)); cbn [app]; solve_Permutation.
Qed.

(** The available ones, with those that are merged. *)
Lemma available_parts b1 m t n r u b2 :
  (available 0 (b1 ++ (m, t) :: (n, true) :: (r, u) :: b2)).*1 ≡ₚ
  ((if t then [] else [total b1]) ++ (if u then [] else [total b1 + m + n])) ++
  (available 0 (low_part b1 m t)).*1 ++
  (available (total b1 + m + n + (if u then 0 else r)) (high_part r u b2)).*1.
Proof.
  rewrite starts_app. cbn [starts Z.add fst snd Bool.eqb].
  destruct t, u; cbn [low_part high_part app Bool.eqb];
    rewrite ?starts_app; cbn [starts fst snd Bool.eqb app Z.add]; rewrite ?Z.add_0_r, ?app_nil_r, ?fmap_app;
    cbn [fmap list_fmap fst]; rewrite ?Z.add_assoc, <- ?(assoc_L (++)); cbn [app]; solve_Permutation.
Qed.

Lemma total_parts b1 m t n r (u : bool) b2 :
  total (low_part b1 m t) + (total b1 + m + n + (if u then 0 else r) - total (low_part b1 m t))
    + total (high_part r u b2) = total (b1 ++ (m, t) :: (n, true) :: (r, u) :: b2).
Proof. rewrite total_app. destruct t, u; cbn; rewrite ?total_app; cbn; lia. Qed.

(** What is around a merged block is taken. *)
Lemma coalesced_parts b1 m t n r u b2 c :
  coalesced (b1 ++ (m, t) :: (n, true) :: (r, u) :: b2) →
  coalesced (low_part b1 m t ++ (c, false) :: high_part r u b2).
Proof.
  rewrite !coalesced_app, !coalesced_cons. cbn [head]. intros (C1 & J1 & J2 & J3 & J4 & C2).
  assert (coalesced (low_part b1 m t) ∧ joint (last (low_part b1 m t)) (Some (c, false))) as [L1 L2].
  { destruct t; cbn [low_part].
    - rewrite coalesced_app, last_snoc. done.
    - split; [done|]. exact J1. }
  split; [done|]. split; [done|].
  destruct u; cbn [high_part]; rewrite ?coalesced_cons; [done|]. split; [|done].
  by destruct (head b2).
Qed.

(** The merged block closes the heap. *)
Lemma merged_close h h3 b1 m t n r u b2 l l2 :
  heap_ok h (b1 ++ (m, t) :: (n, true) :: (r, u) :: b2) l →
  let k := total b1 + m + n + (if u then 0 else r) in
  let c := k - total (low_part b1 m t) in
  around h3 (low_part b1 m t ++ [(c, false)]) k (high_part r u b2)
    (total (low_part b1 m t) :: l2) → len h3 = len h →
  l2 ≡ₚ (available 0 (low_part b1 m t)).*1 ++ (available k (high_part r u b2)).*1 →
  heap_ok h3 (low_part b1 m t ++ (c, false) :: high_part r u b2) (total (low_part b1 m t) :: l2).
Proof.
  intros Hok k c Har Hlen Hl3.
  replace (low_part b1 m t ++ (c, false) :: high_part r u b2)
    with ((low_part b1 m t ++ [(c, false)]) ++ high_part r u b2) by by rewrite <- (assoc_L (++)).
  pose proof (ok_first _ _ _ Hok) as Hf. pose proof (ok_last _ _ _ Hok) as Hla.
  assert (total (low_part b1 m t ++ [(c, false)]) = k) as Htot.
  { rewrite total_app. cbn. unfold c. lia. }
  apply heap_close.
  - by rewrite Htot.
  - rewrite total_app, Htot, Hlen, <- (ok_len _ _ _ Hok), <- total_parts. unfold k. lia.
  - rewrite Hlen. apply Hok.
  - destruct t; cbn [low_part]; rewrite <- !(assoc_L (++)).
    + destruct b1; cbn in Hf |- *; done.
    + by apply (head_middle _ _ _ _ Hf).
  - rewrite <- (assoc_L (++)). cbn [app]. rewrite last_app_cons, !last_cons_cons in Hla.
    rewrite last_app_cons. destruct u; cbn [high_part]; rewrite ?last_cons_cons; [done|].
    destruct b2; [done|]. by rewrite last_cons_cons in *.
  - rewrite <- (assoc_L (++)). by eapply coalesced_parts, ok_coalesced.
  - rewrite <- (assoc_L (++)), starts_app, fmap_app, Hl3, Z.add_0_l. cbn [app starts fst snd Bool.eqb].
    replace (total (low_part b1 m t) + c) with k by (unfold c; lia).
    cbn [app fmap list_fmap fst]. by rewrite Permutation_middle.
Qed.

Lemma free_block_ok h b1 m t n r u b2 l :
  heap_ok h (b1 ++ (m, t) :: (n, true) :: (r, u) :: b2) l → 4 <= n →
  let k := total b1 + m + n + (if u then 0 else r) in
  ∃ h' l', free_block (total b1 + m) h = Ret h' ∧
    heap_ok h' (low_part b1 m t ++ (k - total (low_part b1 m t), false) :: high_part r u b2) l' ∧
    kept h h' (low_part b1 m t) k (high_part r u b2).
Proof.
  intros Hok Hn4 k. pose proof (ok_tags _ _ _ Hok) as Ht. apply tags_app in Ht as [T1 T2].
  cbn [tags fst snd] in T2. destruct T2 as (Bm & _ & Fm & Bn & Hn & _ & Br & _).
  rewrite Z.add_0_l in Fm, Hn.
  assert (around h (b1 ++ [(m, t)]) (total b1 + m + n) ((r, u) :: b2) l) as Har.
  { apply skip_taken. pose proof (heap_around h (b1 ++ [(m, t)]) ((n, true) :: (r, u) :: b2) l) as H.
    rewrite <- (assoc_L (++)), total_app in H. cbn in H. rewrite Z.add_0_r in H. by apply H. }
  pose proof (ok_list _ _ _ Hok) as Hl. rewrite available_parts in Hl. fold k in Hl.
  unfold free_block, left, right, headerFromFooter. rewrite !sanity_ret. cbn [mbind outcome_bind].
  destruct (avail_tag _ _ _ Hn Bn) as [_ ->]. cbn [fst].
  destruct (avail_tag _ _ _ Fm Bm) as [_ ->]. cbn [fst].
  replace (total b1 + m - 1 - m + 1) with (total b1) by lia.
  destruct (join_left h b1 m t _ _ l n Har) as (h1 & l1 & -> & Har1 & K1 & Hl1).
  { intros ->. rewrite Hl. cbn. left. }
  cbn [mbind outcome_bind].
  destruct (join_right h1 (low_part b1 m t) _ r u b2 l1 (n + (total b1 + m - total (low_part b1 m t))) Har1)
    as (h2 & l2 & -> & Har2 & K2 & Hl2).
  { intros ->. rewrite Hl in Hl1. rewrite <- (assoc_L (++)) in Hl1. apply Permutation_app_inv_l in Hl1.
    rewrite <- Hl1. cbn. left. }
  cbn [mbind outcome_bind]. fold k in Har2, K2.
  assert (l2 ≡ₚ (available 0 (low_part b1 m t)).*1 ++ (available k (high_part r u b2)).*1) as Hl3.
  { rewrite Hl1, Hl2, <- (assoc_L (++)) in Hl. by do 2 apply Permutation_app_inv_l in Hl. }
  assert (0 <= (if u then 0 else r)) as Hr.
  { apply block_ok_size in Br. cbn in Br. destruct u; lia. }
  pose proof (ar_gap _ _ _ _ _ Har1) as Hg1. pose proof (tags_total _ _ _ T1) as Hb1.
  apply block_ok_size in Bm. cbn in Bm.
  assert (0 < total (low_part b1 m t)) as Hpos.
  { destruct t; cbn [low_part]; [rewrite total_app; cbn; lia|]. by eapply heap_available_pos. }
  assert (total (low_part b1 m t) <= total b1 + m) as Hlow.
  { destruct t; cbn [low_part]; rewrite ?total_app; cbn; lia. }
  replace (n + (total b1 + m - total (low_part b1 m t)) + (if u then 0 else r))
    with (k - total (low_part b1 m t)) by (unfold k; lia).
  destruct (makeAvail_ok h2 (low_part b1 m t) k (high_part r u b2) l2
    (k - total (low_part b1 m t)) Har2) as [Har3 K3]; [lia..|].
  assert (kept h h1 (low_part b1 m t) k (high_part r u b2)) as K1'.
  { unfold k. destruct u; cbn [high_part] in *; [by rewrite Z.add_0_r|]. by apply kept_more in K1. }
  set (h3 := makeAvail _ _ h2) in *. clearbody h3.
  assert (len h3 = len h) as Hlen.
  { by rewrite (kp_len _ _ _ _ _ K3), (kp_len _ _ _ _ _ K2), (kp_len _ _ _ _ _ K1). }
  eexists _, _. split; [reflexivity|]. split; [|by repeat (eapply kept_trans; [eassumption|])].
  by eapply merged_close.
Qed.

(** ** The allocator as a set of regions *)

(** The array is placed in the address space, not at 0. *)
Definition placed (h : heap) : Prop := 0 < base h ∧ base h + 4 * len h <= 4294967296.

Lemma ints_of_bound bytes : 0 < bytes < 4294967293 →
  4 <= ints_of bytes ∧ bytes <= 4 * (ints_of bytes - 2) ∧
  ∀ n, 4 <= n < ints_of bytes → 4 * (n - 2) < bytes.
Proof.
  intros Hb. unfold ints_of, u32. rewrite Z.mod_small by lia.
  destruct (Z.ltb_spec ((bytes + 3) / 4 + 2) 4); (split; [zlia|split; [zlia|]]); intros n Hn; zlia.
Qed.

Lemma index_of_address h x : 0 <= x < 0x20000000 → index_of h (address h (x + 1)) = x.
Proof.
  intros Hx. unfold index_of, address. replace (base h + 4 * (x + 1) - base h) with ((x + 1) * 4) by lia.
  unfold u32. rewrite Z.mod_small, Z.div_mul by lia. unfold i32, u32. cbv zeta. break_if; bool_to_prop; zlia.
Qed.

(** A taken block of four words or more is between two blocks. *)
Lemma taken_middle h bs l x n : heap_ok h bs l → (x, n) ∈ taken 0 bs → 4 <= n →
  ∃ b1 m t r u b2, bs = b1 ++ (m, t) :: (n, true) :: (r, u) :: b2 ∧ x = total b1 + m.
Proof.
  intros Hok Hx Hn. destruct (starts_split _ _ _ _ _ _ (ok_tags _ _ _ Hok) Hx) as (p & q & -> & ->).
  pose proof (ok_first _ _ _ Hok) as Hf. pose proof (ok_last _ _ _ Hok) as Hla.
  destruct (head_middle _ _ _ _ Hf) as [Hne _]; [intros [= ->]; lia|].
  destruct (last_middle _ _ _ _ Hla) as ([r u] & b2 & -> & _); [intros [= ->]; lia|].
  destruct p as [|[m t] b1 _] using rev_ind; [done|].
  exists b1, m, t, r, u, b2. rewrite <- (assoc_L (++)), total_app. cbn. split; [done|lia].
Qed.

Lemma fitting_none h ints seen : (∀ x, x ∈ seen → size h x < ints) → fitting h ints seen = 0.
Proof.
  unfold fitting. induction seen as [|x seen IH]; intros Hs; [done|]. cbn.
  rewrite (proj2 (Z.leb_gt ints (size h x))) by (apply Hs; left). apply IH. intros y Hy. apply Hs. by right.
Qed.

Lemma starts_piece b1 sz ints b2 :
  taken 0 (b1 ++ piece sz ints ++ b2) ≡ₚ
  (total b1, if 4 <=? sz - ints then ints else sz) :: taken 0 b1 ++ taken (total b1 + sz) b2.
Proof.
  rewrite !starts_app, total_piece, Z.add_0_l. unfold piece. break_if; cbn; by rewrite Permutation_middle.
Qed.

(** What a request of [bytes] may do: nothing when every available block is too
    small; otherwise a region of enough bytes is taken, apart from every region in
    use, whose words are all kept. *)
Definition refused (h : heap) (bs : list block) (bytes r : Z) (h' : heap) : Prop :=
  r = 0 ∧ h' = h ∧ ∀ x n, (x, n) ∈ available 0 bs → 4 * (n - 2) < bytes.

Definition granted (h : heap) (bs : list block) (bytes r : Z) (h' : heap) : Prop :=
  ∃ x n bs' l', r = address h (x + 1) ∧ 4 <= n ∧ bytes <= 4 * (n - 2) ∧ heap_ok h' bs' l' ∧
    taken 0 bs' ≡ₚ (x, n) :: taken 0 bs ∧
    (∀ y m, (y, m) ∈ taken 0 bs → x + n <= y ∨ y + m <= x) ∧
    (∀ y m j, (y, m) ∈ taken 0 bs → y <= j < y + m → array h' j = array h j) ∧
    base h' = base h ∧ len h' = len h.

Lemma take_granted h bs l bytes x :
  heap_ok h bs l → 0 < bytes < 4294967293 → x ∈ l → ints_of bytes <= size h x →
  ∃ h', take_block x (size h x) (ints_of bytes) h = Ret h' ∧
    granted h bs bytes (address h (x + 1)) h'.
Proof.
  intros Hok Hb Hx. destruct (ints_of_bound bytes Hb) as (Hi4 & Hib & _).
  destruct (avail_size _ _ _ _ Hok Hx) as (Hia & _ & Hsz & Hpos).
  revert Hsz Hia. generalize (size h x). intros sz Hsz Hia Hle.
  destruct (starts_split _ _ _ _ _ _ (ok_tags _ _ _ Hok) Hia) as (b1 & b2 & -> & E). rewrite E, Z.add_0_l in *.
  destruct (take_block_ok _ _ _ _ _ (ints_of bytes) Hok) as (h' & l' & -> & Hok' & [K1 K2 K3 K4]); [lia|].
  eexists. split; [reflexivity|]. pose proof (ok_tags _ _ _ Hok) as Ht.
  assert (taken 0 (b1 ++ (sz, false) :: b2) = taken 0 b1 ++ taken (total b1 + sz) b2) as Etk by by rewrite starts_app.
  assert (∀ y m, (y, m) ∈ taken 0 (b1 ++ (sz, false) :: b2) → total b1 + sz <= y ∨ y + m <= total b1) as Hap.
  { intros y m Hy. destruct (starts_apart _ _ _ _ _ _ _ _ _ Ht Hia Hy) as [(_ & _ & ?)|?]; [done|lia]. }
  exists (total b1), (if 4 <=? sz - ints_of bytes then ints_of bytes else sz), (b1 ++ piece sz (ints_of bytes) ++ b2), l'.
  split; [done|]. split; [break_if; lia|]. split; [break_if; lia|]. split; [done|].
  split; [by rewrite starts_piece, Etk|]. split.
  { intros y m Hy. specialize (Hap y m Hy). break_if; bool_to_prop; lia. }
  split; [|done]. rewrite Etk. intros y m j [Hy|Hy]%elem_of_app; [by apply K1|by apply K2].
Qed.

Lemma too_small h bs l bytes :
  heap_ok h bs l → 0 < bytes < 4294967293 → (∀ x, x ∈ l → size h x < ints_of bytes) →
  ∀ x n, (x, n) ∈ available 0 bs → 4 * (n - 2) < bytes.
Proof.
  intros Hok Hb Hf x n Hx. destruct (ints_of_bound bytes Hb) as (_ & _ & Hin).
  assert (x ∈ l) as Hxl by (rewrite (ok_list _ _ _ Hok); by apply (list_elem_of_fmap_2 fst _ (x, n))).
  destruct (starts_inside _ _ _ _ _ _ (ok_tags _ _ _ Hok) Hx) as (_ & _ & Hn & Ha & _). cbn in Hn, Ha.
  apply Hin. split; [done|]. specialize (Hf x Hxl). unfold size, abs in Hf. rewrite Ha in Hf.
  by rewrite (proj2 (Z.ltb_ge n 0)) in Hf by lia.
Qed.

(** C22 (functional): on a well-formed heap [malloc] returns. Its result is the
    null pointer only when every available block is too small, and then the heap
    is as it was. Otherwise it is the address of a new region of at least the
    bytes asked for, apart from every region in use, whose words are all kept;
    the heap is well formed again, with that region and the former ones in use. *)
Theorem malloc_ok h bs l bytes :
  heap_ok h bs l → 0 < bytes < 4294967293 →
  ∃ r h', malloc bytes h = Ret (r, h') ∧ (refused h bs bytes r h' ∨ granted h bs bytes r h').
Proof.
  intros Hok Hb. unfold malloc. rewrite (proj2 (Z.eqb_neq bytes 0)) by lia.
  destruct (find_block_ok h bs l (ints_of bytes) Hok) as (s & seen & rest & -> & Hl & Hf & Hend).
  cbn [mbind outcome_bind]. destruct Hf as [(Hit & _ & Hf)|(Hit & Hmx & Hle & _)].
  - rewrite Hit. eexists _, _. split; [reflexivity|]. left. split; [done|]. split; [done|].
    assert (rest = []) as ->.
    { destruct Hend as [->|Hend]; [done|]. by rewrite fitting_none in Hend. }
    rewrite app_nil_r in Hl. subst seen. by eapply too_small.
  - assert (it s ∈ l) as Hil by (subst l; set_solver).
    destruct (avail_size _ _ _ _ Hok Hil) as (_ & _ & _ & Hpos).
    rewrite (proj2 (Z.eqb_neq (it s) 0)) by lia. cbn [negb]. rewrite Hmx in *.
    destruct (take_granted h bs l bytes (it s) Hok Hb Hil Hle) as (h' & -> & Hg).
    cbn [mbind outcome_bind]. eauto.
Qed.

(** C23 (safety): on a well-formed heap, freeing the address of a region in use
    (of four words or more, as [malloc] gives) returns with the heap well formed,
    that region and no other released, and the words of the others kept. *)
Theorem free_ok h bs l x n :
  heap_ok h bs l → placed h → (x, n) ∈ taken 0 bs → 4 <= n →
  ∃ h' bs' l', free (address h (x + 1)) h = Ret h' ∧ heap_ok h' bs' l' ∧
    taken 0 bs ≡ₚ (x, n) :: taken 0 bs' ∧
    (∀ y m j, (y, m) ∈ taken 0 bs' → y <= j < y + m → array h' j = array h j) ∧
    base h' = base h ∧ len h' = len h.
Proof.
  intros Hok [Hb0 Hb1] Hx Hn. pose proof (ok_small _ _ _ Hok). pose proof (ok_len _ _ _ Hok) as Hlen.
  destruct (starts_inside _ _ _ _ _ _ (ok_tags _ _ _ Hok) Hx) as (Hx0 & Hx1 & _ & Ha & _). cbn in Ha.
  unfold free. rewrite index_of_address by lia. unfold address.
  rewrite (proj2 (Z.eqb_neq (base h + _) 0)), (proj2 (Z.eqb_neq (base h + _) (base h))) by lia.
  rewrite sanity_ret. cbn [mbind outcome_bind]. unfold isTaken. rewrite Ha, (proj2 (Z.ltb_lt (- n) 0)) by lia. cbn [negb].
  destruct (taken_middle _ _ _ _ _ Hok Hx Hn) as (b1 & m & t & r & u & b2 & -> & ->).
  destruct (free_block_ok _ _ _ _ _ _ _ _ _ Hok Hn) as (h' & l' & E & Hok' & [K1 K2 K3 K4]).
  eexists _, _, _. split; [exact E|]. split; [exact Hok'|]. rewrite taken_parts, starts_app.
  cbn [starts fst snd Bool.eqb app]. rewrite Z.add_0_l, Zplus_minus. split; [done|].
  split; [|done]. intros y q j [Hy|Hy]%elem_of_app; [by apply K1|by apply K2].
Qed.

(** A new heap: one available block between the two ends. *)
Lemma heapInit_ok b bytes a :
  32 <= bytes < 0x80000000 →
  heap_ok (heapInit b bytes a) [(2, true); (bytes / 4 - 4, false); (2, true)] [2].
Proof.
  intros Hb. set (w := bytes / 4). assert (8 <= w < 0x20000000) as Hw by (unfold w; zlia).
  unfold heapInit. fold w. set (h0 := {| base := b; array := a; len := w; avail := 0 |}).
  assert (around h0 [] (w - 2) [] []) as A0.
  { split; try done; cbn; try lia; try (by intros x ?%elem_of_nil). apply NoDup_nil_2. }
  destruct (makeTaken_ok _ _ _ _ _ 2 A0 ltac:(lia) ltac:(cbn; lia)) as [A1 K1].
  cbn [total app] in A1, K1.
  destruct (makeAvail_ok _ _ _ _ _ (w - 4) A1 ltac:(lia) ltac:(cbn; lia) ltac:(cbn; lia)) as [A2 K2].
  cbn [total app fst] in A2, K2. change (2 + 0) with 2 in A2, K2.
  set (h2 := makeAvail 2 _ _) in *. assert (len h2 = w) as E2.
  { rewrite (kp_len _ _ _ _ _ K2), (kp_len _ _ _ _ _ K1). done. }
  change (len (makeTaken 0 2 h0)) with w. fold h2. rewrite E2. clearbody h2.
  assert (around h2 [(2, true); (w - 4, false)] w [] [2]) as A3.
  { destruct A2. split; try done. cbn. lia. }
  destruct (makeTaken_ok _ _ _ _ _ 2 A3 ltac:(lia) ltac:(cbn; lia)) as [A4 K4].
  cbn [total app fst] in A4, K4. replace (2 + (w - 4 + 0)) with (w - 2) in * by lia.
  change [(2, true); (w - 4, false); (2, true)] with ([(2, true); (w - 4, false); (2, true)] ++ []).
  apply heap_close; rewrite ?app_nil_r; try done.
  - destruct A4. split; (done || (cbn; lia)).
  - rewrite (kp_len _ _ _ _ _ K4), E2. cbn. lia.
  - rewrite (kp_len _ _ _ _ _ K4), E2. lia.
Qed.

Definition heap0 : heap := heapInit 4096 400 (λ _, 0).

Lemma heap0_ok : heap_ok heap0 [(2, true); (96, false); (2, true)] [2].
Proof. apply heapInit_ok. lia. Qed.

Lemma malloc_ok_witness :
  ∃ h', malloc 10 heap0 = Ret (4108, h') ∧ granted heap0 [(2, true); (96, false); (2, true)] 10 4108 h'.
Proof.
  destruct (malloc_ok heap0 [(2, true); (96, false); (2, true)] [2] 10 heap0_ok ltac:(lia))
    as (r & h' & E & H).
  assert (r = 4108) as -> by (vm_compute in E; by injection E).
  exists h'. split; [exact E|]. by destruct H as [[? _]|H].
Defined.

(** The heap after one allocation. *)
Definition heap1 : heap := (run (0, heap0) (malloc 10 heap0)).2.

Lemma heap1_ok : heap_ok heap1 [(2, true); (5, true); (91, false); (2, true)] [7].
Proof.
  split; try reflexivity.
  - vm_compute. repeat split; congruence.
  - vm_compute. repeat split.
  - vm_compute. repeat split.
Qed.

Lemma free_ok_witness :
  ∃ h', free 4108 heap1 = Ret h' ∧ ∃ bs' l', heap_ok h' bs' l' ∧ taken 0 bs' ≡ₚ [(0, 2); (98, 2)].
Proof.
  destruct (free_ok heap1 _ [7] 2 5 heap1_ok) as (h' & bs' & l' & E & Hok & Ht & _).
  - split; vm_compute; congruence.
  - vm_compute. right. left.
  - lia.
  - exists h'. split; [exact E|]. exists bs', l'. split; [exact Hok|].
    apply (Permutation_cons_inv (a := (2, 5))). rewrite <- Ht. cbn. apply Permutation_swap.
Defined.

(** ** The user library's heap is the same *)

Lemma user_sanity h i : UserHeap.sanity h i = i.
Proof. unfold UserHeap.sanity. repeat break_if; bool_to_prop; lia. Qed.

Lemma user_remove i h : remove i h = Ret (UserHeap.remove i h).
Proof. unfold UserHeap.remove, UserHeap.prev1, UserHeap.next1. by rewrite !user_sanity. Qed.

Lemma user_index h x : placed h → 0 <= x → x + 2 <= len h → len h < 0x20000000 →
  UserHeap.index_of h (address h (x + 1)) = x.
Proof.
  intros _ Hx Hle Hlen. unfold UserHeap.index_of, address.
  replace (base h + 4 * (x + 1) - base h) with ((x + 1) * 4) by lia.
  assert (i32 ((x + 1) * 4) = (x + 1) * 4) as ->.
  { unfold i32, u32. cbv zeta. break_if; bool_to_prop; zlia. }
  rewrite Z.quot_mul by lia. lia.
Qed.

(** First fit keeps the same promises. *)
Lemma first_fit_ok h bs l bytes rest seen fuel :
  heap_ok h bs l → 0 < bytes < 4294967293 → l = seen ++ rest → (length rest <= fuel)%nat →
  (∀ x, x ∈ seen → size h x < ints_of bytes) →
  ∃ i h', UserHeap.first_fit fuel (ints_of bytes) (hd 0 rest) h = Ret (i, h') ∧
    (i = 0 ∧ refused h bs bytes 0 h' ∨ 0 < i ∧ granted h bs bytes (address h i) h').
Proof.
  intros Hok Hb. revert seen fuel. induction rest as [|x rest IH]; intros seen fuel Hl Hfuel Hseen.
  { rewrite app_nil_r in Hl. subst seen. exists 0, h. split; [by destruct fuel|].
    left. split; [done|]. split; [done|]. split; [done|]. by eapply too_small. }
  destruct fuel as [|fuel]; [cbn in Hfuel; lia|].
  assert (x ∈ l) as Hx by (subst l; set_solver).
  destruct (avail_size _ _ _ _ Hok Hx) as (_ & _ & _ & Hpos).
  cbn [UserHeap.first_fit hd]. rewrite (proj2 (Z.eqb_neq x 0)) by lia. cbv zeta.
  unfold UserHeap.size. destruct (Z.leb_spec (ints_of bytes) (size h x)) as [Hle|Hgt].
  - destruct (take_granted h bs l bytes x Hok Hb Hx Hle) as (h' & E & Hg).
    unfold take_block in E. rewrite user_remove in E. cbn [mbind outcome_bind] in E. injection E as E.
    unfold UserHeap.makeAvail, UserHeap.makeTaken. rewrite E.
    eexists _, _. split; [reflexivity|]. right. split; [lia|done].
  - unfold UserHeap.next1. rewrite user_sanity. pose proof (ok_links _ _ _ Hok) as Hlk. rewrite Hl in Hlk.
    apply links_app in Hlk as [_ Hlk]. cbn [links] in Hlk. destruct Hlk as (_ & -> & _).
    apply (IH (seen ++ [x])); [by rewrite <- (assoc_L (++))|cbn in Hfuel; lia|].
    intros y [Hy|Hy]%elem_of_app; [by apply Hseen|]. by apply list_elem_of_singleton in Hy as ->.
Qed.

(** C24 (refinement): the user library's heap keeps the promises of the kernel's:
    its first-fit [malloc] refuses only when no block is large enough and grants
    like the other, and its [free] does on a region in use what the kernel's
    does, although its checks are empty and its pointer arithmetic is signed. *)
Theorem user_heap_refines h bs l :
  heap_ok h bs l → placed h →
  (∀ bytes, 0 < bytes < 4294967293 →
     ∃ r h', UserHeap.malloc bytes h = Ret (r, h') ∧ (refused h bs bytes r h' ∨ granted h bs bytes r h')) ∧
  (∀ x n, (x, n) ∈ taken 0 bs →
     free (address h (x + 1)) h = Ret (UserHeap.free (address h (x + 1)) h)).
Proof.
  intros Hok Hpl. split.
  - intros bytes Hb. unfold UserHeap.malloc. rewrite (proj2 (Z.eqb_neq bytes 0)) by lia.
    destruct (first_fit_ok h bs l bytes l [] (heap_fuel h) Hok Hb eq_refl) as (i & h' & E & H);
      [by eapply list_short|by intros x ?%elem_of_nil|].
    rewrite (ok_avail _ _ _ Hok), E. cbn [mbind outcome_bind]. destruct H as [[-> H]|[Hi H]].
    + exists 0, h'. split; [reflexivity|]. by left.
    + rewrite (proj2 (Z.eqb_neq i 0)) by lia. exists (address h i), h'. split; [|by right].
      destruct H as (x & n & bs' & l' & _ & _ & _ & _ & _ & _ & _ & Hbase & _).
      unfold address. by rewrite Hbase.
  - intros x n Hx. pose proof (ok_small _ _ _ Hok). pose proof (ok_len _ _ _ Hok) as Hlen.
    destruct (starts_inside _ _ _ _ _ _ (ok_tags _ _ _ Hok) Hx) as (Hx0 & Hx1 & Hb & Ha & _). cbn in Ha, Hb.
    unfold free, UserHeap.free. rewrite user_index, index_of_address by (done || lia).
    destruct (address h (x + 1) =? 0); [done|]. destruct (address h (x + 1) =? base h); [done|].
    unfold UserHeap.isTaken, isTaken. rewrite sanity_ret, Ha, (proj2 (Z.ltb_lt (- n) 0)) by lia. cbn [mbind outcome_bind negb].
    unfold free_block, UserHeap.left, UserHeap.right, left, right. rewrite !sanity_ret, !user_sanity.
    cbn [mbind outcome_bind].
    unfold UserHeap.isAvail, UserHeap.size, UserHeap.headerFromFooter, UserHeap.makeAvail.
    destruct (isAvail h (headerFromFooter h (x - 1))).
    + rewrite user_remove. cbn [mbind outcome_bind].
      destruct (isAvail (UserHeap.remove (headerFromFooter h (x - 1)) h) (x + size h x)); [|done].
      by rewrite user_remove.
    + cbn [mbind outcome_bind]. destruct (isAvail h (x + size h x)); [|done]. by rewrite user_remove.
Qed.

Lemma user_heap_refines_witness :
  free 4108 heap1 = Ret (UserHeap.free 4108 heap1) ∧
  ∃ h', UserHeap.malloc 40 heap1 = Ret (4128, h') ∧
    granted heap1 [(2, true); (5, true); (91, false); (2, true)] 40 4128 h'.
Proof.
  destruct (user_heap_refines heap1 _ [7] heap1_ok) as [Hm Hf].
  { split; vm_compute; congruence. }
  split.
  - apply (Hf 2 5). vm_compute. right. left.
  - destruct (Hm 40 ltac:(lia)) as (r & h' & E & H).
    assert (r = 4128) as -> by (vm_compute in E; by injection E).
    exists h'. split; [exact E|]. by destruct H as [[? _]|H].
Defined.

(** [malloc] of nearly all the address space wraps around and is granted two
    words. *)
Lemma malloc_wraps : ints_of 4294967295 = 4.
Proof. reflexivity. Qed.

(** When there is no room [realloc] returns the null pointer and has released
    the old region. *)
Lemma realloc_failure_frees :
  (let '(r, h) := run (1, heap1) (UserHeap.realloc 4108 1000 heap1) in (r, isTaken heap1 2, isTaken h 2))
  = (0, true, false).
Proof. vm_compute. reflexivity. Qed.
