(* ===== verification/Libc.v ===== *)
(** * The user library: src/t0.dir/sbin/printf.c, libc.c

    [printf.c] is the kernel's [snprintf.cc] line for line, but for the sink:
    [dopr_outch] calls [putchar] instead of the stream, and the limit is 1000.
    Module [Printf] gives its functions by their names. [libc.c] is modelled
    over the two system calls it uses, [read] and [write], whose stubs are
    assembly: they are the operations of the class [Syscalls]. *)

From S2P Require Import Prelude Mem Libk Snprintf.
Local Open Scope Z_scope.

Module Printf.

Section Printf.
Context `{FPU}.

Definition dopr_outch := Snprintf.dopr_outch.
Definition fmtstr := Snprintf.fmtstr.
Definition fmtint := Snprintf.fmtint.
Definition abs_val := Snprintf.abs_val.
Definition pow10 := Snprintf.pow10.
Definition xround := Snprintf.xround.
Definition fmtfp := Snprintf.fmtfp.
Definition dopr_conv := Snprintf.dopr_conv.
Definition dopr_step := Snprintf.dopr_step.
Definition dopr := Snprintf.dopr.

End Printf.
End Printf.

(** ** libc.c *)

(** The system calls: a result and the bytes read; the bytes to write. *)
Class Syscalls (W : Type) := {
  sys_read : Z → Z → W → outcome (Z * list Z * W);
  sys_write : Z → list Z → W → outcome (Z * W);
}.

Section Libc.
Context {W : Type} `{Syscalls W} `{FPU}.

(** The result of [write] is returned. *)
Definition putchar (c : Z) (w : W) : outcome (Z * W) := sys_write 1 [u8 c] w.

(** The characters one by one; the results of [putchar] are not looked at. *)
Fixpoint put_all (cs : list Z) (w : W) : outcome W :=
  match cs with
  | [] => Ret w
  | c :: cs' => '(_, w) ← putchar c w; put_all cs' w
  end.

(** [vprintf]: what [dopr] gives to [putchar], in order; the result is 1, not a
    count. *)
Definition vprintf (fmt : list Z) (args : list arg) (m : mem) (w : W) : outcome (Z * mem * W) :=
  s ← Printf.dopr 1000 fmt args (Sink [] 0 m);
  w ← put_all (text s) w;
  Ret (1, cells s, w).

Definition printf := vprintf.

(** The loop of [puts]: the count, or the first failure. *)
Fixpoint puts_loop (p : list Z) (count : Z) (w : W) : outcome (Z * bool * W) :=
  match p with
  | [] => Ret (count, true, w)
  | c :: p' =>
      if c =? 0 then Ret (count, true, w)
      else
        '(n, w) ← putchar c w;
        if n <? 0 then Ret (n, false, w) else puts_loop p' (i32 (count + 1)) w
  end.

Definition puts (p : list Z) (w : W) : outcome (Z * W) :=
  '(n, ok, w) ← puts_loop p 0 w;
  if ok : bool then
    '(_, w) ← putchar (10) w;
    Ret (i32 (n + 1), w)
  else Ret (n, w).

(** The inner loop of [cp]; [false] is its [break]. A [write] that takes nothing
    makes it repeat for ever. *)
Fixpoint cp_write (fuel : nat) (to_ : Z) (bs : list Z) (w : W) : outcome (bool * W) :=
  match bs with
  | [] => Ret (true, w)
  | _ =>
      match fuel with
      | O => OutOfFuel
      | S fuel' =>
          '(m, w) ← sys_write to_ bs w;
          if m <? 0 then Ret (false, w) else cp_write fuel' to_ (drop (Z.to_nat m) bs) w
      end
  end.

(** The message on an error: the format, the file and line, the descriptor. *)
Definition report (fmt : string) (line fd : Z) (w : W) : outcome W :=
  '(_, _, w) ← printf (codes fmt ++ [10]) [APtr 1 (codes "libc.c"); AInt line; AInt fd] (λ _, 0) w;
  Ret w.

(** The outer loop goes on after an error of [write]. *)
Fixpoint cp (fuel : nat) (from to_ : Z) (w : W) : outcome W :=
  match fuel with
  | O => OutOfFuel
  | S fuel' =>
      '(n, buf, w) ← sys_read from 100 w;
      if n =? 0 then Ret w
      else if n <? 0 then report "*** %s:%d read error, fd = %d" 26 from w
      else
        '(ok, w) ← cp_write 100 to_ (take (Z.to_nat n) buf) w;
        w ← (if ok : bool then Ret w else report "*** %s:%d write error, fd = %d" 33 to_ w);
        cp fuel' from to_ w
  end.

End Libc.

(** ** Copying

    A pair of files: what is left to read, what has been written. The console
    takes one byte at a time. *)
Record files := Files { input : list Z; output : list Z }.

#[export] Instance files_syscalls : Syscalls files := {|
  sys_read _ n w := Ret (Z.of_nat (length (take (Z.to_nat n) (input w))), take (Z.to_nat n) (input w),
                         Files (drop (Z.to_nat n) (input w)) (output w));
  sys_write _ bs w := Ret (Z.min 1 (Z.of_nat (length bs)), Files (input w) (output w ++ take 1 bs));
|}.

Lemma cp_write_all `{FPU} fuel to_ bs w :
  (length bs <= fuel)%nat →
  cp_write fuel to_ bs w = Ret (true, Files (input w) (output w ++ bs)).
Proof.
  revert bs w. induction fuel as [|fuel IH]; intros [|b bs] w Hl; cbn in Hl; try lia;
    try (cbn; rewrite app_nil_r; by destruct w).
  cbn [cp_write sys_write files_syscalls mbind outcome_bind].
  replace (Z.min 1 (Z.of_nat (length (b :: bs)))) with 1 by (cbn [length]; lia).
  cbn [Z.ltb Z.compare]. change (drop (Z.to_nat 1) (b :: bs)) with bs.
  rewrite IH by lia. cbn [input output]. by rewrite <- app_assoc.
Qed.

(** [cp] copies what can be read, in whatever pieces it is written. *)
Lemma cp_copies `{FPU} from to_ w fuel :
  (length (input w) < fuel)%nat →
  cp fuel from to_ w = Ret (Files [] (output w ++ input w)).
Proof.
  revert w. induction fuel as [|fuel IH]; intros w Hl; [lia|].
  cbn [cp sys_read files_syscalls mbind outcome_bind].
  destruct (input w) as [|b bs] eqn:E.
  { rewrite take_nil, drop_nil. change (Z.of_nat (length []) =? 0) with true. cbv iota. by rewrite app_nil_r. }
  rewrite <- E in *. rewrite length_take.
  assert (0 < length (input w))%nat by (rewrite E; cbn; lia).
  rewrite (proj2 (Z.eqb_neq _ 0)), (proj2 (Z.ltb_ge _ 0)) by lia.
  rewrite take_ge by (rewrite length_take; lia).
  rewrite cp_write_all by (rewrite length_take; lia). cbn [mbind outcome_bind input output].
  rewrite IH by (cbn [input]; rewrite length_drop; lia). cbn [input output].
  by rewrite <- app_assoc, take_drop.
Qed.
