(* ===== verification/Files.v ===== *)
(** * Open files: src/kernel/file.h, u8250.h, u8250.cc and class FileDescriptor of sys.cc

    [File] is an abstract class with two implementations: a [FileDescriptor],
    an i-node with an offset, and the console [U8250File]. The buffer of [read]
    and [write] is in the memory of the process, so both are programs over it
    (file UserMem). The characters that the console will receive are a list;
    waiting for one when there is none is the outcome [OutOfFuel]. *)

From S2P Require Import Prelude Mem Config PhysMem Paging BlockIO Ext2 Vmm Fork UserMem.
Local Open Scope Z_scope.

Section Files.
Context {D : Type} `{BlockIO D}.

Inductive File :=
| FileDescriptor (node : Node D) (offset : Z)
| U8250File.

Definition isFile (f : File) : bool :=
  match f with FileDescriptor node _ => Ext2.is_file node | U8250File => true end.

Definition isDirectory (f : File) : bool :=
  match f with FileDescriptor node _ => Ext2.is_dir node | U8250File => false end.

Definition seek (off : Z) (f : File) : Z * File :=
  match f with
  | FileDescriptor node _ => (off, FileDescriptor node (u32 off))
  | U8250File => (off, U8250File)
  end.

Definition file_size (f : File) : Z :=
  match f with FileDescriptor node _ => node_size node | U8250File => 0x7FFFFFFF end.

Definition getNode (f : File) : option (Node D) :=
  match f with FileDescriptor node _ => Some node | U8250File => None end.

(** ** The console *)

Record console := Console { received : list Z; sent : list Z }.

(** [U8250::put] and [get]: the polling loops end when the device is ready. *)
Definition console_put (c : Z) (t : console) : console := Console (received t) (sent t ++ [u8 c]).

Definition console_get (t : console) : outcome (Z * console) :=
  match received t with
  | c :: cs => Ret (u8 c, Console cs (sent t))
  | [] => OutOfFuel
  end.

(** ** read and write *)

(** The state a file operation works on. *)
Definition fstate : Type := @ustate (Node D) * console.

Definition on_memory {A} (m : prog (@ustate (Node D)) A) : prog fstate A := λ '(u, t),
  '(a, u) ← m u; Ret (a, (u, t)).

(** [FileDescriptor::read]: the count is stored in a [uint32_t], so it is
    positive when [read_all] fails. *)
Definition fd_read (pd : Z) (node : Node D) (offset buffer n : Z) : prog fstate (Z * File) :=
  let! r := plift (read_all node offset n) in
  let! _ := on_memory (user_store pd buffer (snd r)) in
  let read := u32 (fst r) in
  let offset := if 0 <? read then u32 (offset + read) else offset in
  pret (i32 read, FileDescriptor node offset).

Definition console_read (pd buffer n : Z) : prog fstate (Z * File) :=
  if n =? 0 then pret (0, U8250File)
  else
    let! t := pget snd in
    let! r := plift (console_get t) in
    let! _ := pset (λ s, (fst s, snd r)) in
    let! _ := on_memory (user_store pd buffer [fst r]) in
    pret (1, U8250File).

Definition file_read (pd buffer n : Z) (f : File) : prog fstate (Z * File) :=
  match f with
  | FileDescriptor node offset => fd_read pd node offset buffer n
  | U8250File => console_read pd buffer n
  end.

Definition file_write (pd buffer n : Z) (f : File) : prog fstate Z :=
  match f with
  | FileDescriptor _ _ => pret (-1)
  | U8250File =>
      if n =? 0 then pret 0
      else
        let! c := on_memory (user_ld8 pd buffer) in
        let! _ := pset (λ s, (fst s, console_put c (snd s))) in
        pret 1
  end.

End Files.
Arguments File : clear implicits.
Arguments fstate : clear implicits.

(** Reading past the end returns -1 and moves the offset back by one byte. *)
Lemma read_past_end {D} `{BlockIO D} pd (node : Node D) offset buffer n s :
  0 <= node_size node < offset → offset < 4294967296 → 0 < n →
  fd_read pd node offset buffer n s = Ret (Some (-1, FileDescriptor node (offset - 1)), s).
Proof.
  intros Ho Ho2 Hn. unfold fd_read, pbind, plift. unfold read_all.
  destruct (Z.to_nat n) as [|fuel] eqn:E; [lia|]. cbn [read_all_loop].
  rewrite (proj2 (Z.leb_gt n 0)) by lia. unfold read. change (size_in_bytes node) with (node_size node).
  rewrite (proj2 (Z.ltb_lt (node_size node) offset)) by lia. cbn -[u32].
  destruct s as [u t]. cbn -[u32]. change (u32 (-1)) with 4294967295.
  replace (u32 (offset + 4294967295)) with (offset - 1) by (unfold u32; zlia). done.
Qed.

(** ** Properties *)


(** ** Witnesses: a process with a region for data and a stack *)

Definition demo_stack : @VMEntry (Node ByteDevice) :=
  MkVMEntry None (frameup 4000000) (0xefffe000 - 4000000) 0 1 10 None.

Definition demo_data : @VMEntry (Node ByteDevice) := MkVMEntry None 8192 0x80001000 0 1 10 None.

Definition demo_memory : @ustate (Node ByteDevice) :=
  MkUstate [demo_data; demo_stack] (MkVmm dm3 ∅ None).

Lemma demo_memory_wf : ∃ fl, user_wf demo_config 6291456 fl (uvmm demo_memory) 6291456 ∧
  frames_left fl (umach demo_memory) = 2557.
Proof.
  destruct dm3_fork as (fl & Hwf & Has & Huf & _ & Hl). exists fl. split; [by split|exact Hl].
Qed.

Lemma demo_private va : 0x80001000 <= va < 0x80003000 ∨ 0xefc2e000 <= va < 0xefffe000 →
  is_u32 va ∧ private_page demo_config (va / 4096).
Proof.
  intros Hva. split; [unfold is_u32; lia|]. split; [zlia|]. unfold is_special. cbn.
  rewrite !(proj2 (Z.eqb_neq _ _)) by zlia. by rewrite (proj2 (Z.ltb_ge _ _)) by zlia.
Qed.

Lemma demo_memory_own va : 0x80001000 <= va < 0x80003000 ∨ 0xefc2e000 <= va < 0xefffe000 →
  own_memory demo_config (regions demo_memory) va.
Proof.
  intros Hva. destruct (demo_private va Hva) as [Hu Hp]. split; [done|]. split; [done|].
  unfold region_of. cbn [List.find demo_memory regions]. unfold covers.
  change (end_of demo_data) with 0x80003000. change (end_of demo_stack) with 0xefffe700.
  change (starting_address demo_data) with 0x80001000. change (starting_address demo_stack) with 0xefc2d700.
  rewrite framedown_eq by done.
  destruct Hva as [Hva|Hva].
  - exists demo_data. split; [|by left].
    by rewrite (proj2 (Z.leb_le _ _)), (proj2 (Z.ltb_lt _ _)) by zlia.
  - exists demo_stack. split; [|by left].
    rewrite (proj2 (Z.leb_le 0x80001000 _)), (proj2 (Z.ltb_ge _ 0x80003000)) by zlia. cbn [andb].
    by rewrite (proj2 (Z.leb_le _ _)), (proj2 (Z.ltb_lt _ _)) by zlia.
Qed.

