(* ===== verification/Elf.v ===== *)
(** * ELF images: src/kernel/elf.h, elf.cc

    The headers are the bytes of the file; a segment is mapped, then written
    through the page tables of the process (file UserMem), page by page as the
    faults make the pages. *)

From S2P Require Import Prelude Mem Config PhysMem Paging BlockIO Ext2 Vmm Fork UserMem.
Local Open Scope Z_scope.

Module ElfHeader.
Definition size : Z := 52.
Definition magic0 (b : list Z) : Z := field b 0 1.
Definition magic1 (b : list Z) : Z := field b 1 1.
Definition magic2 (b : list Z) : Z := field b 2 1.
Definition magic3 (b : list Z) : Z := field b 3 1.
Definition cls (b : list Z) : Z := field b 4 1.
Definition encoding (b : list Z) : Z := field b 5 1.
Definition abi (b : list Z) : Z := field b 7 1.
Definition type (b : list Z) : Z := field b 16 2.
Definition version (b : list Z) : Z := field b 20 4.
Definition entry (b : list Z) : Z := field b 24 4.
Definition phoff (b : list Z) : Z := field b 28 4.
Definition phentsize (b : list Z) : Z := field b 42 2.
Definition phnum (b : list Z) : Z := field b 44 2.
End ElfHeader.

Module ProgramHeader.
Definition size : Z := 32.
Definition type (b : list Z) : Z := field b 0 4.
Definition offset (b : list Z) : Z := field b 4 4.
Definition vaddr (b : list Z) : Z := field b 8 4.
Definition filesz (b : list Z) : Z := field b 16 4.
Definition memsz (b : list Z) : Z := field b 20 4.
End ProgramHeader.

Section Elf.
Context {D : Type} `{BlockIO D} (kConfig : Config).

(** [VMM::mmap] on the regions of the process; [garbage] is what the fresh entry
    holds in [node]. *)
Definition user_mmap (getNode : Z → outcome (option (Node D))) (garbage : option loc)
    (addr length prot flags fd offset : Z) : prog (@ustate (Node D)) Z := λ u,
  '(va, es) ← mmap kConfig getNode garbage addr length prot flags fd offset (regions u);
  Ret (Some va, MkUstate es (uvmm u)).

(** A mapping without a file does not look at the descriptor table. *)
Definition no_file (fd : Z) : outcome (option (Node D)) := Ret None.

(** [bzero(p, n)] on the memory of the process; its counter is signed, so nothing
    is cleared when the segment is larger in the file than in memory. *)
Definition user_bzero (pd p n : Z) : prog (@ustate (Node D)) unit :=
  user_store pd p (replicate (Z.to_nat (i32 n)) 0).

(** One segment of type 1. *)
Definition load_segment (pd : Z) (garbage : option loc) (file : Node D) (phdr : list Z) :
    prog (@ustate (Node D)) unit :=
  let p := ProgramHeader.vaddr phdr in
  let memsz := ProgramHeader.memsz phdr in
  let filesz := ProgramHeader.filesz phdr in
  let! _ := user_mmap no_file garbage p memsz 0xa 0x1 (-1) (ProgramHeader.offset phdr) in
  let! r := plift (read_all file (ProgramHeader.offset phdr) filesz) in
  let! _ := user_store pd p (snd r) in
  user_bzero pd (u32 (p + filesz)) (u32 (memsz - filesz)).

(** [for (i = 0; i < hdr.phnum; i++)]. *)
Fixpoint load_loop (n : nat) (pd : Z) (garbage : option loc) (file : Node D) (hdr : list Z) (hoff : Z) :
    prog (@ustate (Node D)) unit :=
  match n with
  | O => pret tt
  | S n' =>
      let! phdr := plift (read_object file hoff ProgramHeader.size) in
      let! _ := if ProgramHeader.type phdr =? 1 then load_segment pd garbage file phdr else pret tt in
      load_loop n' pd garbage file hdr (u32 (hoff + ElfHeader.phentsize hdr))
  end.

Definition load (pd : Z) (garbage : option loc) (file : Node D) : prog (@ustate (Node D)) Z :=
  let! hdr := plift (read_object file 0 ElfHeader.size) in
  let! _ := load_loop (Z.to_nat (ElfHeader.phnum hdr)) pd garbage file hdr (ElfHeader.phoff hdr) in
  pret (ElfHeader.entry hdr).

(** The tests of [SYS::exec] on the header. *)
Definition header_ok (hdr : list Z) : bool :=
  negb (negb (ElfHeader.magic0 hdr =? 0x7F) || negb (ElfHeader.magic1 hdr =? 69)
        || negb (ElfHeader.magic2 hdr =? 76) || negb (ElfHeader.magic3 hdr =? 70))
  && negb (negb (ElfHeader.encoding hdr =? 1) || negb (ElfHeader.cls hdr =? 1))
  && negb (negb (ElfHeader.abi hdr =? 0) || negb (ElfHeader.version hdr =? 1)
           || negb (ElfHeader.type hdr =? 2) || (ElfHeader.phoff hdr =? 0)).

End Elf.
