(* ===== verification/Sys.v ===== *)
(** * System calls: src/kernel/sys.cc

    [sysHandler] dispatches on the number in [eax]; the arguments are words on
    the user's stack, read through the page tables of the process (file
    UserMem), so that any of them may fault and end the process. The calls are
    composed of the operations of the other files: names and processes
    (Process), open files (Files), mappings (Vmm), semaphores and threads
    (Semaphore, Threads), the file system (Ext2) and programs (Elf). *)

From S2P Require Import Prelude Mem Config PhysMem Paging BlockIO Libk Ext2 Vmm.
From S2P Require Import Queue Threads Semaphore Fork Process UserMem Files Elf.
Local Open Scope Z_scope.

Section Sys.
Context {D : Type} `{BlockIO D} (kConfig : Config).

(** The file system and its root, [root_fs] and [root_fs->root]. *)
Variable root_fs : Ext2 D.
Variable root : Node D.
(** The frame of the kernel's page directory, the address of a thread's new
    stack, and the longest string and argument list that a call reads. *)
Variable shared : Z.
Variable new_stack : Z.
Variable max_len : nat.
(** What [new VMEntry] finds in the field it does not initialise. *)
Variable garbage : list (@VMEntry (Node D)) → option loc.
(** The byte found behind the [k]-th byte of the [i]-th argument string. *)
Variable beyond : nat → nat → Z.

(** What a thread made by [fork] does first. *)
Record entry_point := EntryPoint { ep_process : @Process (Node D); ep_pc : Z; ep_esp : Z }.

(** The state a system call works on: the process that calls, what the kernel
    shares, and the scheduler. *)
Record sys := MkSys {
  process : @Process (Node D);
  pid : nat;
  core : nat;
  svmm : @vmm (Node D);
  objs : objects;
  file_objs : gmap loc (File D);
  tty : console;
  kern : kernel;
  starts : gmap nat entry_point;
}.

Definition set_process (p : @Process (Node D)) (s : sys) : sys :=
  MkSys p (pid s) (core s) (svmm s) (objs s) (file_objs s) (tty s) (kern s) (starts s).
Definition set_svmm (v : @vmm (Node D)) (s : sys) : sys :=
  MkSys (process s) (pid s) (core s) v (objs s) (file_objs s) (tty s) (kern s) (starts s).
Definition set_objs (o : objects) (s : sys) : sys :=
  MkSys (process s) (pid s) (core s) (svmm s) o (file_objs s) (tty s) (kern s) (starts s).
Definition set_file_objs (f : gmap loc (File D)) (s : sys) : sys :=
  MkSys (process s) (pid s) (core s) (svmm s) (objs s) f (tty s) (kern s) (starts s).
Definition set_tty (t : console) (s : sys) : sys :=
  MkSys (process s) (pid s) (core s) (svmm s) (objs s) (file_objs s) t (kern s) (starts s).
Definition set_kern (k : kernel) (s : sys) : sys :=
  MkSys (process s) (pid s) (core s) (svmm s) (objs s) (file_objs s) (tty s) k (starts s).
Definition set_starts (t : gmap nat entry_point) (s : sys) : sys :=
  MkSys (process s) (pid s) (core s) (svmm s) (objs s) (file_objs s) (tty s) (kern s) t.

(** How a call ends: it returns a value, it waits (and returns the value when it
    is woken), it enters user mode, it has stopped the thread, or the machine is
    shut down. *)
Inductive call :=
| Returns (v : Z)
| Waits (v : option Z)
| EntersUser (pc esp : Z)
| Stopped
| Shutdown.

(** ** The memory of the caller *)

Definition user {A} (m : prog (@ustate (Node D)) A) : prog sys A := λ s,
  '(a, u) ← m (MkUstate (entry_list (process s)) (svmm s));
  Ret (a, set_svmm (uvmm u) (set_process (set_entry_list (regions u) (process s)) s)).

Definition on_file {A} (m : prog (fstate D) A) : prog sys A := λ s,
  '(a, (u, t)) ← m (MkUstate (entry_list (process s)) (svmm s), tty s);
  Ret (a, set_tty t (set_svmm (uvmm u) (set_process (set_entry_list (regions u) (process s)) s))).

Definition self : prog sys sys := λ s, Ret (Some s, s).

Definition cur_pd : prog sys Z := pget (λ s, pd (process s)).

(** [userEsp[i]] *)
Definition user_arg (esp i : Z) : prog sys Z :=
  let! p := cur_pd in user (user_ld32 p (u32 (esp + 4 * i))).

(** The C string at an address: [K::strlen] and a copy of the bytes. *)
Fixpoint user_string (fuel : nat) (p a : Z) : prog sys (list Z) :=
  match fuel with
  | O => plift OutOfFuel
  | S fuel' =>
      let! c := user (user_ld8 p a) in
      if c =? 0 then pret []
      else let! cs := user_string fuel' p (a + 1) in pret (c :: cs)
  end.

(** The test of a buffer: in the user's half, and not the page of an APIC. *)
Definition bad_buffer (a : Z) : bool :=
  (a <? 0x80000000) || (a =? ioAPIC kConfig) || (a =? localAPIC kConfig).

(** ** Open files *)

Definition load_file (l : loc) : prog sys (File D) := λ s,
  f ← deref (file_objs s !! l); Ret (Some f, s).

Definition store_file (l : loc) (f : File D) : prog sys unit :=
  pset (λ s, set_file_objs (<[l := f]> (file_objs s)) s).

(** [current()->process->getFile(fd)] *)
Definition get_file (fd : Z) : prog sys (option loc) := pget (λ s, getFile fd (process s)).

(** [getFile(fd)->getNode()], as [VMM::mmap] calls it. *)
Definition node_of_fd (s : sys) (fd : Z) : outcome (option (Node D)) :=
  l ← deref (getFile fd (process s));
  f ← deref (file_objs s !! l);
  Ret (getNode f).

(** ** exec *)

(** [strlen + 1], rounded up to a multiple of 4. *)
Definition padded (arg : list Z) : Z :=
  let n := u32 (Z.of_nat (length arg) + 1) in u32 (n + (4 - n mod 4) mod 4).

Fixpoint padded_sum (argv : list (list Z)) : Z :=
  match argv with [] => 0 | arg :: argv' => padded arg + padded_sum argv' end.

Definition total_bytes (argv : list (list Z)) : Z :=
  u32 (12 + 4 * Z.of_nat (length argv) + padded_sum argv).

(** The writes for one argument: its pointer, [lengths[i]] bytes from [argv[i]],
    and the terminator. *)
Definition arg_writes (argv_ptr : Z) (i : nat) (argv_val : Z) (arg : list Z) : list (Z * list Z) :=
  let extra := (Z.to_nat (padded arg) - (length arg + 1))%nat in
  [(argv_ptr + 4 * Z.of_nat i, word argv_val);
   (argv_val, arg ++ [0] ++ (beyond i <$> seq 0 extra));
   (argv_val + Z.of_nat (length arg), [0])].

Fixpoint args_writes (argv_ptr : Z) (i : nat) (argv_val : Z) (argv : list (list Z)) :
    list (Z * list Z) :=
  match argv with
  | [] => [(argv_ptr + 4 * Z.of_nat i, word 0)]
  | arg :: argv' =>
      arg_writes argv_ptr i argv_val arg ++ args_writes argv_ptr (S i) (argv_val + padded arg) argv'
  end.

(** Everything that is written on the new stack, in order. *)
Definition stack_writes (sp : Z) (argv : list (list Z)) : list (Z * list Z) :=
  let argc := Z.of_nat (length argv) in
  (sp, word argc) :: (sp + 4, word (sp + 8)) ::
  args_writes (sp + 8) 0 (sp + 8 + 4 * (argc + 1)) argv.

Fixpoint run_writes (p : Z) (ws : list (Z * list Z)) : prog (@ustate (Node D)) unit :=
  match ws with
  | [] => pret tt
  | (a, bs) :: ws' => let! _ := user_store p a bs in run_writes p ws'
  end.

Definition exec (path : list Z) (argv : list (list Z)) : prog sys call :=
  let! file := plift (find root_fs (Some root) path) in
  match file with
  | None => pret (Returns (-1))
  | Some file =>
      if negb (Ext2.is_file file) then pret (Returns (-1))
      else
        let! hdr := plift (read_object file 0 ElfHeader.size) in
        if negb (header_ok hdr) then pret (Returns (-1))
        else
          let! p := cur_pd in
          let! s := self in
          let! v := plift (clear_private kConfig p (process s) (svmm s)) in
          let! _ := pset (set_svmm v) in
          let! g := pget (λ s, garbage (entry_list (process s))) in
          let! e := user (load kConfig p g file) in
          let sp := 0xefffe000 in
          let! g := pget (λ s, garbage (entry_list (process s))) in
          let! _ := user (user_mmap kConfig no_file g (sp - 4000000) 4000000 0xa 0x1 (-1) 0) in
          let sp := u32 (sp - total_bytes argv) in
          let! _ := user (run_writes p (stack_writes sp argv)) in
          pret (EntersUser e sp)
  end.

(** ** The calls *)

Definition sys_exit (esp : Z) : prog sys call :=
  let! status := user_arg esp 1 in
  let! s := self in
  let! v := plift (decrementFiles (process s) (svmm s)) in
  let! o := plift (set_output status (process s) (objs s)) in
  let! k := plift (stop (core s) (kern s)) in
  let! _ := pset (λ s, set_kern (snd k) (set_objs o (set_svmm v s))) in
  pret Stopped.

Definition sys_write (esp : Z) : prog sys call :=
  let! fd := user_arg esp 1 in
  let! buf := user_arg esp 2 in
  if bad_buffer buf then pret (Returns (-1))
  else
    let! nbyte := user_arg esp 3 in
    let! l := get_file (i32 fd) in
    match l with
    | None => pret (Returns (-1))
    | Some l =>
        let! f := load_file l in
        let! p := cur_pd in
        let! n := on_file (file_write p buf nbyte f) in
        pret (Returns n)
    end.

(** The child's thread starts at the caller's next instruction. A failed fork
    gives the null process to [thread], which reads its page directory. *)
Definition sys_fork (pc esp : Z) : prog sys call :=
  let! s := self in
  let! r := plift (fork kConfig shared (process s) (svmm s) (objs s)) in
  let '(child, id, p, v, o) := r in
  let! child := plift (deref child) in
  let new_pid := fresh (dom (run_times (kern s))) in
  let k := MkKernel (tcbs (kern s)) (<[new_pid := 0]> (run_times (kern s))) (readyQ (kern s))
             (zombies (kern s)) (activeThreads (kern s)) (idleThreads (kern s)) (cr3s (kern s))
             (esp0s (kern s)) (next_id (kern s)) in
  let! tk := plift (thread new_pid (pd child) new_stack k) in
  let! _ := pset (λ s, set_starts (<[fst tk := EntryPoint child pc esp]> (starts s))
                        (set_kern (snd tk) (set_objs o (set_svmm v (set_process p s))))) in
  pret (Returns id).

Definition sys_sem (esp : Z) : prog sys call :=
  let! initial := user_arg esp 1 in
  let! s := self in
  let '(r, p, o) := newSemaphore initial (process s) (objs s) in
  let! _ := pset (λ s, set_objs o (set_process p s)) in
  pret (Returns r).

Definition with_semaphore (l : loc) (m : Semaphore) (o : objects) : objects :=
  MkObjects (<[l := m]> (semaphores o)) (futures o) (bools o).

Definition sys_up (esp : Z) : prog sys call :=
  let! id := user_arg esp 1 in
  let! s := self in
  match getSemaphore id (process s) with
  | None => pret (Returns (-1))
  | Some l =>
      let! m := plift (deref (semaphores (objs s) !! l)) in
      let! r := plift (up m (kern s)) in
      let! _ := pset (λ s, set_kern (snd r) (set_objs (with_semaphore l (fst r) (objs s)) s)) in
      pret (Returns 0)
  end.

Definition sys_down (esp : Z) : prog sys call :=
  let! id := user_arg esp 1 in
  let! s := self in
  match getSemaphore id (process s) with
  | None => pret (Returns (-1))
  | Some l =>
      let! m := plift (deref (semaphores (objs s) !! l)) in
      let! r := plift (down (core s) m (kern s)) in
      let '(ok, m, k) := r in
      let! _ := pset (λ s, set_kern k (set_objs (with_semaphore l m (objs s)) s)) in
      pret (if ok : bool then Returns 0 else Waits (Some 0))
  end.

Definition sys_close (esp : Z) : prog sys call :=
  let! id := user_arg esp 1 in
  let! s := self in
  let '(r, p) := close id (process s) in
  let! _ := pset (set_process p) in
  pret (Returns r).

(** The status is stored through the caller's pointer before the child's name is
    dropped. *)
Definition sys_wait (esp : Z) : prog sys call :=
  let! id := user_arg esp 1 in
  let! status := user_arg esp 2 in
  if bad_buffer status then pret (Returns (-1))
  else
    let! s := self in
    let! r := plift (wait id (process s) (objs s)) in
    match r with
    | None => pret (Waits None)
    | Some (r, None, p) => let! _ := pset (set_process p) in pret (Returns r)
    | Some (r, Some v, p) =>
        let! pd := cur_pd in
        let! _ := user (user_st32 pd status v) in
        let! _ := pset (λ s, set_process (set_children (children p) (process s)) s) in
        pret (Returns r)
    end.

(** The argument strings, up to a null pointer. *)
Fixpoint user_args (fuel : nat) (esp i : Z) : prog sys (list (list Z)) :=
  match fuel with
  | O => plift OutOfFuel
  | S fuel' =>
      let! a := user_arg esp i in
      if a =? 0 then pret []
      else
        let! p := cur_pd in
        let! arg := user_string max_len p a in
        let! argv := user_args fuel' esp (i + 1) in
        pret (arg :: argv)
  end.

Definition sys_execl (esp : Z) : prog sys call :=
  let! a := user_arg esp 1 in
  if a =? 0 then pret (Returns (-1))
  else
    let! p := cur_pd in
    let! path := user_string max_len p a in
    let! argv := user_args max_len esp 2 in
    exec path argv.

(** [while (node->is_symlink())]; a link to nothing gives the null pointer. *)
Fixpoint follow (fuel : nat) (node : Node D) : outcome (Node D) :=
  if Ext2.is_symlink node then
    match fuel with
    | O => OutOfFuel
    | S fuel' =>
        symbol ← get_symbol node;
        n ← find root_fs (Some root) (symbol ++ [0]);
        n ← deref n;
        follow fuel' n
    end
  else Ret node.

Definition sys_open (esp : Z) : prog sys call :=
  let! filename := user_arg esp 1 in
  if (filename =? 0) || (filename <? 0x80000000) then pret (Returns (-1))
  else
    let! p := cur_pd in
    let! name := user_string max_len p filename in
    let! node := plift (find root_fs (Some root) name) in
    match node with
    | None => pret (Returns (-1))
    | Some node =>
        let! node := plift (follow max_len node) in
        let! s := self in
        let l := fresh (dom (file_objs s)) in
        let '(r, p) := setFile l (process s) in
        let! _ := store_file l (FileDescriptor node 0) in
        let! _ := pset (set_process p) in
        pret (Returns r)
    end.

Definition sys_len (esp : Z) : prog sys call :=
  let! fd := user_arg esp 1 in
  let! l := get_file (i32 fd) in
  match l with
  | None => pret (Returns (-1))
  | Some l => let! f := load_file l in pret (Returns (file_size f))
  end.

Definition sys_read (esp : Z) : prog sys call :=
  let! fd := user_arg esp 1 in
  if fd =? 1 then pret (Returns (-1))
  else
    let! buf := user_arg esp 2 in
    if bad_buffer buf then pret (Returns (-1))
    else
      let! nbyte := user_arg esp 3 in
      let! l := get_file (i32 fd) in
      match l with
      | None => pret (Returns (-1))
      | Some l =>
          let! f := load_file l in
          let! p := cur_pd in
          let! r := on_file (file_read p buf nbyte f) in
          let! _ := store_file l (snd r) in
          pret (Returns (fst r))
      end.

Definition sys_seek (esp : Z) : prog sys call :=
  let! fd := user_arg esp 1 in
  if fd =? 1 then pret (Returns (-1))
  else
    let! offset := user_arg esp 2 in
    let! l := get_file (i32 fd) in
    match l with
    | None => pret (Returns (-1))
    | Some l =>
        let! f := load_file l in
        let '(r, f) := seek offset f in
        let! _ := store_file l f in
        pret (Returns r)
    end.

Definition sys_mmap (esp : Z) : prog sys call :=
  let! addr := user_arg esp 1 in
  let! length := user_arg esp 2 in
  let! prot := user_arg esp 3 in
  let! flags := user_arg esp 4 in
  let! fd := user_arg esp 5 in
  let! offset := user_arg esp 6 in
  let! s := self in
  let! va := user (user_mmap kConfig (node_of_fd s) (garbage (entry_list (process s)))
                     addr length prot flags (i32 fd) offset) in
  pret (Returns va).

Definition sys_munmap (esp : Z) : prog sys call :=
  let! addr := user_arg esp 1 in
  let! length := user_arg esp 2 in
  let! s := self in
  let! r := plift (munmap kConfig (pd (process s)) addr length (entry_list (process s)) (svmm s)) in
  let '(r, es, v) := r in
  let! _ := pset (λ s, set_svmm v (set_process (set_entry_list es (process s)) s)) in
  pret (Returns r).

Definition sys_kill (esp : Z) : prog sys call :=
  let! id := user_arg esp 1 in
  let! s := self in
  let! r := plift (kill (i32 id) (process s) (objs s)) in
  let '(r, p, o) := r in
  let! _ := pset (λ s, set_objs o (set_process p s)) in
  pret (Returns r).

(** The dispatch, on the frame [userPC], [userEsp]. *)
Definition dispatch (eax userPC userEsp : Z) : prog sys call :=
  if eax =? 0 then sys_exit userEsp
  else if eax =? 1 then sys_write userEsp
  else if eax =? 2 then sys_fork userPC userEsp
  else if eax =? 3 then sys_sem userEsp
  else if eax =? 4 then sys_up userEsp
  else if eax =? 5 then sys_down userEsp
  else if eax =? 6 then sys_close userEsp
  else if eax =? 7 then pret Shutdown
  else if eax =? 8 then sys_wait userEsp
  else if eax =? 9 then sys_execl userEsp
  else if eax =? 10 then sys_open userEsp
  else if eax =? 11 then sys_len userEsp
  else if eax =? 12 then sys_read userEsp
  else if eax =? 13 then sys_seek userEsp
  else if eax =? 14 then sys_mmap userEsp
  else if eax =? 15 then sys_munmap userEsp
  else if eax =? 16 then sys_kill userEsp
  else pret (Returns (-1)).

(** A page fault that finds no region ends the process with status 1 (the end of
    [vmm_pageFault]): the call is cut short there. *)
Definition sysHandler (eax userPC userEsp : Z) (s : sys) : outcome (call * sys) :=
  '(r, s) ← dispatch eax userPC userEsp s;
  match r with
  | Some r => Ret (r, s)
  | None =>
      o ← set_output 1 (process s) (objs s);
      '(_, k) ← stop (core s) (kern s);
      Ret (Stopped, set_kern k (set_objs o s))
  end.

End Sys.

(** ** What [exec] leaves on the stack *)

(** The memory after the writes, on a flat memory. *)
Definition written (ws : list (Z * list Z)) (w : mem) : mem :=
  fold_left (λ w x, store_bytes w (fst x) (snd x)) ws w.

(** The C string at [a]. *)
Definition string_at (w : mem) (a : Z) (bs : list Z) : Prop :=
  (∀ i, 0 <= i < Z.of_nat (length bs) → ld8 w (a + i) = nth (Z.to_nat i) bs 0) ∧
  ld8 w (a + Z.of_nat (length bs)) = 0.

(** The bytes of a C string. *)
Definition chars (bs : list Z) : Prop := Forall (λ c, 0 < c < 256) bs.

(** [argv[j]] points to [arg] for every argument, inside [lo, hi), and the list
    of pointers ends with a null pointer. *)
Definition arguments (w : mem) (argv_ptr lo hi : Z) (argv : list (list Z)) : Prop :=
  (∀ j arg, argv !! j = Some arg →
     ∃ p, ld32 w (argv_ptr + 4 * Z.of_nat j) = p ∧ lo <= p ∧
       p + Z.of_nat (length arg) + 1 <= hi ∧ string_at w p arg) ∧
  ld32 w (argv_ptr + 4 * Z.of_nat (length argv)) = 0.

Lemma store_out w a bs x : x < a ∨ a + Z.of_nat (length bs) <= x → store_bytes w a bs x = w x.
Proof.
  intros Hx. unfold store_bytes.
  destruct (Z.leb_spec a x), (Z.ltb_spec x (a + Z.of_nat (length bs))); cbn; done || lia.
Qed.

Lemma store_in w a bs x : a <= x < a + Z.of_nat (length bs) →
  store_bytes w a bs x = u8 (nth (Z.to_nat (x - a)) bs 0).
Proof.
  intros Hx. unfold store_bytes.
  rewrite (proj2 (Z.leb_le a x)), (proj2 (Z.ltb_lt x (a + Z.of_nat (length bs)))) by lia. done.
Qed.

Lemma word_u32 v : is_u32 v →
  u8 v + 256 * u8 (Z.shiftr v 8) + 65536 * u8 (Z.shiftr v 16) + 16777216 * u8 (Z.shiftr v 24) = v.
Proof.
  unfold is_u32, u8. intros Hv. rewrite !Z.shiftr_div_pow2 by lia.
  change (2 ^ 8) with 256. change (2 ^ 16) with 65536. change (2 ^ 24) with 16777216. zlia.
Qed.

Lemma ld32_store_word w a v : is_u32 v → ld32 (store_bytes w a (word v)) a = v.
Proof.
  intros Hv. unfold ld32, ld8. rewrite !store_in by (cbn; lia).
  replace (a - a) with 0 by lia. replace (a + 1 - a) with 1 by lia.
  replace (a + 2 - a) with 2 by lia. replace (a + 3 - a) with 3 by lia.
  change (u8 (u8 (u8 v)) + 256 * u8 (u8 (u8 (Z.shiftr v 8))) + 65536 * u8 (u8 (u8 (Z.shiftr v 16)))
    + 16777216 * u8 (u8 (u8 (Z.shiftr v 24))) = v).
  rewrite !u8_idemp. by apply word_u32.
Qed.

Lemma agree_refl m a n : agree m m a n.
Proof. by intros x. Qed.

Lemma string_agree m m' a n p bs :
  agree m m' a n → a <= p → p + Z.of_nat (length bs) + 1 <= a + n → string_at m p bs → string_at m' p bs.
Proof.
  intros Ha Hp Hn [H1 H2]. split.
  - intros i Hi. rewrite <- (H1 i Hi). symmetry. apply (ld8_agree _ _ a n); [done|lia].
  - rewrite <- H2. symmetry. apply (ld8_agree _ _ a n); [done|lia].
Qed.

Lemma padded_bounds arg : Z.of_nat (length arg) < 4294967291 →
  Z.of_nat (length arg) + 1 <= padded arg <= Z.of_nat (length arg) + 4 ∧ padded arg mod 4 = 0.
Proof.
  intros Hl. unfold padded. cbv zeta. unfold u32. rewrite (Z.mod_small (Z.of_nat (length arg) + 1)) by lia.
  set (n := Z.of_nat (length arg) + 1). assert (n = Z.of_nat (length arg) + 1) as Hn by done. clearbody n.
  assert (0 <= (4 - n mod 4) mod 4 < 4) by (apply Z.mod_pos_bound; lia).
  rewrite (Z.mod_small (n + _)) by lia. zlia.
Qed.

Lemma written_app ws1 ws2 w : written (ws1 ++ ws2) w = written ws2 (written ws1 w).
Proof. apply fold_left_app. Qed.

(** The three writes for one argument: its pointer and its string. *)
Lemma arg_written beyond argv_ptr i v arg w :
  chars arg → is_u32 v → Z.of_nat (length arg) < 4294967291 → argv_ptr + 4 * Z.of_nat i + 4 <= v →
  let w' := written (arg_writes beyond argv_ptr i v arg) w in
  ld32 w' (argv_ptr + 4 * Z.of_nat i) = v ∧ string_at w' v arg ∧
  (∀ a n, a + n <= argv_ptr + 4 * Z.of_nat i ∨ (argv_ptr + 4 * Z.of_nat i + 4 <= a ∧ a + n <= v) ∨
     v + padded arg <= a → agree w' w a n).
Proof.
  intros Hc Hv Hl Hle. destruct (padded_bounds arg Hl) as [Hp _].
  unfold arg_writes, written. cbn [fold_left fst snd].
  set (e := beyond i <$> seq 0 (Z.to_nat (padded arg) - (length arg + 1))).
  assert (Z.of_nat (length (arg ++ [0] ++ e)) = padded arg) as Hlen.
  { unfold e. rewrite !length_app, length_fmap, length_seq. cbn. lia. }
  set (bs := arg ++ [0] ++ e) in *. set (q := argv_ptr + 4 * Z.of_nat i) in *.
  set (w1 := store_bytes w q (word v)). set (w2 := store_bytes w1 v bs).
  assert (∀ a n, a + n <= v ∨ v + padded arg <= a → agree (store_bytes w2 (v + Z.of_nat (length arg)) [0]) w1 a n) as H21.
  { intros a n Ha. eapply agree_trans; [apply store_bytes_agree; cbn; lia|]. apply store_bytes_agree. lia. }
  split; [|split].
  - rewrite (ld32_agree _ w1 q 4) by (lia || (apply H21; lia)). by apply ld32_store_word.
  - split.
    + intros k Hk. unfold ld8. rewrite store_out by (cbn; lia). unfold w2. rewrite store_in by lia.
      replace (v + k - v) with k by lia. unfold bs. rewrite app_nth1 by lia. rewrite u8_idemp.
      unfold chars in Hc. rewrite Forall_forall in Hc. apply Z.mod_small.
      assert (nth (Z.to_nat k) arg 0 ∈ arg) as Hin by (apply list_elem_of_In, nth_In; lia).
      specialize (Hc _ Hin). lia.
    + unfold ld8. rewrite store_in by (cbn; lia). by rewrite Z.sub_diag.
  - intros a n Ha. eapply agree_trans; [apply H21; lia|]. apply store_bytes_agree. cbn. lia.
Qed.

Lemma padded_sum_nonneg argv :
  Forall (λ arg, Z.of_nat (length arg) < 4294967291) argv → 0 <= padded_sum argv.
Proof. induction 1 as [|arg argv Hl _ IH]; cbn; [lia|]. destruct (padded_bounds arg Hl). lia. Qed.

Lemma args_written beyond argv_ptr argv i v w :
  Forall chars argv → Forall (λ arg, Z.of_nat (length arg) < 4294967291) argv → 0 <= argv_ptr →
  argv_ptr + 4 * (Z.of_nat i + Z.of_nat (length argv) + 1) <= v → v + padded_sum argv < 4294967296 →
  let w' := written (args_writes beyond argv_ptr i v argv) w in
  (∀ j arg, argv !! j = Some arg →
     ∃ p, ld32 w' (argv_ptr + 4 * (Z.of_nat i + Z.of_nat j)) = p ∧ v <= p ∧
       p + Z.of_nat (length arg) + 1 <= v + padded_sum argv ∧ string_at w' p arg) ∧
  ld32 w' (argv_ptr + 4 * (Z.of_nat i + Z.of_nat (length argv))) = 0 ∧
  (∀ a n, a + n <= argv_ptr + 4 * Z.of_nat i ∨
     (argv_ptr + 4 * (Z.of_nat i + Z.of_nat (length argv) + 1) <= a ∧ a + n <= v) ∨
     v + padded_sum argv <= a → agree w' w a n).
Proof.
  intros Hc Hl Hptr. revert i v w Hl. induction Hc as [|arg argv Hc Hcs IH]; intros i v w Hl Hv Hhi w'.
  { subst w'. cbn in Hv |- *. split; [done|]. rewrite Z.add_0_r. split; [by apply ld32_store_word|].
    intros a n Ha. apply store_bytes_agree. cbn. lia. }
  inversion_clear Hl as [|? ? Hla Hls]. cbn [padded_sum length] in *.
  destruct (padded_bounds arg Hla) as [Hp _]. pose proof (padded_sum_nonneg _ Hls).
  subst w'. cbn [args_writes]. rewrite written_app. set (w1 := written (arg_writes _ _ _ _ _) w).
  destruct (arg_written beyond argv_ptr i v arg w Hc) as (P1 & S1 & A1); [unfold is_u32; lia|done|lia|].
  fold w1 in P1, S1, A1.
  destruct (IH (S i) (v + padded arg) w1 Hls ltac:(lia) ltac:(lia)) as (HP & H0 & HA).
  set (w' := written _ w1) in *. split; [|split].
  - intros [|j] arg' Hj.
    + injection Hj as <-. exists v. rewrite Z.add_0_r. split; [|split; [lia|split; [lia|]]].
      * rewrite (ld32_agree _ w1 (argv_ptr + 4 * Z.of_nat i) 4) by (lia || (apply HA; lia)). done.
      * apply (string_agree w1 w' v (padded arg)); [|lia|lia|done].
        apply agree_sym, HA. lia.
    + destruct (HP j arg' Hj) as (q & Hq & ? & ? & ?). exists q.
      replace (Z.of_nat i + Z.of_nat (S j)) with (Z.of_nat (S i) + Z.of_nat j) by lia.
      split; [done|]. split; [lia|]. split; [lia|done].
  - rewrite <- H0. f_equal. lia.
  - intros a n Ha. eapply agree_trans; [apply HA; lia|]. apply A1. lia.
Qed.

(** The whole stack, on a flat memory. *)
Lemma stack_written beyond argv sp w :
  Forall chars argv → Forall (λ arg, Z.of_nat (length arg) < 4294967291) argv → 0 <= sp →
  sp + 12 + 4 * Z.of_nat (length argv) + padded_sum argv < 4294967296 →
  let w' := written (stack_writes beyond sp argv) w in
  ld32 w' sp = Z.of_nat (length argv) ∧ ld32 w' (sp + 4) = sp + 8 ∧
  arguments w' (sp + 8) (sp + 12 + 4 * Z.of_nat (length argv))
    (sp + 12 + 4 * Z.of_nat (length argv) + padded_sum argv) argv.
Proof.
  intros Hc Hl Hsp Hhi w'. pose proof (padded_sum_nonneg _ Hl). subst w'. unfold stack_writes. cbv zeta.
  set (argc := Z.of_nat (length argv)) in *. unfold written at 1 2 3. cbn [fold_left fst snd].
  set (w1 := store_bytes _ (sp + 4) _). fold (written (args_writes beyond (sp + 8) 0 (sp + 8 + 4 * (argc + 1)) argv) w1).
  destruct (args_written beyond (sp + 8) argv 0 (sp + 8 + 4 * (argc + 1)) w1 Hc Hl) as (HP & H0 & HA); [lia..|].
  fold argc in H0, HA. set (w' := written _ w1) in *.
  split; [|split; [|split]].
  - rewrite (ld32_agree w' w1 sp 4) by (lia || (apply HA; lia)). unfold w1.
    rewrite (ld32_agree _ (store_bytes w sp (word argc)) sp 4) by (lia || (apply store_bytes_agree; cbn; lia)).
    apply ld32_store_word. unfold is_u32. lia.
  - rewrite (ld32_agree w' w1 (sp + 4) 4) by (lia || (apply HA; lia)).
    apply ld32_store_word. unfold is_u32. lia.
  - intros j arg Hj. destruct (HP j arg Hj) as (q & Hq & ? & ? & ?). exists q.
    rewrite Z.add_0_l in Hq. split; [done|]. split; [lia|]. split; [lia|done].
  - by rewrite Z.add_0_l in H0.
Qed.

(** ** On the memory of the process *)

Fixpoint written_bytes (ws : list (Z * list Z)) : Z :=
  match ws with [] => 0 | x :: ws' => Z.of_nat (length (snd x)) + written_bytes ws' end.

Lemma written_ext ws w w' x : w x = w' x → written ws w x = written ws w' x.
Proof.
  revert w w'. induction ws as [|[a bs] ws IH]; intros w w' Hx; [done|]. cbn. apply IH.
  unfold store_bytes. break_if; done.
Qed.

Lemma run_writes_own {D} `{BlockIO D} kConfig lo fl (u : @ustate (Node D)) p ws a n :
  user_wf kConfig lo fl (uvmm u) p →
  (∀ x, a <= x < a + n → own_memory kConfig (regions u) x) →
  Forall (λ x, a <= fst x ∧ fst x + Z.of_nat (length (snd x)) <= a + n) ws →
  returns_or "no more frames" (frames_left fl (umach u) < 2 * written_bytes ws) (run_writes p ws u)
    (λ '(r, u'), r = Some tt ∧ ∃ fl', user_step kConfig lo fl u p (2 * written_bytes ws)
       (written ws (view (uvmm u) p)) fl' u').
Proof.
  intros Hwf Hown Hws. revert lo fl u Hwf Hown. induction Hws as [|[b bs] ws [Hb1 Hb2] Hws IH]; intros lo fl u Hwf Hown.
  { apply returns_or_ret. split; [done|]. exists fl. by apply user_step_refl. }
  cbn [run_writes written_bytes fst snd] in *. unfold pbind. eapply returns_or_bind.
  { eapply returns_or_mono; [apply (user_store_own kConfig lo fl u p b bs Hwf)| |intros x Hx; exact Hx].
    - intros i Hi. apply Hown. lia.
    - assert (0 <= written_bytes ws); [|lia]. clear. induction ws; cbn; lia. }
  intros [r u1] (-> & fl1 & Hs). pose proof (us_left _ _ _ _ _ _ _ _ _ Hs).
  eapply returns_or_mono; [apply (IH lo fl1 u1); [apply Hs|]|lia|].
  - intros x Hx. rewrite (us_regions _ _ _ _ _ _ _ _ _ Hs). by apply Hown.
  - intros [r u2] (-> & fl2 & Hs2). split; [done|]. exists fl2.
    eapply user_step_view; [by eapply user_step_trans|lia|].
    intros x Hx Hp. cbn [written fold_left fst snd]. apply written_ext.
    by apply (us_view _ _ _ _ _ _ _ _ _ Hs).
Qed.

(** Every write is inside the block that is reserved for the arguments. *)
Lemma args_writes_inside beyond argv_ptr argv i v lo hi :
  Forall (λ arg, Z.of_nat (length arg) < 4294967291) argv →
  lo <= argv_ptr → lo <= v → v + padded_sum argv <= hi →
  argv_ptr + 4 * (Z.of_nat i + Z.of_nat (length argv) + 1) <= hi →
  Forall (λ x, lo <= fst x ∧ fst x + Z.of_nat (length (snd x)) <= hi)
    (args_writes beyond argv_ptr i v argv).
Proof.
  intros Hl. revert i v. induction Hl as [|arg argv Hla Hls IH]; intros i v Hp Hv Hhi Hend;
    cbn [args_writes padded_sum length] in *.
  { constructor; [|constructor]. cbn. lia. }
  destruct (padded_bounds arg Hla) as [Hb _]. pose proof (padded_sum_nonneg _ Hls).
  apply Forall_app. split; [|apply IH; lia]. unfold arg_writes.
  repeat constructor; cbn [fst snd]; rewrite ?length_app, ?length_fmap, ?length_seq; cbn; lia.
Qed.

Lemma stack_writes_inside beyond argv sp :
  Forall (λ arg, Z.of_nat (length arg) < 4294967291) argv →
  Forall (λ x, sp <= fst x ∧
      fst x + Z.of_nat (length (snd x)) <= sp + (12 + 4 * Z.of_nat (length argv) + padded_sum argv))
    (stack_writes beyond sp argv).
Proof.
  intros Hl. pose proof (padded_sum_nonneg _ Hl). unfold stack_writes. cbv zeta.
  constructor; [cbn; lia|]. constructor; [cbn; lia|]. apply args_writes_inside; (done || lia).
Qed.

Lemma arguments_agree m m' argv_ptr lo hi a n argv :
  agree m m' a n → a <= argv_ptr → argv_ptr + 4 * Z.of_nat (length argv) + 4 <= a + n → a <= lo → hi <= a + n →
  arguments m argv_ptr lo hi argv → arguments m' argv_ptr lo hi argv.
Proof.
  intros Ha Hp Hq Hlo Hhi [H1 H2]. split.
  - intros j arg Hj. destruct (H1 j arg Hj) as (p & Hw & Hlop & Hhip & Hs). exists p.
    apply lookup_lt_Some in Hj. split; [|split; [done|split; [done|]]].
    + rewrite <- Hw. symmetry. apply (ld32_agree _ _ a n); (done || lia).
    + by eapply string_agree; [exact Ha|lia|lia|].
  - rewrite <- H2. symmetry. apply (ld32_agree _ _ a n); (done || lia).
Qed.


Definition demo_argv : list (list Z) := [[115; 104]; [45; 118; 120; 121]].

