(* ===== verification/Buffer.v ===== *)
(** * Bounded buffers: src/kernel/bb.h

    Threads that call [put] and [get] any number of times, one step for each
    statement that touches shared state, in any interleaving. The three
    semaphores are used through their specification (file Semaphore). A step that
    takes an element in or out is labelled with it, and the theorem reads the
    labels as the operations of a queue of at most [N] elements. *)

From S2P Require Import Prelude Semaphore.
Local Open Scope Z_scope.

Section Buffer.
Context {T : Type}.

(** The program counters of [put(t)] and of [get()], between two calls [Done]. *)
Inductive pc :=
| PEmpty (t : T) | PEmptyWait (t : T) | PLock (t : T) | PLockWait (t : T)
| PData (t : T) | PCount (t : T) | PUnlock | PFull
| GFull | GFullWait | GLock | GLockWait
| GData | GHead (out : T) | GCount (out : T) | GUnlock (out : T) | GEmpty (out : T)
| Done.

Inductive op := Put (t : T) | Get.

(** A thread: where it is, and the calls it will make after this one. *)
Abbreviation thread := (pc * list op)%type.

Definition start (o : op) : pc := match o with Put t => PEmpty t | Get => GFull end.

Definition next_call (rest : list op) : thread :=
  match rest with [] => (Done, []) | o :: rest => (start o, rest) end.

Record BoundedBuffer := MkBuffer {
  head : Z;
  n : Z;
  nEmpty : permits;
  nFull : permits;
  lock : permits;
  N : Z;
  data : list T;
  threads : list thread;
}.

Definition set_threads (ths : list thread) (b : BoundedBuffer) : BoundedBuffer :=
  MkBuffer (head b) (n b) (nEmpty b) (nFull b) (lock b) (N b) (data b) ths.
Definition set_nEmpty (a : permits) (b : BoundedBuffer) : BoundedBuffer :=
  MkBuffer (head b) (n b) a (nFull b) (lock b) (N b) (data b) (threads b).
Definition set_nFull (a : permits) (b : BoundedBuffer) : BoundedBuffer :=
  MkBuffer (head b) (n b) (nEmpty b) a (lock b) (N b) (data b) (threads b).
Definition set_lock (a : permits) (b : BoundedBuffer) : BoundedBuffer :=
  MkBuffer (head b) (n b) (nEmpty b) (nFull b) a (N b) (data b) (threads b).
Definition set_head (h : Z) (b : BoundedBuffer) : BoundedBuffer :=
  MkBuffer h (n b) (nEmpty b) (nFull b) (lock b) (N b) (data b) (threads b).
Definition set_n (c : Z) (b : BoundedBuffer) : BoundedBuffer :=
  MkBuffer (head b) c (nEmpty b) (nFull b) (lock b) (N b) (data b) (threads b).
Definition set_data (d : list T) (b : BoundedBuffer) : BoundedBuffer :=
  MkBuffer (head b) (n b) (nEmpty b) (nFull b) (lock b) (N b) d (threads b).

(** [BoundedBuffer(N)] with its [new T[N]] and the threads that will use it. *)
Definition make_buffer (N : Z) (garbage : list T) (calls : list (list op)) : BoundedBuffer :=
  MkBuffer 0 0 (Permits N []) (Permits 0 []) (Permits 1 []) N garbage (next_call <$> calls).

(** Where a thread goes on when the semaphore it waits for wakes it. *)
Definition woken (p : pc) : pc :=
  match p with
  | PEmptyWait t => PLock t
  | PLockWait t => PData t
  | GFullWait => GLock
  | GLockWait => GData
  | p => p
  end.

Definition goto (i : nat) (p : pc) (ths : list thread) : list thread :=
  alter (λ th, (p, th.2)) i ths.

(** [a.down()] by thread [i], which goes on at [go] now or, from [wait], later. *)
Definition down_at (i : nat) (go wait : pc) (a : permits) (ths : list thread) : permits * list thread :=
  let '(got, a) := spec_down i a in (a, goto i (if got : bool then go else wait) ths).

(** [a.up()]: the first waiting thread is woken. *)
Definition up_at (a : permits) (ths : list thread) : permits * list thread :=
  match spec_up a with
  | (Some j, a) => (a, alter (λ th, (woken th.1, th.2)) j ths)
  | (None, a) => (a, ths)
  end.

(** [data[i]], a read or a write outside of the array being [Crash]. *)
Definition cell (i : Z) (d : list T) : outcome T := deref (d !! Z.to_nat i).

Definition put_cell (i : Z) (t : T) (d : list T) : outcome (list T) :=
  _ ← deref (d !! Z.to_nat i); Ret (<[Z.to_nat i := t]> d).

Inductive event := Entered (t : T) | Left (t : T).

(** The next statement of thread [i]; [None] when it waits or has finished. *)
Definition step (i : nat) (b : BoundedBuffer) : outcome (option (option event * BoundedBuffer)) :=
  match threads b !! i with
  | None => Ret None
  | Some (p, rest) =>
      let moved q b : outcome (option (option event * BoundedBuffer)) :=
        Ret (Some (None, set_threads (goto i q (threads b)) b)) in
      match p with
      | PEmpty t =>
          let '(a, ths) := down_at i (PLock t) (PEmptyWait t) (nEmpty b) (threads b) in
          Ret (Some (None, set_threads ths (set_nEmpty a b)))
      | PLock t =>
          let '(a, ths) := down_at i (PData t) (PLockWait t) (lock b) (threads b) in
          Ret (Some (None, set_threads ths (set_lock a b)))
      | PData t =>
          d ← put_cell (u32 (head b + n b) mod N b) t (data b);
          moved (PCount t) (set_data d b)
      | PCount t =>
          Ret (Some (Some (Entered t),
                     set_threads (goto i PUnlock (threads b)) (set_n (u32 (n b + 1)) b)))
      | PUnlock =>
          let '(a, ths) := up_at (lock b) (goto i PFull (threads b)) in
          Ret (Some (None, set_threads ths (set_lock a b)))
      | PFull =>
          let '(a, ths) := up_at (nFull b) (<[i := next_call rest]> (threads b)) in
          Ret (Some (None, set_threads ths (set_nFull a b)))
      | GFull =>
          let '(a, ths) := down_at i GLock GFullWait (nFull b) (threads b) in
          Ret (Some (None, set_threads ths (set_nFull a b)))
      | GLock =>
          let '(a, ths) := down_at i GData GLockWait (lock b) (threads b) in
          Ret (Some (None, set_threads ths (set_lock a b)))
      | GData =>
          out ← cell (head b) (data b);
          moved (GHead out) b
      | GHead out => moved (GCount out) (set_head (u32 (head b + 1) mod N b) b)
      | GCount out =>
          Ret (Some (Some (Left out),
                     set_threads (goto i (GUnlock out) (threads b)) (set_n (u32 (n b - 1)) b)))
      | GUnlock out =>
          let '(a, ths) := up_at (lock b) (goto i (GEmpty out) (threads b)) in
          Ret (Some (None, set_threads ths (set_lock a b)))
      | GEmpty out =>
          let '(a, ths) := up_at (nEmpty b) (<[i := next_call rest]> (threads b)) in
          Ret (Some (None, set_threads ths (set_nEmpty a b)))
      | PEmptyWait _ | PLockWait _ | GFullWait | GLockWait | Done => Ret None
      end
  end.

(** The events of an execution, first one first. *)
Inductive run : BoundedBuffer → list event → BoundedBuffer → Prop :=
| run_nil b : run b [] b
| run_step b es b1 i e b2 :
    run b es b1 → step i b1 = Ret (Some (e, b2)) → run b (es ++ option_list e) b2.

(** ** Threads and semaphores *)

Lemma goto_eq i p q rest ths : ths !! i = Some (p, rest) → goto i q ths = <[i := (q, rest)]> ths.
Proof.
  intros Hi. apply list_eq. intros j. unfold goto. destruct (decide (i = j)) as [<-|Hne].
  - rewrite list_lookup_alter_eq, Hi, list_lookup_insert_eq; [done|by eapply lookup_lt_Some].
  - by rewrite list_lookup_alter_ne, list_lookup_insert_ne.
Qed.

(** The threads of a semaphore's queue are those whose program counter says so. *)
Record queued (w : pc → bool) (a : permits) (ths : list thread) : Prop := Queued {
  qu_free : 0 <= free a;
  qu_wait : queue a ≠ [] → free a = 0;
  qu_in j : j ∈ queue a ↔ ∃ p rest, ths !! j = Some (p, rest) ∧ w p = true;
  qu_nodup : NoDup (queue a);
}.

Lemma queued_move w a ths i p rest p' rest' :
  ths !! i = Some (p, rest) → w p = false → w p' = false → queued w a ths →
  queued w a (<[i := (p', rest')]> ths).
Proof.
  intros Hi Hp Hp' [Hf Hw Hq Hn]. split; try done. intros j. rewrite Hq.
  destruct (decide (i = j)) as [<-|Hne].
  - rewrite list_lookup_insert_eq by (by eapply lookup_lt_Some). split; intros (q & r & E & ?); congruence.
  - by rewrite list_lookup_insert_ne.
Qed.

Lemma queued_down w a ths i p rest go wait :
  ths !! i = Some (p, rest) → w p = false → w go = false → w wait = true → queued w a ths →
  ∃ q a', down_at i go wait a ths = (a', <[i := (q, rest)]> ths) ∧
    queued w a' (<[i := (q, rest)]> ths) ∧
    (q = go ∧ free a' = free a - 1 ∨ q = wait ∧ free a' = free a).
Proof.
  intros Hi Hp Hgo Hwait [Hf Hw Hq Hn]. unfold down_at, spec_down.
  destruct (Z.ltb_spec 0 (free a)) as [Hpos|Hz]; rewrite (goto_eq _ _ _ _ _ Hi).
  - eexists go, _. split; [done|]. split; [|by left].
    apply (queued_move _ _ _ _ _ _ _ _ Hi Hp Hgo). split; cbn; [lia| |done|done].
    intros Hne. specialize (Hw Hne). lia.
  - eexists wait, _. split; [done|]. split; [|by right].
    assert (i ∉ queue a) as Hni by (rewrite Hq; intros (? & ? & ? & ?); congruence).
    split; cbn; [done|lia| |].
    + intros j. rewrite elem_of_app, list_elem_of_singleton, Hq. destruct (decide (i = j)) as [<-|Hne].
      * rewrite list_lookup_insert_eq by (by eapply lookup_lt_Some). split; [eauto|by right].
      * rewrite list_lookup_insert_ne by done. split; [by intros [?|<-]|by left].
    + apply NoDup_app. split; [done|]. split; [|apply NoDup_singleton].
      by intros x Hx ->%list_elem_of_singleton.
Qed.

Lemma queued_up w a ths :
  (∀ p, w p = true → w (woken p) = false) → queued w a ths →
  ∃ a' ths', up_at a ths = (a', ths') ∧ queued w a' ths' ∧
    (ths' = ths ∧ free a' = free a + 1 ∨
     ∃ j p rest, ths !! j = Some (p, rest) ∧ w p = true ∧ ths' = <[j := (woken p, rest)]> ths ∧
       free a' = free a).
Proof.
  intros Hwk [Hf Hw Hq Hn]. unfold up_at, spec_up. destruct (queue a) as [|j qs] eqn:Eq.
  - eexists _, ths. split; [done|]. split; [|by left]. split; cbn; [lia|done|done|constructor].
  - destruct (proj1 (Hq j)) as (p & rest & Hj & Hp); [by left|].
    apply NoDup_cons in Hn as [Hjq Hn].
    eexists _, _. split; [done|]. change (alter _ j ths) with (alter (λ th : thread, (woken th.1, th.2)) j ths).
    assert (alter (λ th : thread, (woken th.1, th.2)) j ths = <[j := (woken p, rest)]> ths) as ->.
    { apply list_eq. intros k. destruct (decide (j = k)) as [<-|Hne].
      - rewrite list_lookup_alter_eq, Hj, list_lookup_insert_eq; [done|by eapply lookup_lt_Some].
      - by rewrite list_lookup_alter_ne, list_lookup_insert_ne. }
    split; [|right; eauto 8].
    split; cbn; [done|intros _; by apply Hw| |done].
    intros k. destruct (decide (j = k)) as [<-|Hne].
    + rewrite list_lookup_insert_eq by (by eapply lookup_lt_Some). split; [done|].
      intros (? & ? & [= <- <-] & Hc). by rewrite Hwk in Hc.
    + rewrite list_lookup_insert_ne, <- Hq, elem_of_cons by done. split; [by right|].
      by intros [->|?].
Qed.

Lemma next_call_cases rest :
  ∃ p rest', next_call rest = (p, rest') ∧
    (p = Done ∧ length rest' = 0%nat ∨
     ((∃ t, p = PEmpty t) ∨ p = GFull) ∧ length rest = S (length rest')).
Proof. destruct rest as [|[t|] rest]; cbn; eauto 10. Qed.

(** ** Counting threads *)

Definition cnt (f : pc → nat) (ths : list thread) : Z := Z.of_nat (sum_list_with (λ th, f th.1) ths).

Lemma cnt_insert f ths i p rest p' rest' :
  ths !! i = Some (p, rest) →
  cnt f (<[i := (p', rest')]> ths) = cnt f ths - Z.of_nat (f p) + Z.of_nat (f p').
Proof.
  intros Hi. unfold cnt. pose proof (sum_insert (λ th : thread, f th.1) ths i _ (p', rest') Hi) as E.
  cbn in E. lia.
Qed.

Lemma cnt_nonneg f ths : 0 <= cnt f ths.
Proof. unfold cnt. lia. Qed.

Lemma cnt_ge f ths i p rest :
  f Done = 0%nat → ths !! i = Some (p, rest) → Z.of_nat (f p) <= cnt f ths.
Proof.
  intros Hd Hi. pose proof (cnt_insert f ths i p rest Done rest Hi) as E.
  pose proof (cnt_nonneg f (<[i := (Done, rest)]> ths)). lia.
Qed.

Lemma cnt_two f ths i j p q r r' :
  f Done = 0%nat → ths !! i = Some (p, r) → ths !! j = Some (q, r') → i ≠ j →
  Z.of_nat (f p) + Z.of_nat (f q) <= cnt f ths.
Proof.
  intros Hd Hi Hj Hne. pose proof (cnt_insert f ths i p r Done r Hi) as E.
  assert (<[i := (Done, r)]> ths !! j = Some (q, r')) as Hj' by (by rewrite list_lookup_insert_ne).
  pose proof (cnt_ge f _ _ _ _ Hd Hj'). lia.
Qed.

Lemma cnt_le f g ths : (∀ p, (f p <= g p)%nat) → cnt f ths <= cnt g ths.
Proof.
  intros Hfg. unfold cnt. induction ths as [|th ths IH]; cbn; [lia|]. pose proof (Hfg th.1). lia.
Qed.

Lemma cnt_zero f ths : (∀ i p rest, ths !! i = Some (p, rest) → f p = 0%nat) → cnt f ths = 0.
Proof.
  intros Hz. unfold cnt. induction ths as [|[p rest] ths IH]; [done|]. cbn.
  rewrite (Hz 0%nat p rest eq_refl). apply IH. intros i. apply (Hz (S i)).
Qed.

(** Threads holding a claim on an empty cell, a claim on an element, the lock; and
    the thread that has moved [head] and not yet counted. *)
Definition emp (p : pc) : nat :=
  match p with PLock _ | PLockWait _ | PData _ | PCount _ | GUnlock _ | GEmpty _ => 1 | _ => 0 end%nat.
Definition ful (p : pc) : nat :=
  match p with GLock | GLockWait | GData | GHead _ | GCount _ | PUnlock | PFull => 1 | _ => 0 end%nat.
Definition crit (p : pc) : nat :=
  match p with PData _ | PCount _ | PUnlock | GData | GHead _ | GCount _ | GUnlock _ => 1 | _ => 0 end%nat.
Definition adv (p : pc) : nat := match p with GCount _ => 1 | _ => 0 end%nat.

Definition waits_empty (p : pc) : bool := match p with PEmptyWait _ => true | _ => false end.
Definition waits_full (p : pc) : bool := match p with GFullWait => true | _ => false end.
Definition waits_lock (p : pc) : bool := match p with PLockWait _ | GLockWait => true | _ => false end.

(** What the thread in the critical section knows of the data. *)
Definition hold_ok (q d : list T) (h n N : Z) (p : pc) : Prop :=
  match p with
  | PCount t => d !! Z.to_nat ((h + n) mod N) = Some t
  | GHead out | GCount out => q !! 0%nat = Some out
  | _ => True
  end.

(** The elements of the queue [q] are in the cells from [head] on; [x] is 1 when
    [head] is already past the first one. *)
Definition ring (q d : list T) (h N x : Z) : Prop :=
  ∀ k, x <= k < Z.of_nat (length q) → d !! Z.to_nat ((h + k - x) mod N) = q !! Z.to_nat k.

Record inv (q : list T) (b : BoundedBuffer) : Prop := Inv {
  iv_N : 0 < N b <= 2147483648;
  iv_data : Z.of_nat (length (data b)) = N b;
  iv_head : 0 <= head b < N b;
  iv_n : n b = Z.of_nat (length q);
  iv_empty : queued waits_empty (nEmpty b) (threads b);
  iv_full : queued waits_full (nFull b) (threads b);
  iv_lock : queued waits_lock (lock b) (threads b);
  iv_emp : free (nEmpty b) + cnt emp (threads b) + n b = N b;
  iv_ful : free (nFull b) + cnt ful (threads b) = n b;
  iv_crit : free (lock b) + cnt crit (threads b) = 1;
  iv_ring : ring q (data b) (head b) (N b) (cnt adv (threads b));
  iv_hold i p rest : threads b !! i = Some (p, rest) → hold_ok q (data b) (head b) (n b) (N b) p;
}.

(** How many steps a thread can still take. *)
Definition weight (p : pc) : nat :=
  match p with
  | PEmpty _ => 8 | PEmptyWait _ => 7 | PLock _ => 6 | PLockWait _ => 5
  | PData _ => 4 | PCount _ => 3 | PUnlock => 2 | PFull => 1
  | GFull => 9 | GFullWait => 8 | GLock => 7 | GLockWait => 6
  | GData => 5 | GHead _ => 4 | GCount _ => 3 | GUnlock _ => 2 | GEmpty _ => 1
  | Done => 0
  end.

Definition total (ths : list thread) : nat :=
  sum_list_with (λ th, weight th.1 + 10 * length th.2)%nat ths.

Lemma work_insert ths i p rest p' rest' :
  ths !! i = Some (p, rest) →
  (total (<[i := (p', rest')]> ths) + (weight p + 10 * length rest) =
   total ths + (weight p' + 10 * length rest'))%nat.
Proof. intros Hi. apply (sum_insert (λ th : thread, weight th.1 + 10 * length th.2)%nat ths i _ (p', rest') Hi). Qed.

Lemma mod_wrap x m : 0 <= x < 2 * m → x mod m = if x <? m then x else x - m.
Proof.
  intros Hx. destruct (Z.ltb_spec x m); [apply Z.mod_small; lia|].
  symmetry. apply (Z.mod_unique x m 1); lia.
Qed.

(** The thread in the critical section is alone there. *)
Lemma others_out q d h n N i p rest p' rest' (ths : list thread) :
  cnt crit ths <= 1 → ths !! i = Some (p, rest) → crit p = 1%nat → hold_ok q d h n N p' →
  ∀ j p0 rest0, <[i := (p', rest')]> ths !! j = Some (p0, rest0) → hold_ok q d h n N p0.
Proof.
  intros Hc Hi Hp Hp' j p0 rest0 Hj. destruct (decide (i = j)) as [<-|Hne].
  - rewrite list_lookup_insert_eq in Hj by (by eapply lookup_lt_Some). by injection Hj as <- <-.
  - rewrite list_lookup_insert_ne in Hj by done.
    pose proof (cnt_two crit _ _ _ _ _ _ _ eq_refl Hi Hj Hne) as H2.
    by destruct p0; cbn in H2; try lia.
Qed.

Lemma hold_insert q d h n N i p' rest' (ths : list thread) :
  (∀ j p0 rest0, ths !! j = Some (p0, rest0) → hold_ok q d h n N p0) → hold_ok q d h n N p' →
  ∀ j p0 rest0, <[i := (p', rest')]> ths !! j = Some (p0, rest0) → hold_ok q d h n N p0.
Proof.
  intros H Hp' j p0 rest0 [(-> & [= <- <-] & _)|[_ Hj]]%list_lookup_insert_Some; [done|by eapply H].
Qed.

Lemma adv_alone ths i p rest :
  cnt crit ths <= 1 → ths !! i = Some (p, rest) → crit p = 1%nat → cnt adv ths = Z.of_nat (adv p).
Proof.
  intros Hc Hi Hp. pose proof (cnt_insert crit ths i p rest Done rest Hi) as E1.
  pose proof (cnt_insert adv ths i p rest Done rest Hi) as E2. rewrite Hp in E1. cbn in E1, E2.
  assert (cnt adv (<[i := (Done, rest)]> ths) <= cnt crit (<[i := (Done, rest)]> ths)) by (apply cnt_le; intros q; destruct q; cbn; lia).
  pose proof (cnt_nonneg adv (<[i := (Done, rest)]> ths)). lia.
Qed.

(** What one step does to the queue. *)
Definition fifo_event (N : Z) (e : option event) (q q' : list T) : Prop :=
  match e with
  | None => q' = q
  | Some (Entered t) => q' = q ++ [t] ∧ Z.of_nat (length q) < N
  | Some (Left t) => q = t :: q'
  end.

Definition step_to (q : list T) (b : BoundedBuffer) (r : option (option event * BoundedBuffer)) : Prop :=
  match r with
  | None => True
  | Some (e, b') =>
      ∃ q', fifo_event (N b) e q q' ∧ N b' = N b ∧ inv q' b' ∧
        (total (threads b') < total (threads b))%nat
  end.

(** Rewrite the counts of a list of threads with one thread changed. *)
Ltac counted Hi :=
  repeat match goal with
  | |- context [cnt ?f (<[_ := (?p', ?r')]> _)] => rewrite (cnt_insert f _ _ _ _ p' r' Hi)
  end.

Ltac by_counts := cbn [emp ful crit adv woken] in *; lia.

Ltac parts :=
  split; cbn [head n nEmpty nFull lock N data threads set_threads set_nEmpty set_nFull set_lock
              set_head set_n set_data]; try done.

(** ** The statements of [put] and [get] *)

Section Step.
Variables (q : list T) (b : BoundedBuffer) (i : nat) (rest : list op).
Hypothesis Hinv : inv q b.

(** The thread goes from [p] to [p'] at a [down] of the semaphore of [w]: the
    other semaphores, the counts and the data. *)
Ltac at_down Hi Hc go wait :=
  exists q; split; [done|]; split; [done|]; split;
  [parts;
   [try (apply (queued_move _ _ _ _ _ _ _ _ Hi); [done|by destruct Hc as [[-> _]|[-> _]]|done])..|];
   [try (destruct Hc as [[-> Hc]|[-> Hc]]; counted Hi; by_counts)..|];
   [match goal with |- ring _ _ _ _ (cnt adv ?ths) =>
      replace (cnt adv ths) with (cnt adv (threads b)) by (destruct Hc as [[-> _]|[-> _]]; counted Hi; by_counts)
    end; done
   |apply hold_insert; [done|by destruct Hc as [[-> _]|[-> _]]]]
  |cbn [threads set_threads]; pose proof (work_insert _ _ _ _ go rest Hi);
   pose proof (work_insert _ _ _ _ wait rest Hi);
   destruct Hc as [[-> _]|[-> _]]; cbn [weight] in *; lia].

Lemma empty_down t : threads b !! i = Some (PEmpty t, rest) → ∃ r, step i b = Ret r ∧ step_to q b r.
Proof.
  intros Hi. unfold step. rewrite Hi. destruct Hinv as [HN Hd Hh Hn He Hf Hl Ee Ef El Hr Hho].
  destruct (queued_down waits_empty _ _ i _ rest (PLock t) (PEmptyWait t) Hi eq_refl eq_refl eq_refl He)
    as (p' & a' & -> & He' & Hc).
  eexists. split; [done|]. at_down Hi Hc (PLock t) (PEmptyWait t).
Qed.

Lemma full_down : threads b !! i = Some (GFull, rest) → ∃ r, step i b = Ret r ∧ step_to q b r.
Proof.
  intros Hi. unfold step. rewrite Hi. destruct Hinv as [HN Hd Hh Hn He Hf Hl Ee Ef El Hr Hho].
  destruct (queued_down waits_full _ _ i _ rest GLock GFullWait Hi eq_refl eq_refl eq_refl Hf)
    as (p' & a' & -> & Hf' & Hc).
  eexists. split; [done|]. at_down Hi Hc GLock GFullWait.
Qed.

Lemma put_lock t : threads b !! i = Some (PLock t, rest) → ∃ r, step i b = Ret r ∧ step_to q b r.
Proof.
  intros Hi. unfold step. rewrite Hi. destruct Hinv as [HN Hd Hh Hn He Hf Hl Ee Ef El Hr Hho].
  destruct (queued_down waits_lock _ _ i _ rest (PData t) (PLockWait t) Hi eq_refl eq_refl eq_refl Hl)
    as (p' & a' & -> & Hl' & Hc).
  eexists. split; [done|]. at_down Hi Hc (PData t) (PLockWait t).
Qed.

Lemma get_lock : threads b !! i = Some (GLock, rest) → ∃ r, step i b = Ret r ∧ step_to q b r.
Proof.
  intros Hi. unfold step. rewrite Hi. destruct Hinv as [HN Hd Hh Hn He Hf Hl Ee Ef El Hr Hho].
  destruct (queued_down waits_lock _ _ i _ rest GData GLockWait Hi eq_refl eq_refl eq_refl Hl)
    as (p' & a' & -> & Hl' & Hc).
  eexists. split; [done|]. at_down Hi Hc GData GLockWait.
Qed.

(** The thread has gone from [p] to [p1] with [rest1] calls left, and [up] has
    woken nobody, or the thread [j] that waited at [p2]. *)
Ltac at_up Hi p1 rest1 Hc :=
  exists q; split; [done|]; split; [done|];
  destruct Hc as [[-> Hc]|(j & p2 & r2 & Hj & Hp2 & -> & Hc)];
  [|destruct p2; try discriminate Hp2];
  (split;
   [parts;
    [try first [by apply (queued_move _ _ _ _ _ _ _ _ Hi)
               |by apply (queued_move _ _ _ _ _ _ _ _ Hj);
                  [..|apply (queued_move _ _ _ _ _ _ _ _ Hi)]]..|];
    [try (try counted Hj; counted Hi; by_counts)..|];
    [match goal with |- ring _ _ _ _ (cnt adv ?ths) =>
       replace (cnt adv ths) with (cnt adv (threads b)) by (try counted Hj; counted Hi; by_counts)
     end; done
    |repeat (apply hold_insert; [|done]); done]
   |cbn [threads set_threads]; pose proof (work_insert _ _ _ _ p1 rest1 Hi);
    try match type of Hj with _ !! ?j = Some (?p2, ?r2) =>
          pose proof (work_insert _ _ _ _ (woken p2) r2 Hj) end;
    cbn [weight woken length] in *; lia]).

Lemma put_unlock : threads b !! i = Some (PUnlock, rest) → ∃ r, step i b = Ret r ∧ step_to q b r.
Proof.
  intros Hi. unfold step. rewrite Hi. destruct Hinv as [HN Hd Hh Hn He Hf Hl Ee Ef El Hr Hho].
  rewrite (goto_eq _ _ _ _ _ Hi).
  destruct (queued_up waits_lock (lock b) (<[i := (PFull, rest)]> (threads b))) as (a' & ths' & -> & Hl' & Hc).
  { by intros []. }
  { by apply (queued_move _ _ _ _ _ _ _ _ Hi). }
  eexists. split; [done|]. at_up Hi PFull rest Hc.
Qed.

Lemma get_unlock out : threads b !! i = Some (GUnlock out, rest) → ∃ r, step i b = Ret r ∧ step_to q b r.
Proof.
  intros Hi. unfold step. rewrite Hi. destruct Hinv as [HN Hd Hh Hn He Hf Hl Ee Ef El Hr Hho].
  rewrite (goto_eq _ _ _ _ _ Hi).
  destruct (queued_up waits_lock (lock b) (<[i := (GEmpty out, rest)]> (threads b)))
    as (a' & ths' & -> & Hl' & Hc).
  { by intros []. }
  { by apply (queued_move _ _ _ _ _ _ _ _ Hi). }
  eexists. split; [done|]. at_up Hi (GEmpty out) rest Hc.
Qed.

Lemma full_up : threads b !! i = Some (PFull, rest) → ∃ r, step i b = Ret r ∧ step_to q b r.
Proof.
  intros Hi. unfold step. rewrite Hi. destruct Hinv as [HN Hd Hh Hn He Hf Hl Ee Ef El Hr Hho].
  destruct (next_call_cases rest) as (p1 & rest1 & -> & [[-> Hlen]|[[[t ->]| ->] Hlen]]);
  match goal with |- context [<[i := (?p1, rest1)]> (threads b)] =>
    destruct (queued_up waits_full (nFull b) (<[i := (p1, rest1)]> (threads b)))
      as (a' & ths' & -> & Hf' & Hc);
    [by intros []|by apply (queued_move _ _ _ _ _ _ _ _ Hi)|];
    eexists; split; [done|]; at_up Hi p1 rest1 Hc
  end.
Qed.

Lemma empty_up out : threads b !! i = Some (GEmpty out, rest) → ∃ r, step i b = Ret r ∧ step_to q b r.
Proof.
  intros Hi. unfold step. rewrite Hi. destruct Hinv as [HN Hd Hh Hn He Hf Hl Ee Ef El Hr Hho].
  destruct (next_call_cases rest) as (p1 & rest1 & -> & [[-> Hlen]|[[[t ->]| ->] Hlen]]);
  match goal with |- context [<[i := (?p1, rest1)]> (threads b)] =>
    destruct (queued_up waits_empty (nEmpty b) (<[i := (p1, rest1)]> (threads b)))
      as (a' & ths' & -> & He' & Hc);
    [by intros []|by apply (queued_move _ _ _ _ _ _ _ _ Hi)|];
    eexists; split; [done|]; at_up Hi p1 rest1 Hc
  end.
Qed.

Lemma crit_one : cnt crit (threads b) <= 1.
Proof. pose proof (iv_crit _ _ Hinv). pose proof (qu_free _ _ _ (iv_lock _ _ Hinv)). lia. Qed.

Lemma body_adv p : threads b !! i = Some (p, rest) → crit p = 1%nat → cnt adv (threads b) = Z.of_nat (adv p).
Proof. intros Hi Hp. apply (adv_alone _ _ _ _ crit_one Hi Hp). Qed.

(** A claim on an empty cell or on an element is good. *)
Lemma claim_empty p : threads b !! i = Some (p, rest) → emp p = 1%nat → n b < N b.
Proof.
  intros Hi Hp. pose proof (cnt_ge emp _ _ _ _ eq_refl Hi). pose proof (iv_emp _ _ Hinv).
  pose proof (qu_free _ _ _ (iv_empty _ _ Hinv)). lia.
Qed.

Lemma claim_full p : threads b !! i = Some (p, rest) → ful p = 1%nat → 0 < n b.
Proof.
  intros Hi Hp. pose proof (cnt_ge ful _ _ _ _ eq_refl Hi). pose proof (iv_ful _ _ Hinv).
  pose proof (qu_free _ _ _ (iv_full _ _ Hinv)). lia.
Qed.

Lemma n_le : 0 <= n b <= N b.
Proof.
  pose proof (cnt_nonneg emp (threads b)). pose proof (iv_emp _ _ Hinv). pose proof (iv_n _ _ Hinv).
  pose proof (qu_free _ _ _ (iv_empty _ _ Hinv)). lia.
Qed.

(** The thread in the critical section goes on at [p1]; the semaphores stay. *)
Ltac in_body Hi p1 :=
  split;
  [parts;
     [try (by apply (queued_move _ _ _ _ _ _ _ _ Hi))..|];
     [try (counted Hi; by_counts)..|]
   |cbn [threads set_threads set_n set_head set_data];
    pose proof (work_insert _ _ _ _ p1 rest Hi); cbn [weight] in *; lia].

Lemma put_data t : threads b !! i = Some (PData t, rest) → ∃ r, step i b = Ret r ∧ step_to q b r.
Proof.
  intros Hi. pose proof (claim_empty _ Hi eq_refl) as Hn'. pose proof (body_adv _ Hi eq_refl) as Ha.
  pose proof crit_one as Hc1. unfold step. rewrite Hi.
  destruct Hinv as [HN Hd Hh Hn He Hf Hl Ee Ef El Hr Hho].
  rewrite u32_small by (unfold is_u32; lia).
  assert (0 <= (head b + n b) mod N b < N b) as Hm by (apply Z.mod_pos_bound; lia).
  destruct (lookup_lt_is_Some_2 (data b) (Z.to_nat ((head b + n b) mod N b))) as [x Hx]; [lia|].
  unfold put_cell. rewrite Hx. cbn [deref mbind outcome_bind threads set_data].
  rewrite (goto_eq _ _ _ _ _ Hi).
  eexists. split; [done|]. exists q. split; [done|]. split; [done|].
  in_body Hi (PCount t).
  - by rewrite length_insert.
  - counted Hi. cbn [adv]. intros k Hk. rewrite <- Hr by (cbn in Ha; lia).
    rewrite Ha. cbn [adv]. rewrite list_lookup_insert_ne; [f_equal; f_equal; f_equal; cbn; lia|].
    intros E. apply Z2Nat.inj in E; [|lia|apply Z.mod_pos_bound; lia].
    cbn in Ha. rewrite !mod_wrap in E by lia. repeat case_match; lia.
  - apply (others_out _ _ _ _ _ _ _ _ _ _ _ Hc1 Hi eq_refl). cbn. apply list_lookup_insert_eq.
    by eapply lookup_lt_Some.
Qed.

Lemma put_count t : threads b !! i = Some (PCount t, rest) → ∃ r, step i b = Ret r ∧ step_to q b r.
Proof.
  intros Hi. pose proof (claim_empty _ Hi eq_refl) as Hn'. pose proof (body_adv _ Hi eq_refl) as Ha.
  pose proof crit_one as Hc1. unfold step. rewrite Hi, (goto_eq _ _ _ _ _ Hi).
  destruct Hinv as [HN Hd Hh Hn He Hf Hl Ee Ef El Hr Hho].
  rewrite (u32_small (n b + 1)) by (unfold is_u32; lia). cbn [adv] in Ha.
  pose proof (Hho _ _ _ Hi) as Ht. cbn in Ht.
  eexists. split; [done|]. exists (q ++ [t]). split; [cbn; split; [done|lia]|]. split; [done|].
  in_body Hi PUnlock.
  - rewrite length_app. cbn. lia.
  - counted Hi. cbn [adv]. intros k Hk. rewrite length_app in Hk. cbn in Hk.
    destruct (decide (k = n b)) as [->|Hne].
    + rewrite lookup_app_r by lia. replace (Z.to_nat (n b) - length q)%nat with 0%nat by lia.
      cbn. rewrite <- Ht. f_equal. f_equal. f_equal. lia.
    + rewrite lookup_app_l by lia. rewrite <- Hr by (cbn in Ha; lia). f_equal. f_equal. f_equal. cbn. lia.
  - by apply (others_out _ _ _ _ _ _ _ _ _ _ _ Hc1 Hi eq_refl).
Qed.

Lemma get_data : threads b !! i = Some (GData, rest) → ∃ r, step i b = Ret r ∧ step_to q b r.
Proof.
  intros Hi. pose proof (claim_full _ Hi eq_refl) as Hn'. pose proof (body_adv _ Hi eq_refl) as Ha.
  pose proof crit_one as Hc1. unfold step. rewrite Hi.
  destruct Hinv as [HN Hd Hh Hn He Hf Hl Ee Ef El Hr Hho]. cbn [adv] in Ha.
  pose proof (Hr 0 ltac:(cbn in Ha; lia)) as H0. rewrite Ha in H0. cbn in H0.
  rewrite Z.add_0_r, Z.sub_0_r, Z.mod_small in H0 by lia.
  destruct (lookup_lt_is_Some_2 (data b) (Z.to_nat (head b))) as [x Hx]; [lia|]. rewrite Hx in H0.
  unfold cell. rewrite Hx. cbn [deref mbind outcome_bind]. rewrite (goto_eq _ _ _ _ _ Hi).
  eexists. split; [done|]. exists q. split; [done|]. split; [done|].
  in_body Hi (GHead x).
  - replace (cnt adv (<[i := (GHead x, rest)]> (threads b))) with (cnt adv (threads b)); [done|].
    counted Hi. by_counts.
  - by apply (others_out _ _ _ _ _ _ _ _ _ _ _ Hc1 Hi eq_refl).
Qed.

Lemma get_head out : threads b !! i = Some (GHead out, rest) → ∃ r, step i b = Ret r ∧ step_to q b r.
Proof.
  intros Hi. pose proof (claim_full _ Hi eq_refl) as Hn'. pose proof (body_adv _ Hi eq_refl) as Ha.
  pose proof crit_one as Hc1. unfold step. rewrite Hi. cbn [threads set_head].
  rewrite (goto_eq _ _ _ _ _ Hi).
  destruct Hinv as [HN Hd Hh Hn He Hf Hl Ee Ef El Hr Hho]. cbn in Ha.
  pose proof (Hho _ _ _ Hi) as Ht. cbn in Ht.
  rewrite (u32_small (head b + 1)) by (unfold is_u32; lia).
  eexists. split; [done|]. exists q. split; [done|]. split; [done|].
  in_body Hi (GCount out).
  - apply Z.mod_pos_bound. lia.
  - assert (cnt adv (<[i := (GCount out, rest)]> (threads b)) = 1) as -> by (counted Hi; rewrite Ha; done).
    intros k Hk. rewrite <- Hr by lia. rewrite Ha. f_equal. f_equal. rewrite <- Z.add_sub_assoc.
    rewrite Z.add_mod_idemp_l by lia. f_equal. lia.
  - by apply (others_out _ _ _ _ _ _ _ _ _ _ _ Hc1 Hi eq_refl).
Qed.

Lemma get_count out : threads b !! i = Some (GCount out, rest) → ∃ r, step i b = Ret r ∧ step_to q b r.
Proof.
  intros Hi. pose proof (claim_full _ Hi eq_refl) as Hn'. pose proof (body_adv _ Hi eq_refl) as Ha.
  pose proof crit_one as Hc1. pose proof n_le as Hle. unfold step. rewrite Hi, (goto_eq _ _ _ _ _ Hi).
  destruct Hinv as [HN Hd Hh Hn He Hf Hl Ee Ef El Hr Hho]. cbn in Ha.
  pose proof (Hho _ _ _ Hi) as Ht. cbn in Ht. destruct q as [|x q']; [done|]. injection Ht as ->.
  cbn [length] in Hn. rewrite (u32_small (n b - 1)) by (unfold is_u32; lia).
  eexists. split; [done|]. exists q'. split; [done|]. split; [done|].
  in_body Hi (GUnlock out).
  - counted Hi. cbn [adv]. intros k Hk. cbn in Hk. specialize (Hr (k + 1)). cbn [length] in Hr.
    rewrite Ha in Hr. replace (Z.to_nat (k + 1)) with (S (Z.to_nat k)) in Hr by lia.
    change ((out :: q') !! S (Z.to_nat k)) with (q' !! Z.to_nat k) in Hr.
    rewrite <- Hr by lia. f_equal. f_equal. f_equal. lia.
  - by apply (others_out _ _ _ _ _ _ _ _ _ _ _ Hc1 Hi eq_refl).
Qed.

End Step.

Lemma buffer_step_ok q b i : inv q b → ∃ r, step i b = Ret r ∧ step_to q b r.
Proof.
  intros Hinv. destruct (threads b !! i) as [[p rest]|] eqn:Hi.
  2:{ exists None. unfold step. by rewrite Hi. }
  destruct p;
    [by eapply empty_down| |by eapply put_lock| |by eapply put_data|by eapply put_count
    |by eapply put_unlock|by eapply full_up|by eapply full_down| |by eapply get_lock| |by eapply get_data
    |by eapply get_head|by eapply get_count|by eapply get_unlock|by eapply empty_up|];
    exists None; unfold step; by rewrite Hi.
Qed.

(** ** A queue of at most [N] elements *)

Inductive history (N : Z) : list event → list T → Prop :=
| history_nil : history N [] []
| history_entered es q t :
    history N es q → Z.of_nat (length q) < N → history N (es ++ [Entered t]) (q ++ [t])
| history_left es q t : history N es (t :: q) → history N (es ++ [Left t]) q.

Definition entered (es : list event) : list T :=
  omap (λ e, match e with Entered t => Some t | Left _ => None end) es.
Definition left_ (es : list event) : list T :=
  omap (λ e, match e with Left t => Some t | Entered _ => None end) es.

Lemma history_order N es q : history N es q → entered es = left_ es ++ q ∧ (0 <= N → Z.of_nat (length q) <= N).
Proof.
  unfold entered, left_. induction 1 as [|es q t _ [IH Hl] Hn|es q t _ [IH Hl]].
  - split; [done|cbn; lia].
  - rewrite !omap_app, IH. cbn. rewrite app_nil_r, app_assoc. split; [done|].
    intros _. rewrite length_app. cbn. lia.
  - rewrite !omap_app, IH. cbn. rewrite app_nil_r, <- app_assoc. split; [done|].
    intros HN. specialize (Hl HN). cbn in Hl. lia.
Qed.

Lemma history_event N e es q q' :
  history N es q → fifo_event N e q q' → history N (es ++ option_list e) q'.
Proof.
  intros Hh. destruct e as [[t|t]|]; cbn.
  - intros [-> Hl]. by constructor.
  - intros ->. by constructor.
  - intros ->. by rewrite app_nil_r.
Qed.

Lemma make_buffer_inv m garbage calls :
  0 < m <= 2147483648 → Z.of_nat (length garbage) = m → inv [] (make_buffer m garbage calls).
Proof.
  intros Hm Hg. assert (∀ i p rest, (next_call <$> calls) !! i = Some (p, rest) →
    p = Done ∨ (∃ t, p = PEmpty t) ∨ p = GFull) as Hst.
  { intros i p rest. rewrite list_lookup_fmap. destruct (calls !! i) as [c|]; [|done].
    cbn. intros [= E]. destruct (next_call_cases c) as (p1 & r1 & E1 & Hc).
    rewrite E in E1. injection E1 as <- <-. tauto. }
  assert (∀ w a, (∀ p, p = Done ∨ (∃ t, p = PEmpty t) ∨ p = GFull → w p = false) → 0 <= a →
    queued w (Permits a []) (next_call <$> calls)) as Hq.
  { intros w a Hw Ha. split; cbn; [done|done| |constructor]. intros j. split; [set_solver|].
    intros (p & rest & Hj & Hp). specialize (Hst _ _ _ Hj). specialize (Hw _ Hst). congruence. }
  assert (∀ f, f Done = 0%nat → f GFull = 0%nat → (∀ t, f (PEmpty t) = 0%nat) →
    cnt f (next_call <$> calls) = 0) as Hz.
  { intros f H1 H2 H3. apply cnt_zero. intros i p rest Hi.
    destruct (Hst _ _ _ Hi) as [->|[[t ->]| ->]]; auto. }
  split; cbn [make_buffer head n nEmpty nFull lock N data threads]; rewrite ?Hz by done; cbn;
    try done; try lia.
  1-3: apply Hq; [by intros ? [->|[[t ->]| ->]]|lia].
  - intros k Hk. cbn in Hk. lia.
  - intros i p rest Hi. by destruct (Hst _ _ _ Hi) as [->|[[t ->]| ->]].
Qed.

Lemma run_ok m garbage calls es b :
  0 < m <= 2147483648 → Z.of_nat (length garbage) = m → run (make_buffer m garbage calls) es b →
  ∃ q, history m es q ∧ inv q b ∧ N b = m.
Proof.
  intros Hm Hg. remember (make_buffer m garbage calls) as b0 eqn:Eb0.
  induction 1 as [b|b es b1 i e b2 _ IH Hs].
  - subst b. exists []. split; [constructor|]. split; [by apply make_buffer_inv|done].
  - destruct (IH Eb0) as (q & Hh & Hinv & HN). destruct (buffer_step_ok q b1 i Hinv) as (r & E & Hr).
    rewrite Hs in E. injection E as <-. destruct Hr as (q' & He & HN' & Hinv' & _).
    exists q'. rewrite HN in He, HN'. split; [by eapply history_event|]. done.
Qed.

(** A buffer in which nobody can move: every thread has finished or waits for
    what cannot come. *)
Lemma stuck_ok q b :
  inv q b → (∀ i, step i b = Ret None) → ∀ i p rest, threads b !! i = Some (p, rest) →
  p = Done ∨ (∃ t, p = PEmptyWait t) ∧ n b = N b ∨ p = GFullWait ∧ n b = 0.
Proof.
  intros [HN Hd Hh Hn He Hf Hl Ee Ef El Hr Hho] Hs.
  assert (∀ i p rest, threads b !! i = Some (p, rest) →
    p = Done ∨ (∃ t, p = PEmptyWait t) ∨ p = GFullWait ∨ waits_lock p = true) as Hall.
  { intros i p rest Hi. specialize (Hs i). unfold step in Hs. rewrite Hi in Hs.
    destruct p; try discriminate Hs; eauto 6; try (repeat case_match; discriminate Hs).
    - unfold put_cell in Hs. by destruct (data b !! _).
    - unfold cell in Hs. by destruct (data b !! _). }
  assert (∀ f, f Done = 0%nat → (∀ t, f (PEmptyWait t) = 0%nat) → f GFullWait = 0%nat →
    (∀ p, waits_lock p = true → f p = 0%nat) → cnt f (threads b) = 0) as Hz.
  { intros f H1 H2 H3 H4. apply cnt_zero. intros i p rest Hi.
    destruct (Hall _ _ _ Hi) as [->|[[t ->]|[->|?]]]; auto. }
  rewrite (Hz crit) in El by (done || by intros []).
  assert (queue (lock b) = []) as Hlq.
  { destruct (queue (lock b)) eqn:E; [done|]. rewrite (qu_wait _ _ _ Hl) in El by (by rewrite E). lia. }
  assert (∀ i p rest, threads b !! i = Some (p, rest) → waits_lock p = false) as Hnl.
  { intros i p rest Hi. destruct (waits_lock p) eqn:E; [|done].
    assert (i ∈ queue (lock b)) as Hin by (apply (qu_in _ _ _ Hl); eauto). rewrite Hlq in Hin. set_solver. }
  assert (∀ f, f Done = 0%nat → (∀ t, f (PEmptyWait t) = 0%nat) → f GFullWait = 0%nat →
    cnt f (threads b) = 0) as Hz'.
  { intros f H1 H2 H3. apply cnt_zero. intros i p rest Hi. pose proof (Hnl _ _ _ Hi).
    destruct (Hall _ _ _ Hi) as [->|[[t ->]|[->|?]]]; auto; congruence. }
  rewrite (Hz' emp) in Ee by done. rewrite (Hz' ful) in Ef by done.
  intros i p rest Hi. pose proof (Hnl _ _ _ Hi).
  destruct (Hall _ _ _ Hi) as [->|[[t ->]|[->|?]]]; [by left| | |congruence].
  - right; left. split; [eauto|]. assert (i ∈ queue (nEmpty b)) as Hin by (apply (qu_in _ _ _ He); eauto).
    rewrite (qu_wait _ _ _ He) in Ee by (intros E; rewrite E in Hin; set_solver). lia.
  - right; right. split; [done|]. assert (i ∈ queue (nFull b)) as Hin by (apply (qu_in _ _ _ Hf); eauto).
    rewrite (qu_wait _ _ _ Hf) in Ef by (intros E; rewrite E in Hin; set_solver). lia.
Qed.

End Buffer.
Arguments pc : clear implicits.
Arguments op : clear implicits.
Arguments event : clear implicits.
Arguments BoundedBuffer : clear implicits.

(** ** Properties *)

(** C32 (refinement): a [BoundedBuffer(N)] is a queue of at most [N] elements, for
    any number of threads that call [put] and [get] any number of times, in every
    interleaving of their statements. The array is never accessed outside its
    bounds; the elements leave in the order in which they entered, none twice and
    none lost; no more than [N] are inside; every step reduces the steps that are
    left, so that every execution ends; and it ends with all calls finished, or
    with only [put] calls waiting at a full buffer, or only [get] calls at an
    empty one. *)
Theorem bounded_buffer_fifo {T : Type} (m : Z) (garbage : list T) (calls : list (list (op T)))
    (es : list (event T)) (b : BoundedBuffer T)
    (Hm : 0 < m <= 2147483648) (Hg : Z.of_nat (length garbage) = m)
    (Hrun : run (make_buffer m garbage calls) es b) :
  ∃ q, history m es q ∧ entered es = left_ es ++ q ∧ Z.of_nat (length q) <= m ∧
    (∀ i, ∃ r, step i b = Ret r ∧
       ∀ e b', r = Some (e, b') → (total (threads b') < total (threads b))%nat) ∧
    ((∀ i, step i b = Ret None) → ∀ i p rest, threads b !! i = Some (p, rest) →
       p = Done ∨ (∃ t, p = PEmptyWait t) ∧ Z.of_nat (length q) = m ∨ p = GFullWait ∧ q = []).
Proof.
  destruct (run_ok m garbage calls es b Hm Hg Hrun) as (q & Hh & Hinv & HN).
  destruct (history_order m es q Hh) as [Ho Hl].
  exists q. split; [done|]. split; [done|]. split; [apply Hl; lia|]. split.
  - intros i. destruct (buffer_step_ok q b i Hinv) as (r & E & Hr). exists r. split; [done|].
    intros e b' ->. by destruct Hr as (? & _ & _ & _ & ?).
  - intros Hs i p rest Hi. pose proof (iv_n _ _ Hinv) as Hn.
    destruct (stuck_ok q b Hinv Hs i p rest Hi) as [?|[[? E]|[? E]]]; [by left|right; left|right; right].
    + split; [done|]. lia.
    + split; [done|]. destruct q; [done|cbn in Hn; lia].
Qed.

(** One thread has put an element that the other is about to take. *)
Definition demo_buffer : BoundedBuffer Z :=
  MkBuffer 0 1 (Permits 0 []) (Permits 0 []) (Permits 1 []) 1 [7] [(Done, []); (GLock, [])].

Lemma bounded_buffer_fifo_witness :
  ∃ q, run (make_buffer 1 [0] [[Put 7]; [Get]]) [Entered 7] demo_buffer ∧
    history 1 [Entered 7] q ∧ entered [Entered 7] = left_ [Entered 7] ++ q.
Proof.
  assert (Hrun : run (make_buffer 1 [0] [[Put 7]; [Get]]) [Entered 7] demo_buffer).
  { apply (run_step _ [Entered 7] (MkBuffer 0 1 (Permits 0 []) (Permits 1 []) (Permits 1 []) 1 [7]
      [(Done, []); (GFull, [])]) 1 None); [|reflexivity].
    eapply (run_step _ [Entered 7] _ 0 None); [eapply (run_step _ [Entered 7] _ 0 None);
      [eapply (run_step _ [] _ 0 (Some (Entered 7))); [eapply (run_step _ [] _ 0 None);
      [eapply (run_step _ [] _ 0 None); [eapply (run_step _ [] _ 0 None); [apply run_nil|]|]|]|]|]|];
      reflexivity. }
  destruct (bounded_buffer_fifo 1 [0] [[Put 7]; [Get]] [Entered 7] demo_buffer) as (q & H1 & H2 & _).
  - lia.
  - reflexivity.
  - exact Hrun.
  - exists q. split; [exact Hrun|]. split; [exact H1|exact H2].
Defined.
