(* ===== verification/Condition.v ===== *)
(** * Condition variables: src/kernel/condition.h

    A Mesa-style monitor: the threads share [the_lock], whose exclusion is the
    subject of the file Locks, and touch [epoch] and [queue] only while they hold
    it, so that what a thread does between [lock] and [unlock] is one step. [wait]
    is three steps: up to the switch to another thread, the action that [block]
    runs after the switch, and the second [lock]. Between them any thread may do
    anything. *)

From S2P Require Import Prelude Semaphore.
Local Open Scope Z_scope.

(** Where a thread is: without the lock, holding it, switching away in [wait] with
    the epoch it has seen, in the queue, and scheduled but not yet holding the
    lock again. *)
Inductive pc := Out | In | Parking (old_epoch : Z) | Parked | Ready.

#[global] Instance pc_eq_dec : EqDecision pc.
Proof. solve_decision. Defined.

Record Condition := MkCondition {
  the_lock : option nat;
  epoch : Z;
  queue : list nat;
  pcs : list pc;
}.

(** [the_lock->isMine()] tells whether anybody has the lock. *)
Definition isMine (c : Condition) : bool := match the_lock c with Some _ => true | None => false end.

(** [lock], when the lock is free, and [unlock]. *)
Definition lock (i : nat) (c : Condition) : Condition :=
  MkCondition (Some i) (epoch c) (queue c) (<[i := In]> (pcs c)).
Definition unlock (i : nat) (c : Condition) : Condition :=
  MkCondition None (epoch c) (queue c) (<[i := Out]> (pcs c)).

(** [wait], up to the end of [block]'s switch. *)
Definition wait_begin (i : nat) (c : Condition) : outcome Condition :=
  _ ← ASSERT (isMine c) "the_lock->isMine()";
  let old_epoch := epoch c in
  Ret (MkCondition None (epoch c) (queue c) (<[i := Parking old_epoch]> (pcs c))).

(** The action of [block] in [wait], on the stack of the next thread. *)
Definition wait_action (i : nat) (old_epoch : Z) (c : Condition) : outcome Condition :=
  if epoch c =? old_epoch then
    Ret (MkCondition (the_lock c) (epoch c) (queue c ++ [i]) (<[i := Parked]> (pcs c)))
  else
    _ ← ASSERT (old_epoch <? epoch c) "epoch > old_epoch";
    Ret (MkCondition (the_lock c) (epoch c) (queue c) (<[i := Ready]> (pcs c))).

(** [for (i = 0; i < limit; i++)]: every turn takes a thread out of the queue. *)
Fixpoint notify_loop (limit : Z) (queue : list nat) (pcs : list pc) : list nat * list pc :=
  if limit <=? 0 then (queue, pcs)
  else
    match queue with
    | [] => ([], pcs)
    | next :: queue => notify_loop (limit - 1) queue (<[next := Ready]> pcs)
    end.

Definition notify (limit : Z) (c : Condition) : outcome Condition :=
  _ ← ASSERT (isMine c) "the_lock->isMine()";
  let '(q, ps) := notify_loop limit (queue c) (pcs c) in
  let c' := MkCondition (the_lock c) (u64 (epoch c + 1)) q ps in
  _ ← ASSERT (isMine c') "the_lock->isMine()";
  Ret c'.

Definition notifyOne : Condition → outcome Condition := notify 1.
Definition notifyAll : Condition → outcome Condition := notify 18446744073709551615.

(** One step of thread [i]; a [lock] waits until the lock is free. *)
Inductive step (i : nat) : Condition → Condition → Prop :=
| step_lock c :
    pcs c !! i = Some Out → the_lock c = None →
    step i c (lock i c)
| step_unlock c :
    pcs c !! i = Some In →
    step i c (unlock i c)
| step_wait c c' : pcs c !! i = Some In → wait_begin i c = Ret c' → step i c c'
| step_action c c' e :
    pcs c !! i = Some (Parking e) → the_lock c = None → wait_action i e c = Ret c' → step i c c'
| step_resume c :
    pcs c !! i = Some Ready → the_lock c = None →
    step i c (lock i c)
| step_notify c c' limit :
    pcs c !! i = Some In → 0 <= limit < 18446744073709551616 → notify limit c = Ret c' → step i c c'.

Definition init (n : nat) : Condition := MkCondition None 0 [] (replicate n Out).

(** The states that [n] threads reach in [k] steps. *)
Inductive reaches (n : nat) : nat → Condition → Prop :=
| reaches_init : reaches n 0 (init n)
| reaches_step k c i c' : reaches n k c → step i c c' → reaches n (S k) c'.

(** ** Invariant *)

Record inv (k : Z) (c : Condition) : Prop := Inv {
  iv_owner i : the_lock c = Some i ↔ pcs c !! i = Some In;
  iv_epoch : 0 <= epoch c <= k;
  iv_old i e : pcs c !! i = Some (Parking e) → 0 <= e <= epoch c;
  iv_queue i : i ∈ queue c ↔ pcs c !! i = Some Parked;
  iv_nodup : NoDup (queue c);
}.

(** A waiting thread that the next steps of its own, and no other, bring back to
    the lock: nobody has to notify it again. *)
Definition awake (c : Condition) (i : nat) : Prop :=
  pcs c !! i = Some Ready ∨ ∃ e, pcs c !! i = Some (Parking e) ∧ e ≠ epoch c.

Definition waiting (c : Condition) (i : nat) : Prop :=
  pcs c !! i = Some Parked ∨ pcs c !! i = Some Ready ∨ ∃ e, pcs c !! i = Some (Parking e).

Lemma set_pcs (ps : list pc) (i j : nat) (p p' : pc) :
  ps !! i = Some p → <[i := p']> ps !! j = if decide (i = j) then Some p' else ps !! j.
Proof.
  intros Hi. destruct (decide (i = j)) as [<-|Hne].
  - apply list_lookup_insert_eq. by eapply lookup_lt_Some.
  - by apply list_lookup_insert_ne.
Qed.

(** The threads that a notification takes out are the first ones. *)
Lemma notify_loop_ok limit q ps :
  NoDup q → (∀ i, i ∈ q → is_Some (ps !! i)) →
  ∃ n ps', notify_loop limit q ps = (drop n q, ps') ∧ n = Nat.min (Z.to_nat limit) (length q) ∧
    ∀ j, ps' !! j = if decide (j ∈ take n q) then Some Ready else ps !! j.
Proof.
  revert limit ps. induction q as [|t q IH]; intros limit ps Hn Hq; cbn [notify_loop].
  - exists 0%nat, ps. split; [by destruct (limit <=? 0)|]. split; [cbn; lia|done].
  - destruct (Z.leb_spec limit 0) as [Hz|Hp].
    + exists 0%nat, ps. split; [done|]. split; [lia|done].
    + apply NoDup_cons in Hn as [Ht Hn]. destruct (Hq t) as [p Hp']; [by left|].
      destruct (IH (limit - 1) (<[t := Ready]> ps) Hn) as (n & ps' & -> & -> & H).
      { intros i Hi. rewrite (set_pcs _ _ _ _ _ Hp'). destruct (decide (t = i)); [by eexists|].
        apply Hq. by right. }
      eexists (S _), ps'. split; [done|]. split; [cbn; lia|]. intros j. rewrite H.
      rewrite (set_pcs _ _ _ _ _ Hp'). cbn [take].
      destruct (decide (t = j)) as [->|Hne].
      * rewrite (decide_True (P := j ∈ j :: _)) by (by left). by destruct (decide _).
      * destruct (decide (j ∈ take _ q)) as [Hi|Hi].
        -- by rewrite decide_True by (by right).
        -- rewrite decide_False; [done|]. by intros [->|?]%elem_of_cons.
Qed.

Lemma queue_live k c i : inv k c → i ∈ queue c → is_Some (pcs c !! i).
Proof. intros Hinv Hi%(iv_queue _ _ Hinv). by eexists. Qed.

(** Nobody holds a free lock; the holder is alone. *)
Lemma nobody_in k c i : inv k c → the_lock c = None → pcs c !! i ≠ Some In.
Proof. intros Hinv Hl Hi%(iv_owner _ _ Hinv). congruence. Qed.

Lemma only_in k c i j : inv k c → pcs c !! i = Some In → pcs c !! j = Some In → i = j.
Proof. intros Hinv Hi%(iv_owner _ _ Hinv) Hj%(iv_owner _ _ Hinv). congruence. Qed.

(** A thread that is not in the queue moves to a place that is not the queue. *)
Lemma inv_goto k c i p p' l :
  inv k c → pcs c !! i = Some p → p ≠ Parked → p' ≠ Parked →
  (∀ e, p' = Parking e → e = epoch c) →
  (∀ j, l = Some j ↔ if decide (i = j) then p' = In else pcs c !! j = Some In) →
  inv (k + 1) (MkCondition l (epoch c) (queue c) (<[i := p']> (pcs c))).
Proof.
  intros [Ho He Hold Hq Hn] Hi Hp Hp' Hpe Hl. split; cbn; [|lia| | |done].
  - intros j. rewrite Hl, (set_pcs _ _ _ _ _ Hi). destruct (decide (i = j)); [|done]. naive_solver.
  - intros j e. rewrite (set_pcs _ _ _ _ _ Hi). destruct (decide (i = j)) as [<-|]; [|by apply Hold].
    intros [= E]. rewrite (Hpe e E). lia.
  - intros j. rewrite Hq, (set_pcs _ _ _ _ _ Hi). destruct (decide (i = j)) as [<-|]; [|done].
    rewrite Hi. split; congruence.
Qed.

Lemma holder_mine i c : the_lock c = Some i → isMine c = true.
Proof. unfold isMine. by intros ->. Qed.

Lemma notify_ok k c i limit :
  inv k c → k + 1 < 18446744073709551616 → pcs c !! i = Some In →
  ∃ n ps, notify limit c =
      Ret (MkCondition (the_lock c) (epoch c + 1) (drop n (queue c)) ps) ∧
    n = Nat.min (Z.to_nat limit) (length (queue c)) ∧
    (∀ j, ps !! j = if decide (j ∈ take n (queue c)) then Some Ready else pcs c !! j) ∧
    inv (k + 1) (MkCondition (the_lock c) (epoch c + 1) (drop n (queue c)) ps).
Proof.
  intros Hinv Hk Hi. pose proof Hinv as [Ho He Hold Hq Hn]. pose proof (proj2 (Ho i) Hi) as Hl.
  unfold notify. rewrite (holder_mine i) by done. cbn [ASSERT mbind outcome_bind].
  destruct (notify_loop_ok limit (queue c) (pcs c) Hn) as (n & ps & -> & En & Hps).
  { intros j. by apply (queue_live k). }
  rewrite (holder_mine i) by done. cbn [ASSERT mbind outcome_bind].
  rewrite u64_small by lia. exists n, ps. do 3 (split; [done|]).
  assert (∀ j, j ∈ take n (queue c) → pcs c !! j = Some Parked) as Ht.
  { intros j Hj. apply Hq. rewrite <- (take_drop n). apply elem_of_app. by left. }
  split; cbn; [|lia| | |by rewrite <- (take_drop n) in Hn; apply NoDup_app in Hn as (_ & _ & ?)].
  - intros j. rewrite Ho, Hps. destruct (decide _) as [Hj|Hj]; [|done]. rewrite (Ht j Hj). split; congruence.
  - intros j e. rewrite Hps. destruct (decide _); [done|]. intros Hj%Hold. lia.
  - intros j. rewrite Hps. rewrite <- (take_drop n (queue c)) in Hn.
    apply NoDup_app in Hn as (_ & Hd & _). destruct (decide _) as [Hj|Hj].
    + split; [|done]. intros Hj'. by destruct (Hd j Hj).
    + rewrite <- Hq. rewrite <- (take_drop n (queue c)) at 2. rewrite elem_of_app. tauto.
Qed.

Lemma wait_begin_ok k c i : inv k c → pcs c !! i = Some In →
  ∃ c', wait_begin i c = Ret c' ∧ inv (k + 1) c' ∧ waiting c' i.
Proof.
  intros Hinv Hi. pose proof (proj2 (iv_owner _ _ Hinv i) Hi) as Hl.
  unfold wait_begin. rewrite (holder_mine i) by done. eexists. split; [done|]. split.
  - apply (inv_goto _ _ _ _ _ _ Hinv Hi); try done; [by intros e [= <-]|].
    intros j. split; [done|]. destruct (decide (i = j)) as [<-|Hne]; [done|].
    intros Hj. by destruct Hne; eapply (only_in _ _ _ _ Hinv).
  - right; right. exists (epoch c). cbn. rewrite (set_pcs _ _ _ _ _ Hi). by rewrite decide_True.
Qed.

Lemma wait_action_ok k c i e : inv k c → pcs c !! i = Some (Parking e) → the_lock c = None →
  ∃ c', wait_action i e c = Ret c' ∧ inv (k + 1) c' ∧
    pcs c' = <[i := if epoch c =? e then Parked else Ready]> (pcs c) ∧ epoch c' = epoch c ∧
    queue c' = if epoch c =? e then queue c ++ [i] else queue c.
Proof.
  intros Hinv Hi Hl. pose proof (iv_old _ _ Hinv i e Hi) as Hold. unfold wait_action.
  destruct (Z.eqb_spec (epoch c) e) as [E|E].
  - eexists. split; [done|]. split; [|done]. pose proof Hinv as [Ho He Ho' Hq Hn]. split; cbn; [|lia| | |].
    + intros j. rewrite Ho, (set_pcs _ _ _ _ _ Hi). destruct (decide (i = j)) as [<-|]; [|done].
      rewrite Hi. split; congruence.
    + intros j e'. rewrite (set_pcs _ _ _ _ _ Hi). destruct (decide (i = j)); [done|apply Ho'].
    + intros j. rewrite elem_of_app, list_elem_of_singleton, Hq, (set_pcs _ _ _ _ _ Hi).
      destruct (decide (i = j)) as [<-|]; [tauto|]. split; [|tauto]. intros [?|?]; congruence.
    + apply NoDup_app. split; [done|]. split; [|apply NoDup_singleton].
      intros x Hx%Hq ->%list_elem_of_singleton. congruence.
  - rewrite (proj2 (Z.ltb_lt e (epoch c))) by lia. eexists. split; [done|]. split; [|done].
    apply (inv_goto _ _ _ _ _ _ Hinv Hi); try done.
    intros j. rewrite (iv_owner _ _ Hinv). destruct (decide (i = j)) as [<-|]; [|done]. rewrite Hi.
    split; congruence.
Qed.

Lemma condition_step_inv k c i c' :
  inv k c → k + 1 < 18446744073709551616 → step i c c' → inv (k + 1) c'.
Proof.
  intros Hinv Hk Hs. destruct Hs as [c Hi Hl|c Hi|c c' Hi E|c c' e Hi Hl E|c Hi Hl|c c' limit Hi Hlim E].
  - apply (inv_goto _ _ _ _ _ _ Hinv Hi); try done. intros j.
    destruct (decide (i = j)) as [<-|Hne]; [done|]. split; [congruence|].
    intros Hj. by destruct (nobody_in _ _ j Hinv Hl).
  - apply (inv_goto _ _ _ _ _ _ Hinv Hi); try done. intros j. split; [done|].
    destruct (decide (i = j)) as [<-|Hne]; [done|].
    intros Hj. by destruct Hne; eapply (only_in _ _ _ _ Hinv).
  - destruct (wait_begin_ok k c i Hinv Hi) as (c1 & E1 & H1 & _). congruence.
  - destruct (wait_action_ok k c i e Hinv Hi Hl) as (c1 & E1 & H1 & _). congruence.
  - apply (inv_goto _ _ _ _ _ _ Hinv Hi); try done. intros j.
    destruct (decide (i = j)) as [<-|Hne]; [done|]. split; [congruence|].
    intros Hj. by destruct (nobody_in _ _ j Hinv Hl).
  - destruct (notify_ok k c i limit Hinv Hk Hi) as (n & ps & E1 & _ & _ & H1). congruence.
Qed.

Lemma condition_reach_inv n k c :
  reaches n k c → Z.of_nat k < 18446744073709551616 → inv (Z.of_nat k) c.
Proof.
  induction 1 as [|k c i c' _ IH Hs]; intros Hk.
  - assert (∀ (i : nat) p, replicate n Out !! i = Some p → p = Out) as Hr.
    { intros i p Hp. by apply lookup_replicate in Hp as [-> _]. }
    split; cbn; [|lia| | |constructor].
    + intros i. split; [done|]. by intros Hi%Hr.
    + by intros i e Hi%Hr.
    + intros i. split; [set_solver|]. by intros Hi%Hr.
  - rewrite Nat2Z.inj_succ. apply (condition_step_inv _ c i); [apply IH; lia|lia|done].
Qed.

(** A thread that is awake stays awake until it holds the lock again. *)
Lemma awake_step k c c' t j :
  inv k c → k + 1 < 18446744073709551616 → awake c j → step t c c' →
  awake c' j ∨ pcs c' !! j = Some In.
Proof.
  intros Hinv Hk Haw Hs.
  assert (pcs c !! j ≠ Some Out ∧ pcs c !! j ≠ Some In ∧ pcs c !! j ≠ Some Parked) as (Hno & Hni & Hnp).
  { destruct Haw as [H|(e & H & _)]; rewrite H; done. }
  assert (∀ l p, t ≠ j → awake (MkCondition l (epoch c) (queue c) (<[t := p]> (pcs c))) j) as Hother.
  { intros l p Hne. unfold awake. cbn. rewrite list_lookup_insert_ne by done. exact Haw. }
  destruct Hs as [c Hi Hl|c Hi|c c' Hi E|c c' e Hi Hl E|c Hi Hl|c c' limit Hi Hlim E].
  - left. apply Hother. congruence.
  - left. apply Hother. congruence.
  - left. unfold wait_begin in E. rewrite (holder_mine t) in E by (by apply (iv_owner _ _ Hinv)).
    injection E as <-. apply Hother. congruence.
  - left. destruct (wait_action_ok k c t e Hinv Hi Hl) as (c1 & E1 & _ & Hp & He & _).
    assert (c1 = c') as -> by congruence. unfold awake. rewrite Hp, He, (set_pcs _ _ _ _ _ Hi).
    destruct (decide (t = j)) as [<-|Hne]; [|exact Haw]. left.
    destruct Haw as [H|(e' & H & Hne)]; [congruence|]. assert (e' = e) as -> by congruence.
    by rewrite (proj2 (Z.eqb_neq _ _)) by congruence.
  - destruct (decide (t = j)) as [<-|Hne]; [right|left; by apply Hother].
    cbn. rewrite (set_pcs _ _ _ _ _ Hi). by rewrite decide_True.
  - left. destruct (notify_ok k c t limit Hinv Hk Hi) as (n & ps & E1 & _ & Hps & _).
    rewrite E in E1. injection E1 as ->. unfold awake. cbn. rewrite Hps.
    assert (j ∉ take n (queue c)) as Hj.
    { intros Hj. apply Hnp, (iv_queue _ _ Hinv). rewrite <- (take_drop n). apply elem_of_app. by left. }
    rewrite decide_False by done. destruct Haw as [H|(e & H & Hne)]; [by left|right].
    exists e. split; [done|]. pose proof (iv_old _ _ Hinv j e H). lia.
Qed.

Lemma same_length {A B} (l : list A) (k : list B) :
  (∀ j, l !! j = None ↔ k !! j = None) → length l = length k.
Proof.
  intros Hlk. apply Nat.le_antisymm; apply lookup_ge_None; apply Hlk; by apply lookup_ge_None.
Qed.

(** The bound of the invariant is only one on the epoch. *)
Lemma inv_bound k k' c : inv k c → epoch c <= k' → inv k' c.
Proof. intros [Ho He Hold Hq Hn] Hk. split; [done|lia|done..]. Qed.

(** [notifyAll] leaves nobody in the queue, which always fits its limit. *)
Lemma notifyAll_ok k c i :
  inv k c → k + 1 < 18446744073709551616 → pcs c !! i = Some In →
  Z.of_nat (length (queue c)) < 18446744073709551616 →
  ∃ c', notifyAll c = Ret c' ∧ inv (k + 1) c' ∧ epoch c' = epoch c + 1 ∧ pcs c' !! i = Some In ∧
    length (pcs c') = length (pcs c) ∧ ∀ j, pcs c' !! j = if decide (pcs c !! j = Some Parked) then Some Ready else pcs c !! j.
Proof.
  intros Hinv Hk Hi Hlen.
  destruct (notify_ok k c i 18446744073709551615 Hinv Hk Hi) as (m & ps & E & Em & Hps & H1).
  assert (take m (queue c) = queue c) as Ht by (apply take_ge; lia). rewrite Ht in Hps.
  assert (Hall : ∀ j, ps !! j = if decide (pcs c !! j = Some Parked) then Some Ready else pcs c !! j).
  { intros j. rewrite Hps. apply decide_ext, (iv_queue _ _ Hinv). }
  eexists. split; [exact E|]. split; [exact H1|]. split; [done|]. split; [by cbn; rewrite Hall, Hi|].
  split; [|exact Hall]. apply same_length. intros j. cbn. rewrite Hall. destruct (decide _) as [E'|]; [|done].
  by rewrite E'.
Qed.

(** ** Properties *)

(** C33 (liveness): condition variables miss no signal, and their assertions hold.
    In every state that any number of threads reach (in fewer than [2^64]
    steps): the holder of the lock can call [notify] and [wait]; [notify(limit)]
    keeps the lock and wakes the first [limit] threads of the queue, and every
    thread that has released the lock in [wait] without having reached the queue;
    with room for the whole queue, as in [notifyAll], it wakes every thread that
    waits. A thread that is awake stays so, whatever the others do, until it
    holds the lock, and it can move on whenever the lock is free. *)
Theorem condition_no_missed_signal (n k : nat) (c : Condition)
    (Hr : reaches n k c) (Hk : Z.of_nat k + 1 < 18446744073709551616) :
  (∀ i limit, pcs c !! i = Some In → 0 <= limit →
     ∃ c', notify limit c = Ret c' ∧ the_lock c' = Some i ∧
       queue c' = drop (Z.to_nat limit) (queue c) ∧
       (∀ j, j ∈ take (Z.to_nat limit) (queue c) → awake c' j) ∧
       (∀ j e, pcs c !! j = Some (Parking e) → awake c' j) ∧
       (Z.of_nat (length (queue c)) <= limit → ∀ j, waiting c j → awake c' j)) ∧
  (∀ i, pcs c !! i = Some In → ∃ c', wait_begin i c = Ret c' ∧ waiting c' i) ∧
  (∀ i c' j, step i c c' → awake c j → awake c' j ∨ pcs c' !! j = Some In) ∧
  (∀ j, awake c j → the_lock c = None → ∃ c', step j c c' ∧
     (pcs c' !! j = Some In ∨ pcs c' !! j = Some Ready)).
Proof.
  pose proof (condition_reach_inv n k c Hr ltac:(lia)) as Hinv. split; [|split; [|split]].
  - intros i limit Hi Hlim. destruct (notify_ok _ c i limit Hinv Hk Hi) as (m & ps & E & Em & Hps & _).
    eexists. split; [done|]. cbn. split; [by apply (iv_owner _ _ Hinv)|].
    assert (drop m (queue c) = drop (Z.to_nat limit) (queue c) ∧
            take m (queue c) = take (Z.to_nat limit) (queue c)) as [Hd Ht].
    { rewrite Em. destruct (Nat.min_spec (Z.to_nat limit) (length (queue c))) as [[_ ->]|[? ->]]; [done|].
      by rewrite drop_all, drop_ge, firstn_all, take_ge by lia. }
    rewrite Hd, Ht in *.
    assert (∀ j, j ∈ take (Z.to_nat limit) (queue c) → ps !! j = Some Ready) as Hready.
    { intros j Hj. by rewrite Hps, decide_True. }
    assert (∀ j e, pcs c !! j = Some (Parking e) → ps !! j = Some (Parking e) ∧ e ≠ epoch c + 1) as Hpark.
    { intros j e Hj. pose proof (iv_old _ _ Hinv j e Hj). split; [|lia]. rewrite Hps.
      rewrite decide_False; [done|]. intros Hjq.
      assert (j ∈ queue c) as Hq by (rewrite <- (take_drop (Z.to_nat limit)); apply elem_of_app; by left).
      apply (iv_queue _ _ Hinv) in Hq. congruence. }
    split; [done|]. split; [intros j Hj; left; by apply Hready|]. split.
    + intros j e Hj. right. exists e. by apply Hpark.
    + intros Hlen j [Hj|[Hj|[e Hj]]].
      * left. apply Hready. rewrite take_ge by lia. by apply (iv_queue _ _ Hinv).
      * left. cbn. rewrite Hps. by destruct (decide _).
      * right. exists e. by apply Hpark.
  - intros i Hi. destruct (wait_begin_ok _ c i Hinv Hi) as (c' & E & _ & Hw). eauto.
  - intros i c' j Hs Haw. by eapply awake_step.
  - intros j [Hj|(e & Hj & Hne)] Hl.
    + eexists. split; [by apply step_resume|]. left. cbn. by rewrite (set_pcs _ _ _ _ _ Hj), decide_True.
    + destruct (wait_action_ok _ c j e Hinv Hj Hl) as (c' & E & _ & Hp & _ & _). exists c'.
      split; [by eapply step_action|]. right. rewrite Hp, (set_pcs _ _ _ _ _ Hj), decide_True by done.
      by rewrite (proj2 (Z.eqb_neq _ _)) by congruence.
Qed.

(** Thread 0 is switching away in [wait] when thread 1 notifies. *)
Definition demo_condition : Condition := MkCondition (Some 1%nat) 0 [] [Parking 0; In].

Lemma condition_no_missed_signal_witness :
  ∃ c', notifyAll demo_condition = Ret c' ∧ awake c' 0.
Proof.
  destruct (condition_no_missed_signal 2 3 demo_condition) as [H _].
  - eapply reaches_step with (i := 1%nat); [eapply reaches_step with (i := 0%nat);
      [eapply reaches_step with (i := 0%nat); [apply reaches_init|]|]|].
    + by apply (step_lock 0 (init 2)).
    + by apply (step_wait 0 _ (MkCondition None 0 [] [Parking 0; Out])).
    + by apply (step_lock 1 (MkCondition None 0 [] [Parking 0; Out])).
  - lia.
  - destruct (H 1%nat 18446744073709551615) as (c' & E & _ & _ & _ & Hp & _); [reflexivity|lia|].
    exists c'. split; [exact E|]. by apply (Hp 0%nat 0).
Defined.
