(* ===== verification/ReusableBarrier.v ===== *)
(** * Reusable barriers: src/kernel/barrier.h

    [ReusableBarrier] is a client of condition variables: its counters are
    touched only by the holder of the lock that it shares with its condition, so
    that a critical section is one step, and [wait] is the steps of file
    Condition. The theorem is about threads that call [sync] again and again. *)

From S2P Require Import Prelude Semaphore Condition.
Local Open Scope Z_scope.

(** Where a thread is: with that many calls of [sync] to make; holding the lock in
    a call, with that many to make after it; in the loop with the epoch it has
    seen, and that many calls after this one. *)
Inductive place := Start (calls : nat) | Entered (after : nat) | Looping (t : Z) (after : nat).

Record ReusableBarrier := MkReusableBarrier {
  newEpoch : Condition;
  initial_count : Z;
  count : Z;
  epoch : Z;
  places : list place;
}.

Definition make_barrier (initial : Z) (threads calls : nat) : ReusableBarrier :=
  MkReusableBarrier (Condition.init threads) initial initial 0 (replicate threads (Start calls)).

(** The thread [i] moves to [p], and the condition changes to [c]. *)
Definition goto (i : nat) (p : place) (c : Condition) (b : ReusableBarrier) : ReusableBarrier :=
  MkReusableBarrier c (initial_count b) (count b) (epoch b) (<[i := p]> (places b)).

(** [while (epoch <= t) newEpoch.wait();] and [the_lock->unlock()], as far as the
    thread keeps the lock. *)
Definition sync_loop (i : nat) (t : Z) (after : nat) (b : ReusableBarrier) : outcome ReusableBarrier :=
  if epoch b <=? t then
    c ← wait_begin i (newEpoch b);
    Ret (goto i (Looping t after) c b)
  else Ret (goto i (Start after) (unlock i (newEpoch b)) b).

(** [sync] after [the_lock->lock()]. *)
Definition sync_enter (i after : nat) (b : ReusableBarrier) : outcome ReusableBarrier :=
  _ ← ASSERT (negb (count b =? 0)) "count != 0";
  let t := epoch b in
  let n := u32 (count b - 1) in
  if n =? 0 then
    c ← notifyAll (newEpoch b);
    Ret (goto i (Start after) (unlock i c)
           (MkReusableBarrier c (initial_count b) (initial_count b) (u64 (epoch b + 1)) (places b)))
  else
    sync_loop i t after (MkReusableBarrier (newEpoch b) (initial_count b) n (epoch b) (places b)).

(** The next step of thread [i]; [None] when it has to wait or has ended. *)
Definition step (i : nat) (b : ReusableBarrier) : outcome (option ReusableBarrier) :=
  let c := newEpoch b in
  match places b !! i with
  | None | Some (Start O) => Ret None
  | Some (Start (S after)) =>
      match the_lock c with
      | None => Ret (Some (goto i (Entered after) (lock i c) b))
      | Some _ => Ret None
      end
  | Some (Entered after) => b ← sync_enter i after b; Ret (Some b)
  | Some (Looping t after) =>
      match pcs c !! i, the_lock c with
      | Some In, _ => b ← sync_loop i t after b; Ret (Some b)
      | Some (Parking e), None =>
          c ← wait_action i e c;
          Ret (Some (goto i (Looping t after) c b))
      | Some Ready, None => Ret (Some (goto i (Looping t after) (lock i c) b))
      | _, _ => Ret None
      end
  end.

Definition steps : ReusableBarrier → ReusableBarrier → Prop :=
  star (λ b b', ∃ i, step i b = Ret (Some b')).

(** The calls that a thread, which makes [calls] of them, has returned from, and
    those in which it has been counted. *)
Definition returned (calls : nat) (p : place) : Z :=
  match p with
  | Start k => Z.of_nat calls - Z.of_nat k
  | Entered k | Looping _ k => Z.of_nat calls - Z.of_nat k - 1
  end.

Definition arrived (calls : nat) (p : place) : Z :=
  match p with Looping _ k => Z.of_nat calls - Z.of_nat k | _ => returned calls p end.

(** ** Invariant *)

(** Where a thread is in the condition while the barrier is in epoch [e]. *)
Definition place_ok (calls : nat) (e : Z) (p : place) (q : pc) : Prop :=
  match p with
  | Start k => Z.of_nat k + e = Z.of_nat calls ∧ q = Out
  | Entered k => Z.of_nat k + 1 + e = Z.of_nat calls ∧ q = In
  | Looping t k => Z.of_nat k + 1 + t = Z.of_nat calls ∧
      (t = e ∧ (q = Parking e ∨ q = Parked) ∨ t = e - 1 ∧ (q = Parking t ∨ q = Ready ∨ q = In))
  end.

(** The threads that wait for the current epoch to end. *)
Definition waiting_for (e : Z) (p : place) : nat :=
  match p with Looping t _ => if t =? e then 1 else 0 | _ => 0 end.

Record inv (n calls : nat) (b : ReusableBarrier) : Prop := Inv {
  iv_cond : Condition.inv (epoch b) (newEpoch b);
  iv_epoch : Condition.epoch (newEpoch b) = epoch b;
  iv_initial : initial_count b = Z.of_nat n;
  iv_count : count b + Z.of_nat (sum_list_with (waiting_for (epoch b)) (places b)) = Z.of_nat n;
  iv_open : 1 <= count b;
  iv_len : length (places b) = n;
  iv_pcs : length (pcs (newEpoch b)) = n;
  iv_places i p q : places b !! i = Some p → pcs (newEpoch b) !! i = Some q →
    place_ok calls (epoch b) p q;
  iv_calls : 0 <= epoch b <= Z.of_nat calls;
}.

(** ** Lemmas *)

(** What is left to do, each call being at most six steps. *)
Definition weight (p : option place) (q : option pc) : nat :=
  match p with
  | None => 0
  | Some (Start k) => 6 * k
  | Some (Entered k) => 6 * k + 5
  | Some (Looping _ k) =>
      6 * k + match q with Some (Parking _) => 4 | Some Parked => 3 | Some Ready => 2 | _ => 1 end
  end.

Definition work (b : ReusableBarrier) : nat :=
  sum_list_with (λ i, weight (places b !! i) (pcs (newEpoch b) !! i)) (seq 0 (length (places b))).

Lemma waiting_le e p : (waiting_for e p <= 1)%nat.
Proof. destruct p; cbn; [lia..|]. destruct (_ =? _); lia. Qed.

Lemma thread_pc n calls b i p :
  inv n calls b → places b !! i = Some p →
  ∃ q, pcs (newEpoch b) !! i = Some q ∧ place_ok calls (epoch b) p q.
Proof.
  intros Hb Hp. destruct (lookup_lt_is_Some_2 (pcs (newEpoch b)) i) as [q Hq].
  - rewrite (iv_pcs _ _ _ Hb), <- (iv_len _ _ _ Hb). by eapply lookup_lt_Some.
  - exists q. split; [done|]. by eapply iv_places.
Qed.

(** Thread [i] moves without ending the epoch. *)
Lemma place_moves n calls b i p p' q' c' cnt :
  inv n calls b → places b !! i = Some p →
  Condition.inv (epoch b) c' → Condition.epoch c' = epoch b →
  pcs c' = <[i := q']> (pcs (newEpoch b)) → place_ok calls (epoch b) p' q' →
  cnt + Z.of_nat (waiting_for (epoch b) p') = count b + Z.of_nat (waiting_for (epoch b) p) → 1 <= cnt →
  inv n calls (goto i p' c' (MkReusableBarrier (newEpoch b) (initial_count b) cnt (epoch b) (places b))).
Proof.
  intros [Hc He Hi Hn Ho Hl Hlp Hp Hk] Hpi Hc' He' Hq Hok Hcnt Hcnt1.
  pose proof (sum_insert (waiting_for (epoch b)) _ _ _ p' Hpi).
  split; cbn; [done|done|done|lia|done|by rewrite length_insert|by rewrite Hq, length_insert| |done].
  rewrite Hq. intros j x y. destruct (decide (i = j)) as [<-|Hne].
  - apply lookup_lt_Some in Hpi. rewrite !list_lookup_insert_eq by lia. by intros [= <-] [= <-].
  - rewrite !list_lookup_insert_ne by done. apply Hp.
Qed.

Lemma work_goto n calls b i p p' q q' c' cnt :
  inv n calls b → places b !! i = Some p → pcs (newEpoch b) !! i = Some q →
  pcs c' = <[i := q']> (pcs (newEpoch b)) → (weight (Some p') (Some q') < weight (Some p) (Some q))%nat →
  (work (goto i p' c' (MkReusableBarrier (newEpoch b) (initial_count b) cnt (epoch b) (places b))) < work b)%nat.
Proof.
  intros Hb Hp Hq Hc Hw. unfold work. cbn [places goto newEpoch]. rewrite length_insert.
  pose proof (lookup_lt_Some _ _ _ Hp) as Hlt. pose proof (lookup_lt_Some _ _ _ Hq).
  apply sum_lt with i.
  - apply elem_of_seq. lia.
  - rewrite Hc, !list_lookup_insert_eq by done. by rewrite Hp, Hq.
  - intros j. rewrite Hc. destruct (decide (i = j)) as [<-|Hne].
    + rewrite !list_lookup_insert_eq by done. rewrite Hp, Hq. lia.
    + by rewrite !list_lookup_insert_ne.
Qed.

(** The condition's steps leave its epoch, which bounds the invariant. *)
Lemma cond_step n calls b i c' :
  inv n calls b → Z.of_nat calls < 18446744073709551615 → Condition.step i (newEpoch b) c' →
  Condition.epoch c' = epoch b → Condition.inv (epoch b) c'.
Proof.
  intros Hb Hk Hs He. apply (inv_bound (epoch b + 1)); [|lia].
  apply (condition_step_inv _ (newEpoch b) i); [apply Hb| |done]. pose proof (iv_calls _ _ _ Hb). lia.
Qed.

Lemma queue_short n calls b : inv n calls b → (length (queue (newEpoch b)) <= n)%nat.
Proof.
  intros Hb. rewrite <- (length_seq n 0). apply submseteq_length, NoDup_submseteq.
  - apply (iv_nodup _ _ (iv_cond _ _ _ Hb)).
  - intros i Hi%(iv_queue _ _ (iv_cond _ _ _ Hb)). apply elem_of_seq.
    apply lookup_lt_Some in Hi. rewrite (iv_pcs _ _ _ Hb) in Hi. lia.
Qed.

(** When the last thread has come all the others wait for it. *)
Lemma others_wait n calls b i after j p :
  inv n calls b → count b = 1 → places b !! i = Some (Entered after) → j ≠ i → places b !! j = Some p →
  ∃ k, p = Looping (epoch b) k.
Proof.
  intros Hb H1 Hi Hne Hj. pose proof (iv_count _ _ _ Hb) as Hc.
  pose proof (sum_insert (waiting_for (epoch b)) _ _ _ (Looping (epoch b) 0) Hi) as Hs.
  cbn [waiting_for] in Hs. rewrite Z.eqb_refl in Hs.
  assert (Hp : waiting_for (epoch b) p = 1%nat).
  { apply (sum_all_ones _ (<[i := Looping (epoch b) 0]> (places b)) (waiting_le _)) with j.
    - rewrite length_insert, (iv_len _ _ _ Hb). lia.
    - by rewrite list_lookup_insert_ne. }
  destruct p as [k|k|t k]; [done..|]. cbn in Hp. destruct (Z.eqb_spec t (epoch b)) as [->|]; [by exists k|done].
Qed.

Section Steps.
Context (n calls : nat).
Hypothesis Hn : 0 < Z.of_nat n < 4294967296.
Hypothesis Hcalls : Z.of_nat calls < 18446744073709551615.

(** What a step of thread [i] may do: lead on, or wait for another thread. *)
Definition step_done (i : nat) (b : ReusableBarrier) : Prop :=
  (∃ b', step i b = Ret (Some b') ∧ inv n calls b' ∧ (work b' < work b)%nat) ∨
  step i b = Ret None ∧ (the_lock (newEpoch b) = None →
    ∀ p, places b !! i = Some p → p = Start 0 ∨ ∃ k, p = Looping (epoch b) k).

(** The state after the last thread [i] of an epoch has woken all others, with [c]
    the condition after [notifyAll]. *)
Definition round_over (i after : nat) (c : Condition) (b : ReusableBarrier) : ReusableBarrier :=
  goto i (Start after) (unlock i c)
    (MkReusableBarrier c (initial_count b) (initial_count b) (epoch b + 1) (places b)).

Section Last.
Context (b : ReusableBarrier) (i after : nat) (c : Condition).
Hypothesis Hb : inv n calls b.
Hypothesis Hi : places b !! i = Some (Entered after).
Hypothesis H1 : count b = 1.
Hypothesis Hps : ∀ j, pcs c !! j =
  if decide (pcs (newEpoch b) !! j = Some Parked) then Some Ready else pcs (newEpoch b) !! j.

(** Where the others are then. *)
Lemma woken_place j p q :
  places b !! j = Some p → j ≠ i → pcs c !! j = Some q →
  place_ok calls (epoch b + 1) p q ∧ waiting_for (epoch b + 1) p = 0%nat.
Proof using Hb Hi H1 Hps Hn Hcalls.
  intros Hj Hne. rewrite Hps. destruct (others_wait _ _ _ _ _ _ _ Hb H1 Hi Hne Hj) as [k ->].
  destruct (thread_pc _ _ _ _ _ Hb Hj) as (q0 & Hq0 & Hok). rewrite Hq0. cbn in *.
  rewrite (proj2 (Z.eqb_neq _ _)) by lia. intros Hqq. split; [|done]. split; [lia|]. right. split; [lia|].
  destruct Hok as (_ & [[_ [->| ->]]|[? _]]); [| |lia]; rewrite ?decide_True in Hqq by done;
    [rewrite decide_False in Hqq by done|]; injection Hqq as <-; tauto.
Qed.

Lemma nobody_waits : sum_list_with (waiting_for (epoch b + 1)) (<[i := Start after]> (places b)) = 0%nat.
Proof using Hb Hi H1 Hps Hn Hcalls.
  rewrite (sum_const _ _ 0); [done|]. intros j p Hj. destruct (decide (j = i)) as [->|Hne].
  - rewrite list_lookup_insert_eq in Hj by (by eapply lookup_lt_Some). by injection Hj as <-.
  - rewrite list_lookup_insert_ne in Hj by done. destruct (thread_pc _ _ _ _ _ Hb Hj) as (q & Hqj & _).
    apply (woken_place j p (if decide (q = Parked) then Ready else q) Hj Hne). rewrite Hps, Hqj.
    destruct (decide (Some q = Some Parked)) as [E|E].
    + injection E as ->. by rewrite decide_True.
    + rewrite decide_False; [done|congruence].
Qed.

Lemma round_over_inv :
  Condition.inv (epoch b + 1) (unlock i c) → Condition.epoch c = epoch b + 1 →
  length (pcs c) = n → inv n calls (round_over i after c b).
Proof using Hb Hi H1 Hps Hn Hcalls.
  intros Hu He Hl. destruct (thread_pc _ _ _ _ _ Hb Hi) as (q & Hq & Ha & _).
  pose proof (iv_calls _ _ _ Hb) as Hk. pose proof (iv_initial _ _ _ Hb) as Hin.
  pose proof (lookup_lt_Some _ _ _ Hi) as Hlt.
  split; cbn [round_over goto newEpoch initial_count count epoch places]; try done; try lia.
  - rewrite nobody_waits. lia.
  - rewrite length_insert. apply Hb.
  - cbn. by rewrite length_insert.
  - cbn. intros j p q'. destruct (decide (j = i)) as [->|Hne].
    + rewrite !list_lookup_insert_eq by (rewrite ?Hl, <- ?(iv_len _ _ _ Hb); done).
      intros [= <-] [= <-]. cbn. split; [lia|done].
    + rewrite !list_lookup_insert_ne by done. intros Hj Hqj. by apply (woken_place j p q').
Qed.

Lemma round_over_work : (work (round_over i after c b) < work b)%nat.
Proof using Hb Hi H1 Hps Hn Hcalls.
  pose proof (lookup_lt_Some _ _ _ Hi) as Hlt.
  unfold work. cbn [round_over goto newEpoch places]. rewrite length_insert. apply sum_lt with i.
  - apply elem_of_seq. lia.
  - cbn. rewrite list_lookup_insert_eq by done. rewrite Hi. cbn. lia.
  - intros j. cbn. destruct (decide (j = i)) as [->|Hne].
    + rewrite list_lookup_insert_eq by done. rewrite Hi. cbn. lia.
    + rewrite !list_lookup_insert_ne by done. rewrite Hps. destruct (decide _) as [->|]; [|done].
      destruct (places b !! j) as [[]|]; cbn; lia.
Qed.

End Last.

(** The last thread of an epoch wakes all others. *)
Lemma enter_last b i after :
  inv n calls b → places b !! i = Some (Entered after) → count b = 1 →
  ∃ b', sync_enter i after b = Ret b' ∧ inv n calls b' ∧ (work b' < work b)%nat.
Proof using Hn Hcalls.
  intros Hb Hi H1. destruct (thread_pc _ _ _ _ _ Hb Hi) as (q & Hq & Ha & ->).
  pose proof (iv_calls _ _ _ Hb) as Hk. pose proof (queue_short _ _ _ Hb) as Hlen.
  unfold sync_enter. rewrite H1. cbn [Z.eqb negb ASSERT mbind outcome_bind].
  rewrite (u32_small (1 - 1)) by (unfold is_u32; lia). cbn [Z.sub Z.add Z.opp Z.pos_sub Z.eqb].
  destruct (notifyAll_ok (epoch b) (newEpoch b) i (iv_cond _ _ _ Hb)) as (c & -> & Hc & He & Hci & Hlc & Hps);
    [lia|done|lia|]. cbn [mbind outcome_bind]. exists (round_over i after c b).
  rewrite u64_small by lia. split; [done|]. rewrite (iv_epoch _ _ _ Hb) in He.
  split; [|by apply round_over_work]. apply round_over_inv; try done; [|by rewrite Hlc; apply Hb].
  apply (inv_bound (epoch b + 1 + 1)); [|cbn; lia]. apply (condition_step_inv _ c i); [done|lia|].
  by apply step_unlock.
Qed.

(** A thread that holds the lock and is not the last one of its epoch. *)
Lemma wait_on b i p q t after cnt :
  inv n calls b → places b !! i = Some p → pcs (newEpoch b) !! i = Some q → q = In → t = epoch b →
  p = Entered after → 1 <= cnt → cnt = count b - 1 →
  ∃ b', sync_loop i t after (MkReusableBarrier (newEpoch b) (initial_count b) cnt (epoch b) (places b)) =
    Ret b' ∧ inv n calls b' ∧ (work b' < work b)%nat.
Proof using Hn Hcalls.
  intros Hb Hi Hq -> -> -> Hcnt Ecnt.
  destruct (thread_pc _ _ _ _ _ Hb Hi) as (q & Hq' & Ha & _). unfold sync_loop. cbn [epoch newEpoch].
  rewrite (proj2 (Z.leb_le (epoch b) (epoch b))) by lia.
  destruct (wait_begin_ok _ _ _ (iv_cond _ _ _ Hb) Hq) as (c & E & Hc & _).
  assert (Ec : c = MkCondition None (Condition.epoch (newEpoch b)) (queue (newEpoch b))
    (<[i := Parking (epoch b)]> (pcs (newEpoch b)))).
  { unfold wait_begin in E. rewrite (iv_epoch _ _ _ Hb) in *. by destruct (isMine _); inversion E. }
  rewrite E. cbn [mbind outcome_bind]. eexists. split; [done|].
  assert (He : Condition.epoch c = epoch b) by (rewrite Ec; apply Hb).
  assert (Hp : pcs c = <[i := Parking (epoch b)]> (pcs (newEpoch b))) by (by rewrite Ec).
  split.
  - apply (place_moves n calls b i (Entered after) _ (Parking (epoch b))); try done.
    + apply (inv_bound (epoch b + 1)); [done|lia].
    + cbn. split; [lia|]. left. tauto.
    + cbn. rewrite Z.eqb_refl. lia.
  - apply (work_goto n calls b i (Entered after) _ In (Parking (epoch b))); try done. cbn. lia.
Qed.

Lemma enter_ok b i after :
  inv n calls b → places b !! i = Some (Entered after) →
  ∃ b', sync_enter i after b = Ret b' ∧ inv n calls b' ∧ (work b' < work b)%nat.
Proof using Hn Hcalls.
  intros Hb Hi. pose proof (iv_open _ _ _ Hb) as Ho. pose proof (iv_count _ _ _ Hb) as Hc.
  destruct (decide (count b = 1)) as [H1|Hne]; [by apply enter_last|].
  destruct (thread_pc _ _ _ _ _ Hb Hi) as (q & Hq & Ha & Eq). unfold sync_enter.
  rewrite (proj2 (Z.eqb_neq (count b) 0)) by lia. cbn [negb ASSERT mbind outcome_bind].
  rewrite u32_small by (unfold is_u32; lia). rewrite (proj2 (Z.eqb_neq (count b - 1) 0)) by lia.
  apply (wait_on b i (Entered after) q); try done. lia.
Qed.

(** A thread that the end of its epoch has woken leaves the loop. *)
Lemma leave_loop b i t after :
  inv n calls b → places b !! i = Some (Looping t after) → pcs (newEpoch b) !! i = Some In →
  ∃ b', sync_loop i t after b = Ret b' ∧ inv n calls b' ∧ (work b' < work b)%nat.
Proof using Hn Hcalls.
  intros Hb Hi Hq. destruct (thread_pc _ _ _ _ _ Hb Hi) as (q & Hq' & Ha & Hor).
  rewrite Hq in Hq'. injection Hq' as <-. destruct Hor as [(_ & [|])|(-> & _)]; [done..|].
  unfold sync_loop. rewrite (proj2 (Z.leb_gt (epoch b) (epoch b - 1))) by lia. eexists. split; [done|]. split.
  - apply (place_moves n calls b i (Looping (epoch b - 1) after) _ Out); try done.
    + apply (cond_step n calls b i); [done..|by apply step_unlock|apply Hb].
    + apply Hb.
    + cbn. split; [lia|done].
    + cbn [waiting_for]. rewrite (proj2 (Z.eqb_neq (epoch b - 1) (epoch b))) by lia. done.
    + apply Hb.
  - apply (work_goto n calls b i (Looping (epoch b - 1) after) _ In Out); try done. cbn. lia.
Qed.

(** Taking the lock, at first or after a wait. *)
Lemma take_lock b i p p' q :
  inv n calls b → places b !! i = Some p → pcs (newEpoch b) !! i = Some q → the_lock (newEpoch b) = None →
  q = Out ∨ q = Ready → place_ok calls (epoch b) p' In → waiting_for (epoch b) p' = waiting_for (epoch b) p →
  (weight (Some p') (Some In) < weight (Some p) (Some q))%nat →
  inv n calls (goto i p' (lock i (newEpoch b)) b) ∧ (work (goto i p' (lock i (newEpoch b)) b) < work b)%nat.
Proof using Hn Hcalls.
  intros Hb Hi Hq Hl Hor Hok Hw Hwt. split; [|by apply (work_goto n calls b i p p' q In)].
  apply (place_moves n calls b i p p' In); try done.
  - apply (cond_step n calls b i); [done..| |apply Hb].
    destruct Hor as [->| ->]; [by apply step_lock|by apply step_resume].
  - apply Hb.
  - by rewrite Hw.
  - apply Hb.
Qed.

(** The action that [block] runs for a thread in [wait]. *)
Lemma action_ok b i t after e :
  inv n calls b → places b !! i = Some (Looping t after) → pcs (newEpoch b) !! i = Some (Parking e) →
  the_lock (newEpoch b) = None →
  ∃ c, wait_action i e (newEpoch b) = Ret c ∧ inv n calls (goto i (Looping t after) c b) ∧
    (work (goto i (Looping t after) c b) < work b)%nat.
Proof using Hn Hcalls.
  intros Hb Hi Hq Hl. destruct (thread_pc _ _ _ _ _ Hb Hi) as (q & Hq' & Ha & Hor).
  rewrite Hq in Hq'. injection Hq' as <-.
  destruct (wait_action_ok _ _ _ _ (iv_cond _ _ _ Hb) Hq Hl) as (c & E & Hc & Hp & He & _).
  rewrite (iv_epoch _ _ _ Hb) in *. exists c. split; [done|]. split.
  - apply (place_moves n calls b i (Looping t after) _ (if epoch b =? e then Parked else Ready)); try done.
    + apply (inv_bound (epoch b + 1)); [done|lia].
    + cbn. split; [done|]. destruct Hor as [(-> & [[= ->]|?])|(-> & [[= ->]|[?|?]])]; try done.
      * left. split; [done|]. rewrite Z.eqb_refl. tauto.
      * right. split; [done|]. rewrite (proj2 (Z.eqb_neq (epoch b) (epoch b - 1))) by lia. tauto.
    + apply Hb.
  - apply (work_goto n calls b i (Looping t after) _ (Parking e) (if epoch b =? e then Parked else Ready));
      try done. cbn. destruct (epoch b =? e); lia.
Qed.

Lemma barrier_step b i : inv n calls b → step_done i b.
Proof using Hn Hcalls.
  intros Hb. unfold step_done, step.
  destruct (places b !! i) as [[[|k]|k|t k]|] eqn:Hi; [right; naive_solver| | | |right; naive_solver].
  - destruct (thread_pc _ _ _ _ _ Hb Hi) as (q & Hq & Ha & ->).
    destruct (the_lock (newEpoch b)) eqn:Hl; [by right|left].
    eexists. split; [done|]. apply (take_lock b i (Start (S k)) (Entered k) Out); try done; [by left| |cbn; lia].
    cbn. split; [lia|done].
  - left. destruct (enter_ok b i k Hb Hi) as (b' & -> & H). by exists b'.
  - destruct (thread_pc _ _ _ _ _ Hb Hi) as (q & Hq & Ha & Hor). rewrite Hq.
    destruct q as [| |e| |]; [naive_solver| | | |].
    + left. destruct (leave_loop b i t k Hb Hi Hq) as (b' & -> & H). by exists b'.
    + destruct (the_lock (newEpoch b)) eqn:Hl; [by right|left].
      destruct (action_ok b i t k e Hb Hi Hq Hl) as (c & -> & H). by eexists.
    + right. destruct Hor as [[-> _]|(_ & [|[|]])]; [|done..]. split; [by destruct (the_lock (newEpoch b))|].
      intros _ p [= <-]. right. by exists k.
    + destruct (the_lock (newEpoch b)) eqn:Hl; [by right|left].
      destruct Hor as [(_ & [|])|(-> & _)]; [done..|]. eexists. split; [done|].
      apply (take_lock b i (Looping (epoch b - 1) k) _ Ready); try done; [by right| |cbn; lia].
      cbn. split; [lia|]. right. tauto.
Qed.

End Steps.

Lemma barrier_starts n calls :
  0 < Z.of_nat n < 4294967296 → inv n calls (make_barrier (Z.of_nat n) n calls).
Proof.
  intros Hn. split; cbn; try done.
  - apply (condition_reach_inv n 0); [apply reaches_init|done].
  - rewrite (sum_const _ _ 0); [lia|]. by intros i p [-> _]%lookup_replicate.
  - lia.
  - apply length_replicate.
  - apply length_replicate.
  - intros i p q [-> _]%lookup_replicate [-> _]%lookup_replicate. cbn. split; [lia|done].
  - lia.
Qed.

(** The lock of a state in which nothing moves is free. *)
Lemma stuck_unlocked n calls b :
  inv n calls b → (∀ i, step i b = Ret None) → the_lock (newEpoch b) = None.
Proof.
  intros Hb Hs. destruct (the_lock (newEpoch b)) as [i|] eqn:Hl; [exfalso|done].
  apply (iv_owner _ _ (iv_cond _ _ _ Hb)) in Hl.
  destruct (lookup_lt_is_Some_2 (places b) i) as [p Hp].
  { rewrite (iv_len _ _ _ Hb), <- (iv_pcs _ _ _ Hb). by eapply lookup_lt_Some. }
  specialize (Hs i). unfold step in Hs. pose proof (iv_places _ _ _ Hb i p In Hp Hl) as Hok.
  rewrite Hp, Hl in Hs. destruct p as [k|k|t k]; cbn in Hok; [naive_solver| |].
  - by destruct (sync_enter i k b).
  - by destruct (sync_loop i t k b).
Qed.

(** ** Property *)

(** C40 (liveness): a reusable barrier keeps its threads together, round after round.
    [n] threads call [sync], each as often as the others, on a barrier made for [n],
    in any interleaving of their critical sections and of the steps of [wait]. Then no
    assertion fails; no thread returns from a call before every thread has been
    counted in it, although fast threads enter the next round while slow ones are
    still leaving the last; every step leaves less to do, so that nobody waits
    for a wake-up that has been missed: when no step is left, every thread has
    made all its calls. *)
Theorem reusable_barrier_rounds (n calls : nat) (b : ReusableBarrier) (Hn : 0 < Z.of_nat n < 4294967296)
    (Hcalls : Z.of_nat calls < 18446744073709551615) (Hs : steps (make_barrier (Z.of_nat n) n calls) b) :
  (∀ i j p q, places b !! i = Some p → places b !! j = Some q → returned calls p <= arrived calls q) ∧
  (∀ i, ∃ r, step i b = Ret r ∧ ∀ b', r = Some b' → (work b' < work b)%nat) ∧
  ((∀ i, step i b = Ret None) → ∀ i p, places b !! i = Some p → p = Start 0).
Proof.
  assert (Hb : inv n calls b).
  { apply (star_invariant (λ b b', ∃ i, step i b = Ret (Some b')) (inv n calls) _ b (barrier_starts n calls Hn));
      [|exact Hs].
    intros x y Hx [i Hi]. destruct (barrier_step n calls Hn Hcalls x i Hx) as [(b' & E & H & _)|[E _]];
      rewrite Hi in E; [by injection E as ->|done]. }
  split; [|split].
  - intros i j p q Hp Hq. destruct (thread_pc _ _ _ _ _ Hb Hp) as (x & _ & Hx).
    destruct (thread_pc _ _ _ _ _ Hb Hq) as (y & _ & Hy). destruct p, q; cbn in *; lia.
  - intros i. destruct (barrier_step n calls Hn Hcalls b i Hb) as [(b' & E & _ & H)|[E _]].
    + exists (Some b'). split; [exact E|]. by intros ? [= <-].
    + exists None. by split.
  - intros Hst. pose proof (stuck_unlocked n calls b Hb Hst) as Hl.
    assert (Hall : ∀ i p, places b !! i = Some p → p = Start 0 ∨ ∃ k, p = Looping (epoch b) k).
    { intros i p Hp. destruct (barrier_step n calls Hn Hcalls b i Hb) as [(b' & E & _)|[_ H]];
        [by rewrite Hst in E|by apply H]. }
    intros i p Hp. destruct (Hall i p Hp) as [->|[k ->]]; [done|exfalso].
    destruct (thread_pc _ _ _ _ _ Hb Hp) as (_ & _ & Hk & _).
    pose proof (iv_count _ _ _ Hb) as Hc. pose proof (iv_open _ _ _ Hb) as Ho.
    rewrite (sum_const _ _ 1), (iv_len _ _ _ Hb) in Hc; [lia|].
    intros j q Hq. destruct (thread_pc _ _ _ _ _ Hb Hq) as (y & _ & Hy).
    destruct (Hall j q Hq) as [->|[k' ->]]; cbn in *; [lia|]. by rewrite Z.eqb_refl.
Qed.

(** Two threads with two calls each: the first one waits in its first call. *)
Definition demo_barrier : ReusableBarrier :=
  MkReusableBarrier (MkCondition None 0 [0%nat] [Parked; Out]) 2 1 0 [Looping 0 1; Start 2].

Lemma reusable_barrier_rounds_witness :
  steps (make_barrier 2 2 2) demo_barrier ∧
  (∀ i, ∃ r, step i demo_barrier = Ret r ∧ ∀ b', r = Some b' → (work b' < work demo_barrier)%nat) ∧
  returned 2 (Looping 0 1) <= arrived 2 (Start 2).
Proof.
  assert (Hs : steps (make_barrier (Z.of_nat 2) 2 2) demo_barrier).
  { apply star_step with (MkReusableBarrier (MkCondition None 0 [] [Parking 0; Out]) 2 1 0
      [Looping 0 1; Start 2]); [|exists 0%nat; reflexivity].
    apply star_step with (MkReusableBarrier (MkCondition (Some 0%nat) 0 [] [In; Out]) 2 2 0
      [Entered 1; Start 2]); [|exists 0%nat; reflexivity].
    apply star_step with (make_barrier 2 2 2); [apply star_refl|exists 0%nat; reflexivity]. }
  destruct (reusable_barrier_rounds 2 2 demo_barrier) as (Hr & Hw & _); [lia|lia|exact Hs|].
  split; [exact Hs|]. split; [exact Hw|]. by apply (Hr 0%nat 1%nat).
Defined.
