(* ===== verification/Shared.v ===== *)
(** * Reference-counted pointers: src/kernel/shared.h

    A [Shared<T>] object points to a [FatPointer], the pair of a raw pointer and a
    counter, shared by all the [Shared<T>] objects that denote the same [T]. Here
    are the constructors, the destructor and the assignments as operations on the
    variables of type [Shared<T>] of a program (locals, arguments and fields
    alike). The counter is atomic, so each operation is one transition. Reading
    freed memory, or through a null pointer, is [Crash]. *)

From S2P Require Import Prelude Mem.
Local Open Scope Z_scope.

Record FatPointer := MkFat { pointer : option nat; counter : Z }.

(** The fat pointers and the objects of type [T] that have not been deleted. *)
Record heap := MkHeap { fats : gmap nat FatPointer; objects : gset nat }.

(** A variable holds its [fatPointer], null once the variable has been moved from. *)
Record state := MkState { hp : heap; vars : gmap nat (option nat) }.

Definition delete_object (o : nat) (h : heap) : outcome heap :=
  if bool_decide (o ∈ objects h) then Ret (MkHeap (fats h) (objects h ∖ {[o]})) else Crash.

Definition decrementCounter (fatPointer : option nat) (h : heap) : outcome heap :=
  match fatPointer with
  | None => Ret h
  | Some f =>
      fp ← deref (fats h !! f);
      match pointer fp with
      | None => Ret h
      | Some o =>
          let c := i32 (counter fp - 1) in
          let h := MkHeap (<[f := MkFat (Some o) c]> (fats h)) (objects h) in
          if c =? 0 then
            h ← delete_object o h;
            Ret (MkHeap (delete f (fats h)) (objects h))
          else Ret h
      end
  end.

Definition incrementCounter (fatPointer : option nat) (h : heap) : outcome heap :=
  f ← deref fatPointer;
  fp ← deref (fats h !! f);
  match pointer fp with
  | None => Ret h
  | Some o => Ret (MkHeap (<[f := MkFat (Some o) (i32 (counter fp + 1))]> (fats h)) (objects h))
  end.

(** [new FatPointer{it, new Atomic<int>(0)}] *)
Definition new_fat (it : option nat) (h : heap) : nat * heap :=
  let f := fresh (dom (fats h)) in (f, MkHeap (<[f := MkFat it 0]> (fats h)) (objects h)).

(** [new T(...)] *)
Definition new_object (h : heap) : nat * heap :=
  let o := fresh (objects h) in (o, MkHeap (fats h) ({[o]} ∪ objects h)).

(** ** The special members *)

(** A constructor makes a variable that was not there. *)
Definition construct (v : nat) (x : option nat) (h : heap) (s : state) : outcome state :=
  match vars s !! v with
  | None => Ret (MkState h (<[v := x]> (vars s)))
  | Some _ => Crash
  end.

(** [explicit Shared(T* it)] *)
Definition from_raw (v : nat) (it : option nat) (s : state) : outcome state :=
  let '(f, h) := new_fat it (hp s) in
  h ← incrementCounter (Some f) h;
  construct v (Some f) h s.

(** [static Shared<T> make(Args... args)] *)
Definition make (v : nat) (s : state) : outcome state :=
  let '(o, h) := new_object (hp s) in from_raw v (Some o) (MkState h (vars s)).

(** [Shared()] *)
Definition default_ (v : nat) (s : state) : outcome state :=
  let '(f, h) := new_fat None (hp s) in construct v (Some f) h s.

(** [Shared(Shared& rhs)] *)
Definition copy (v rhs : nat) (s : state) : outcome state :=
  x ← deref (vars s !! rhs);
  h ← incrementCounter x (hp s);
  construct v x h s.

(** [Shared(Shared&& rhs)] *)
Definition move (v rhs : nat) (s : state) : outcome state :=
  x ← deref (vars s !! rhs);
  s ← construct v x (hp s) s;
  Ret (MkState (hp s) (<[rhs := None]> (vars s))).

(** [~Shared()] *)
Definition destroy (v : nat) (s : state) : outcome state :=
  x ← deref (vars s !! v);
  h ← decrementCounter x (hp s);
  Ret (MkState h (delete v (vars s))).

(** [operator=(T* rhs)] *)
Definition assign_raw (v : nat) (rhs : option nat) (s : state) : outcome state :=
  x ← deref (vars s !! v);
  f ← deref x;
  fp ← deref (fats (hp s) !! f);
  if bool_decide (pointer fp = rhs) then Ret s
  else
    h ← decrementCounter x (hp s);
    let '(f, h) := new_fat rhs h in
    h ← incrementCounter (Some f) h;
    Ret (MkState h (<[v := Some f]> (vars s))).

(** [v = new T(...)] *)
Definition assign_new (v : nat) (s : state) : outcome state :=
  let '(o, h) := new_object (hp s) in assign_raw v (Some o) (MkState h (vars s)).

(** [operator=(Shared<T>& rhs)] *)
Definition assign (v rhs : nat) (s : state) : outcome state :=
  x ← deref (vars s !! v);
  y ← deref (vars s !! rhs);
  if bool_decide (x = y) then Ret s
  else
    h ← decrementCounter x (hp s);
    h ← incrementCounter y h;
    Ret (MkState h (<[v := y]> (vars s))).

(** [operator=(Shared<T>&& rhs)] *)
Definition assign_move (v rhs : nat) (s : state) : outcome state :=
  x ← deref (vars s !! v);
  h ← decrementCounter x (hp s);
  y ← deref (vars s !! rhs);
  Ret (MkState h (<[rhs := None]> (<[v := y]> (vars s)))).

(** ** Comparisons *)

(** [fatPointer->pointer] of a variable whose [fatPointer] is not null. *)
Definition is_null (x : option nat) (h : heap) : outcome bool :=
  match x with
  | None => Ret true
  | Some f => fp ← deref (fats h !! f); Ret (bool_decide (pointer fp = None))
  end.

Definition equals (x y : option nat) (h : heap) : outcome bool :=
  n ← is_null x h;
  if n : bool then is_null y h else Ret (bool_decide (x = y)).

Definition not_equals (x y : option nat) (h : heap) : outcome bool :=
  n ← is_null x h;
  if n : bool then (m ← is_null y h; Ret (negb m)) else Ret (negb (bool_decide (x = y))).

Definition equals_raw (x : option nat) (rhs : option nat) (h : heap) : outcome bool :=
  n ← is_null x h;
  if n : bool then Ret (bool_decide (rhs = None))
  else f ← deref x; fp ← deref (fats h !! f); Ret (bool_decide (pointer fp = rhs)).

Definition not_equals_raw (x : option nat) (rhs : option nat) (h : heap) : outcome bool :=
  n ← is_null x h;
  if n : bool then Ret (negb (bool_decide (rhs = None)))
  else f ← deref x; fp ← deref (fats h !! f); Ret (negb (bool_decide (pointer fp = rhs))).

(** [operator->] *)
Definition arrow (x : option nat) (h : heap) : outcome (option nat) :=
  f ← deref x; fp ← deref (fats h !! f); Ret (pointer fp).

(** ** Programs *)

Inductive op :=
| Make (v : nat) | Default (v : nat) | Copy (v rhs : nat) | Move (v rhs : nat) | Destroy (v : nat)
| AssignNew (v : nat) | AssignNull (v : nat) | Assign (v rhs : nat) | AssignMove (v rhs : nat).

Definition exec (o : op) (s : state) : outcome state :=
  match o with
  | Make v => make v s
  | Default v => default_ v s
  | Copy v w => copy v w s
  | Move v w => move v w s
  | Destroy v => destroy v s
  | AssignNew v => assign_new v s
  | AssignNull v => assign_raw v None s
  | Assign v w => assign v w s
  | AssignMove v w => assign_move v w s
  end.

Fixpoint exec_all (os : list op) (s : state) : outcome state :=
  match os with [] => Ret s | o :: os => s ← exec o s; exec_all os s end.

Definition empty : state := MkState (MkHeap ∅ ∅) ∅.

(** ** Specification: every variable is null or denotes an object *)

Definition target (h : heap) (x : option nat) : option nat := x ≫= λ f, fats h !! f ≫= pointer.

Definition refs (s : state) : gmap nat (option nat) := target (hp s) <$> vars s.

(** The effect of an operation, [o] being the object that it makes. *)
Definition spec (c : op) (o : nat) (r : gmap nat (option nat)) : gmap nat (option nat) :=
  match c with
  | Make v | AssignNew v => <[v := Some o]> r
  | Default v | AssignNull v => <[v := None]> r
  | Copy v w | Assign v w => <[v := default None (r !! w)]> r
  | Move v w | AssignMove v w => <[w := None]> (<[v := default None (r !! w)]> r)
  | Destroy v => delete v r
  end.

(** What the language asks for, and what the code needs of variables that have been
    moved from: no copy is made of them, and no raw pointer is assigned to them. *)
Definition allowed (c : op) (m : gmap nat (option nat)) : Prop :=
  match c with
  | Make v | Default v => m !! v = None
  | Copy v w => m !! v = None ∧ ∃ f, m !! w = Some (Some f)
  | Move v w => m !! v = None ∧ is_Some (m !! w)
  | Destroy v => is_Some (m !! v)
  | AssignNew v | AssignNull v => ∃ f, m !! v = Some (Some f)
  | Assign v w => is_Some (m !! v) ∧ (m !! v = m !! w ∨ ∃ f, m !! w = Some (Some f))
  | AssignMove v w => is_Some (m !! v) ∧ is_Some (m !! w)
  end.

(** How many variables hold a fat pointer. *)
Definition holders (f : nat) (m : gmap nat (option nat)) : Z :=
  Z.of_nat (size (filter (λ kv : nat * option nat, kv.2 = Some f) m)).

(** [spare] are the objects that no fat pointer has been made for yet. *)
Record inv (spare : gset nat) (h : heap) (m : gmap nat (option nat)) : Prop := Inv {
  iv_valid v f : m !! v = Some (Some f) → is_Some (fats h !! f);
  iv_count f o c : fats h !! f = Some (MkFat (Some o) c) → c = holders f m ∧ 0 < c;
  iv_live f o c : fats h !! f = Some (MkFat (Some o) c) → o ∈ objects h ∧ o ∉ spare;
  iv_owned o : o ∈ objects h → o ∈ spare ∨ ∃ f c, fats h !! f = Some (MkFat (Some o) c);
  iv_alone o f g c d :
    fats h !! f = Some (MkFat (Some o) c) → fats h !! g = Some (MkFat (Some o) d) → f = g;
}.

Lemma holders_new f v x m : m !! v = None →
  holders f (<[v := x]> m) = holders f m + (if decide (x = Some f) then 1 else 0).
Proof.
  intros Hv. unfold holders. destruct (decide (x = Some f)) as [E|E].
  - rewrite map_filter_insert_True by done. rewrite map_size_insert_None; [lia|].
    apply map_lookup_filter_None. by left.
  - rewrite map_filter_insert_not'; [lia|done|]. intros y. by rewrite Hv.
Qed.

Lemma holders_delete f v x m : m !! v = Some x →
  holders f m = holders f (delete v m) + (if decide (x = Some f) then 1 else 0).
Proof.
  intros Hv. rewrite <- (insert_delete_id m v x Hv) at 1. apply holders_new. apply lookup_delete_eq.
Qed.

Lemma holders_pos f v m : m !! v = Some (Some f) → 0 < holders f m.
Proof.
  intros Hv. rewrite (holders_delete _ _ _ _ Hv), decide_True by done. unfold holders. lia.
Qed.

Lemma holders_le f m : 0 <= holders f m <= Z.of_nat (size m).
Proof.
  unfold holders. pose proof (map_size_filter (λ kv : nat * option nat, kv.2 = Some f) m). lia.
Qed.

(** ** Dropping and taking a reference *)

Lemma drop_null spare h m v x :
  inv spare h m → m !! v = Some x → (∀ f, x = Some f → ∃ c, fats h !! f = Some (MkFat None c)) →
  inv spare h (delete v m).
Proof.
  intros [Hv Hc Hl Ho Ha] Hx Hn. split; try done.
  - intros w f [_ Hw]%lookup_delete_Some. by eapply Hv.
  - intros f o c Hf. destruct (Hc _ _ _ Hf) as [-> Hp]. split; [|done].
    rewrite (holders_delete _ _ _ _ Hx). destruct (decide (x = Some f)) as [E|]; [|lia].
    destruct (Hn f E) as [c' ?]. congruence.
Qed.

(** The last reference: the object goes with it. *)
Lemma drop_last spare h m v f o c :
  inv spare h m → m !! v = Some (Some f) → fats h !! f = Some (MkFat (Some o) c) →
  holders f m = 1 →
  let h' := MkHeap (delete f (fats h)) (objects h ∖ {[o]}) in
  inv spare h' (delete v m) ∧
  (∀ w g, delete v m !! w = Some (Some g) → target h' (Some g) = target h (Some g)).
Proof.
  intros [Hv Hc Hl Ho Ha] Hx Hf E1 h'. pose proof (λ g, holders_delete g _ _ _ Hx) as Hd.
  pose proof (Hd f) as Hdf. rewrite decide_True in Hdf by done.
  assert (∀ w g, delete v m !! w = Some (Some g) → f ≠ g) as Hne.
  { intros w g Hw ->. apply holders_pos in Hw. lia. }
  split; [split; cbn|].
  - intros w g Hw. rewrite lookup_delete_ne by (by eapply Hne).
    apply lookup_delete_Some in Hw as [_ Hw]. by eapply Hv.
  - intros g o' c' [Hgf Hg]%lookup_delete_Some. destruct (Hc _ _ _ Hg) as [-> ?]. split; [|done].
    rewrite (Hd g), decide_False by congruence. lia.
  - intros g o' c' [Hgf Hg]%lookup_delete_Some. destruct (Hl _ _ _ Hg) as [? ?]. split; [|done].
    apply elem_of_difference. split; [done|]. intros ->%elem_of_singleton. by eapply Hgf, Ha.
  - intros o' [Ho' Hne']%elem_of_difference. destruct (Ho o' Ho') as [?|(g & d & Hg)]; [by left|right].
    exists g, d. rewrite lookup_delete_ne; [done|]. intros ->. set_solver.
  - intros o' g g' c' d' [_ Hg]%lookup_delete_Some [_ Hg']%lookup_delete_Some. by eapply Ha.
  - intros w g Hw. cbn. by rewrite lookup_delete_ne by (by eapply Hne).
Qed.

(** One of several references: only the count changes. *)
Lemma drop_shared spare h m v f o :
  inv spare h m → m !! v = Some (Some f) → fats h !! f = Some (MkFat (Some o) (holders f m)) →
  holders f m ≠ 1 →
  let h' := MkHeap (<[f := MkFat (Some o) (holders f m - 1)]> (fats h)) (objects h) in
  inv spare h' (delete v m) ∧ (∀ g, target h' (Some g) = target h (Some g)).
Proof.
  intros [Hv Hc Hl Ho Ha] Hx Hf E1 h'. pose proof (λ g, holders_delete g _ _ _ Hx) as Hd.
  destruct (Hc _ _ _ Hf) as [_ Hp].
  assert (∀ g fp, <[f := MkFat (Some o) (holders f m - 1)]> (fats h) !! g = Some fp →
    ∃ c, fats h !! g = Some (MkFat (pointer fp) c) ∧ (f = g ∧ counter fp = c - 1 ∨ f ≠ g ∧ counter fp = c)) as Hins.
  { intros g fp [[<- <-]|[Hne Hg]]%lookup_insert_Some; [eauto 6|]. exists (counter fp). destruct fp. eauto. }
  split; [split; cbn|].
  - intros w g [_ Hw]%lookup_delete_Some. destruct (decide (f = g)) as [<-|Hne].
    + rewrite lookup_insert_eq. by eexists.
    + rewrite lookup_insert_ne by done. by eapply Hv.
  - intros g o' c' (c0 & Hg & Hcase)%Hins. cbn in Hg, Hcase. destruct (Hc _ _ _ Hg) as [-> ?].
    pose proof (Hd g) as Hdg. destruct Hcase as [[<- ->]|[Hne ->]].
    + rewrite decide_True in Hdg by done. lia.
    + rewrite decide_False in Hdg by congruence. lia.
  - intros g o' c' (c0 & Hg & _)%Hins. by eapply Hl.
  - intros o' Ho'. destruct (Ho o' Ho') as [?|(g & d & Hg)]; [by left|right].
    destruct (decide (f = g)) as [<-|Hne].
    + exists f. rewrite lookup_insert_eq. rewrite Hf in Hg. injection Hg as <- <-. eauto.
    + exists g, d. by rewrite lookup_insert_ne.
  - intros o' g g' c' d' (c0 & Hg & _)%Hins (c1 & Hg' & _)%Hins. by eapply Ha.
  - intros g. cbn. destruct (decide (f = g)) as [<-|Hne].
    + by rewrite lookup_insert_eq, Hf.
    + by rewrite lookup_insert_ne.
Qed.

Lemma drop_ok spare h m v x :
  inv spare h m → m !! v = Some x → Z.of_nat (size m) < 2147483648 →
  ∃ h', decrementCounter x h = Ret h' ∧ inv spare h' (delete v m) ∧
    (∀ w f, delete v m !! w = Some (Some f) → target h' (Some f) = target h (Some f)) ∧
    (∀ o, o ∈ spare → o ∈ objects h → o ∈ objects h').
Proof.
  intros Hinv Hx Hm. destruct x as [f|]; cbn [decrementCounter].
  2:{ exists h. split; [done|]. split; [|done]. by eapply drop_null. }
  destruct (iv_valid _ _ _ Hinv _ _ Hx) as [[[o|] c] Hf]; rewrite Hf; cbn [deref mbind outcome_bind pointer counter].
  2:{ exists h. split; [done|]. split; [|done]. eapply drop_null; [done|done|]. intros g [= <-]. eauto. }
  destruct (iv_count _ _ _ Hinv _ _ _ Hf) as [-> Hp]. destruct (iv_live _ _ _ Hinv _ _ _ Hf) as [Hlo Hsp].
  pose proof (holders_le f m). rewrite i32_small by lia.
  destruct (Z.eqb_spec (holders f m - 1) 0) as [Ez|Ez].
  - unfold delete_object. cbn [objects]. rewrite bool_decide_true by done. cbn [mbind outcome_bind fats].
    rewrite delete_insert_eq. eexists. split; [done|].
    destruct (drop_last spare h m v f o _ Hinv Hx Hf) as [Hi Ht]; [lia|].
    split; [exact Hi|]. split; [exact Ht|]. cbn. set_solver.
  - destruct (drop_shared spare h m v f o Hinv Hx Hf) as [Hi Ht]; [lia|].
    eexists. split; [done|]. split; [exact Hi|]. by split; [intros; apply Ht|].
Qed.

Lemma take_null spare h m v x :
  inv spare h m → m !! v = None → (∀ f, x = Some f → ∃ c, fats h !! f = Some (MkFat None c)) →
  inv spare h (<[v := x]> m).
Proof.
  intros [Hv Hc Hl Ho Ha] Hx Hn. split; try done.
  - intros w f [[_ E]|[_ Hw]]%lookup_insert_Some; [|by eapply Hv]. destruct (Hn f E). by eexists.
  - intros f o c Hf. destruct (Hc _ _ _ Hf) as [-> Hp]. split; [|done].
    rewrite (holders_new _ _ _ _ Hx). destruct (decide (x = Some f)) as [E|]; [|lia].
    destruct (Hn f E) as [c' ?]. congruence.
Qed.

(** A new reference to a fat pointer that has an object; it may be the first. *)
Lemma counted_ok (spare spare' : gset nat) h m v f o :
  m !! v = None → fats h !! f = Some (MkFat (Some o) (holders f m)) → o ∈ objects h → o ∉ spare' →
  (∀ w g, m !! w = Some (Some g) → is_Some (fats h !! g)) →
  (∀ g o' c, g ≠ f → fats h !! g = Some (MkFat (Some o') c) →
     c = holders g m ∧ 0 < c ∧ o' ∈ objects h ∧ (o' ∉ spare') ∧ o' ≠ o) →
  (∀ o', o' ∈ objects h → o' ≠ o → o' ∈ spare ∨ (∃ g c, fats h !! g = Some (MkFat (Some o') c))) →
  (∀ o', o' ∈ spare → (o' = o ∨ o' ∈ spare')) →
  (∀ o' g g' c d, g ≠ f → g' ≠ f → fats h !! g = Some (MkFat (Some o') c) →
     fats h !! g' = Some (MkFat (Some o') d) → g = g') →
  inv spare' (MkHeap (<[f := MkFat (Some o) (holders f m + 1)]> (fats h)) (objects h)) (<[v := Some f]> m).
Proof.
  intros Hx Hf Hoo Hsp Hv Hg Ho Hspare Ha. split; cbn.
  - intros w g Hw. destruct (decide (f = g)) as [<-|Hne]; [rewrite lookup_insert_eq; by eexists|].
    rewrite lookup_insert_ne by done. apply lookup_insert_Some in Hw as [[_ [=]]|[_ Hw]]; [done|by eapply Hv].
  - intros g o' c Hlook. rewrite (holders_new _ _ _ _ Hx).
    apply lookup_insert_Some in Hlook as [[<- [= <- <-]]|[Hne Hlook]].
    + rewrite decide_True by done. pose proof (holders_le f m). lia.
    + rewrite decide_False by congruence. destruct (Hg g o' c) as (-> & ? & _); [congruence|done|]. lia.
  - intros g o' c [[<- [= <- <-]]|[Hne Hlook]]%lookup_insert_Some; [done|].
    destruct (Hg g o' c) as (_ & _ & ? & ? & _); [congruence|done|]. done.
  - intros o' Ho'. destruct (decide (o' = o)) as [->|Hne].
    { right. exists f, (holders f m + 1). by rewrite lookup_insert_eq. }
    destruct (Ho o' Ho' Hne) as [[?|?]%Hspare|(g & c & Hlook)]; [done|by left|right].
    exists g, c. rewrite lookup_insert_ne; [done|]. intros <-. congruence.
  - intros o' g g' c d [[<- [= <- <-]]|[Hne Hlook]]%lookup_insert_Some;
      intros [[<- E]|[Hne' Hlook']]%lookup_insert_Some; [done| | |].
    + destruct (Hg g' o d) as (_ & _ & _ & _ & Hc); [congruence|done|]. done.
    + injection E as -> _. destruct (Hg g o' c) as (_ & _ & _ & _ & Hc); [congruence|done|]. done.
    + eapply Ha; [| |exact Hlook|exact Hlook']; congruence.
Qed.

Lemma take_ok spare h m v f :
  inv spare h m → m !! v = None → is_Some (fats h !! f) → Z.of_nat (size m) < 2147483647 →
  ∃ h', incrementCounter (Some f) h = Ret h' ∧ inv spare h' (<[v := Some f]> m) ∧
    (∀ x, target h' x = target h x).
Proof.
  intros Hinv Hx [[[o|] c] Hf] Hm; cbn [incrementCounter deref mbind outcome_bind]; rewrite Hf;
    cbn [deref mbind outcome_bind pointer counter].
  2:{ exists h. split; [done|]. split; [|done]. apply take_null; [done..|]. intros g [= <-]. eauto. }
  pose proof Hinv as [Hv Hc Hl Ho Ha]. destruct (Hc _ _ _ Hf) as [-> Hp]. destruct (Hl _ _ _ Hf) as [Hlo Hsp].
  pose proof (holders_le f m). rewrite i32_small by lia. eexists. split; [done|]. split.
  - apply (counted_ok spare); try done.
    + intros g o' c Hne Hg. destruct (Hc _ _ _ Hg), (Hl _ _ _ Hg). repeat (split; [done|]).
      intros ->. by eapply Hne, Ha.
    + intros o' Ho' _. by apply Ho.
    + intros o' Ho'. by right.
    + intros o' g g' c d _ _. apply Ha.
  - intros [g|]; [|done]. cbn. destruct (decide (f = g)) as [<-|Hne].
    + by rewrite lookup_insert_eq, Hf.
    + by rewrite lookup_insert_ne.
Qed.

Lemma fresh_fat h m spare : inv spare h m → fats h !! fresh (dom (fats h)) = None.
Proof. intros _. apply not_elem_of_dom, is_fresh. Qed.

(** A fat pointer for a new object, or for none. *)
Lemma new_ok h m v it :
  inv (match it with Some o => {[o]} | None => ∅ end) h m → m !! v = None →
  (∀ o, it = Some o → o ∈ objects h) →
  ∃ f h', incrementCounter (Some (new_fat it h).1) (new_fat it h).2 = Ret h' ∧
    (new_fat it h).1 = f ∧ inv ∅ h' (<[v := Some f]> m) ∧ target h' (Some f) = it ∧
    (∀ w g, m !! w = Some (Some g) → target h' (Some g) = target h (Some g)).
Proof.
  intros Hinv Hx Hit. pose proof (fresh_fat _ _ _ Hinv) as Hf. unfold new_fat. cbn [fst snd].
  set (f := fresh (dom (fats h))) in *. pose proof Hinv as [Hv Hc Hl Ho Ha].
  assert (∀ w g, m !! w = Some (Some g) → f ≠ g) as Hne.
  { intros w g Hw <-. destruct (Hv _ _ Hw). congruence. }
  assert (holders f m = 0) as Hz.
  { unfold holders. rewrite (proj2 (map_size_empty_iff _)); [done|]. apply map_empty. intros w.
    apply map_lookup_filter_None. right. intros x Hw E. cbn in E. subst x. by eapply Hne. }
  cbn [incrementCounter deref mbind outcome_bind fats objects]. rewrite lookup_insert_eq.
  cbn [deref mbind outcome_bind pointer counter]. destruct it as [o|].
  - exists f. eexists. split; [done|]. split; [done|]. rewrite insert_insert_eq.
    change (i32 (0 + 1)) with 1. split; [|split].
    + pose proof (counted_ok {[o]} ∅ (MkHeap (<[f := MkFat (Some o) 0]> (fats h)) (objects h)) m v f o) as H.
      cbn [fats objects] in H. rewrite Hz, insert_insert_eq in H. apply H; try done; clear H.
      * by rewrite lookup_insert_eq.
      * by apply Hit.
      * intros w g Hw. rewrite lookup_insert_ne by (by eapply Hne). by eapply Hv.
      * intros g o' c Hgf. rewrite lookup_insert_ne by congruence. intros Hg.
        destruct (Hc _ _ _ Hg), (Hl _ _ _ Hg). split_and!; try done; set_solver.
      * intros o' Ho' Hno. destruct (Ho o' Ho') as [?|(g & c & Hg)]; [by left|right].
        exists g, c. rewrite lookup_insert_ne; [done|]. intros <-. congruence.
      * intros o' ->%elem_of_singleton. by left.
      * intros o' g g' c d Hg Hg'. rewrite !lookup_insert_ne by congruence. apply Ha.
    + cbn. by rewrite lookup_insert_eq.
    + intros w g Hw. cbn. by rewrite lookup_insert_ne by (by eapply Hne).
  - exists f. eexists. split; [done|]. split; [done|]. split; [|split].
    + apply take_null; [|done|].
      * split; cbn.
        -- intros w g Hw. rewrite lookup_insert_ne by (by eapply Hne). by eapply Hv.
        -- intros g o c [[_ [=]]|[_ Hg]]%lookup_insert_Some. by eapply Hc.
        -- intros g o c [[_ [=]]|[_ Hg]]%lookup_insert_Some. by eapply Hl.
        -- intros o Hoo. destruct (Ho o Hoo) as [?|(g & c & Hg)]; [by left|right].
           exists g, c. rewrite lookup_insert_ne; [done|]. intros <-. congruence.
        -- intros o g g' c d [[_ [=]]|[_ Hg]]%lookup_insert_Some [[_ [=]]|[_ Hg']]%lookup_insert_Some.
           by eapply Ha.
      * intros g [= <-]. exists 0. cbn. by rewrite lookup_insert_eq.
    + cbn. by rewrite lookup_insert_eq.
    + intros w g Hw. cbn. by rewrite lookup_insert_ne by (by eapply Hne).
Qed.

(** ** The operations *)

Lemma targets_ext h h' (m : gmap nat (option nat)) :
  (∀ w g, m !! w = Some (Some g) → target h' (Some g) = target h (Some g)) →
  target h' <$> m = target h <$> m.
Proof. intros H. apply map_fmap_ext. intros w [g|] Hw; [by eapply H|done]. Qed.

Lemma spare_ok h m : inv ∅ h m → inv {[(new_object h).1]} (new_object h).2 m.
Proof.
  intros [Hv Hc Hl Ho Ha]. unfold new_object. cbn [fst snd].
  pose proof (is_fresh (objects h)) as Hf. split; cbn; try done.
  - intros f o c Hlook. destruct (Hl _ _ _ Hlook) as [? _]. set_solver.
  - intros o [->%elem_of_singleton|Hoo]%elem_of_union; [left; set_solver|].
    destruct (Ho o Hoo) as [?|?]; [set_solver|by right].
Qed.

Lemma refs_lookup s w : refs s !! w = target (hp s) <$> vars s !! w.
Proof. apply lookup_fmap. Qed.

(** What an operation leaves. *)
Definition done_with (c : op) (s : state) (r : outcome state) : Prop :=
  ∃ s' o, r = Ret s' ∧ inv ∅ (hp s') (vars s') ∧ (o ∉ objects (hp s)) ∧ refs s' = spec c o (refs s).

Section Exec.
Variable s : state.
Hypothesis Hinv : inv ∅ (hp s) (vars s).
Hypothesis Hsize : Z.of_nat (size (vars s)) < 2147483647.

Lemma fresh_object : fresh (objects (hp s)) ∉ objects (hp s).
Proof. apply is_fresh. Qed.

Lemma make_ok v : vars s !! v = None → done_with (Make v) s (make v s).
Proof.
  intros Hv. unfold make, new_object, from_raw. cbn [hp].
  set (o := fresh (objects (hp s))). set (h1 := MkHeap (fats (hp s)) ({[o]} ∪ objects (hp s))).
  destruct (new_ok h1 (vars s) v (Some o) (spare_ok _ _ Hinv) Hv) as (f & h' & E & Ef & Hinv' & Ht & Hother).
  { intros ? [= <-]. cbn. set_solver. }
  rewrite (surjective_pairing (new_fat (Some o) h1)), E. unfold construct. cbn [mbind outcome_bind vars].
  rewrite Hv, Ef. eexists _, o. split; [done|]. split; [done|]. split; [apply fresh_object|].
  unfold refs. cbn [hp vars spec]. by rewrite fmap_insert, Ht, (targets_ext (hp s) h').
Qed.

Lemma default_ok v : vars s !! v = None → done_with (Default v) s (default_ v s).
Proof.
  intros Hv. unfold default_.
  destruct (new_ok (hp s) (vars s) v None Hinv Hv) as (f & h' & E & Ef & Hinv' & Ht & Hother); [done|].
  rewrite (surjective_pairing (new_fat None (hp s))). unfold construct. rewrite Hv, Ef.
  assert (h' = (new_fat None (hp s)).2) as <-.
  { cbn in E. rewrite lookup_insert_eq in E. cbn in E. by injection E as <-. }
  eexists _, _. split; [done|]. split; [done|]. split; [apply fresh_object|].
  unfold refs. cbn [hp vars spec]. by rewrite fmap_insert, Ht, (targets_ext (hp s) h').
Qed.

Lemma copy_ok v w f : vars s !! v = None → vars s !! w = Some (Some f) → done_with (Copy v w) s (copy v w s).
Proof.
  intros Hv Hw. unfold copy. rewrite Hw. cbn [deref mbind outcome_bind].
  destruct (take_ok ∅ (hp s) (vars s) v f Hinv Hv) as (h' & E & Hinv' & Ht);
    [by eapply iv_valid|done|]. rewrite E. unfold construct. cbn [mbind outcome_bind]. rewrite Hv.
  eexists _, _. split; [done|]. split; [done|]. split; [apply fresh_object|].
  unfold refs. cbn [hp vars spec]. rewrite fmap_insert, lookup_fmap, Hw. cbn [fmap option_fmap option_map default].
  rewrite Ht. by rewrite (targets_ext (hp s) h').
Qed.

(** A reference goes from one variable to another. *)
Lemma hand_over h m v w x : inv ∅ h m → m !! v = None → m !! w = Some x → inv ∅ h (<[w := None]> (<[v := x]> m)).
Proof.
  intros [Hv Hc Hl Ho Ha] Hvn Hw.
  assert (v ≠ w) as Hne by congruence.
  split; try done.
  - intros u f [[_ [=]]|[_ Hu]]%lookup_insert_Some.
    apply lookup_insert_Some in Hu as [[_ ->]|[_ Hu]]; by eapply Hv.
  - intros f o c Hf. destruct (Hc _ _ _ Hf) as [-> ?]. split; [|done].
    rewrite insert_insert_ne, (holders_new _ v) by (by rewrite ?lookup_insert_ne).
    rewrite (holders_delete f w x m Hw).
    replace (<[w := None]> m) with (<[w := None]> (delete w m)) by apply insert_delete_eq.
    rewrite (holders_new _ w) by apply lookup_delete_eq.
    destruct (decide (x = Some f)); destruct (decide (None = Some f)); congruence || lia.
Qed.

Lemma move_ok v w : vars s !! v = None → is_Some (vars s !! w) → done_with (Move v w) s (move v w s).
Proof.
  intros Hv [x Hw]. unfold move, construct. rewrite Hw, Hv. cbn [deref mbind outcome_bind].
  eexists _, _. split; [done|]. split; [by apply hand_over|]. split; [apply fresh_object|].
  unfold refs. cbn [hp vars spec]. by rewrite !fmap_insert, lookup_fmap, Hw.
Qed.

Lemma drop_now v x : vars s !! v = Some x →
  ∃ h', decrementCounter x (hp s) = Ret h' ∧ inv ∅ h' (delete v (vars s)) ∧
    target h' <$> delete v (vars s) = delete v (refs s) ∧
    (∀ w y, delete v (vars s) !! w = Some y → target h' y = target (hp s) y).
Proof.
  intros Hx. destruct (drop_ok ∅ (hp s) (vars s) v x Hinv Hx) as (h' & E & Hinv' & Ht & _); [lia|].
  exists h'. split; [done|]. split; [done|]. unfold refs. rewrite <- fmap_delete.
  split; [by apply targets_ext|]. intros w [g|] Hw; [by eapply Ht|done].
Qed.

Lemma destroy_ok v : is_Some (vars s !! v) → done_with (Destroy v) s (destroy v s).
Proof.
  intros [x Hx]. unfold destroy. rewrite Hx. cbn [deref mbind outcome_bind].
  destruct (drop_now v x Hx) as (h' & -> & Hinv' & Hr & _). eexists _, _. split; [done|]. split; [done|].
  split; [apply fresh_object|]. done.
Qed.

Lemma assign_move_ok v w :
  is_Some (vars s !! v) → is_Some (vars s !! w) → done_with (AssignMove v w) s (assign_move v w s).
Proof.
  intros [x Hx] [y Hy]. unfold assign_move. rewrite Hx. cbn [deref mbind outcome_bind].
  destruct (drop_now v x Hx) as (h' & -> & Hinv' & Hr & Ht). cbn [mbind outcome_bind]. rewrite Hy.
  cbn [deref mbind outcome_bind]. eexists _, _. split; [done|].
  unfold refs at 1. cbn [hp vars spec]. rewrite !fmap_insert, refs_lookup, Hy. cbn [fmap option_fmap option_map default].
  destruct (decide (v = w)) as [<-|Hne].
  - rewrite !insert_insert_eq. split; [|split; [apply fresh_object|]].
    + rewrite <- insert_delete_eq. apply take_null; [done|apply lookup_delete_eq|done].
    + cbn [target mbind option_bind]. rewrite <- (insert_delete_eq (target h' <$> vars s)), <- fmap_delete, Hr.
      by rewrite insert_delete_eq.
  - assert (delete v (vars s) !! w = Some y) as Hw by (by rewrite lookup_delete_ne).
    split; [|split; [apply fresh_object|]].
    + rewrite <- (insert_delete_eq (vars s)). by apply hand_over; [|apply lookup_delete_eq|].
    + rewrite (Ht _ _ Hw). rewrite <- (insert_delete_eq (target h' <$> vars s)), <- fmap_delete, Hr.
      by rewrite insert_delete_eq.
Qed.

Lemma assign_ok v w :
  is_Some (vars s !! v) → (vars s !! v = vars s !! w ∨ ∃ f, vars s !! w = Some (Some f)) →
  done_with (Assign v w) s (assign v w s).
Proof.
  intros [x Hx] Hw. unfold assign. rewrite Hx. cbn [deref mbind outcome_bind].
  assert (∃ y, vars s !! w = Some y ∧ (x = y ∨ ∃ f, y = Some f)) as (y & Hy & Hcase).
  { destruct Hw as [<-|[f Hf]]; [eauto|]. rewrite Hf. eauto. }
  rewrite Hy. cbn [deref mbind outcome_bind]. case_bool_decide as E.
  - subst y. eexists s, _. split; [done|]. split; [done|]. split; [apply fresh_object|].
    cbn [spec]. unfold refs. rewrite lookup_fmap, Hy. cbn. rewrite insert_id; [done|].
    by rewrite lookup_fmap, Hx.
  - destruct Hcase as [?|[f ->]]; [done|].
    destruct (drop_now v x Hx) as (h' & -> & Hinv' & Hr & Ht). cbn [mbind outcome_bind].
    assert (v ≠ w) as Hne by congruence.
    assert (delete v (vars s) !! w = Some (Some f)) as Hw' by (by rewrite lookup_delete_ne).
    destruct (take_ok ∅ h' (delete v (vars s)) v f Hinv') as (h2 & -> & Hinv2 & Ht2).
    { apply lookup_delete_eq. } { by eapply iv_valid. }
    { rewrite map_size_delete, Hx. lia. }
    cbn [mbind outcome_bind]. eexists _, _. split; [done|]. rewrite insert_delete_eq in Hinv2.
    split; [done|]. split; [apply fresh_object|]. unfold refs at 1. cbn [hp vars spec].
    rewrite fmap_insert, refs_lookup, Hy. cbn [fmap option_fmap option_map default].
    rewrite Ht2, (Ht _ _ Hw'). rewrite <- (insert_delete_eq (target h2 <$> vars s)), <- fmap_delete.
    rewrite (targets_ext h' h2) by done. by rewrite Hr, insert_delete_eq.
Qed.

End Exec.

(** The assignment of a raw pointer, which is null or an object of its own. *)
Lemma assign_raw_ok h m v f it :
  inv (match it with Some o => {[o]} | None => ∅ end) h m → Z.of_nat (size m) < 2147483647 →
  m !! v = Some (Some f) → (∀ o, it = Some o → o ∈ objects h) →
  ∃ s', assign_raw v it (MkState h m) = Ret s' ∧ inv ∅ (hp s') (vars s') ∧
    refs s' = <[v := it]> (refs (MkState h m)).
Proof.
  intros Hinv Hm Hv Hit. unfold assign_raw. cbn [vars hp]. rewrite Hv. cbn [deref mbind outcome_bind].
  destruct (iv_valid _ _ _ Hinv _ _ Hv) as [fp Hf]. rewrite Hf. cbn [deref mbind outcome_bind].
  case_bool_decide as E.
  - destruct it as [o|].
    + destruct fp as [p c]. cbn in E. subst p. destruct (iv_live _ _ _ Hinv _ _ _ Hf). set_solver.
    + eexists. split; [done|]. split; [done|]. unfold refs. cbn [hp vars]. rewrite insert_id; [done|].
      rewrite lookup_fmap, Hv. cbn. by rewrite Hf, <- E.
  - destruct (drop_ok _ h m v _ Hinv Hv) as (h' & -> & Hinv' & Ht & Hsp); [lia|].
    cbn [mbind outcome_bind].
    destruct (new_ok h' (delete v m) v it Hinv') as (g & h2 & E2 & Eg & Hinv2 & Ht2 & Hother).
    { apply lookup_delete_eq. }
    { intros o ->. apply Hsp; [set_solver|by apply Hit]. }
    rewrite (surjective_pairing (new_fat it h')), E2, Eg. cbn [mbind outcome_bind].
    rewrite insert_delete_eq in Hinv2. eexists. split; [done|]. split; [done|].
    unfold refs. cbn [hp vars]. rewrite fmap_insert, Ht2.
    rewrite <- (insert_delete_eq (target h2 <$> m)), <- fmap_delete, (targets_ext h' h2) by done.
    rewrite (targets_ext h h') by done. by rewrite fmap_delete, insert_delete_eq.
Qed.

Lemma shared_exec_ok c s :
  inv ∅ (hp s) (vars s) → Z.of_nat (size (vars s)) < 2147483647 → allowed c (vars s) →
  done_with c s (exec c s).
Proof.
  intros Hinv Hsize Hc. destruct c as [v|v|v w|v w|v|v|v|v w|v w]; cbn [exec allowed] in *.
  - by apply make_ok.
  - by apply default_ok.
  - destruct Hc as (? & f & ?). by eapply copy_ok.
  - destruct Hc. by apply move_ok.
  - by apply destroy_ok.
  - destruct Hc as [f Hf]. unfold assign_new, new_object.
    set (o := fresh (objects (hp s))).
    destruct (assign_raw_ok (MkHeap (fats (hp s)) ({[o]} ∪ objects (hp s))) (vars s) v f (Some o)
      (spare_ok _ _ Hinv) Hsize Hf) as (s' & E & Hinv' & Hr).
    { intros ? [= <-]. cbn. set_solver. }
    exists s', o. split; [done|]. split; [done|]. split; [apply fresh_object|]. done.
  - destruct Hc as [f Hf]. destruct s as [h m].
    destruct (assign_raw_ok h m v f None Hinv Hsize Hf) as (s' & E & Hinv' & Hr); [done|].
    exists s', (fresh (objects h)). split; [done|]. split; [done|]. split; [apply is_fresh|]. done.
  - destruct Hc. by apply assign_ok.
  - destruct Hc. by apply assign_move_ok.
Qed.

(** The objects that exist are those that some variable denotes. *)
Lemma objects_denoted h m o :
  inv ∅ h m → o ∈ objects h ↔ ∃ v, (target h <$> m) !! v = Some (Some o).
Proof.
  intros Hinv. split.
  - intros Ho. destruct (iv_owned _ _ _ Hinv o Ho) as [?|(f & c & Hf)]; [set_solver|].
    destruct (iv_count _ _ _ Hinv _ _ _ Hf) as [-> Hp]. unfold holders in Hp.
    destruct (map_choose (filter (λ kv : nat * option nat, kv.2 = Some f) m)) as (v & x & Hx).
    { intros E. rewrite E, map_size_empty in Hp. lia. }
    apply map_lookup_filter_Some in Hx as [Hx Ex]. cbn in Ex. subst x. exists v.
    rewrite lookup_fmap, Hx. cbn. by rewrite Hf.
  - intros [v Hv]. rewrite lookup_fmap in Hv. destruct (m !! v) as [[f|]|] eqn:E; try done.
    cbn in Hv. destruct (fats h !! f) as [[p c]|] eqn:Hf; [|done]. injection Hv as ->.
    by apply (iv_live _ _ _ Hinv _ _ _ Hf).
Qed.

(** What the language forbids, and what the code cannot do, ends in a crash. *)
Lemma exec_crash c s :
  inv ∅ (hp s) (vars s) → Z.of_nat (size (vars s)) < 2147483647 → ¬ allowed c (vars s) →
  exec c s = Crash.
Proof.
  intros Hinv Hsize Hc.
  assert (∀ v x, vars s !! v = Some x → ∃ h', decrementCounter x (hp s) = Ret h') as Hdrop.
  { intros v x Hx. destruct (drop_now s Hinv Hsize v x Hx) as (h' & E & _). eauto. }
  assert (∀ v f, vars s !! v = Some (Some f) → ∃ h', incrementCounter (Some f) (hp s) = Ret h') as Htake.
  { intros v f Hf. destruct (iv_valid _ _ _ Hinv _ _ Hf) as [[[o|] c'] E]; cbn; rewrite E; cbn; eauto. }
  destruct c as [v|v|v w|v w|v|v|v|v w|v w]; cbn [exec allowed] in *.
  - unfold make, from_raw, new_object, new_fat. cbn. rewrite lookup_insert_eq. cbn. unfold construct.
    cbn [vars]. by destruct (vars s !! v).
  - unfold default_, new_fat, construct. by destruct (vars s !! v).
  - unfold copy. destruct (vars s !! w) as [[f|]|] eqn:Hw; [|done|done]. cbn [deref mbind outcome_bind].
    destruct (Htake _ _ Hw) as [h' ->]. cbn [mbind outcome_bind]. unfold construct.
    destruct (vars s !! v) eqn:Hv; [done|]. exfalso. eauto.
  - unfold move. destruct (vars s !! w) as [x|] eqn:Hw; [|done]. cbn [deref mbind outcome_bind].
    unfold construct. destruct (vars s !! v) eqn:Hv; [done|]. exfalso. eauto.
  - unfold destroy. destruct (vars s !! v) as [x|] eqn:Hv; [|done]. exfalso. eauto.
  - unfold assign_new, new_object, assign_raw. cbn [vars].
    destruct (vars s !! v) as [[f|]|] eqn:Hv; [|done|done]. exfalso. eauto.
  - unfold assign_raw. destruct (vars s !! v) as [[f|]|] eqn:Hv; [|done|done]. exfalso. eauto.
  - unfold assign. destruct (vars s !! v) as [x|] eqn:Hv; [|done]. cbn [deref mbind outcome_bind].
    destruct (vars s !! w) as [y|] eqn:Hw; [|done]. cbn [deref mbind outcome_bind].
    case_bool_decide as E; [subst; exfalso; eauto|]. destruct (Hdrop v x Hv) as [h' ->].
    destruct y as [f|]; [|done]. exfalso. eauto 6.
  - unfold assign_move. destruct (vars s !! v) as [x|] eqn:Hv; [|done]. cbn [deref mbind outcome_bind].
    destruct (Hdrop v x Hv) as [h' ->]. cbn [mbind outcome_bind].
    destruct (vars s !! w) as [y|] eqn:Hw; [|done]. exfalso. eauto.
Qed.

#[global] Instance allowed_dec c m : Decision (allowed c m).
Proof.
  assert (∀ v, Decision (∃ f : nat, (m : gmap nat (option nat)) !! v = Some (Some f))) as Hd.
  { intros v. destruct (m !! v) as [[f|]|]; [left; eauto|right; by intros [? [=]]|right; by intros [? [=]]]. }
  destruct c; cbn; apply _.
Defined.

Lemma spec_size c o s : allowed c (vars s) → (size (spec c o (refs s)) <= S (size (vars s)))%nat.
Proof.
  rewrite <- (map_size_fmap (target (hp s)) (vars s)). fold (refs s).
  assert (∀ (r : gmap nat (option nat)) v x, (size (<[v := x]> r) <= S (size r))%nat) as H1.
  { intros r v x. rewrite map_size_insert. destruct (r !! v); cbn; lia. }
  assert (∀ (r : gmap nat (option nat)) v w x y, is_Some (r !! w) →
    (size (<[w := y]> (<[v := x]> r)) <= S (size r))%nat) as H2.
  { intros r v w x y Hw. rewrite map_size_insert_Some; [apply H1|]. apply lookup_insert_is_Some.
    destruct (decide (v = w)); [by left|by right]. }
  assert (∀ w, is_Some (vars s !! w) → is_Some (refs s !! w)) as H3.
  { intros w Hw. rewrite refs_lookup. by apply fmap_is_Some. }
  destruct c; cbn [spec allowed]; intros Ha; try apply H1.
  - apply H2, H3, Ha.
  - rewrite map_size_delete. destruct (refs s !! v); cbn; lia.
  - apply H2, H3, Ha.
Qed.

Lemma exec_all_inv os s s' k :
  inv ∅ (hp s) (vars s) → Z.of_nat (size (vars s)) <= k → k + Z.of_nat (length os) < 2147483647 →
  exec_all os s = Ret s' →
  inv ∅ (hp s') (vars s') ∧ Z.of_nat (size (vars s')) < 2147483647.
Proof.
  revert s k. induction os as [|c os IH]; intros s k Hinv Hk Hl; cbn [exec_all length] in *.
  - intros [= <-]. split; [done|lia].
  - destruct (decide (allowed c (vars s))) as [Hc|Hc]; [|by rewrite exec_crash by (done || lia)].
    destruct (shared_exec_ok c s Hinv ltac:(lia) Hc) as (s1 & o & -> & Hinv1 & _ & Hr).
    cbn [mbind outcome_bind]. intros E. apply (IH s1 (k + 1)); [done| |lia|done].
    pose proof (spec_size c o s Hc) as Hs. rewrite <- Hr in Hs. unfold refs in Hs. rewrite map_size_fmap in Hs. lia.
Qed.

Lemma is_null_ok h m v x : inv ∅ h m → m !! v = Some x →
  is_null x h = Ret (bool_decide (target h x = None)).
Proof.
  intros Hinv Hx. destruct x as [f|]; [|done]. cbn.
  destruct (iv_valid _ _ _ Hinv _ _ Hx) as [fp ->]. done.
Qed.

Lemma same_target h m v w x y : inv ∅ h m → m !! v = Some x → m !! w = Some y →
  target h x ≠ None → target h x = target h y → x = y.
Proof.
  intros Hinv Hx Hy Hn E. destruct x as [f|]; [|done]. destruct y as [g|]; [|by rewrite E in Hn].
  cbn in *. destruct (iv_valid _ _ _ Hinv _ _ Hx) as [[p c] Hf], (iv_valid _ _ _ Hinv _ _ Hy) as [[p' d] Hg].
  rewrite Hf, Hg in *. cbn in *. subst p'. destruct p as [o|]; [|done]. f_equal.
  by eapply iv_alone.
Qed.

(** ** Properties *)

(** C34 (refinement): [Shared<T>] pointers implement references to objects. After
    any sequence of operations from an empty program, the objects that have not
    been deleted are those that some variable denotes: none is deleted while it
    is referred to, and the last reference deletes it. An operation changes what
    the variables denote as its specification says; it fails if and only if the
    variables it works on do not exist (or do, for a constructor), or it copies,
    or assigns a raw pointer to, a variable that has been moved from. Two
    variables compare equal exactly when they denote the same object or none. *)
Theorem shared_refines_references (os : list op) (s : state)
    (Hlen : Z.of_nat (length os) < 2147483646) (Hs : exec_all os empty = Ret s) :
  (∀ o, o ∈ objects (hp s) ↔ ∃ v, refs s !! v = Some (Some o)) ∧
  (∀ c, allowed c (vars s) → ∃ s' o, exec c s = Ret s' ∧ (o ∉ objects (hp s)) ∧
     refs s' = spec c o (refs s) ∧
     ∀ o', o' ∈ objects (hp s') ↔ ∃ v, refs s' !! v = Some (Some o')) ∧
  (∀ c, ¬ allowed c (vars s) → exec c s = Crash) ∧
  (∀ v w x y, vars s !! v = Some x → vars s !! w = Some y →
     equals x y (hp s) = Ret (bool_decide (target (hp s) x = target (hp s) y)) ∧
     not_equals x y (hp s) = Ret (negb (bool_decide (target (hp s) x = target (hp s) y)))).
Proof.
  destruct (exec_all_inv os empty s 0) as [Hinv Hsize]; [|by cbn [vars empty]; rewrite map_size_empty|lia|done|].
  { split; cbn; intros *; rewrite ?lookup_empty; try done; set_solver. }
  split; [intros o; by apply objects_denoted|]. split; [|split].
  - intros c Hc. destruct (shared_exec_ok c s Hinv Hsize Hc) as (s' & o & E & Hinv' & Ho & Hr).
    exists s', o. split; [done|]. split; [done|]. split; [done|]. intros o'. by apply objects_denoted.
  - intros c Hc. by apply exec_crash.
  - intros v w x y Hx Hy. unfold equals, not_equals.
    rewrite (is_null_ok _ _ _ _ Hinv Hx), (is_null_ok _ _ _ _ Hinv Hy). cbn [mbind outcome_bind].
    case_bool_decide as En.
    + rewrite En. split; repeat f_equal; apply bool_decide_ext; split; congruence.
    + assert (bool_decide (x = y) = bool_decide (target (hp s) x = target (hp s) y)) as ->; [|done].
      apply bool_decide_ext. split; [by intros ->|]. by apply (same_target _ _ _ _ _ _ Hinv Hx Hy).
Qed.

(** Variable 1 is a copy of 0, which then gets another object. *)
Lemma shared_refines_references_witness :
  ∃ s, exec_all [Make 0; Copy 1 0; Move 2 0; AssignMove 0 1; AssignNull 2] empty = Ret s ∧
    (∀ o, o ∈ objects (hp s) ↔ ∃ v, refs s !! v = Some (Some o)) ∧ exec (Copy 3 1) s = Crash.
Proof.
  destruct (exec_all [Make 0; Copy 1 0; Move 2 0; AssignMove 0 1; AssignNull 2] empty) as [s| | |] eqn:E;
    [|vm_compute in E; discriminate E..].
  destruct (shared_refines_references [Make 0; Copy 1 0; Move 2 0; AssignMove 0 1; AssignNull 2] s)
    as (H1 & _ & H2 & _).
  - cbn. lia.
  - exact E.
  - exists s. split; [reflexivity|]. split; [exact H1|]. apply H2.
    vm_compute in E. injection E as <-. cbn. intros [_ [f [=]]].
Defined.

(** The [FatPointer] of a null [Shared] is never deleted: a variable that is made
    and destroyed leaves one behind. *)
Lemma default_leaks :
  (s ← exec_all [Default 0; Destroy 0; Default 0; Destroy 0] empty; Ret (size (fats (hp s)))) = Ret 2%nat.
Proof. reflexivity. Qed.
