(* ===== verification/Pit.v ===== *)
(** * The timer: src/kernel/pit.h, pit.cc

    The interrupt that preempts threads. Each processor's timer calls
    [apitHandler]; a tick charges the process that runs, ends it when it was
    killed and runs the ready thread of least run time otherwise. The first
    theorem gives the effect of a tick in every case, the second one what the
    ticks of a processor add up to: every process that computes gets its share. *)

From Stdlib Require Import Sorted.
From S2P Require Import Prelude Queue Threads Vmm Fork Process.
Local Open Scope Z_scope.

(** ** Calibration *)

Definition PIT_FREQ : Z := 1193182.
Definition APIT_vector : Z := 40.

(** The static members of the class, and what was written to the registers of
    the timers: the port or register and the value. *)
Inductive register := Port (n : Z) | Lvt | Divide | InitialCount | Gate (vector : Z).

#[export] Instance register_eq : EqDecision register.
Proof. solve_decision. Defined.

Record Pit := MkPit {
  jiffiesPerSecond : Z;
  apitCounter : Z;
  written : list (register * Z);
}.

Definition out (r : register) (v : Z) (p : Pit) : Pit :=
  MkPit (jiffiesPerSecond p) (apitCounter p) (written p ++ [(r, v)]).
Definition outb (port v : Z) : Pit → Pit := out (Port port) (u8 v).

(** [while (changes < 40) ...], reading the states [gate] of port 0x61. *)
Fixpoint count_changes (changes : nat) (last : Z) (gate : list Z) : outcome (list Z) :=
  match changes with
  | O => Ret gate
  | S changes' =>
      (fix next (gate : list Z) : outcome (list Z) :=
        match gate with
        | [] => OutOfFuel
        | x :: gate =>
            let t := Z.land x 0x20 in
            if negb (t =? last) then count_changes changes' t gate else next gate
        end) gate
  end.

(** The divider; the test that it fits 16 bits. *)
Definition divider : Z :=
  let d := PIT_FREQ / 20 in
  if negb (Z.land d 0xffff =? d) then 0xffff else d.

(** [gate] are the values port 0x61 will be read with, and [current] the value
    of [apit_current_count] once the loop has ended. *)
Definition calibrate (gate : list Z) (current : Z) (hz : Z) (p : Pit) : outcome Pit :=
  let p := out Lvt 0x00010000 p in
  let p := out Divide 0x0000000B p in
  let d := divider in
  let initial := 0xffffffff in
  let p := out InitialCount initial p in
  let p := outb 0x61 1 p in
  let p := outb 0x43 182 p in
  let p := outb 0x42 d p in
  let p := outb 0x42 (Z.shiftr d 8) p in
  last ← (match gate with [] => OutOfFuel | x :: _ => Ret (Z.land x 0x20) end : outcome Z);
  _ ← count_changes 40 last (tail gate);
  let diff := u32 (initial - current) in
  let p := outb 0x61 0 p in
  if hz =? 0 then Crash
  else
    let p := MkPit hz (diff / hz) (written p) in
    Ret (out (Gate APIT_vector) 0 p).

Definition init (p : Pit) : outcome Pit :=
  if apitCounter p =? 0 then Panic "apiCounter == 0"
  else
    let p := out Divide 0x0000000B p in
    let p := out Lvt (Z.lor (Z.lor (Z.shiftl 1 17) (Z.shiftl 0 16)) APIT_vector) p in
    Ret (out InitialCount (apitCounter p) p).

Definition secondsToJiffies (secs : Z) (p : Pit) : Z := u32 (jiffiesPerSecond p * secs).

Definition seconds (jiffies : Z) (p : Pit) : outcome Z :=
  if jiffiesPerSecond p =? 0 then Crash else Ret (jiffies / jiffiesPerSecond p).

(** The number of times the bit changes. *)
Fixpoint changes (last : Z) (gate : list Z) : nat :=
  match gate with
  | [] => O
  | x :: gate =>
      let t := Z.land x 0x20 in
      if negb (t =? last) then S (changes t gate) else changes last gate
  end.

Lemma count_changes_ends n last gate :
  (n <= changes last gate)%nat → ∃ rest, count_changes n last gate = Ret rest.
Proof.
  revert n last. induction gate as [|x gate IH]; intros [|n] last; cbn -[Z.land]; try (by eauto); [lia|].
  destruct (negb _) eqn:E; intros Hn.
  - apply (IH n). lia.
  - by apply (IH (S n)).
Qed.

(** Calibration waits for forty changes, a second of the slow timer, and derives
    the count for [hz] interrupts a second; with too slow a timer [init] refuses
    to go on. *)
Lemma calibrate_ok x gate current hz p :
  (40 <= changes (Z.land x 0x20) gate)%nat → is_u32 current → 0 < hz →
  ∃ p', calibrate (x :: gate) current hz p = Ret p' ∧ jiffiesPerSecond p' = hz ∧
    apitCounter p' = (4294967295 - current) / hz ∧
    (is_Ret (init p') = false ↔ 4294967295 - current < hz) ∧
    filter (λ w, w.1 = Port 0x42) (written p') =
      filter (λ w, w.1 = Port 0x42) (written p) ++ [(Port 0x42, 11); (Port 0x42, 233)].
Proof.
  intros Hn Hc Hz. destruct (count_changes_ends _ _ _ Hn) as (rest & E).
  unfold calibrate. cbn [mbind outcome_bind tail]. rewrite E. cbn [mbind outcome_bind].
  rewrite (proj2 (Z.eqb_neq hz 0)) by lia. eexists. split; [done|]. split; [done|].
  unfold is_u32 in Hc. assert (Hd : u32 (4294967295 - current) = 4294967295 - current).
  { apply u32_small. unfold is_u32. lia. }
  cbn [out apitCounter written]. rewrite Hd. split; [done|]. split.
  - unfold init. cbn [out apitCounter].
    destruct (Z.eqb_spec ((4294967295 - current) / hz) 0) as [Hq|Hq]; cbn [is_Ret].
    + apply Z.div_small_iff in Hq; [|lia]. split; [lia|done].
    + split; [done|]. intros Hl. exfalso. apply Hq. apply Z.div_small. lia.
  - unfold outb, out. cbn [written]. rewrite !filter_app. cbn. by rewrite !app_nil_r, <- !app_assoc.
Qed.

(** ** The interrupt *)

Section Pit.
Context {F : Type} `{FileNode F}.

(** What a tick works on: the process of each name in [kern], the objects the
    processes share, and the scheduler. *)
Record state := MkState {
  jiffies : Z;
  processes : gmap nat (@Process F);
  objs : objects;
  kern : kernel;
}.

Definition set_kern (k : kernel) (s : state) : state := MkState (jiffies s) (processes s) (objs s) k.
Definition set_objs (o : objects) (s : state) : state := MkState (jiffies s) (processes s) o (kern s).

Definition count_jiffy (core : nat) (s : state) : state :=
  if Nat.eqb core 0 then MkState (u32 (jiffies s + 1)) (processes s) (objs s) (kern s) else s.

(** [process->run_time->add_fetch(d)], on an [int]. *)
Definition add_run_time (p : nat) (d : Z) (k : kernel) : kernel :=
  charge (<[p := i32 (default 0 (run_times k !! p) + d)]> (run_times k)) k.

Inductive tick := Ignored | Preempted (p : picked) | Killed (p : picked).

Definition apitHandler (core : nat) (s : state) : outcome (tick * state) :=
  let s := count_jiffy core s in
  match activeThreads (kern s) !! core with
  | None => Ret (Ignored, s)
  | Some me =>
      it ← deref (tcbs (kern s) !! me);
      if isIdle it || negb (no_preempt it =? 0) then Ret (Ignored, s)
      else
        let s := set_kern (add_run_time (Threads.process it) 1 (kern s)) s in
        p ← deref (processes s !! Threads.process it);
        killed ← deref (bools (objs s) !! kill_flag p);
        if (killed : bool) then
          o ← set_output 1 p (objs s);
          '(r, k) ← stop core (kern s);
          Ret (Killed r, set_kern k (set_objs o s))
        else
          '(r, k) ← yield core (kern s);
          Ret (Preempted r, set_kern k s)
  end.

(** ** Lemmas: charging *)

Lemma count_jiffy_same core s :
  kern (count_jiffy core s) = kern s ∧ processes (count_jiffy core s) = processes s ∧
  objs (count_jiffy core s) = objs s.
Proof. unfold count_jiffy. by destruct (Nat.eqb core 0). Qed.

Lemma charge_wf rt k r z o : sched_wf k r z o → sched_wf (charge rt k) r z o.
Proof. intros []. by split. Qed.

Lemma charge_idle rt k t : is_idle (charge rt k) t = is_idle k t.
Proof. done. Qed.

Lemma is_idle_lookup k t it : tcbs k !! t = Some it → is_idle k t = isIdle it.
Proof. unfold is_idle. by intros ->. Qed.

Lemma key_lookup k t it : tcbs k !! t = Some it → key k t = run_time k it.
Proof. unfold key, PQueue.key_in. by intros ->. Qed.

Lemma key_charged k t it x ix :
  tcbs k !! t = Some it → tcbs k !! x = Some ix →
  key (add_run_time (Threads.process it) 1 k) x =
    if decide (Threads.process ix = Threads.process it) then i32 (key k x + 1) else key k x.
Proof.
  intros Ht Hx. rewrite (key_lookup k x ix Hx), (key_lookup _ x ix) by done.
  unfold run_time, add_run_time. cbn. case_decide as E.
  - by rewrite E, lookup_insert_eq.
  - by rewrite lookup_insert_ne by done.
Qed.

Lemma i32_id x : -2147483648 <= x < 2147483648 → i32 x = x.
Proof. unfold i32, u32. intros Hx. repeat case_match; bool_to_prop; zlia. Qed.

(** ** Lemmas: turns

    A tick when every thread computes, on the list of the ready threads. *)

Fixpoint total (f : nat → Z) (l : list nat) : Z :=
  match l with [] => 0 | x :: l => f x + total f l end.

Definition charged (me : nat) (f : nat → Z) (x : nat) : Z :=
  if decide (x = me) then f x + 1 else f x.

Lemma total_ext f g l : (∀ x, x ∈ l → f x = g x) → total f l = total g l.
Proof.
  induction l as [|x l IH]; intros E; cbn; [done|]. rewrite E by left.
  rewrite IH; [done|]. intros y Hy. apply E. by right.
Qed.

Lemma total_perm f l l' : l ≡ₚ l' → total f l = total f l'.
Proof. induction 1; cbn; lia. Qed.

Lemma total_charged me f l : NoDup l → me ∈ l → total (charged me f) l = total f l + 1.
Proof.
  induction l as [|x l IH]; cbn; [by intros _ []%not_elem_of_nil|].
  intros [Hx Hnd]%NoDup_cons [->|Hin]%elem_of_cons.
  - rewrite (total_ext (charged x f) f); unfold charged.
    + rewrite decide_True by done. lia.
    + intros y Hy. rewrite decide_False; [done|]. by intros ->.
  - rewrite IH by done. unfold charged at 1. rewrite decide_False; [lia|]. by intros ->.
Qed.

(** A thread close to all the others gets at least the mean, less the distance. *)
Lemma total_close f x d l :
  (∀ y, y ∈ l → f y - f x <= d) → total f l <= Z.of_nat (length l) * (f x + d).
Proof.
  induction l as [|y l IH]; intros Hd; [done|].
  cbn [total length].
  pose proof (Hd y ltac:(left)).
  assert (total f l <= Z.of_nat (length l) * (f x + d)) as E.
  { apply IH. intros z Hz. apply Hd. by right. }
  rewrite Nat2Z.inj_succ, Z.mul_succ_l. lia.
Qed.

(** Run times differ by [M] at most, even after the charge of the next tick. *)
Record balanced (M : Z) (f : nat → Z) (me : nat) (r : list nat) : Prop := Balanced {
  bl_spread x y : x ∈ me :: r → y ∈ me :: r → f x - f y <= M;
  bl_next t : t ∈ r → f me + 1 - f t <= M;
}.

Lemma turn_balanced M f me n r :
  1 <= M → PQueue.ordered f (n :: r) → NoDup (me :: n :: r) → balanced M f me (n :: r) →
  balanced M (charged me f) n (PQueue.insert (charged me f) me r).
Proof.
  intros HM [_ Hmin]%StronglySorted_inv [Hme [Hn _]%NoDup_cons]%NoDup_cons [Hs Hx].
  rewrite Forall_forall in Hmin.
  assert (Hf : ∀ t, t ∈ n :: r → charged me f t = f t).
  { intros t Ht. unfold charged. apply decide_False. by intros ->. }
  assert (Hfm : charged me f me = f me + 1) by (unfold charged; by apply decide_True).
  split.
  - intros x y. rewrite !(elem_of_cons _ _ n), !PQueue.insert_perm, !elem_of_cons.
    assert (Hin : ∀ t, t = n ∨ t = me ∨ t ∈ r → t = me ∨ t ∈ n :: r) by (intros t; rewrite elem_of_cons; tauto).
    intros [->|Hx']%Hin [->|Hy']%Hin.
    + lia.
    + rewrite Hfm, Hf by done. auto.
    + rewrite Hfm, Hf by done. pose proof (Hs x me ltac:(by right) ltac:(left)). lia.
    + rewrite !Hf by done. apply Hs; by right.
  - intros t. rewrite PQueue.insert_perm, elem_of_cons. rewrite (Hf n) by left. intros [->|Ht].
    + rewrite Hfm. pose proof (Hs n me ltac:(right; left) ltac:(left)). lia.
    + rewrite Hf by (by right). specialize (Hmin t Ht). lia.
Qed.

(** ** Processors that compute

    Every thread that runs or is ready belongs to a process of its own that was
    not killed, and can be preempted. *)

Record computes (s : state) (x : nat) (it : TCB) : Prop := Computes {
  cp_tcb : tcbs (kern s) !! x = Some it;
  cp_busy : isIdle it = false;
  cp_flag : no_preempt it = 0;
  cp_alive : ∃ p, processes s !! Threads.process it = Some p ∧
    bools (objs s) !! kill_flag p = Some false;
}.

Record computing (core : nat) (s : state) (me : nat) (r : list nat) : Prop := Computing {
  cm_wf : ∃ z o, sched_wf (kern s) r z o;
  cm_me : activeThreads (kern s) !! core = Some me;
  cm_ordered : PQueue.ordered (key (kern s)) r;
  cm_run x : x ∈ me :: r → ∃ it, computes s x it;
  cm_alone x y ix iy : x ∈ me :: r → y ∈ me :: r → tcbs (kern s) !! x = Some ix →
    tcbs (kern s) !! y = Some iy → Threads.process ix = Threads.process iy → x = y;
}.

Lemma computing_nodup core s me r : computing core s me r → NoDup (me :: r).
Proof.
  intros [(z & o & Hwf) Hme _ _ _]. pose proof (sw_nodup _ _ _ _ Hwf) as Hnd.
  apply NoDup_app in Hnd as (_ & Hd & [Hr _]%NoDup_app). constructor; [|done].
  intros Hin. apply (Hd me); [by eapply list_elem_of_lookup_2|]. apply elem_of_app. by left.
Qed.

(** What is charged does not depend on the links and flags of the threads. *)
Lemma key_view k k' x : view <$> tcbs k' = view <$> tcbs k → run_times k' = run_times k →
  key k' x = key k x.
Proof.
  intros Hv Hr. unfold key, PQueue.key_in, run_time. pose proof (f_equal (lookup x) Hv) as Hx.
  rewrite !lookup_fmap, Hr in *. destruct (tcbs k !! x), (tcbs k' !! x); try done.
  by injection Hx as _ _ ->.
Qed.

Lemma ordered_on k k' (l : list nat) :
  (∀ x, x ∈ l → k x = k' x) → PQueue.ordered k l → PQueue.ordered k' l.
Proof.
  unfold PQueue.ordered. intros E Hs. revert E.
  induction Hs as [|x l Hs IH Hx]; intros E; constructor.
  - apply IH. intros y Hy. apply E. by right.
  - rewrite Forall_forall in *. intros y Hy.
    rewrite <- (E x ltac:(left)), <- (E y ltac:(by right)). auto.
Qed.

Lemma insert_on k k' t l :
  (∀ x, x ∈ t :: l → k x = k' x) → PQueue.insert k t l = PQueue.insert k' t l.
Proof.
  induction l as [|x l IH]; intros E; cbn; [done|].
  rewrite (E t ltac:(left)), (E x ltac:(right; left)), IH; [done|].
  intros y Hy. apply E. rewrite !elem_of_cons in *. tauto.
Qed.

(** Seen through [view], the threads are the same ones. *)
Lemma view_back k k' x ix' : view <$> tcbs k' = view <$> tcbs k → tcbs k' !! x = Some ix' →
  ∃ ix, tcbs k !! x = Some ix ∧ isIdle ix' = isIdle ix ∧ Threads.process ix' = Threads.process ix.
Proof.
  intros Hv Hx. pose proof (f_equal (lookup x) Hv) as Hxv. rewrite !lookup_fmap, Hx in Hxv.
  cbn in Hxv. destruct (tcbs k !! x) as [ix|]; [|done]. injection Hxv as ? ? ?. eauto.
Qed.

Lemma computing_view core s s' me r me' r' :
  computing core s me r → view <$> tcbs (kern s') = view <$> tcbs (kern s) →
  processes s' = processes s → objs s' = objs s →
  (∀ x, x ∈ me' :: r' → x ∈ me :: r ∧ flag (kern s') x = Some 0) →
  (∃ z o, sched_wf (kern s') r' z o) → activeThreads (kern s') !! core = Some me' →
  PQueue.ordered (key (kern s')) r' → computing core s' me' r'.
Proof.
  intros [_ _ _ Hrun Hal] Hv Hp Ho Hin Hwf Ha Hord. split; [done..| |].
  - intros x Hx. destruct (Hin x Hx) as [Hx0 Hfl]. destruct (Hrun x Hx0) as (ix & [Hix Hb _ Hk]).
    unfold flag in Hfl. destruct (tcbs (kern s') !! x) as [ix'|] eqn:Hix'; [|done].
    destruct (view_back _ _ _ _ Hv Hix') as (jx & Hjx & Ei & Epr). rewrite Hix in Hjx.
    injection Hjx as <-. injection Hfl as Hfl. exists ix'. split; [done|congruence|done|].
    by rewrite Epr, Hp, Ho.
  - intros x y ix' iy' Hx Hy Hix Hiy Epr.
    destruct (view_back _ _ _ _ Hv Hix) as (ix & Hx1 & _ & E1).
    destruct (view_back _ _ _ _ Hv Hiy) as (iy & Hy1 & _ & E2).
    apply (Hal x y ix iy); [by apply Hin..|done|done|congruence].
Qed.

(** What the tick charges, as the queue sees it. *)
Lemma charge_key core s me r it x :
  computing core s me r → computes s me it → x ∈ me :: r →
  -2147483648 <= key (kern s) x < 2147483647 →
  key (add_run_time (Threads.process it) 1 (kern s)) x = charged me (key (kern s)) x.
Proof.
  intros Hc [Hit _ _ _] Hx Hb. destruct (cm_run _ _ _ _ Hc x Hx) as (ix & [Hix _ _ _]).
  unfold charged. rewrite (key_charged _ _ it x ix Hit Hix).
  repeat case_decide; subst; try congruence.
  - apply i32_id. lia.
  - exfalso. assert (x = me) by (eapply (cm_alone _ _ _ _ Hc); [exact Hx|left|done..]). done.
Qed.

(** The handler of a thread that can be preempted is [yield], after the charge. *)
Lemma tick_yields core s me r it :
  computing core s me r → computes s me it →
  let k1 := add_run_time (Threads.process it) 1 (kern s) in
  ∀ p k', yield core k1 = Ret (p, k') →
  apitHandler core s = Ret (Preempted p, set_kern k' (set_kern k1 (count_jiffy core s))).
Proof.
  intros [_ Hme _ _ _] [Hit Hbusy Hflag (p & Hp & Hk)] k1 q k' E.
  destruct (count_jiffy_same core s) as (Ek & Ep & Eo). unfold apitHandler.
  rewrite Ek, Hme, Hit. cbn [deref mbind outcome_bind]. rewrite Hbusy, Hflag.
  cbn [orb negb Z.eqb set_kern processes objs]. rewrite Ep, Hp. cbn [deref mbind outcome_bind].
  rewrite Eo, Hk. cbn [deref mbind outcome_bind set_kern kern]. fold k1. by rewrite E.
Qed.

(** [turn] of the kernel: one tick while something is ready. *)
Lemma tick_ok core s me n r :
  computing core s me (n :: r) →
  (∀ x, x ∈ me :: n :: r → -2147483648 <= key (kern s) x < 2147483647) →
  let f := charged me (key (kern s)) in
  ∃ s', apitHandler core s = Ret (Preempted (Switched me), s') ∧
    jiffies s' = jiffies (count_jiffy core s) ∧
    computing core s' n (PQueue.insert f me r) ∧
    ∀ x, x ∈ me :: n :: r → key (kern s') x = f x.
Proof.
  intros Hc Hb f. pose proof (computing_nodup _ _ _ _ Hc) as Hnd.
  pose proof Hc as [(z & o & Hwf) Hme Ho Hrun _].
  destruct (Hrun me ltac:(left)) as (it & Hit).
  pose proof (tick_yields core s me _ it Hc Hit) as Hy. cbv zeta in Hy.
  set (k1 := add_run_time (Threads.process it) 1 (kern s)) in *.
  assert (Hf : ∀ x, x ∈ me :: n :: r → key k1 x = f x) by (intros x Hx; eapply charge_key; eauto).
  pose proof Hit as [Hi Hbusy _ _].
  assert (Hwf1 : sched_wf k1 (n :: r) z o) by (by apply charge_wf).
  destruct (yield_switch k1 n r z o core me Hwf1 Hme) as (k' & E & Hwf' & Ha & Hrt & Hv & Hfl).
  { unfold k1, add_run_time. rewrite charge_idle. by rewrite (is_idle_lookup _ _ _ Hi). }
  assert (Hk' : ∀ x, key k' x = key k1 x) by (intros; by apply key_view).
  rewrite (insert_on _ f) in Hwf' by (intros x Hx; apply Hf; rewrite !elem_of_cons in *; tauto).
  assert (Hin : ∀ x, x ∈ n :: PQueue.insert f me r ↔ x ∈ me :: n :: r).
  { intros x. rewrite (elem_of_cons _ _ n), PQueue.insert_perm, !elem_of_cons. tauto. }
  destruct (count_jiffy_same core s) as (_ & Ep & Eo).
  eexists. split; [by apply Hy|]. split; [done|]. split; [|intros x Hx; cbn; by rewrite Hk', Hf].
  eapply computing_view; [exact Hc|exact Hv|exact Ep|exact Eo|..].
  - intros x Hx%Hin. split; [done|]. cbn. rewrite Hfl. case_decide; [done|].
    destruct (Hrun x Hx) as (ix & [Hix _ Hz _]). unfold flag.
    change (tcbs k1) with (tcbs (kern s)). by rewrite Hix, <- Hz.
  - by exists z, o.
  - cbn. rewrite Ha. apply list_lookup_insert_eq. by eapply lookup_lt_Some.
  - apply (ordered_on f).
    { intros x Hx. cbn. rewrite Hk'. symmetry. apply Hf, Hin. by right. }
    apply PQueue.insert_ordered. apply (ordered_on (key (kern s))).
    + intros x Hx. symmetry. apply decide_False. intros ->.
      apply NoDup_cons in Hnd as [Hnd _]. apply Hnd. by right.
    + by apply StronglySorted_inv in Ho as [Ho _].
Qed.

Lemma balanced_on M f g me r :
  (∀ x, x ∈ me :: r → f x = g x) → balanced M f me r → balanced M g me r.
Proof.
  intros E [Hs Hn]. split.
  - intros x y Hx Hy. rewrite <- !E by done. auto.
  - intros t Ht. rewrite <- (E me ltac:(left)), <- (E t ltac:(by right)). auto.
Qed.

(** The ticks of one processor, between which the threads only compute. *)
Definition ticks (n : nat) (core : nat) : state → outcome state :=
  iterate n (λ s, '(_, s) ← apitHandler core s; Ret s).

Lemma ticks_ok (n core : nat) M s me r :
  computing core s me r → r ≠ [] → 1 <= M → balanced M (key (kern s)) me r →
  (∀ x, x ∈ me :: r → -2147483648 <= key (kern s) x ∧ key (kern s) x + Z.of_nat n < 2147483648) →
  ∃ s' me' r', ticks n core s = Ret s' ∧ computing core s' me' r' ∧ me' :: r' ≡ₚ me :: r ∧
    balanced M (key (kern s')) me' r' ∧
    total (key (kern s')) (me :: r) = total (key (kern s)) (me :: r) + Z.of_nat n.
Proof.
  revert s me r. induction n as [|n IH]; intros s me r Hc Hr HM Hb Hk.
  { exists s, me, r. split; [done|]. do 3 (split; [done|]). lia. }
  destruct r as [|t r]; [done|]. pose proof (computing_nodup _ _ _ _ Hc) as Hnd.
  destruct (tick_ok core s me t r Hc) as (s1 & E & _ & Hc1 & Hk1).
  { intros x Hx. specialize (Hk x Hx). lia. }
  set (f := charged me (key (kern s))) in *.
  assert (Hp : t :: PQueue.insert f me r ≡ₚ me :: t :: r) by (rewrite PQueue.insert_perm; apply Permutation_swap).
  assert (Hk1' : ∀ x, x ∈ t :: PQueue.insert f me r → key (kern s1) x = f x).
  { intros x Hx. apply Hk1. by rewrite <- Hp. }
  destruct (IH s1 t (PQueue.insert f me r)) as (s' & me' & r' & E' & Hc' & Hp' & Hb' & Ht').
  - done.
  - intros Hnil. apply (f_equal length) in Hnil. by rewrite PQueue.insert_perm in Hnil.
  - done.
  - apply (balanced_on _ f); [by intros; symmetry; apply Hk1'|].
    by apply turn_balanced; [|apply Hc|..].
  - intros x Hx. rewrite Hk1' by done. rewrite Hp in Hx. specialize (Hk x Hx). unfold f, charged.
    case_decide; lia.
  - exists s', me', r'. split.
    { unfold ticks in *. cbn [iterate]. by rewrite E. }
    split; [done|]. split; [by rewrite Hp'|]. split; [done|].
    rewrite <- (total_perm _ _ _ Hp), Ht', (total_ext _ f) by done.
    rewrite (total_perm _ _ _ Hp). unfold f. rewrite total_charged; [lia|done|left].
Qed.

(** ** Theorems *)

(** C31 (liveness): the processor is shared fairly. When the threads of a
    processor only compute, each for a process of its own, its timer runs them
    all: after any number of ticks no error has occurred, the ticks are charged
    to these processes and to nothing else, the run times of any two of them
    differ by at most one more than they did at first, so that each has had its
    share of the processor up to a constant that does not depend on the number
    of ticks. *)
Theorem fair_share (core n : nat) (s : state) (me : nat) (r : list nat) (d : Z)
    (Hc : computing core s me r) (Hr : r ≠ [])
    (Hd : ∀ x y, x ∈ me :: r → y ∈ me :: r → key (kern s) x - key (kern s) y <= d)
    (Hk : ∀ x, x ∈ me :: r →
      -2147483648 <= key (kern s) x ∧ key (kern s) x + Z.of_nat n < 2147483648) :
  ∃ s' me' r', ticks n core s = Ret s' ∧ computing core s' me' r' ∧ me' :: r' ≡ₚ me :: r ∧
    total (key (kern s')) (me :: r) = total (key (kern s)) (me :: r) + Z.of_nat n ∧
    (∀ x y, x ∈ me :: r → y ∈ me :: r → key (kern s') x - key (kern s') y <= d + 1) ∧
    ∀ x, x ∈ me :: r →
      total (key (kern s)) (me :: r) + Z.of_nat n <=
        Z.of_nat (length (me :: r)) * (key (kern s') x + d + 1).
Proof.
  pose proof (Hd me me ltac:(left) ltac:(left)) as Hd0.
  destruct (ticks_ok n core (d + 1) s me r) as (s' & me' & r' & E & Hc' & Hp & [Hs _] & Ht); [done..|lia| |done|].
  { split; [intros x y Hx Hy; specialize (Hd x y Hx Hy); lia|].
    intros t Ht. specialize (Hd me t ltac:(left) ltac:(by right)). lia. }
  assert (Hs' : ∀ x y, x ∈ me :: r → y ∈ me :: r → key (kern s') x - key (kern s') y <= d + 1).
  { intros x y Hx Hy. rewrite <- Hp in Hx, Hy. auto. }
  exists s', me', r'. do 5 (split; [done|]). intros x Hx.
  rewrite <- Ht, <- Z.add_assoc. apply total_close. auto.
Qed.

(** What a timer interrupt does. It never disturbs an idle
    thread or one that set [no_preempt]. Any other thread is charged a tick;
    when its process was killed the process ends with status 1, the thread
    becomes a zombie and the next thread runs; otherwise the ready thread of
    least run time runs and the interrupted one queues up behind the threads
    that ran no longer than it did, or goes on if nothing is ready. *)
Lemma timer_tick (core me : nat) (s : state) (r z o : list nat) (it : TCB) (p : Process)
    (killed : bool) (Hwf : sched_wf (kern s) r z o)
    (Hme : activeThreads (kern s) !! core = Some me) (Hit : tcbs (kern s) !! me = Some it)
    (Hp : processes s !! Threads.process it = Some p)
    (Hk : bools (objs s) !! kill_flag p = Some killed)
    (Ho : futures (objs s) !! output p = Some None) :
  let k1 := add_run_time (Threads.process it) 1 (kern s) in
  let after o' k' := MkState (jiffies (count_jiffy core s)) (processes s) o' k' in
  if isIdle it || negb (no_preempt it =? 0) then
    apitHandler core s = Ret (Ignored, count_jiffy core s)
  else if killed then
    ∃ k' n o', apitHandler core s = Ret (Killed (Switched me), after o' k') ∧
      futures o' = <[output p := Some 1]> (futures (objs s)) ∧
      sched_wf k' (tail r) (z ++ [me]) o ∧ activeThreads k' = <[core := n]> (activeThreads (kern s)) ∧
      match r with t :: _ => n = t | [] => idleThreads (kern s) !! core = Some n end
  else
    ∃ q k', apitHandler core s = Ret (Preempted q, after (objs s) k') ∧
      match r with
      | [] => q = Returned ∧ sched_wf k' [] z o ∧ activeThreads k' = activeThreads (kern s)
      | n :: r' =>
          q = Switched me ∧ sched_wf k' (PQueue.insert (key k1) me r') z o ∧
          activeThreads k' = <[core := n]> (activeThreads (kern s)) ∧ run_times k' = run_times k1
      end.
Proof.
  intros k1 after. destruct (count_jiffy_same core s) as (Ek & Ep & Eo). unfold apitHandler.
  rewrite Ek, Hme, Hit. cbn [deref mbind outcome_bind].
  destruct (isIdle it) eqn:Hi; [done|]. destruct (no_preempt it =? 0); [|done].
  cbn [orb negb set_kern processes objs]. rewrite Ep, Hp. cbn [deref mbind outcome_bind].
  rewrite Eo, Hk. cbn [deref mbind outcome_bind set_kern kern objs]. fold k1.
  assert (Hwf1 : sched_wf k1 r z o) by (by apply charge_wf).
  assert (Hni : is_idle k1 me = false).
  { unfold k1, add_run_time. by rewrite charge_idle, (is_idle_lookup _ _ _ Hit). }
  destruct killed.
  - unfold set_output. rewrite Ho. cbn [deref ASSERT mbind outcome_bind].
    destruct (stop_ok k1 r z o core me Hwf1 Hme Hni) as (k' & n & -> & Hwf' & Ha & Hn).
    cbn [mbind outcome_bind]. exists k', n, (MkObjects (semaphores (objs s)) (<[output p := Some 1]> (futures (objs s))) (bools (objs s))).
    split; [|repeat (split; [done|]); exact Hn].
    unfold after, set_objs, set_kern. cbn. by rewrite Ep.
  - destruct r as [|n r].
    + destruct (yield_alone k1 z o core me Hwf1 Hme) as (k' & -> & Hwf' & Ha & _).
      cbn [mbind outcome_bind]. eexists _, k'. split; [|repeat (split; [done|]); done].
      unfold after, set_kern. cbn. by rewrite Ep, Eo.
    + destruct (yield_switch k1 n r z o core me Hwf1 Hme Hni) as (k' & -> & Hwf' & Ha & Hr & _).
      cbn [mbind outcome_bind]. eexists _, k'. split; [|repeat (split; [done|]); done].
      unfold after, set_kern. cbn. by rewrite Ep, Eo.
Qed.

(** A thread that has set its output, as [exit] does before it stops, and that is
    killed before the next tick brings the kernel down. *)
Lemma killed_after_exit_panics core me s it p v :
  activeThreads (kern s) !! core = Some me → tcbs (kern s) !! me = Some it →
  isIdle it = false → no_preempt it = 0 → processes s !! Threads.process it = Some p →
  bools (objs s) !! kill_flag p = Some true → futures (objs s) !! output p = Some (Some v) →
  apitHandler core s = Panic "!isReady".
Proof.
  intros Hme Hit Hi Hn Hp Hk Ho. destruct (count_jiffy_same core s) as (Ek & Ep & Eo).
  unfold apitHandler. rewrite Ek, Hme, Hit. cbn [deref mbind outcome_bind]. rewrite Hi, Hn.
  cbn [orb negb Z.eqb set_kern processes objs]. rewrite Ep, Hp. cbn [deref mbind outcome_bind].
  rewrite Eo, Hk. cbn [deref mbind outcome_bind]. unfold set_output, set_kern. cbn [objs].
  by rewrite Eo, Ho.
Qed.

End Pit.

(** ** Witnesses: threads 1 and 2 of processes 1 and 2, which has run for 4 ticks *)

Definition demo_pit : state (F := DemoFile) :=
  MkState 41 {[1%nat := demo_process []; 2%nat := MkProcess [] [] [] [] 9%nat 5%nat 6291456 []]}
    demo_objects demo_run.

Lemma demo_pit_computing : computing 0 demo_pit 1 [2%nat].
Proof.
  assert (Hrun : ∀ x, x ∈ [1; 2]%nat → ∃ it, computes demo_pit x it).
  { intros x. rewrite !elem_of_cons. intros [->|[->|[]%not_elem_of_nil]].
    - eexists. split; [done..|]. eexists. by split.
    - eexists. split; [done..|]. eexists. by split. }
  split; [exists [], []; apply demo_run_wf|done|by repeat constructor|done|].
  intros x y ix iy. rewrite !elem_of_cons.
  intros [->|[->|[]%not_elem_of_nil]] [->|[->|[]%not_elem_of_nil]] [= <-] [= <-]; done.
Qed.

Lemma fair_share_witness :
  ∃ s' me' r', ticks 100 0 demo_pit = Ret s' ∧ computing 0 s' me' r' ∧ me' :: r' ≡ₚ [1; 2]%nat ∧
    total (key (kern s')) [1; 2]%nat = 104 ∧
    (∀ x y, x ∈ [1; 2]%nat → y ∈ [1; 2]%nat → key (kern s') x - key (kern s') y <= 5) ∧
    ∀ x, x ∈ [1; 2]%nat → 104 <= 2 * (key (kern s') x + 4 + 1).
Proof.
  apply (fair_share 0 100 demo_pit 1 [2%nat] 4 demo_pit_computing); [done|..].
  - intros x y. rewrite !elem_of_cons.
    by intros [->|[->|[]%not_elem_of_nil]] [->|[->|[]%not_elem_of_nil]].
  - intros x. rewrite !elem_of_cons. by intros [->|[->|[]%not_elem_of_nil]].
Defined.

Lemma timer_tick_witness :
  ∃ q k', apitHandler 0 demo_pit = Ret (Preempted q, MkState 42 (processes demo_pit) demo_objects k') ∧
    q = Switched 1 ∧ sched_wf k' [1%nat] [] [] ∧ activeThreads k' = [2%nat] ∧
    run_times k' = <[1%nat := 1]> demo_rt.
Proof.
  exact (timer_tick 0 1 demo_pit [2%nat] [] [] (MkTCB false 1 None 0 12288 16384 1)
    (demo_process []) false demo_run_wf eq_refl eq_refl eq_refl eq_refl eq_refl).
Defined.
