(* ===== verification/Acpi.v ===== *)
(** * Reading the ACPI tables: src/kernel/config.cc

    [configInit] looks for the tables that the firmware left in memory and fills
    in [kConfig]: the size of memory, the processors and the interrupt
    controller. Addresses are physical, so that every read succeeds, also one
    through a null pointer. The theorem compares the loop over the entries of the
    interrupt table with the list of the entries that it holds. *)

From S2P Require Import Prelude Mem Config.
Local Open Scope Z_scope.

(** ** Structures in memory *)

Definition ld16 (m : mem) (a : Z) : Z := ld8 m a + 256 * ld8 m (a + 1).

(** What the boot sector found out about memory. *)
Record MemInfo := MkMemInfo { ax : Z; bx : Z; cx : Z; dx : Z }.

Module SDT.
Definition Signature (p : Z) : Z := p.
Definition Length (m : mem) (p : Z) : Z := ld32 m (p + 4).
Definition size : Z := 36.
End SDT.

Module MADT.
Definition localAddress (m : mem) (p : Z) : Z := ld32 m (p + 36).
Definition flags (m : mem) (p : Z) : Z := ld32 m (p + 40).
Definition size : Z := 44.
End MADT.

Module MADT_ENTRY.
Definition type (m : mem) (p : Z) : Z := ld8 m p.
Definition len (m : mem) (p : Z) : Z := ld8 m (p + 1).
End MADT_ENTRY.

Module APIC_ENTRY.
Definition processorId (m : mem) (p : Z) : Z := ld8 m (p + 2).
Definition apicId (m : mem) (p : Z) : Z := ld8 m (p + 3).
Definition flags (m : mem) (p : Z) : Z := ld32 m (p + 4).
End APIC_ENTRY.

Module IOAPIC_ENTRY.
Definition address (m : mem) (p : Z) : Z := ld32 m (p + 4).
End IOAPIC_ENTRY.

Module RSD.
Definition Signature (p : Z) : Z := p.
Definition OEMID (p : Z) : Z := p + 9.
Definition rootSDT (m : mem) (p : Z) : Z := ld32 m (p + 16).
End RSD.

(** ** Searching *)

(** [iseq(a, b, len)], for the characters [b] of a literal. *)
Fixpoint iseq (m : mem) (a : Z) (b : list Z) : bool :=
  match b with
  | [] => true
  | c :: b => if negb (ld8 m a =? c) then false else iseq m (a + 1) b
  end.

(** The texts RSD PTR and APIC. *)
Definition rsd_signature : list Z := [82; 83; 68; 32; 80; 84; 82; 32].
Definition apic_signature : list Z := [65; 80; 73; 67].

(** [for (i = start; i < end; i += 16)] *)
Fixpoint findRSDInRange (fuel : nat) (m : mem) (i last : Z) : outcome Z :=
  if i <? last then
    match fuel with
    | O => OutOfFuel
    | S fuel' =>
        if iseq m (RSD.Signature i) rsd_signature then Ret i
        else findRSDInRange fuel' m (u32 (i + 16)) last
    end
  else Ret 0.

Definition findRSD (m : mem) : outcome Z :=
  it ← findRSDInRange (Z.to_nat 8192) m 0x000E0000 0x00100000;
  if it =? 0 then
    let base := u32 (Z.shiftl (ld16 m 0x40E) 4) in
    findRSDInRange (Z.to_nat 64) m base (u32 (base + Z.shiftl 1 10))
  else Ret it.

(** [for (i = 0; i < entries; i++)], the turns that are left being the fuel. *)
Fixpoint findSDT_loop (turns : nat) (m : mem) (others i : Z) (name : list Z) : Z :=
  match turns with
  | O => 0
  | S turns =>
      let h := ld32 m (u32 (others + 4 * i)) in
      if iseq m (SDT.Signature h) name then h else findSDT_loop turns m others (i + 1) name
  end.

Definition findSDT (m : mem) (rsdp : Z) (name : list Z) : Z :=
  let rsdt := RSD.rootSDT m rsdp in
  let others := u32 (rsdt + SDT.size) in
  let entries := i32 (u32 (SDT.Length m rsdt - SDT.size) / 4) in
  findSDT_loop (Z.to_nat entries) m others 0 name.

Definition memAbove1M (i : MemInfo) : outcome Z :=
  _ ← ASSERT ((cx i =? 15 * 1024) || (dx i =? 0)) "(memInfo.cx == 15 * 1024) || (memInfo.dx == 0)";
  Ret (u32 (Z.shiftl (Z.lor (ax i) (cx i)) 10 + Z.shiftl (Z.lor (bx i) (dx i)) 16)).

(** ** Filling in the configuration *)

Definition set_memSize (v : Z) (c : Config) : Config :=
  MkConfig v (nOtherProcs c) (totalProcs c) (localAPIC c) (madtFlags c) (ioAPIC c) (apicInfo c) (oemid c).
Definition set_oemid (v : list Z) (c : Config) : Config :=
  MkConfig (memSize c) (nOtherProcs c) (totalProcs c) (localAPIC c) (madtFlags c) (ioAPIC c) (apicInfo c) v.
Definition set_madt (local flags n : Z) (c : Config) : Config :=
  MkConfig (memSize c) n (totalProcs c) local flags (ioAPIC c) (apicInfo c) (oemid c).
Definition set_procs (n : Z) (infos : list ApicInfo) (c : Config) : Config :=
  MkConfig (memSize c) n (totalProcs c) (localAPIC c) (madtFlags c) (ioAPIC c) infos (oemid c).
Definition set_ioAPIC (v : Z) (c : Config) : Config :=
  MkConfig (memSize c) (nOtherProcs c) (totalProcs c) (localAPIC c) (madtFlags c) v (apicInfo c) (oemid c).
Definition set_totalProcs (v : Z) (c : Config) : Config :=
  MkConfig (memSize c) (nOtherProcs c) v (localAPIC c) (madtFlags c) (ioAPIC c) (apicInfo c) (oemid c).

(** What the loop does with the entry at [p]; a processor for which [apicInfo]
    has no place is written outside of it, which is [Crash]. *)
Definition examine (m : mem) (p : Z) (c : Config) : outcome Config :=
  if MADT_ENTRY.type m p =? 0 then
    if APIC_ENTRY.processorId m p =? 0 then Ret c
    else
      let info := MkApicInfo (APIC_ENTRY.processorId m p) (APIC_ENTRY.apicId m p) (APIC_ENTRY.flags m p) in
      _ ← deref (apicInfo c !! Z.to_nat (nOtherProcs c));
      Ret (set_procs (u32 (nOtherProcs c + 1)) (<[Z.to_nat (nOtherProcs c) := info]> (apicInfo c)) c)
  else if MADT_ENTRY.type m p =? 1 then Ret (set_ioAPIC (IOAPIC_ENTRY.address m p) c)
  else Ret c.

(** [while (bytesForEntries > 0)]; the entry examined is the next one. *)
Fixpoint madt_loop (fuel : nat) (m : mem) (entryPtr bytesForEntries : Z) (c : Config) : outcome Config :=
  if 0 <? bytesForEntries then
    match fuel with
    | O => OutOfFuel
    | S fuel' =>
        let len := MADT_ENTRY.len m entryPtr in
        let entryPtr := u32 (entryPtr + len) in
        c ← examine m entryPtr c;
        madt_loop fuel' m entryPtr (i32 (bytesForEntries - len)) c
    end
  else Ret c.

Definition read_madt (m : mem) (madt : Z) (c : Config) : outcome Config :=
  let bytesForEntries := i32 (u32 (SDT.Length m madt - MADT.size)) in
  let c := set_madt (MADT.localAddress m madt) (MADT.flags m madt) 0 c in
  c ← madt_loop (Z.to_nat bytesForEntries) m (u32 (madt + MADT.size)) bytesForEntries c;
  Ret (set_totalProcs (u32 (nOtherProcs c + 1)) c).

Definition configInit (i : MemInfo) (m : mem) (config : Config) : outcome Config :=
  above ← memAbove1M i;
  let config := set_memSize (u32 (above + Z.shiftl 1 20)) config in
  rsdp ← findRSD m;
  let config :=
    if negb (rsdp =? 0) then set_oemid (load_bytes m (RSD.OEMID rsdp) 6 ++ [0]) config else config in
  let madt := findSDT m rsdp apic_signature in
  read_madt m madt config.

(** ** Specification: the list of the entries *)

(** The entries at [ps] follow each other from [a] to the end [stop]. *)
Fixpoint entries (m : mem) (a : Z) (ps : list Z) (stop : Z) : Prop :=
  match ps with
  | [] => a = stop
  | p :: ps => p = a ∧ 0 < MADT_ENTRY.len m p ∧ entries m (p + MADT_ENTRY.len m p) ps stop
  end.

Definition processor (m : mem) (p : Z) : option ApicInfo :=
  if (MADT_ENTRY.type m p =? 0) && negb (APIC_ENTRY.processorId m p =? 0) then
    Some (MkApicInfo (APIC_ENTRY.processorId m p) (APIC_ENTRY.apicId m p) (APIC_ENTRY.flags m p))
  else None.

Definition controller (m : mem) (p : Z) : option Z :=
  if MADT_ENTRY.type m p =? 1 then Some (IOAPIC_ENTRY.address m p) else None.

Lemma omap_le {A B} (f : A → option B) (l : list A) : (length (omap f l) <= length l)%nat.
Proof. induction l as [|x l IH]; cbn; [lia|]. destruct (f x); cbn; lia. Qed.

(** [c'] is [c] with the entries at [ps] added to it. *)
Record added (m : mem) (ps : list Z) (c c' : Config) : Prop := Added {
  ad_count : nOtherProcs c' = nOtherProcs c + Z.of_nat (length (omap (processor m) ps));
  ad_infos : take (Z.to_nat (nOtherProcs c')) (apicInfo c') =
    take (Z.to_nat (nOtherProcs c)) (apicInfo c) ++ omap (processor m) ps;
  ad_room : length (apicInfo c') = length (apicInfo c);
  ad_ioapic : ioAPIC c' = default (ioAPIC c) (last (omap (controller m) ps));
  ad_rest : memSize c' = memSize c ∧ localAPIC c' = localAPIC c ∧ madtFlags c' = madtFlags c ∧
    oemid c' = oemid c;
}.

(** ** Lemmas: the loop over the entries *)

Lemma added_nil m c : added m [] c c.
Proof. split; cbn; [lia|by rewrite app_nil_r|done..]. Qed.

Lemma added_app m ps qs c1 c2 c3 : added m ps c1 c2 → added m qs c2 c3 → added m (ps ++ qs) c1 c3.
Proof.
  intros [N1 I1 R1 A1 (?&?&?&?)] [N2 I2 R2 A2 (?&?&?&?)]. split.
  - rewrite omap_app, length_app. lia.
  - by rewrite I2, I1, omap_app, app_assoc.
  - congruence.
  - rewrite A2, A1, omap_app, last_app. by destruct (last (omap (controller m) qs)).
  - repeat split; congruence.
Qed.

Lemma added_one m p c c' info addr :
  processor m p = info → controller m p = addr →
  nOtherProcs c' = nOtherProcs c + Z.of_nat (length (option_list info)) →
  take (Z.to_nat (nOtherProcs c')) (apicInfo c') =
    take (Z.to_nat (nOtherProcs c)) (apicInfo c) ++ option_list info →
  length (apicInfo c') = length (apicInfo c) → ioAPIC c' = default (ioAPIC c) addr →
  memSize c' = memSize c ∧ localAPIC c' = localAPIC c ∧ madtFlags c' = madtFlags c ∧ oemid c' = oemid c →
  added m [p] c c'.
Proof.
  intros Ei Ea ? ? ? ? ?. assert (E : omap (processor m) [p] = option_list info).
  { change (match processor m p with Some y => [y] | None => [] end = option_list info).
    rewrite Ei. by destruct info. }
  assert (E' : omap (controller m) [p] = option_list addr).
  { change (match controller m p with Some y => [y] | None => [] end = option_list addr).
    rewrite Ea. by destruct addr. }
  split; rewrite ?E, ?E'; try done. by destruct addr.
Qed.

Lemma examine_ok m p c :
  0 <= nOtherProcs c → nOtherProcs c < Z.of_nat (length (apicInfo c)) < 4294967295 →
  ∃ c', examine m p c = Ret c' ∧ added m [p] c c'.
Proof.
  intros Hn Hroom. unfold examine.
  destruct (MADT_ENTRY.type m p =? 0) eqn:Et.
  - assert (Ec : controller m p = None).
    { unfold controller. apply Z.eqb_eq in Et. by rewrite Et. }
    destruct (APIC_ENTRY.processorId m p =? 0) eqn:Ep.
    + exists c. split; [done|]. eapply (added_one _ _ _ _ None); [|exact Ec|..]; [|cbn; lia|by rewrite app_nil_r|done..].
      unfold processor. by rewrite Et, Ep.
    + destruct (lookup_lt_is_Some_2 (apicInfo c) (Z.to_nat (nOtherProcs c))) as [x Hx]; [lia|].
      rewrite Hx. cbn [deref mbind outcome_bind]. eexists. split; [done|].
      rewrite u32_small by (unfold is_u32; lia).
      eapply (added_one _ _ _ _ (Some _)); [unfold processor; by rewrite Et, Ep|exact Ec|..]; cbn;
        [lia| |by rewrite length_insert|done..].
      replace (Z.to_nat (nOtherProcs c + 1)) with (S (Z.to_nat (nOtherProcs c))) by lia.
      rewrite (take_S_r _ _ _ (list_lookup_insert_eq _ _ _ (lookup_lt_Some _ _ _ Hx))).
      by rewrite take_insert_ge by lia.
  - assert (Ei : processor m p = None) by (unfold processor; by rewrite Et).
    destruct (MADT_ENTRY.type m p =? 1) eqn:E1.
    + eexists. split; [done|]. eapply (added_one _ _ _ _ None (Some _)); [exact Ei| |cbn..];
        [|lia|by rewrite app_nil_r|done..]. unfold controller. by rewrite E1.
    + exists c. split; [done|]. eapply (added_one _ _ _ _ None None); [exact Ei| |cbn..];
        [|lia|by rewrite app_nil_r|done..]. unfold controller. by rewrite E1.
Qed.

Lemma entries_le m a ps stop : entries m a ps stop → a <= stop ∧ Z.of_nat (length ps) <= stop - a.
Proof.
  revert a. induction ps as [|p ps IH]; intros a; cbn; [lia|].
  intros (-> & Hl & He). apply IH in He. lia.
Qed.

Lemma madt_loop_ok m stop ps fuel a c :
  entries m a ps stop → 0 <= a → stop < 4294967296 → stop - a < 2147483648 →
  0 <= nOtherProcs c → nOtherProcs c + Z.of_nat (length ps) <= Z.of_nat (length (apicInfo c)) →
  Z.of_nat (length (apicInfo c)) < 4294967295 → (length ps <= fuel)%nat →
  ∃ c', madt_loop fuel m a (stop - a) c = Ret c' ∧ added m (tail (ps ++ [stop])) c c'.
Proof.
  revert fuel a c. induction ps as [|p ps IH]; intros fuel a c He Ha Hs Hd Hn Hroom Hl Hf.
  - cbn in He. subst a. rewrite Z.sub_diag. exists c. split; [by destruct fuel|apply added_nil].
  - destruct He as (-> & Hlen & He). pose proof (entries_le _ _ _ _ He) as [Hle Hcount].
    destruct fuel as [|fuel]; [cbn in Hf; lia|]. cbn [length] in Hroom, Hf.
    cbn [madt_loop]. rewrite (proj2 (Z.ltb_lt 0 (stop - a))) by lia.
    rewrite u32_small by (unfold is_u32; lia). set (a' := a + MADT_ENTRY.len m a) in *.
    destruct (examine_ok m a' c) as (c1 & -> & H1); [lia|lia|]. cbn [mbind outcome_bind].
    replace (stop - a - MADT_ENTRY.len m a) with (stop - a') by lia. rewrite i32_small by lia.
    assert (Hn1 : nOtherProcs c <= nOtherProcs c1 <= nOtherProcs c + 1).
    { rewrite (ad_count _ _ _ _ H1). cbn. destruct (processor m a'); cbn; lia. }
    pose proof (ad_room _ _ _ _ H1) as Hr1.
    destruct (IH fuel a' c1 He) as (c2 & -> & H2); [lia..|].
    exists c2. split; [done|]. cbn [tail app].
    destruct ps as [|q ps]; cbn [entries] in He.
    + subst a'. rewrite He in *. cbn. apply (added_app m [stop] []) with c1; done.
    + destruct He as (-> & _). cbn [app]. change (a' :: ps ++ [stop]) with ([a'] ++ (ps ++ [stop])).
      by apply added_app with c1.
Qed.

(** ** Lemmas: the searches *)

(** [p] is the first place from [start] on, in steps of 16, with the signature. *)
Definition first_rsd (m : mem) (start stop p : Z) : Prop :=
  start <= p < stop ∧ (p - start) mod 16 = 0 ∧ iseq m p rsd_signature = true ∧
  ∀ q, start <= q < p → (q - start) mod 16 = 0 → iseq m q rsd_signature = false.

Definition no_rsd (m : mem) (start stop : Z) : Prop :=
  ∀ q, start <= q < stop → (q - start) mod 16 = 0 → iseq m q rsd_signature = false.

Lemma findRSDInRange_found m fuel start stop p :
  first_rsd m start stop p → 0 <= start → stop <= 4294967280 → p - start < 16 * Z.of_nat fuel →
  findRSDInRange fuel m start stop = Ret p.
Proof.
  revert start. induction fuel as [|fuel IH]; intros start (Hp & Hm & Hs & Hno) H0 Hstop Hf; [lia|].
  cbn [findRSDInRange]. rewrite (proj2 (Z.ltb_lt start stop)) by lia. unfold RSD.Signature.
  destruct (decide (p = start)) as [->|Hne]; [by rewrite Hs|].
  rewrite (Hno start) by first [by rewrite Z.sub_diag | lia].
  rewrite u32_small by (unfold is_u32; lia). apply IH; [|zlia..].
  split; [zlia|]. split; [zlia|]. split; [done|]. intros q Hq Hqm. apply Hno; zlia.
Qed.

Lemma findRSDInRange_none m fuel start stop :
  no_rsd m start stop → 0 <= start → stop <= 4294967280 → stop - start <= 16 * Z.of_nat fuel →
  findRSDInRange fuel m start stop = Ret 0.
Proof.
  revert start. induction fuel as [|fuel IH]; intros start Hno H0 Hstop Hf;
    cbn [findRSDInRange]; destruct (Z.ltb_spec start stop) as [Hlt|]; [lia|done| |done].
  unfold RSD.Signature. rewrite (Hno start) by first [by rewrite Z.sub_diag | lia].
  rewrite u32_small by (unfold is_u32; lia). apply IH; [|lia..].
  intros q Hq Hqm. apply Hno; zlia.
Qed.

(** The extended area of the BIOS. *)
Definition ebda (m : mem) : Z := 16 * ld16 m 0x40E.

Definition rsd_at (m : mem) (p : Z) : Prop :=
  first_rsd m 0xE0000 0x100000 p ∨
  no_rsd m 0xE0000 0x100000 ∧ first_rsd m (ebda m) (ebda m + 1024) p.

Lemma ebda_range m : 0 <= ebda m <= 1048560.
Proof.
  unfold ebda, ld16, ld8. pose proof (u8_range (m 0x40E)). pose proof (u8_range (m (0x40E + 1))). lia.
Qed.

Lemma findRSD_ok m p : rsd_at m p → p ≠ 0 → findRSD m = Ret p.
Proof.
  pose proof (ebda_range m) as Hb. intros [Hf|[Hno Hf]] Hp; unfold findRSD.
  - destruct Hf as (Hr & Hf). rewrite (findRSDInRange_found m _ _ _ p (conj Hr Hf)); [|lia..].
    cbn [mbind outcome_bind]. by apply Z.eqb_neq in Hp as ->.
  - rewrite (findRSDInRange_none m _ _ _ Hno); [|lia..]. cbn [mbind outcome_bind Z.eqb].
    replace (u32 (Z.shiftl (ld16 m 0x40E) 4)) with (ebda m).
    + change (Z.shiftl 1 10) with 1024. rewrite u32_small by (unfold is_u32; lia).
      destruct Hf as (Hr & Hf). apply findRSDInRange_found; [exact (conj Hr Hf)|lia..].
    + unfold ebda in *. rewrite Z.shiftl_mul_pow2 by lia. change (2 ^ 4) with 16.
      rewrite u32_small by (unfold is_u32; lia). lia.
Qed.

(** [h] is the first table of the list at [rsdt] with the given name. *)
Definition sdt_at (m : mem) (rsdt : Z) (name : list Z) (h : Z) : Prop :=
  ∃ i, 0 <= i < (SDT.Length m rsdt - SDT.size) / 4 ∧ h = ld32 m (rsdt + SDT.size + 4 * i) ∧
    iseq m h name = true ∧ ∀ j, 0 <= j < i → iseq m (ld32 m (rsdt + SDT.size + 4 * j)) name = false.

Lemma findSDT_loop_found m others name turns k i :
  0 <= k <= i → 0 <= others → others + 4 * i < 4294967296 → i - k < Z.of_nat turns →
  iseq m (ld32 m (others + 4 * i)) name = true →
  (∀ j, k <= j < i → iseq m (ld32 m (others + 4 * j)) name = false) →
  findSDT_loop turns m others k name = ld32 m (others + 4 * i).
Proof.
  revert k. induction turns as [|turns IH]; intros k Hk Ho Hb Ht Hi Hno; [lia|].
  cbn [findSDT_loop]. unfold SDT.Signature. rewrite u32_small by (unfold is_u32; lia).
  destruct (decide (k = i)) as [->|Hne]; [by rewrite Hi|].
  rewrite Hno by lia. apply IH; [lia..|done|]. intros j Hj. apply Hno. lia.
Qed.

Lemma findSDT_ok m rsdp name h :
  let rsdt := RSD.rootSDT m rsdp in
  SDT.size <= SDT.Length m rsdt → rsdt + SDT.Length m rsdt < 4294967296 →
  sdt_at m rsdt name h → findSDT m rsdp name = h.
Proof.
  intros rsdt Hl Hb (i & Hi & -> & Hs & Hno). unfold findSDT. fold rsdt.
  assert (Hr : 0 <= rsdt) by apply ld32_range. unfold SDT.size in *.
  pose proof (ld32_range m (rsdt + 4)) as Hlen. unfold is_u32 in Hlen. fold (SDT.Length m rsdt) in Hlen.
  rewrite (u32_small (rsdt + 36)), (u32_small (SDT.Length m rsdt - 36)) by (unfold is_u32; lia).
  rewrite i32_small by zlia. apply findSDT_loop_found; [lia|lia|zlia|lia|done|].
  intros j Hj. by apply Hno.
Qed.

(** An entry of length 0 keeps the loop from ever ending. *)
Lemma empty_entry_loops m a b c fuel :
  MADT_ENTRY.len m a = 0 → MADT_ENTRY.type m a ≠ 0 → MADT_ENTRY.type m a ≠ 1 → is_u32 a →
  0 < b < 2147483648 → madt_loop fuel m a b c = OutOfFuel.
Proof.
  intros Hl H0 H1 Ha Hb. induction fuel as [|fuel IH]; cbn [madt_loop];
    rewrite (proj2 (Z.ltb_lt 0 b)) by lia; [done|].
  rewrite Hl, Z.add_0_r, Z.sub_0_r, u32_small, i32_small by (done || lia). unfold examine.
  by rewrite (proj2 (Z.eqb_neq _ 0) H0), (proj2 (Z.eqb_neq _ 1) H1).
Qed.

Lemma configInit_found i m c rsdp :
  cx i = 15360 ∨ dx i = 0 → findRSD m = Ret rsdp → rsdp ≠ 0 →
  configInit i m c = read_madt m (findSDT m rsdp apic_signature)
    (set_oemid (load_bytes m (RSD.OEMID rsdp) 6 ++ [0])
      (set_memSize (u32 (1024 * Z.lor (ax i) (cx i) + 65536 * Z.lor (bx i) (dx i) + 1048576)) c)).
Proof.
  intros Hi E Hr0. unfold configInit, memAbove1M. rewrite E, ASSERT_true.
  2:{ apply orb_true_iff. rewrite !Z.eqb_eq. done. }
  apply Z.eqb_neq in Hr0. cbn [mbind outcome_bind]. rewrite Hr0. cbn [negb].
  unfold u32. rewrite !Z.shiftl_mul_pow2 by lia. rewrite Zplus_mod_idemp_l.
  do 3 f_equal. f_equal. lia.
Qed.

(** ** Property *)

(** C38 (functional): [configInit] fills the configuration in from the tables that
    the firmware left. It finds the root pointer at the first place of the two
    areas with the signature, and the interrupt table as the first one of that
    name in the list of tables; the processors it records, in order, are those
    that the entries of the table show, and the interrupt controller is that of
    the last entry for one. The entries looked at are all but the first one,
    and the bytes that follow the table as one more. *)
Theorem configInit_tables (i : MemInfo) (m : mem) (c : Config) (rsdp madt : Z) (ps : list Z)
    (Hi : cx i = 15360 ∨ dx i = 0) (Hr : rsd_at m rsdp) (Hr0 : rsdp ≠ 0)
    (Hroot : SDT.size <= SDT.Length m (RSD.rootSDT m rsdp) ∧
      RSD.rootSDT m rsdp + SDT.Length m (RSD.rootSDT m rsdp) < 4294967296)
    (Hm : sdt_at m (RSD.rootSDT m rsdp) apic_signature madt)
    (Hlen : MADT.size <= SDT.Length m madt < 2147483648) (Hend : madt + SDT.Length m madt < 4294967296)
    (He : entries m (madt + MADT.size) ps (madt + SDT.Length m madt))
    (Hc : length (apicInfo c) = 16%nat) (Hps : (length ps <= 16)%nat) :
  let seen := tail (ps ++ [madt + SDT.Length m madt]) in
  let procs := omap (processor m) seen in
  ∃ c', configInit i m c = Ret c' ∧ nOtherProcs c' = Z.of_nat (length procs) ∧
    totalProcs c' = nOtherProcs c' + 1 ∧ take (length procs) (apicInfo c') = procs ∧
    ioAPIC c' = default (ioAPIC c) (last (omap (controller m) seen)) ∧
    localAPIC c' = MADT.localAddress m madt ∧ madtFlags c' = MADT.flags m madt ∧
    oemid c' = load_bytes m (RSD.OEMID rsdp) 6 ++ [0] ∧
    memSize c' = u32 (1024 * Z.lor (ax i) (cx i) + 65536 * Z.lor (bx i) (dx i) + 1048576).
Proof.
  intros seen procs. assert (Hmadt : 0 <= madt).
  { destruct Hm as (j & _ & -> & _). apply ld32_range. }
  rewrite (configInit_found i m c rsdp Hi (findRSD_ok m rsdp Hr Hr0) Hr0).
  rewrite (findSDT_ok m rsdp _ madt) by first [apply Hroot | done].
  unfold read_madt. unfold MADT.size in *.
  rewrite (u32_small (SDT.Length m madt - 44)), (u32_small (madt + 44)) by (unfold is_u32; lia).
  rewrite i32_small by lia. set (c1 := set_madt _ _ _ _).
  pose proof (entries_le _ _ _ _ He) as [_ Hcount].
  destruct (madt_loop_ok m _ ps (Z.to_nat (SDT.Length m madt - 44)) _ c1 He) as (c2 & E & Ha);
    [lia|lia|lia|done|cbn; rewrite Hc; lia|cbn; rewrite Hc; lia|lia|].
  replace (madt + SDT.Length m madt - (madt + 44)) with (SDT.Length m madt - 44) in E by lia.
  rewrite E. cbn [mbind outcome_bind]. fold seen in Ha.
  destruct Ha as [Hn Hinfo _ Hio (R1 & R2 & R3 & R4)]. fold procs in Hn, Hinfo.
  change (nOtherProcs c1) with 0 in Hn, Hinfo. rewrite Z.add_0_l in Hn.
  assert (Hp : (length procs <= 16)%nat).
  { unfold procs. etransitivity; [apply omap_le|].
    unfold seen. destruct ps; cbn in *; [lia|]. rewrite length_app. cbn. lia. }
  eexists. split; [done|]. cbn [nOtherProcs totalProcs apicInfo ioAPIC localAPIC madtFlags oemid memSize set_totalProcs].
  split; [done|]. split; [rewrite u32_small by (unfold is_u32; lia); done|].
  split; [by rewrite Hn, Nat2Z.id in Hinfo|]. split; [done|]. split; [done|]. split; [done|].
  split; [done|]. by rewrite R1.
Qed.

(** ** Witness: a machine with two processors

    The table holds processor 0, processor 1 and the interrupt controller, in
    this order. *)

Definition word_bytes (v : Z) : list Z := (λ i, u8 (Z.shiftr v (8 * Z.of_nat i))) <$> seq 0 4.

Definition demo_madt : list Z :=
  apic_signature ++ word_bytes 72 ++ replicate 28 0 ++ word_bytes 0xfee00000 ++ word_bytes 1 ++
  [0; 8; 0; 0] ++ word_bytes 1 ++ [0; 8; 1; 1] ++ word_bytes 1 ++
  [1; 12; 2; 0] ++ word_bytes 0xfec00000 ++ word_bytes 0.

Definition demo_rom : mem :=
  let m := store_bytes (λ _, 0) 0xE0010 (rsd_signature ++ [0; 66; 79; 67; 72; 83; 32; 0] ++ word_bytes 0x7000) in
  let m := store_bytes m 0x7000 ([82; 83; 68; 84] ++ word_bytes 40 ++ replicate 28 0 ++ word_bytes 0x7100) in
  store_bytes m 0x7100 demo_madt.

Definition demo_info : MemInfo := MkMemInfo 15360 1792 15360 1792.
Definition demo_config0 : Config := MkConfig 0 0 0 0 0 0 (replicate 16 (MkApicInfo 0 0 0)) [].

Lemma configInit_tables_witness :
  ∃ c', configInit demo_info demo_rom demo_config0 = Ret c' ∧ nOtherProcs c' = 1 ∧
    totalProcs c' = 2 ∧ take 1 (apicInfo c') = [MkApicInfo 1 1 1] ∧ ioAPIC c' = 0xfec00000 ∧
    localAPIC c' = 0xfee00000 ∧ madtFlags c' = 1 ∧ oemid c' = [66; 79; 67; 72; 83; 32; 0] ∧
    memSize c' = 134217728.
Proof.
  destruct (configInit_tables demo_info demo_rom demo_config0 0xE0010 0x7100 [0x712c; 0x7134; 0x713c])
    as (c' & E & Hn & Ht & Hp & Hio & Hl & Hf & Ho & Hs).
  - by left.
  - left. split; [lia|]. split; [done|]. split; [by vm_compute|]. intros q Hq Hm.
    assert (q = 0xE0000) as -> by zlia. by vm_compute.
  - done.
  - by vm_compute.
  - exists 0. split; [by vm_compute|]. split; [by vm_compute|]. split; [by vm_compute|]. intros j Hj. lia.
  - by vm_compute.
  - by vm_compute.
  - by vm_compute.
  - done.
  - cbn. lia.
  - exists c'. split; [done|].
    split; [by rewrite Hn; vm_compute|]. split; [by rewrite Ht, Hn; vm_compute|].
    split; [exact Hp|]. split; [by rewrite Hio; vm_compute|]. split; [by rewrite Hl; vm_compute|].
    split; [by rewrite Hf; vm_compute|]. split; [by rewrite Ho; vm_compute|].
    by rewrite Hs; vm_compute.
Defined.

(** The same machine when the first entry of the table is not that of processor 0:
    processor 1 is not found. *)
Lemma first_entry_skipped :
  let m := store_bytes demo_rom 0x712c ([0; 8; 1; 1] ++ word_bytes 1 ++ [0; 8; 0; 0] ++ word_bytes 1) in
  nOtherProcs <$> match configInit demo_info m demo_config0 with Ret c => Some c | _ => None end = Some 0.
Proof. by vm_compute. Qed.
