(* ===== verification/Ide.v ===== *)
(** * The disk driver: src/kernel/ide.h, ide.cc

    [Ide] reads sectors from an IDE disk by polling its controller. The
    controller is hardware, known through its ports only: the class [Controller]
    has the port operations, and [ata] states what the driver relies on, the
    reading of sectors by programmed input and output. The theorem is that the
    driver then keeps the promise of [BlockIO], the one the file system needs. *)

From S2P Require Import Prelude Mem BlockIO.
Local Open Scope Z_scope.

(** ** The controller *)

Class Controller (C : Type) := {
  inb : Z → C → Z * C;
  outb : Z → Z → C → C;
  inl : Z → C → Z * C;
}.

Definition controller (drive : Z) : Z := Z.land (Z.shiftr drive 1) 1.
Definition channel (drive : Z) : Z := Z.land drive 1.
Definition ports (i : Z) : Z := if i =? 0 then 0x1f0 else 0x170.
Definition port (drive : Z) : Z := ports (controller drive).

Definition ERR : Z := 0x01.
Definition DRQ : Z := 0x08.
Definition DF : Z := 0x20.
Definition DRDY : Z := 0x40.
Definition BSY : Z := 0x80.

Section Ide.
Context {C : Type} `{Controller C}.

(** ** The driver *)

Definition getStatus (drive : Z) (c : C) : Z * C := inb (port drive + 7) c.

(** [while (again(getStatus(drive))) pause();] *)
Fixpoint poll (fuel : nat) (again : Z → bool) (drive : Z) (c : C) : outcome C :=
  let '(status, c) := getStatus drive c in
  if again status then
    match fuel with O => OutOfFuel | S fuel' => poll fuel' again drive c end
  else Ret c.

Definition waitForDrive (fuel : nat) (drive : Z) (c : C) : outcome C :=
  let '(status, c) := getStatus drive c in
  if negb (Z.land status (Z.lor ERR DF) =? 0) then Panic "drive error"
  else if Z.land status DRDY =? 0 then Panic "drive is not ready"
  else poll fuel (λ status, negb (Z.land status BSY =? 0)) drive c.

(** [for (i = 0; i < block_size / 4; i++) ptr[i] = inl(base);] *)
Fixpoint read_words (n : nat) (base : Z) (c : C) : list Z * C :=
  match n with
  | O => ([], c)
  | S n =>
      let '(v, c) := inl base c in
      let '(vs, c) := read_words n base c in
      (v :: vs, c)
  end.

Lemma read_words_length n base c : length (fst (read_words n base c)) = n.
Proof.
  revert c. induction n as [|n IH]; intros c; cbn [read_words]; [done|].
  destruct (inl base c) as [v c1]. specialize (IH c1). destruct (read_words n base c1) as [vs c2].
  cbn in *. by rewrite IH.
Qed.

(** The registers written before a read; [outb] takes a byte. *)
Definition set_up (drive sector : Z) (c : C) : C :=
  let base := port drive in
  let ch := channel drive in
  let c := outb (base + 2) 1 c in
  let c := outb (base + 3) (u8 (Z.shiftr sector 0)) c in
  let c := outb (base + 4) (u8 (Z.shiftr sector 8)) c in
  let c := outb (base + 5) (u8 (Z.shiftr sector 16)) c in
  let c := outb (base + 6)
    (u8 (Z.lor (Z.lor 0xE0 (Z.shiftl ch 4)) (Z.land (Z.shiftr sector 24) 0xf))) c in
  outb (base + 7) 0x20 c.

(** A disk: which one, its controller, how often [read_block] was called, and for
    how many turns the driver polls. *)
Record Ide := MkIde { drive : Z; ctl : C; nRead : Z; patience : nat }.

Definition sector_size : Z := 512.

(** The bytes of the buffer as [uint32_t] words. *)
Definition word_bytes (v : Z) : list Z := (λ i, u8 (Z.shiftr v (8 * Z.of_nat i))) <$> seq 0 4.

Definition ide_read_block (sector : Z) (d : Ide) : outcome (list Z * Ide) :=
  let n := u32 (nRead d + 1) in
  c ← waitForDrive (patience d) (drive d) (ctl d);
  let c := set_up (drive d) sector c in
  c ← waitForDrive (patience d) (drive d) c;
  c ← poll (patience d) (λ status, Z.land status DRQ =? 0) (drive d) c;
  let '(ws, c) := read_words (Z.to_nat (sector_size / 4)) (port (drive d)) c in
  Ret (ws ≫= word_bytes, MkIde (drive d) c n (patience d)).

#[export] Instance Ide_BlockIO : BlockIO Ide := {|
  block_size _ := sector_size;
  size_in_bytes _ := 4294967295;
  read_block d sector := '(bs, _) ← ide_read_block sector d; Ret bs;
|}.

(** A sector has its length whatever the controller answers. *)
#[export] Instance Ide_fits : Fits Ide.
Proof.
  intros d i bs E. cbn [read_block Ide_BlockIO] in E. unfold ide_read_block in E.
  apply bind_Ret_inv in E as ([bs' d'] & E & [= <-]).
  apply bind_Ret_inv in E as (c1 & _ & E). apply bind_Ret_inv in E as (c2 & _ & E).
  apply bind_Ret_inv in E as (c3 & _ & E). pose proof (read_words_length (Z.to_nat (sector_size / 4)) (port (drive d)) c3) as Hl.
  destruct (read_words _ _ c3) as [ws c4]. injection E as <- _. cbn [block_size Ide_BlockIO fst] in *.
  assert (∀ l, length (l ≫= word_bytes) = (4 * length l)%nat) as ->; [|rewrite Hl; done].
  intros l. induction l as [|w l IH]; [done|]. rewrite bind_cons, length_app, IH. cbn. lia.
Qed.

(** ** What the driver relies on *)

(** A status without errors, of a drive that is ready. *)
Definition sound (status : Z) : Prop := Z.land status (Z.lor ERR DF) = 0 ∧ Z.land status DRDY ≠ 0.

(** The word at address [a] of the disk. *)
Definition disk_word (disk : Z → Z) (a : Z) : Z :=
  disk a + 256 * disk (a + 1) + 65536 * disk (a + 2) + 16777216 * disk (a + 3).

(** The command to read one sector, with the address in the registers. *)
Definition read_command (p ch lba : Z) (c : C) : C :=
  outb (p + 7) 0x20 (outb (p + 6) (224 + 16 * ch + lba / 16777216)
    (outb (p + 5) (lba / 65536 mod 256) (outb (p + 4) (lba / 256 mod 256)
      (outb (p + 3) (lba mod 256) (outb (p + 2) 1 c))))).

(** How the controller of [drive] serves reads of the contents [disk]: it is
    [idle], or [serving] a sector, of which some words were read, and which is
    there after a number of status reads that [polls] bounds. *)
Record ata (drv : Z) (disk : Z → Z) (polls : nat) (idle : C → Prop)
    (serving : Z → nat → nat → C → Prop) : Prop := Ata {
  ata_bytes a : 0 <= disk a < 256;
  ata_idle c : idle c → let '(s, c') := inb (port drv + 7) c in
    idle c' ∧ sound s ∧ Z.land s BSY = 0;
  ata_command c lba : idle c → 0 <= lba < 268435456 →
    ∃ w, (w <= polls)%nat ∧ serving lba 0%nat w (read_command (port drv) (channel drv) lba c);
  ata_status c lba k w : serving lba k w c → let '(s, c') := inb (port drv + 7) c in
    serving lba k (pred w) c' ∧ sound s ∧
    if (w =? 0)%nat then Z.land s BSY = 0 ∧ Z.land s DRQ ≠ 0 else Z.land s DRQ = 0;
  ata_data c lba k : serving lba k 0%nat c → (k < 128)%nat → let '(v, c') := inl (port drv) c in
    v = disk_word disk (512 * lba + 4 * Z.of_nat k) ∧
    if (k =? 127)%nat then idle c' else serving lba (S k) 0%nat c';
}.

(** ** Lemmas *)

Section Sound.
Context {drv : Z} {disk : Z → Z} {polls : nat} {idle : C → Prop} {serving : Z → nat → nat → C → Prop}.
Hypothesis Hata : ata drv disk polls idle serving.

Lemma poll_busy fuel c lba k w :
  serving lba k w c → (w <= fuel)%nat →
  ∃ c' w', poll fuel (λ status, negb (Z.land status BSY =? 0)) drv c = Ret c' ∧ serving lba k w' c' ∧
    (w' <= w)%nat.
Proof.
  revert c w. induction fuel as [|fuel IH]; intros c w Hs Hw; cbn [poll]; unfold getStatus;
    pose proof (ata_status _ _ _ _ _ Hata c lba k w Hs) as Hst;
    destruct (inb (port drv + 7) c) as [s c']; destruct Hst as (Hs' & _ & Hb).
  - assert (w = 0%nat) as -> by lia. destruct Hb as [-> _]. eauto.
  - destruct (Z.eqb_spec (Z.land s BSY) 0) as [_|Hn]; cbn [negb].
    + exists c', (pred w). split; [done|]. split; [done|lia].
    + destruct w as [|w]; [by destruct Hb|]. destruct (IH c' w Hs') as (c2 & w2 & E & H2 & ?); [lia|].
      exists c2, w2. split; [done|]. split; [done|lia].
Qed.

Lemma poll_data fuel c lba k w :
  serving lba k w c → (w <= fuel)%nat →
  ∃ c', poll fuel (λ status, Z.land status DRQ =? 0) drv c = Ret c' ∧ serving lba k 0%nat c'.
Proof.
  revert c w. induction fuel as [|fuel IH]; intros c w Hs Hw; cbn [poll]; unfold getStatus;
    pose proof (ata_status _ _ _ _ _ Hata c lba k w Hs) as Hst;
    destruct (inb (port drv + 7) c) as [s c']; destruct Hst as (Hs' & _ & Hb).
  - assert (w = 0%nat) as -> by lia. destruct Hb as [_ Hd]. apply Z.eqb_neq in Hd as ->. eauto.
  - destruct w as [|w]; cbn in Hb.
    + destruct Hb as [_ Hd]. apply Z.eqb_neq in Hd as ->. eauto.
    + rewrite Hb. apply (IH c' w Hs'). lia.
Qed.

Lemma wait_sound fuel c s c' :
  getStatus drv c = (s, c') → sound s →
  waitForDrive fuel drv c = poll fuel (λ status, negb (Z.land status BSY =? 0)) drv c'.
Proof.
  intros E [He Hr]. unfold waitForDrive. rewrite E, He. by apply Z.eqb_neq in Hr as ->.
Qed.

Lemma wait_idle fuel c : idle c → ∃ c', waitForDrive fuel drv c = Ret c' ∧ idle c'.
Proof.
  intros Hi. pose proof (ata_idle _ _ _ _ _ Hata c Hi) as H1.
  destruct (inb (port drv + 7) c) as [s c1] eqn:E1. destruct H1 as (Hi1 & Hs & _).
  rewrite (wait_sound fuel c s c1 E1 Hs). pose proof (ata_idle _ _ _ _ _ Hata c1 Hi1) as H2.
  destruct fuel; cbn [poll]; unfold getStatus; destruct (inb (port drv + 7) c1) as [s2 c2];
    destruct H2 as (? & _ & ->); eauto.
Qed.

Lemma wait_serving fuel c lba k w :
  serving lba k w c → (w <= fuel)%nat →
  ∃ c' w', waitForDrive fuel drv c = Ret c' ∧ serving lba k w' c' ∧ (w' <= w)%nat.
Proof.
  intros Hs Hw. pose proof (ata_status _ _ _ _ _ Hata c lba k w Hs) as H1.
  destruct (inb (port drv + 7) c) as [s c1] eqn:E1. destruct H1 as (Hs1 & Hs' & _).
  rewrite (wait_sound fuel c s c1 E1 Hs').
  destruct (poll_busy fuel c1 lba k (pred w) Hs1) as (c2 & w2 & E & ? & ?); [lia|].
  exists c2, w2. split; [done|]. split; [done|lia].
Qed.

(** The words of a sector from the [k]-th on. *)
Definition words_from (lba : Z) (k n : nat) : list Z :=
  (λ i, disk_word disk (512 * lba + 4 * Z.of_nat (k + i))) <$> seq 0 n.

Lemma words_from_S lba k n :
  words_from lba k (S n) = disk_word disk (512 * lba + 4 * Z.of_nat k) :: words_from lba (S k) n.
Proof.
  unfold words_from. cbn [seq]. rewrite fmap_cons, Nat.add_0_r. f_equal.
  rewrite <- fmap_S_seq, <- list_fmap_compose. apply list_fmap_ext. intros i x _. cbn.
  by rewrite Nat.add_succ_r.
Qed.

Lemma read_words_ok n k c lba :
  serving lba k 0%nat c → (k + n = 128)%nat → (0 < n)%nat →
  ∃ c', read_words n (port drv) c = (words_from lba k n, c') ∧ idle c'.
Proof.
  revert k c. induction n as [|n IH]; intros k c Hs Hk Hn; [lia|]. cbn [read_words].
  pose proof (ata_data _ _ _ _ _ Hata c lba k Hs ltac:(lia)) as Hd.
  destruct (inl (port drv) c) as [v c1]. destruct Hd as [-> Hd]. rewrite words_from_S.
  destruct (Nat.eqb_spec k 127) as [->|Hne].
  - assert (n = 0%nat) as -> by lia. cbn [read_words]. by exists c1.
  - destruct (IH (S k) c1 Hd) as (c2 & -> & Hi); [lia..|]. by exists c2.
Qed.

(** The code sets the registers of [read_command]. *)
Lemma set_up_command sector c :
  0 <= sector < 268435456 → set_up drv sector c = read_command (port drv) (channel drv) sector c.
Proof.
  intros Hs. unfold set_up, read_command, u8. rewrite Z.shiftr_0_r, !Z.shiftr_div_pow2 by lia.
  change (2 ^ 8) with 256. change (2 ^ 16) with 65536. change (2 ^ 24) with 16777216.
  replace (Z.lor (Z.lor 224 (Z.shiftl (channel drv) 4)) (Z.land (sector / 16777216) 15) mod 256)
    with (224 + 16 * channel drv + sector / 16777216); [done|].
  assert (Hq : 0 <= sector / 16777216 < 16) by zlia.
  assert (Hc : channel drv = 0 ∨ channel drv = 1) by (unfold channel; rewrite land_1; zlia).
  assert (Hland : Z.land (sector / 16777216) 15 = sector / 16777216).
  { change 15 with (Z.ones 4). rewrite Z.land_ones by lia. apply Z.mod_small. done. }
  rewrite Hland. generalize dependent (sector / 16777216). intros q Hq _.
  assert (q = 0 ∨ q = 1 ∨ q = 2 ∨ q = 3 ∨ q = 4 ∨ q = 5 ∨ q = 6 ∨ q = 7 ∨ q = 8 ∨ q = 9 ∨ q = 10 ∨
    q = 11 ∨ q = 12 ∨ q = 13 ∨ q = 14 ∨ q = 15) as Hq16 by lia.
  destruct Hc as [-> | ->]; repeat (destruct Hq16 as [-> |Hq16]; [done|]); by subst q.
Qed.

Lemma bytes_of_word a :
  word_bytes (disk_word disk a) = [disk a; disk (a + 1); disk (a + 2); disk (a + 3)].
Proof.
  pose proof (ata_bytes _ _ _ _ _ Hata) as Hb. unfold word_bytes, disk_word, u8. cbn [seq fmap list_fmap].
  pose proof (Hb a). pose proof (Hb (a + 1)). pose proof (Hb (a + 2)). pose proof (Hb (a + 3)).
  rewrite !Z.shiftr_div_pow2 by lia. change (2 ^ (8 * Z.of_nat 0)) with 1.
  change (2 ^ (8 * Z.of_nat 1)) with 256. change (2 ^ (8 * Z.of_nat 2)) with 65536.
  change (2 ^ (8 * Z.of_nat 3)) with 16777216. repeat f_equal; zlia.
Qed.

(** The bytes of a run of words. *)
Lemma words_bytes lba k n :
  length (words_from lba k n ≫= word_bytes) = (4 * n)%nat ∧
  ∀ i, (i < 4 * n)%nat →
    nth i (words_from lba k n ≫= word_bytes) 0 = disk (512 * lba + 4 * Z.of_nat k + Z.of_nat i).
Proof.
  revert k. induction n as [|n IH]; intros k; [by split; [|intros; lia]|].
  rewrite words_from_S, bind_cons, bytes_of_word. destruct (IH (S k)) as [IHl IHn]. split.
  - rewrite length_app, IHl. cbn. lia.
  - intros [|[|[|[|i]]]] Hi; cbn [app nth]; try (f_equal; lia). rewrite IHn by lia. f_equal. lia.
Qed.

Lemma ide_read_ok sector c count :
  idle c → 0 <= sector < 268435456 →
  ∃ c', ide_read_block sector (MkIde drv c count polls) =
    Ret (words_from sector 0 128 ≫= word_bytes, MkIde drv c' (u32 (count + 1)) polls) ∧ idle c'.
Proof.
  intros Hc Hs. unfold ide_read_block. cbn [drive ctl nRead patience].
  destruct (wait_idle polls c Hc) as (c1 & -> & H1). cbn [mbind outcome_bind].
  rewrite set_up_command by done. destruct (ata_command _ _ _ _ _ Hata c1 sector H1 Hs) as (w & Hw & H2).
  destruct (wait_serving polls _ _ _ _ H2 Hw) as (c3 & w3 & -> & H3 & Hw3). cbn [mbind outcome_bind].
  destruct (poll_data polls _ _ _ _ H3) as (c4 & -> & H4); [lia|]. cbn [mbind outcome_bind].
  change (Z.to_nat (sector_size / 4)) with 128%nat.
  destruct (read_words_ok 128 0 c4 sector H4) as (c5 & -> & H5); [done|lia|]. by exists c5.
Qed.

Lemma sector_slice sector : words_from sector 0 128 ≫= word_bytes = slice disk (512 * sector) 512.
Proof.
  destruct (words_bytes sector 0 128) as [Hl Hn]. apply list_eq_nth.
  - rewrite Hl. unfold slice. by rewrite length_fmap, length_seq.
  - intros i Hi. rewrite Hl in Hi. rewrite Hn by done.
    rewrite <- (Nat2Z.id i) at 2. rewrite slice_lookup by lia. f_equal. lia.
Qed.

End Sound.

(** ** Property *)


(** A drive that answers the command with nothing but BSY set, as the standard
    allows, makes the driver panic: the other bits are tested first. *)
Lemma busy_drive_panics fuel drv c c' :
  getStatus drv c = (BSY, c') → waitForDrive fuel drv c = Panic "drive is not ready".
Proof. unfold waitForDrive. by intros ->. Qed.

End Ide.

(** ** Witness: a controller

    A drive that keeps the registers it was given, is busy for two status reads
    after a command, and whose byte at address [a] is [a mod 251]. *)

Definition demo_disk (a : Z) : Z := a mod 251.

Record demo_ctl := DemoCtl { lba0 : Z; lba1 : Z; lba2 : Z; head : Z; busy : nat; pos : option nat }.

Definition demo_lba (c : demo_ctl) : Z :=
  lba0 c + 256 * lba1 c + 65536 * lba2 c + 16777216 * (head c mod 16).

#[export] Instance demo_controller : Controller demo_ctl := {|
  inb a c :=
    (match pos c with
     | None => 0x50
     | Some _ => match busy c with O => 0x58 | _ => 0xD0 end
     end, DemoCtl (lba0 c) (lba1 c) (lba2 c) (head c) (pred (busy c)) (pos c));
  outb a v c :=
    if a =? 0x1f3 then DemoCtl v (lba1 c) (lba2 c) (head c) (busy c) (pos c)
    else if a =? 0x1f4 then DemoCtl (lba0 c) v (lba2 c) (head c) (busy c) (pos c)
    else if a =? 0x1f5 then DemoCtl (lba0 c) (lba1 c) v (head c) (busy c) (pos c)
    else if a =? 0x1f6 then DemoCtl (lba0 c) (lba1 c) (lba2 c) v (busy c) (pos c)
    else if a =? 0x1f7 then DemoCtl (lba0 c) (lba1 c) (lba2 c) (head c) 2 (Some 0%nat)
    else c;
  inl a c :=
    match pos c with
    | None => (0, c)
    | Some k =>
        (disk_word demo_disk (512 * demo_lba c + 4 * Z.of_nat k),
         DemoCtl (lba0 c) (lba1 c) (lba2 c) (head c) 0 (if (k =? 127)%nat then None else Some (S k)))
    end;
|}.

Definition demo_idle (c : demo_ctl) : Prop := pos c = None.
Definition demo_serving (lba : Z) (k w : nat) (c : demo_ctl) : Prop :=
  pos c = Some k ∧ busy c = w ∧ demo_lba c = lba.

Lemma lba_bytes a : 0 <= a < 268435456 →
  a mod 256 + 256 * (a / 256 mod 256) + 65536 * (a / 65536 mod 256) +
    16777216 * ((224 + 16 * 0 + a / 16777216) mod 16) = a.
Proof.
  intros Ha. replace (a / 65536) with (a / 256 / 256) by (by rewrite Z.div_div by lia).
  replace (a / 16777216) with (a / 256 / 256 / 256) by (by rewrite !Z.div_div by lia).
  assert (0 <= a / 256 / 256 / 256 < 16) as Hq.
  { rewrite !Z.div_div by lia. split; [apply Z.div_pos; lia|apply Z.div_lt_upper_bound; lia]. }
  replace (224 + 16 * 0 + a / 256 / 256 / 256) with (a / 256 / 256 / 256 + 14 * 16) by lia.
  rewrite Z.mod_add, (Z.mod_small (a / 256 / 256 / 256)) by lia.
  rewrite (Z.mod_eq a 256), (Z.mod_eq (a / 256) 256), (Z.mod_eq (a / 256 / 256) 256) by lia. lia.
Qed.

Lemma demo_command lba c : read_command (port 0) (channel 0) lba c =
  DemoCtl (lba mod 256) (lba / 256 mod 256) (lba / 65536 mod 256) (224 + 16 * 0 + lba / 16777216)
    2 (Some 0%nat).
Proof. reflexivity. Qed.

Lemma demo_ata : ata 0 demo_disk 2 demo_idle demo_serving.
Proof.
  split.
  - intros a. unfold demo_disk. zlia.
  - intros [? ? ? ? ? ?]. unfold demo_idle. cbn. by intros ->.
  - intros c lba _ Hl. exists 2%nat. split; [done|]. rewrite demo_command.
    split; [done|]. split; [done|]. exact (lba_bytes lba Hl).
  - intros [? ? ? ? w ?] lba k w' (Hp & Hw & Hl). cbn in *. subst. by destruct w' as [|w'].
  - intros [? ? ? ? w ?] lba k (Hp & Hw & Hl) Hk. cbn in *. subst. cbn. split; [done|].
    by destruct (Nat.eqb_spec k 127).
Qed.

