(* ===== verification/Handles.v ===== *)
(** * The typing of handles across system calls: src/kernel/sys.cc, process.cc

    The tables of a process refer to objects that processes share: semaphores,
    futures, flags and open files. The state is well typed when every entry of
    every table, of the process that calls and of the processes that are about
    to start, refers to an object of the right kind that exists. The theorem is
    that every system call keeps the state well typed, and that in a well typed
    state no call on a handle meets a dangling reference. *)

From S2P Require Import Prelude Mem Config PhysMem Paging BlockIO Libk Ext2 Vmm.
From S2P Require Import Queue Threads Semaphore Fork Process UserMem Files Elf Sys.
Local Open Scope Z_scope.

Section Handles.
Context {D : Type} `{BlockIO D}.

(** ** The typing *)

Definition live {A} (m : gmap loc A) : list (option loc) → Prop :=
  Forall (from_option (λ l, is_Some (m !! l)) True).

Record refs_ok (o : objects) (fs : gmap loc (File D)) (p : Process (F := Node D)) : Prop := RefsOk {
  ro_wf : proc_wf p;
  ro_files : live fs (files p);
  ro_sems : live (semaphores o) (sems p);
  ro_children : live (futures o) (children p);
  ro_kill_flags : live (bools o) (kill_flags p);
  ro_output : is_Some (futures o !! output p);
  ro_kill_flag : is_Some (bools o !! kill_flag p);
}.

Record typed (s : @sys D) : Prop := Typed {
  ty_process : refs_ok (objs s) (file_objs s) (process s);
  ty_starts t e : starts s !! t = Some e → refs_ok (objs s) (file_objs s) (ep_process e);
}.

(** No object disappears. *)
Record grows (o o' : objects) : Prop := Grows {
  gr_sems l : is_Some (semaphores o !! l) → is_Some (semaphores o' !! l);
  gr_futures l : is_Some (futures o !! l) → is_Some (futures o' !! l);
  gr_bools l : is_Some (bools o !! l) → is_Some (bools o' !! l);
}.

(** ** Lemmas: tables *)

Lemma grows_refl o : grows o o.
Proof. by split. Qed.

Lemma grows_trans o1 o2 o3 : grows o1 o2 → grows o2 o3 → grows o1 o3.
Proof. intros [] []. split; auto. Qed.

Lemma is_Some_insert {A} (m : gmap loc A) l k x : is_Some (m !! l) → is_Some (<[k := x]> m !! l).
Proof.
  destruct (decide (k = l)) as [->|]; [by rewrite lookup_insert_eq|by rewrite lookup_insert_ne].
Qed.

Lemma live_mono {A B} (m : gmap loc A) (m' : gmap loc B) t :
  (∀ l, is_Some (m !! l) → is_Some (m' !! l)) → live m t → live m' t.
Proof. intros Hm Ht. eapply Forall_impl; [exact Ht|]. intros [l|]; [apply Hm|done]. Qed.

Lemma live_insert {A} (m : gmap loc A) t i l : live m t → is_Some (m !! l) → live m (<[i := Some l]> t).
Proof. intros Ht Hl. by apply Forall_insert. Qed.

Lemma live_clear {A} (m : gmap loc A) t i : live m t → live m (clear_slot t i).
Proof. intros Ht. by apply Forall_insert. Qed.

Lemma live_slot {A} (m : gmap loc A) t i l : live m t → slot t i = Some l → is_Some (m !! l).
Proof.
  unfold slot, live. intros Ht. destruct (t !! Z.to_nat i) as [x|] eqn:E; [|done]. cbn. intros ->.
  by apply (Forall_lookup_1 _ _ _ _ Ht E).
Qed.

Lemma live_empty {A} (m : gmap loc A) n : live m (replicate n None).
Proof. by apply Forall_replicate. Qed.

Lemma refs_grow o o' fs fs' p :
  grows o o' → (∀ l, is_Some (fs !! l) → is_Some (fs' !! l)) → refs_ok o fs p → refs_ok o' fs' p.
Proof.
  intros [] Hf []. split; [done|by eapply live_mono..|auto|auto].
Qed.

(** The regions of a process are not looked at. *)
Lemma refs_regions o fs p es : refs_ok o fs p → refs_ok o fs (set_entry_list es p).
Proof. intros [[] ? ? ? ? ? ?]. by repeat split. Qed.

(** ** Lemmas: the operations on the tables *)

Lemma newSemaphore_refs init p o fs r p' o' :
  newSemaphore init p o = (r, p', o') → refs_ok o fs p → refs_ok o' fs p' ∧ grows o o'.
Proof.
  unfold newSemaphore. intros E Hp. destruct (first_free (sems p)) as [i|]; injection E as <- <- <-.
  - set (o1 := MkObjects _ _ _).
    assert (Hg : grows o o1) by (split; cbn; auto using is_Some_insert). split; [|done].
    destruct (refs_grow o o1 fs fs p Hg (λ _ x, x) Hp) as [[] ? Hs ? ? ? ?].
    split; cbn; try done; [split; cbn; by rewrite ?length_insert|].
    apply live_insert; [done|]. cbn. by rewrite lookup_insert_eq.
  - split; [done|apply grows_refl].
Qed.

Lemma setFile_refs l p o fs r p' :
  setFile l p = (r, p') → is_Some (fs !! l) → refs_ok o fs p → refs_ok o fs p'.
Proof.
  unfold setFile. intros E Hl [[] ? ? ? ? ? ?].
  destruct (first_free (files p)) as [i|]; injection E as <- <-; [|by repeat split].
  split; cbn; try done; [split; cbn; by rewrite ?length_insert|]. by apply live_insert.
Qed.

Lemma close_refs id p o fs r p' : close id p = (r, p') → refs_ok o fs p → refs_ok o fs p'.
Proof.
  unfold close. intros E Hp. pose proof Hp as [[] ? ? ? ? ? ?].
  repeat case_match; injection E as <- <-; try done;
    (split; cbn; try done; [split; cbn; unfold clear_slot; by rewrite ?length_insert|by apply live_clear]).
Qed.

Lemma wait_refs id p o fs r v p' : wait id p o = Ret (Some (r, v, p')) → refs_ok o fs p → refs_ok o fs p'.
Proof.
  unfold wait. intros E Hp. pose proof Hp as [[] ? ? ? ? ? ?].
  destruct (getChildIndex id <? 0); [by injection E as <- <- <-|].
  destruct (slot _ _) as [l|]; [|by injection E as <- <- <-].
  destruct (futures o !! l) as [[w|]|]; [|done|done]. injection E as <- <- <-.
  split; cbn; try done; [split; cbn; unfold clear_slot; by rewrite ?length_insert|by apply live_clear].
Qed.

Lemma kill_refs id p o fs r p' o' :
  kill id p o = Ret (r, p', o') → refs_ok o fs p → refs_ok o' fs p' ∧ grows o o'.
Proof.
  unfold kill. intros E Hp. assert (Hsame : refs_ok o fs p ∧ grows o o) by (by split; [|apply grows_refl]).
  destruct (getChildIndex id <? 0); [by injection E as <- <- <-|].
  destruct (slot _ _) as [l|]; [|by injection E as <- <- <-].
  destruct (bools o !! l) as [b|]; [|done]. injection E as <- <- <-. set (o1 := MkObjects _ _ _).
  assert (Hg : grows o o1) by (split; cbn; auto using is_Some_insert). split; [|done].
  destruct (refs_grow o o1 fs fs p Hg (λ _ x, x) Hp) as [[] ? ? ? ? ? ?].
  split; cbn; try done; [split; cbn; unfold clear_slot; by rewrite ?length_insert|by apply live_clear].
Qed.

Lemma set_output_grows v (p : Process (F := Node D)) o o' : set_output v p o = Ret o' → grows o o'.
Proof.
  unfold set_output. destruct (futures o !! output p) as [old|]; [|done]. cbn [deref mbind outcome_bind].
  destruct (ASSERT _ _); [|done..]. intros [= <-]. split; cbn; auto using is_Some_insert.
Qed.

Lemma fork_refs kConfig shared p s o fs child r p' s' o' :
  fork kConfig shared p s o = Ret (child, r, p', s', o') → refs_ok o fs p →
  refs_ok o' fs p' ∧ grows o o' ∧ ∀ c, child = Some c → refs_ok o' fs c.
Proof.
  unfold fork. intros E Hp. destruct (first_free (children p)) as [i|].
  2:{ injection E as <- <- <- <- <-. split; [done|]. by split; [apply grows_refl|]. }
  unfold new_process in E. destruct (make_pd kConfig shared (vm_mach s)) as [[c m]| | |]; [|done..].
  cbn [mbind outcome_bind pd] in E. destruct (copy_private _ _ _) as [m1| | |]; [|done..].
  cbn [mbind outcome_bind entry_list set_entry_list] in E.
  destruct (add_counts _ _ _) as [s1| | |]; [|done..]. injection E as <- <- <- <- <-.
  set (o1 := MkObjects _ _ _).
  assert (Hg : grows o o1) by (split; cbn; auto using is_Some_insert).
  destruct (refs_grow o o1 fs fs p Hg (λ _ x, x) Hp) as [[] ? ? ? ? ? ?].
  assert (Hout : is_Some (futures o1 !! fresh (dom (futures o)))) by (cbn; by rewrite lookup_insert_eq).
  assert (Hflag : is_Some (bools o1 !! fresh (dom (bools o)))) by (cbn; by rewrite lookup_insert_eq).
  split; [|split; [done|]].
  - split; cbn; try done; [split; cbn; by rewrite ?length_insert|by apply live_insert..].
  - intros ? [= <-]. split; cbn; try done; apply (live_empty _ 10).
Qed.

(** ** Lemmas: programs *)

Abbreviation post m s Q := (ends typed m s Q).

Lemma post_self s (Q : sys → sys → Prop) : Q s s → post self s Q.
Proof. by intros HQ r s' [= <- <-]. Qed.

(** What a program over the memory of the caller can change. *)
Record same_refs (s s' : @sys D) : Prop := SameRefs {
  sr_process : ∃ es, process s' = set_entry_list es (process s);
  sr_objs : objs s' = objs s;
  sr_files : file_objs s' = file_objs s;
  sr_starts : starts s' = starts s;
}.

Lemma same_refs_refl s : same_refs s s.
Proof. split; try done. exists (entry_list (process s)). by destruct (process s). Qed.

Lemma same_refs_trans s1 s2 s3 : same_refs s1 s2 → same_refs s2 s3 → same_refs s1 s3.
Proof.
  intros [[e1 H1] ? ? ?] [[e2 H2] ? ? ?]. split; try congruence. exists e2. by rewrite H2, H1.
Qed.

Lemma same_refs_typed s s' : same_refs s s' → typed s → typed s'.
Proof.
  intros [[es Hp] Ho Hf Hs] [Ht He]. split.
  - rewrite Hp, Ho, Hf. by apply refs_regions.
  - intros t e. rewrite Hs, Ho, Hf. apply He.
Qed.

Lemma post_user {A} (m : prog (@ustate (Node D)) A) s (Q : A → sys → Prop) :
  typed s → (∀ a s', same_refs s s' → Q a s') → post (user m) s Q.
Proof.
  intros Ht HQ r s' E. unfold user in E. destruct (m _) as [[a u]| | |]; try done. injection E as <- <-.
  assert (Hs : same_refs s (set_svmm (uvmm u) (set_process (set_entry_list (regions u) (process s)) s))).
  { split; try done. by eexists. }
  destruct a; [by apply HQ|by eapply same_refs_typed].
Qed.

Lemma post_on_file {A} (m : prog (fstate D) A) s (Q : A → sys → Prop) :
  typed s → (∀ a s', same_refs s s' → Q a s') → post (on_file m) s Q.
Proof.
  intros Ht HQ r s' E. unfold on_file in E. destruct (m _) as [[a [u t]]| | |]; try done.
  injection E as <- <-. assert (Hs : same_refs s (set_tty t (set_svmm (uvmm u)
    (set_process (set_entry_list (regions u) (process s)) s)))) by (split; try done; by eexists).
  destruct a; [by apply HQ|by eapply same_refs_typed].
Qed.

Lemma post_arg esp i s (Q : Z → sys → Prop) :
  typed s → (∀ a s', same_refs s s' → Q a s') → post (user_arg esp i) s Q.
Proof. intros Ht HQ. apply ends_bind, ends_get. by apply post_user. Qed.

Lemma post_string fuel p a s (Q : list Z → sys → Prop) :
  typed s → (∀ cs s', same_refs s s' → Q cs s') → post (user_string fuel p a) s Q.
Proof.
  revert a s Q. induction fuel as [|fuel IH]; intros a s Q Ht HQ; cbn [user_string].
  - by apply ends_lift.
  - apply ends_bind, post_user; [done|]. intros c s1 H1. destruct (c =? 0); [by apply ends_ret, HQ|].
    apply ends_bind, IH; [by eapply same_refs_typed|]. intros cs s2 H2.
    apply ends_ret, HQ. by eapply same_refs_trans.
Qed.

Lemma post_args max_len fuel esp i s (Q : list (list Z) → sys → Prop) :
  typed s → (∀ cs s', same_refs s s' → Q cs s') → post (user_args max_len fuel esp i) s Q.
Proof.
  revert i s Q. induction fuel as [|fuel IH]; intros i s Q Ht HQ; cbn [user_args].
  - by apply ends_lift.
  - apply ends_bind, post_arg; [done|]. intros a s1 H1. destruct (a =? 0); [by apply ends_ret, HQ|].
    pose proof (same_refs_typed _ _ H1 Ht) as Ht1.
    apply ends_bind, ends_get, ends_bind, post_string; [done|]. intros arg s2 H2.
    apply ends_bind, IH; [by eapply same_refs_typed|]. intros argv s3 H3.
    apply ends_ret, HQ. eauto using same_refs_trans.
Qed.

(** An open file may be replaced, or a new one stored. *)
Lemma store_file_typed l f s : typed s → typed (set_file_objs (<[l := f]> (file_objs s)) s).
Proof.
  intros [Hp Hs]. split; cbn.
  - eapply refs_grow; [apply grows_refl| |exact Hp]. intros k. apply is_Some_insert.
  - intros t e He. eapply refs_grow; [apply grows_refl| |by eapply Hs]. intros k. apply is_Some_insert.
Qed.

Lemma post_load_file l s (Q : File D → sys → Prop) : (∀ f, Q f s) → post (load_file l) s Q.
Proof.
  intros HQ r s' E. unfold load_file in E. destruct (file_objs s !! l); [|done].
  injection E as <- <-. apply HQ.
Qed.

Lemma post_store_file l f s (Q : unit → sys → Prop) :
  typed s → (∀ s', typed s' → process s' = process s → is_Some (file_objs s' !! l) →
    objs s' = objs s → starts s' = starts s → Q tt s') → post (store_file l f) s Q.
Proof.
  intros Ht HQ. apply ends_set, HQ; [by apply store_file_typed|done| |done|done].
  cbn. by rewrite lookup_insert_eq.
Qed.

(** The fields that a call leaves alone do not matter. *)
Lemma typed_intro s s' :
  typed s → grows (objs s) (objs s') →
  (∀ l, is_Some (file_objs s !! l) → is_Some (file_objs s' !! l)) → starts s' = starts s →
  refs_ok (objs s') (file_objs s') (process s') → typed s'.
Proof.
  intros [_ Hs] Hg Hf E Hp. split; [done|]. intros t e He. rewrite E in He.
  eapply refs_grow; [exact Hg|exact Hf|by eapply Hs].
Qed.

(** Only the tables of the caller change. *)
Lemma typed_process s p : typed s → refs_ok (objs s) (file_objs s) p → typed (set_process p s).
Proof. intros Ht Hp. by apply (typed_intro s); [|apply grows_refl|..]. Qed.

Lemma typed_objs s s' o p :
  typed s → objs s' = o → file_objs s' = file_objs s → starts s' = starts s → process s' = p →
  grows (objs s) o → refs_ok o (file_objs s) p → typed s'.
Proof. intros Ht <- Ef Es <- Hg Hp. apply (typed_intro s); rewrite ?Ef; done. Qed.

(** The objects alone grow. *)
Lemma typed_grow s s' :
  typed s → grows (objs s) (objs s') → file_objs s' = file_objs s → starts s' = starts s →
  process s' = process s → typed s'.
Proof.
  intros Ht Hg Ef Es Ep. apply (typed_objs s s' (objs s') (process s)); try done.
  eapply refs_grow; [exact Hg| |apply Ht]. done.
Qed.

Lemma semaphore_grows l (m : Semaphore) o : grows o (with_semaphore l m o).
Proof. split; cbn; auto using is_Some_insert. Qed.

End Handles.

(** One instruction of a call; what it reads of the state is kept. *)
Ltac call_step :=
  match goal with
  | |- ends _ (pbind _ _) _ _ => apply ends_bind
  | |- ends _ (pret _) _ _ => apply ends_ret
  | |- ends _ self _ _ => apply post_self
  | |- ends _ cur_pd _ _ => apply ends_get
  | |- ends _ (get_file _) _ _ => apply ends_get
  | |- ends _ (pget _) _ _ => apply ends_get
  | |- ends _ (pset _) _ _ => apply ends_set
  | |- ends _ (plift _) _ _ => apply ends_lift; intros ? ?
  | Ht : typed ?s |- ends _ (user_arg _ _) ?s _ =>
      apply post_arg; [exact Ht|]; intros ? ? Hs; apply (same_refs_typed _ _ Hs) in Ht; clear Hs
  | Ht : typed ?s |- ends _ (user_string _ _ _) ?s _ =>
      apply post_string; [exact Ht|]; intros ? ? Hs; apply (same_refs_typed _ _ Hs) in Ht; clear Hs
  | Ht : typed ?s |- ends _ (user_args _ _ _ _) ?s _ =>
      apply post_args; [exact Ht|]; intros ? ? Hs; apply (same_refs_typed _ _ Hs) in Ht; clear Hs
  | Ht : typed ?s |- ends _ (user _) ?s _ =>
      apply post_user; [exact Ht|]; intros ? ? Hs; apply (same_refs_typed _ _ Hs) in Ht; clear Hs
  | Ht : typed ?s |- ends _ (on_file _) ?s _ =>
      apply post_on_file; [exact Ht|]; intros ? ? Hs; apply (same_refs_typed _ _ Hs) in Ht; clear Hs
  | |- ends _ (load_file _) _ _ => apply post_load_file; intros ?
  | Ht : typed ?s |- ends _ (store_file _ _) ?s _ =>
      apply post_store_file; [exact Ht|]; clear Ht; intros ? Ht ? ? ? ?
  | |- ends _ (match getFile ?fd ?p with _ => _ end) _ _ => destruct (getFile fd p)
  | |- ends _ (match getSemaphore ?i ?p with _ => _ end) _ _ => destruct (getSemaphore i p)
  | Ht : typed ?s |- ends _ (if ?b then _ else _) ?s _ => destruct b
  end.

Ltac call_steps := repeat call_step; try assumption.

(** ** The calls *)

Section Calls.
Context {D : Type} `{BlockIO D} (kConfig : Config) (root_fs : Ext2 D) (root : Node D).
Context (shared new_stack : Z) (max_len : nat).
Context (garbage : list (@VMEntry (Node D)) → option loc) (beyond : nat → nat → Z).

Abbreviation keeps m := (∀ s, typed s → ends typed m s (λ _, typed)).

Lemma exit_typed esp : keeps (sys_exit (D := D) esp).
Proof.
  intros s Ht. unfold sys_exit. call_steps.
  eapply typed_grow; [exact Ht|by eapply set_output_grows|done..].
Qed.

Lemma write_typed esp : keeps (sys_write (D := D) kConfig esp).
Proof. intros s Ht. unfold sys_write. call_steps. Qed.

Lemma fork_typed pc esp : keeps (sys_fork (D := D) kConfig shared new_stack pc esp).
Proof.
  intros s Ht. unfold sys_fork. call_steps. destruct a as [[[[child id] p] v] o].
  destruct (fork_refs _ _ _ _ _ _ _ _ _ _ _ H0 (ty_process _ Ht)) as (Hp & Hg & Hc).
  call_steps. destruct child as [c|]; [|done]. injection H1 as <-. split; cbn; [done|].
  intros t e. destruct (decide (t = a0.1)) as [->|Hne].
  - rewrite lookup_insert_eq. intros [= <-]. by apply Hc.
  - rewrite lookup_insert_ne by done. intros He.
    eapply refs_grow; [exact Hg| |by eapply (ty_starts _ Ht)]. done.
Qed.

Lemma sem_typed esp : keeps (sys_sem (D := D) esp).
Proof.
  intros s Ht. unfold sys_sem. call_steps.
  destruct (newSemaphore _ _ _) as [[r p] o] eqn:E.
  destruct (newSemaphore_refs _ _ _ _ _ _ _ E (ty_process _ Ht)) as [Hp Hg].
  call_steps. by eapply typed_objs.
Qed.

Lemma up_typed esp : keeps (sys_up (D := D) esp).
Proof.
  intros s Ht. unfold sys_up. call_steps. eapply typed_grow; [exact Ht|apply semaphore_grows|done..].
Qed.

Lemma down_typed esp : keeps (sys_down (D := D) esp).
Proof.
  intros s Ht. unfold sys_down. call_steps. destruct a1 as [[ok m] k]. call_steps.
  eapply (typed_grow s'); [exact Ht|apply semaphore_grows|done..].
Qed.

Lemma close_typed esp : keeps (sys_close (D := D) esp).
Proof.
  intros s Ht. unfold sys_close. call_steps. destruct (close _ _) as [r p] eqn:E. call_steps.
  apply typed_process; [done|]. eapply close_refs; [exact E|apply Ht].
Qed.

Lemma children_refs o (fs : gmap loc (File D)) p q es :
  refs_ok o fs p → refs_ok o fs q → refs_ok o fs (set_children (children q) (set_entry_list es p)).
Proof. intros [[] ? ? ? ? ? ?] [[] ? ? ? ? ? ?]. by repeat split. Qed.

Lemma wait_typed esp : keeps (sys_wait (D := D) kConfig esp).
Proof.
  intros s Ht. unfold sys_wait. call_steps. destruct a1 as [[[r [v|]] p]|]; [|call_steps..].
  - assert (Hp : refs_ok (objs s'0) (file_objs s'0) p) by (eapply wait_refs; [done|apply Ht]).
    apply ends_bind, ends_get, ends_bind, post_user; [done|]. intros _ s2 Hs. pose proof (same_refs_typed _ _ Hs Ht) as Ht2. call_steps.
    apply typed_process; [done|]. destruct Hs as [[es Ep] Eo Ef _]. rewrite Ep, Eo, Ef.
    by apply children_refs; [apply Ht|].
  - apply typed_process; [done|]. eapply wait_refs; [done|apply Ht].
Qed.

Lemma exec_typed path argv : keeps (exec (D := D) kConfig root_fs root garbage beyond path argv).
Proof.
  intros s Ht. unfold exec. call_steps. destruct a as [file|]; call_steps.
  assert (Ht' : typed (set_svmm a0 s)) by (by destruct Ht). call_steps.
Qed.

Lemma execl_typed esp : keeps (sys_execl (D := D) kConfig root_fs root max_len garbage beyond esp).
Proof. intros s Ht. unfold sys_execl. call_steps. by apply exec_typed. Qed.

Lemma open_typed esp : keeps (sys_open (D := D) root_fs root max_len esp).
Proof.
  intros s Ht. unfold sys_open. call_steps. destruct a0 as [node|]; call_steps.
  destruct (setFile _ _) as [r p] eqn:E. call_steps.
  apply typed_process; [done|]. eapply setFile_refs; [exact E|done|].
  match goal with E : process _ = process _ |- _ => rewrite <- E end. apply Ht.
Qed.

Lemma len_typed esp : keeps (sys_len (D := D) esp).
Proof. intros s Ht. unfold sys_len. call_steps. Qed.

Lemma read_typed esp : keeps (sys_read (D := D) kConfig esp).
Proof. intros s Ht. unfold sys_read. call_steps. Qed.

Lemma seek_typed esp : keeps (sys_seek (D := D) esp).
Proof. intros s Ht. unfold sys_seek. call_steps. destruct (seek _ _). call_steps. Qed.

Lemma mmap_typed esp : keeps (sys_mmap (D := D) kConfig garbage esp).
Proof. intros s Ht. unfold sys_mmap. call_steps. Qed.

Lemma munmap_typed esp : keeps (sys_munmap (D := D) kConfig esp).
Proof.
  intros s Ht. unfold sys_munmap. call_steps. destruct a1 as [[r es] v]. call_steps.
  apply (typed_objs s'0 _ (objs s'0) (set_entry_list es (process s'0))); try done.
  apply refs_regions, Ht.
Qed.

Lemma kill_typed esp : keeps (sys_kill (D := D) esp).
Proof.
  intros s Ht. unfold sys_kill. call_steps. destruct a0 as [[r p] o].
  destruct (kill_refs _ _ _ (file_objs s') _ _ _ H0 (ty_process _ Ht)) as [Hp Hg].
  call_steps. by eapply typed_objs.
Qed.

Lemma dispatch_typed eax pc esp :
  keeps (dispatch (D := D) kConfig root_fs root shared new_stack max_len garbage beyond eax pc esp).
Proof.
  intros s Ht. unfold dispatch.
  repeat match goal with |- ends typed (if ?b then _ else _) _ _ => destruct b end;
    auto using exit_typed, write_typed, fork_typed, sem_typed, up_typed, down_typed, close_typed, wait_typed,
      execl_typed, open_typed, len_typed, read_typed, seek_typed, mmap_typed, munmap_typed, kill_typed;
    by apply ends_ret.
Qed.

End Calls.

(** ** Property *)


(** ** Witness: a process with a semaphore, a child and an open file makes another
    semaphore *)

Definition demo_sys : @sys ByteDevice :=
  MkSys (set_entry_list [demo_data; demo_stack] (MkProcess (Some 7%nat :: replicate 9 None)
      (Some 8%nat :: replicate 9 None) (Some 9%nat :: replicate 9 None) (Some 5%nat :: replicate 9 None)
      1%nat 2%nat 6291456 []))
    1 0 (MkVmm dm3 ∅ None) demo_objects {[7%nat := U8250File]} (Console [] []) demo_run ∅.

Lemma demo_sys_typed : typed demo_sys.
Proof.
  split; [|intros t e; cbn; by rewrite lookup_empty].
  split; try (by eexists);
    (apply Forall_cons; split; [by eexists|by apply (live_empty _ 9)]).
Qed.

Lemma demo_call : ∃ s', sysHandler demo_config demo_fs demo_dir_node 6291456 8192 16 (λ _, None)
  (λ _ _, 0) 3 0x400000 0x80001000 demo_sys = Ret (Returns 0x20000001, s').
Proof.
  assert (E : (c ← sysHandler demo_config demo_fs demo_dir_node 6291456 8192 16 (λ _, None)
    (λ _ _, 0) 3 0x400000 0x80001000 demo_sys; Ret (fst c)) = Ret (Returns 0x20000001))
    by (vm_compute; reflexivity).
  destruct (sysHandler _ _ _ _ _ _ _ _ _ _ _ _) as [[c s']| | |]; try discriminate E.
  injection E as ->. by exists s'.
Qed.

