(* ===== verification/Isolation.v ===== *)
(** * Isolation of memory: vmm.cc, process.cc, sys.cc

    What a process can do to memory that is not its own, whatever addresses it
    passes. The frames that are not its page tables, not the frames of its pages
    and not those of shared files are [outside]; they and the kernel's memory
    below the frames keep every byte. The file treats accesses to user memory
    (file UserMem) and the operations on address spaces; CallIsolation has the
    system calls. *)

From S2P Require Import Prelude Mem Config PhysMem Paging BlockIO Ext2 Vmm Fork.
From S2P Require Import Process UserMem.
Local Open Scope Z_scope.

Section Isolation.
Context {F : Type} `{FileNode F} (kConfig : Config) (lo : Z).

(** ** What is whose *)

(** A page of the user's half, by its number. *)
Definition high (n : Z) : Prop := 524288 <= n < 1048576.

(** [q] is the page table of a slot from [k] on. *)
Definition table_from (k : Z) (m : mach) (pd q : Z) : Prop :=
  ∃ i, k <= i < 1024 ∧ absent (entry (ram m) pd i) = false ∧ base (entry (ram m) pd i) = q.

(** The entries of [node_list] and those they lead to. *)
Inductive listed (s : @vmm F) : loc → Prop :=
| listed_first l : node_list s = Some l → listed s l
| listed_next l n l' : listed s l → nodes s !! l = Some n → ne_next n = Some l' → listed s l'.

(** [q] is the frame of an entry of the list. *)
Definition on_list (s : @vmm F) (q : Z) : Prop := ∃ l n, listed s l ∧ nodes s !! l = Some n ∧ ne_pa n = q.

(** No frame that is free and no table: a store in [p] breaks nothing. *)
Definition harmless (fl : list Z) (m : mach) (pd p : Z) : Prop :=
  (allocated lo fl m p ∨ limit m <= p ∧ p mod 4096 = 0) ∧ p ≠ pd ∧ ¬ table_from 0 m pd p.

(** A process whose pages are in harmless frames; the first page of the address
    space is not mapped. *)
Record guarded (fl : list Z) (s : @vmm F) (pd : Z) : Prop := Guarded {
  gd_wf : alloc_wf lo fl (vm_mach s);
  gd_as : as_wf (allocated lo fl (vm_mach s)) (ram (vm_mach s)) pd;
  gd_page n e : high n → page (vm_mach s) pd n = Some e → harmless fl (vm_mach s) pd (base e);
  gd_private n e : private_page kConfig n → page (vm_mach s) pd n = Some e →
    allocated lo fl (vm_mach s) (base e);
  gd_zero : page (vm_mach s) pd 0 = None;
  gd_node q : on_list s q → allocated lo fl (vm_mach s) q ∧ harmless fl (vm_mach s) pd q;
}.

(** A frame in use that is none of the process's and holds no shared file. The page
    tables of the kernel's half, which all processes have, are outside. *)
Record outside (fl : list Z) (s : @vmm F) (pd q : Z) : Prop := Outside {
  os_alloc : allocated lo fl (vm_mach s) q;
  os_pd : q ≠ pd;
  os_table : ¬ table_from 512 (vm_mach s) pd q;
  os_page n e : high n → page (vm_mach s) pd n = Some e → base e ≠ q;
  os_node : ¬ on_list s q;
}.

(** The directory [pd2] and its tables are outside of the process with [pd]. *)
Definition apart (fl : list Z) (s : @vmm F) (pd pd2 : Z) : Prop :=
  outside fl s pd pd2 ∧
  ∀ i, 0 <= i < 1024 → absent (entry (ram (vm_mach s)) pd2 i) = false →
    outside fl s pd (base (entry (ram (vm_mach s)) pd2 i)).

(** [q] is the frame of an entry, of the list or taken from it. *)
Definition noded (s : @vmm F) (q : Z) : Prop := ∃ l n, nodes s !! l = Some n ∧ ne_pa n = q.

(** What has happened to the list: it has no frames but those of [N] and those it had. *)
Record lists (s s' : @vmm F) (N : list Z) : Prop := Lists {
  ls_listed q : on_list s' q → q ∈ N ∨ on_list s q;
  ls_old q : noded s q → noded s' q;
  ls_new q : noded s' q → q ∈ N ∨ noded s q;
}.

(** From [s] to [s'] nothing outside has changed, and it is outside still; tables
    and shared files have got new frames. *)
Record keeps (fl : list Z) (s : @vmm F) (fl' : list Z) (s' : @vmm F) (pd : Z) : Prop := Keeps {
  kp_guarded : guarded fl' s' pd;
  kp_outside q : outside fl s pd q → same_frame (vm_mach s) (vm_mach s') q ∧ outside fl' s' pd q;
  kp_steady : steady lo (vm_mach s) (vm_mach s');
  kp_mono q : allocated lo fl (vm_mach s) q → allocated lo fl' (vm_mach s') q;
  kp_tables i : 0 <= i < 1024 → absent (entry (ram (vm_mach s')) pd i) = false →
    entry (ram (vm_mach s')) pd i = entry (ram (vm_mach s)) pd i ∨
    ¬ allocated lo fl (vm_mach s) (base (entry (ram (vm_mach s')) pd i));
  kp_pages n e : high n → page (vm_mach s') pd n = Some e →
    page (vm_mach s) pd n = Some e ∨ ¬ allocated lo fl (vm_mach s) (base e) ∨ noded s' (base e);
  kp_lists : ∃ N, lists s s' N ∧ ∀ q, q ∈ N → allocated lo fl (vm_mach s) q → on_list s q;
}.

Lemma listed_same (s s' : @vmm F) l :
  node_list s' = node_list s → nodes s' = nodes s → listed s' l → listed s l.
Proof.
  intros E1 E2. induction 1 as [l Hl|l n l' _ IH Hn Hl].
  - apply listed_first. congruence.
  - eapply listed_next; [exact IH| |exact Hl]. congruence.
Qed.

Lemma on_list_same (s s' : @vmm F) q :
  node_list s' = node_list s → nodes s' = nodes s → on_list s' q → on_list s q.
Proof.
  intros E1 E2 (l & n & Hl & Hn & E). exists l, n. rewrite <- E2. split; [by apply (listed_same s s')|done].
Qed.

Lemma on_list_noded s q : on_list s q → noded s q.
Proof. intros (l & n & _ & Hn & E). by exists l, n. Qed.

Lemma lists_same s s' N : node_list s' = node_list s → nodes s' = nodes s → lists s s' N.
Proof.
  intros E1 E2. split; unfold noded; rewrite ?E2; auto.
  intros q Hq. right. by apply (on_list_same s s').
Qed.

Lemma lists_trans s1 s2 s3 N1 N2 : lists s1 s2 N1 → lists s2 s3 N2 → lists s1 s3 (N1 ++ N2).
Proof.
  intros [L1 O1 W1] [L2 O2 W2]. split.
  - intros q Hq. rewrite elem_of_app. destruct (L2 q Hq) as [?|Hq2]; [by auto|]. destruct (L1 q Hq2); auto.
  - auto.
  - intros q Hq. rewrite elem_of_app. destruct (W2 q Hq) as [?|Hq2]; [by auto|].
    destruct (W1 q Hq2); auto.
Qed.

Lemma keeps_refl fl s pd : guarded fl s pd → keeps fl s fl s pd.
Proof.
  split; [done|done|apply steady_refl|done|by left|by left|]. exists []. split; [by apply lists_same|].
  by intros q Hq%not_elem_of_nil.
Qed.

Lemma keeps_trans fl1 s1 fl2 s2 fl3 s3 pd :
  keeps fl1 s1 fl2 s2 pd → keeps fl2 s2 fl3 s3 pd → keeps fl1 s1 fl3 s3 pd.
Proof.
  intros [_ O1 L1 M1 T1 P1 (N1 & A1 & B1)] [G O2 L2 M2 T2 P2 (N2 & A2 & B2)].
  split; [done| |by eapply steady_trans|by intros q Hq; apply M2, M1|..].
  - intros q Hq. destruct (O1 q Hq) as [S1 Q1], (O2 q Q1) as [S2 Q2].
    split; [by eapply agree_trans|done].
  - intros i Hi Ha. destruct (T2 i Hi Ha) as [E|Hn]; [|right; by intros Hq; apply Hn, M1].
    rewrite E in Ha |- *. by apply T1.
  - intros n e Hn He. destruct (P2 n e Hn He) as [H2|[H2|H2]]; [|right; left; auto|by auto].
    destruct (P1 n e Hn H2) as [?|[?|?]]; [by auto..|]. do 2 right. by apply A2.
  - exists (N1 ++ N2). split; [by eapply lists_trans|]. intros q [Hq|Hq]%elem_of_app Ha; [by apply B1|].
    destruct (ls_listed _ _ _ A1 q) as [Hq'|Hq']; [|by apply B1|done]. by apply B2, M1.
Qed.

(** What the process with [pd2] sees in pages that are in frames outside. *)
Lemma apart_view fl (s s' : @vmm F) pd pd2 va :
  apart fl s pd pd2 →
  (∀ q, outside fl s pd q → same_frame (vm_mach s) (vm_mach s') q) → is_u32 va →
  (∀ e, page (vm_mach s) pd2 (va / 4096) = Some e → outside fl s pd (base e)) →
  view s' pd2 va = view s pd2 va.
Proof.
  intros [Hpd Ht] Hs Hu Ho. unfold view, phys.
  rewrite (walk_agree (ram (vm_mach s)) (ram (vm_mach s'))); [|done|by apply Hs|].
  - rewrite page_walk. destruct (page (vm_mach s) pd2 (va / 4096)) as [e|]; [|done].
    apply (ld8_agree _ _ (base e) 4096); [by apply Hs, Ho|]. pose proof (Z.mod_pos_bound va 4096). lia.
  - intros Ha. apply Hs, Ht; [by apply pdi_range|done].
Qed.

(** ** Lemmas: stores in a harmless frame *)

Lemma harmless_aligned fl m pd p : harmless fl m pd p → p mod 4096 = 0.
Proof. intros [[Hp|[_ Hp]] _]; [by eapply allocated_aligned|done]. Qed.

Lemma harmless_ge fl m pd p : alloc_wf lo fl m → harmless fl m pd p → lo <= p.
Proof.
  intros Hwf [[Hp|[Hp _]] _]; [by destruct Hp as [[_ [? _]] _]|].
  pose proof (wf_bounds _ _ _ Hwf). lia.
Qed.

(** A frame in use is not written, nor is a free one. *)
Lemma harmless_free fl m pd p f : alloc_wf lo fl m → harmless fl m pd p → f ∈ fl → f ≠ p.
Proof.
  intros Hwf [[[_ Hn]|[Hp _]] _] Hf ->; [done|]. pose proof (wf_free _ _ _ Hwf) as Hfr.
  rewrite Forall_forall in Hfr. destruct (Hfr p Hf). pose proof (wf_bounds _ _ _ Hwf). lia.
Qed.

Lemma table_same k m m' pd q :
  0 <= k → (∀ i, 0 <= i < 1024 → entry (ram m') pd i = entry (ram m) pd i) →
  table_from k m' pd q → table_from k m pd q.
Proof. intros Hk He (i & Hi & Ha & Hb). exists i. rewrite He in Ha, Hb by lia. done. Qed.

Lemma table_mono m pd q : table_from 512 m pd q → table_from 0 m pd q.
Proof. intros (i & Hi & Hx). exists i. split; [lia|done]. Qed.

(** New contents for one harmless frame. *)
Lemma fill_keeps fl (s : @vmm F) pd p r :
  guarded fl s pd → harmless fl (vm_mach s) pd p → (∀ q, outside fl s pd q → q ≠ p) →
  (∀ b n, p + 4096 <= b ∨ b + n <= p → agree r (ram (vm_mach s)) b n) →
  keeps fl s fl (set_mach (set_ram r (vm_mach s)) s) pd.
Proof.
  intros [Hwf Has Hpg Hpv Hz Hnd] Hp Hq Hr. pose proof (harmless_aligned _ _ _ _ Hp) as Hal.
  pose proof (harmless_ge _ _ _ _ Hwf Hp) as Hge. pose proof Hp as (_ & Hpd & Hnt).
  set (m := vm_mach s) in *. set (m' := set_ram r m).
  assert (Hsame : ∀ q, q mod 4096 = 0 → q ≠ p → same_frame m m' q).
  { intros q Ha Hne. apply Hr. destruct (frames_disjoint p q); auto. }
  pose proof (allocated_aligned _ _ _ _ (as_pd _ _ _ Has)) as Hpda.
  assert (He : ∀ i, 0 <= i < 1024 → entry (ram m') pd i = entry (ram m) pd i).
  { intros i Hi. apply entry_agree; [by apply Hsame|done]. }
  assert (Hw : ∀ n, 0 <= n < 1048576 → page m' pd n = page m pd n).
  { intros n Hn. apply walk_agree; [by apply page_u32|by apply Hsame|]. intros Ha.
    apply Hsame; [apply base_aligned|]. intros E. apply Hnt.
    exists (pdi_of (4096 * n)). split; [by apply pdi_range, page_u32|done]. }
  assert (Hh : ∀ x, harmless fl m pd x → harmless fl m' pd x).
  { intros x (H1 & H2 & H3). split; [done|]. split; [done|]. intros H4. by apply H3, (table_same 0 m m'). }
  split; [split|..].
  - apply alloc_wf_write; [done|]. intros f Hf. pose proof (wf_free _ _ _ Hwf) as Hfr.
    rewrite Forall_forall in Hfr. destruct (Hfr f Hf) as [Hfa _].
    eapply agree_sub; [apply (Hsame f Hfa); by eapply harmless_free|lia|lia].
  - eapply as_wf_agree; [..|exact Has]; [done|]. by apply Hsame.
  - intros n e Hn. change (vm_mach _) with m'. rewrite Hw by (destruct Hn; lia). intros He'. by eapply Hh, Hpg.
  - intros n e Hn. change (vm_mach _) with m'. rewrite Hw by (destruct Hn as [[] _]; lia). by apply Hpv.
  - change (vm_mach _) with m'. by rewrite Hw.
  - intros x Hx. apply (on_list_same s) in Hx; [|done..]. destruct (Hnd x Hx) as [H1 H2].
    split; [done|by apply Hh].
  - intros q Ho. pose proof (Hq q Ho) as Hne. destruct Ho as [O1 O2 O3 O4 O5].
    split; [apply Hsame; [by eapply allocated_aligned|done]|]. split; [done|done| | |].
    + intros Ht. apply O3. by eapply table_same; [lia|exact He|].
    + intros n e Hn. change (vm_mach _) with m'. rewrite Hw by (destruct Hn; lia). by apply O4.
    + intros Hl. apply O5. by apply (on_list_same s) in Hl.
  - apply steady_ram, Hr. lia.
  - done.
  - intros i Hi _. left. by apply He.
  - intros n e Hn. change (vm_mach _) with m' at 1. rewrite Hw by (destruct Hn; lia). by left.
  - exists []. split; [by apply lists_same|]. by intros q ?%not_elem_of_nil.
Qed.

(** The frame of a page of the process's can be written. *)
Lemma store_keeps fl (s : @vmm F) pd n e off v :
  guarded fl s pd → high n → page (vm_mach s) pd n = Some e → 0 <= off < 4096 →
  keeps fl s fl (set_mach (set_ram (st8 (ram (vm_mach s)) (base e + off) v) (vm_mach s)) s) pd.
Proof.
  intros Hg Hn He Ho. apply (fill_keeps _ _ _ (base e)); [done|by eapply gd_page| |].
  - intros q Hq. apply not_eq_sym. by eapply os_page.
  - intros b k Hb x Hx. unfold st8. rewrite (proj2 (Z.eqb_neq _ _)); [done|lia].
Qed.

(** ** Lemmas: mapping a page *)

Lemma upper_slot va : is_u32 va → 2147483648 <= va → 512 <= pdi_of va < 1024 ∧ 524288 <= va / 4096.
Proof. intros Hu Hh. split; [by apply pdi_high|zlia]. Qed.

Section Mapped.
Context {fl : list Z} {s : @vmm F} {pd va pa : Z} {fl' : list Z} {s' : @vmm F}.
Hypothesis Hg : guarded fl s pd.
Hypothesis Hu : is_u32 va.
Hypothesis Hh : 2147483648 <= va.
Hypothesis Hm : page_mapped lo fl (vm_mach s) pd va pa fl' (vm_mach s').

(** No frame that was in use has become a table. *)
Lemma mapped_table k q : 0 <= k → allocated lo fl (vm_mach s) q →
  table_from k (vm_mach s') pd q → table_from k (vm_mach s) pd q.
Proof using Hm.
  intros Hk Hq (i & Hi & Ha & <-).
  destruct (pm_tables _ _ _ _ _ _ _ _ Hm i ltac:(lia) Ha) as [E|[Hn _]]; [|done].
  exists i. rewrite E in Ha |- *. done.
Qed.

Lemma mapped_harmless x : harmless fl (vm_mach s) pd x → harmless fl' (vm_mach s') pd x.
Proof using Hm.
  intros ([Hx|[Hx Hal]] & H2 & H3).
  - split; [left; by apply (pm_mono _ _ _ _ _ _ _ _ Hm)|]. split; [done|].
    intros Ht. by apply H3, (mapped_table 0 x).
  - split; [right; by rewrite (proj1 (pm_steady _ _ _ _ _ _ _ _ Hm))|]. split; [done|].
    intros (i & Hi & Ha & E). destruct (as_table _ _ _ (pm_as _ _ _ _ _ _ _ _ Hm) i Hi Ha) as [Hal' _].
    rewrite E in Hal'. destruct Hal' as [[_ [_ Hlt]] _].
    pose proof (wf_bounds _ _ _ (pm_wf _ _ _ _ _ _ _ _ Hm)) as Hb.
    rewrite (proj1 (pm_steady _ _ _ _ _ _ _ _ Hm)) in Hb. lia.
Qed.

(** The frame is new or that of a shared file. *)
Hypothesis Hpa : allocated lo fl (vm_mach s) pa → on_list s pa.

Lemma mapped_pa_harmless : harmless fl' (vm_mach s') pd pa.
Proof using Hg Hm Hpa.
  destruct (decide (allocated lo fl (vm_mach s) pa)) as [Ha|Hf].
  { apply mapped_harmless. by eapply gd_node, Hpa. }
  pose proof (gd_as _ _ _ Hg) as Has. split; [left; apply (pm_pa _ _ _ _ _ _ _ _ Hm)|].
  split; [intros ->; by apply Hf, Has|].
  intros (i & Hi & Ha & E). destruct (pm_tables _ _ _ _ _ _ _ _ Hm i Hi Ha) as [E'|[_ Hne]]; [|done].
  apply Hf. rewrite <- E, E'. apply (as_table _ _ _ Has i Hi). by rewrite <- E'.
Qed.

Lemma mapped_entry n : 0 <= n < 1048576 →
  page (vm_mach s') pd n = if n =? va / 4096 then Some (pa + 7) else page (vm_mach s) pd n.
Proof using Hm Hu.
  intros Hn. destruct (Z.eqb_spec n (va / 4096)) as [->|Hne].
  - rewrite <- page_walk. apply (pm_walk _ _ _ _ _ _ _ _ Hm).
  - apply (pm_other _ _ _ _ _ _ _ _ Hm); [by apply page_u32|]. rewrite Z.mul_comm, Z.div_mul; lia.
Qed.

Lemma mapped_flags : base (pa + 7) = pa.
Proof using Hm.
  destruct (frame_u32 _ _ _ _ (pm_wf _ _ _ _ _ _ _ _ Hm) (pm_pa _ _ _ _ _ _ _ _ Hm)) as [Hpu Hpal].
  rewrite <- lor_flags by (done || lia). by apply base_flags.
Qed.

(** What the mapping leaves to be shown is about the list of shared files. *)
Lemma mapped_keeps :
  lists s s' [pa] → keeps fl s fl' s' pd.
Proof using Hg Hu Hh Hm Hpa.
  intros Hls. assert (Hns : ∀ q, on_list s' q → q = pa ∨ on_list s q).
  { intros q Hq. destruct (ls_listed _ _ _ Hls q Hq) as [?%list_elem_of_singleton|?]; auto. }
  pose proof Hg as [Hwf Has Hpg Hpv Hz Hnd]. pose proof mapped_pa_harmless as Hhp.
  split; [split| |apply Hm|apply Hm| | |].
  - apply Hm.
  - apply Hm.
  - intros n e Hn. rewrite mapped_entry by (destruct Hn; lia). destruct (n =? va / 4096).
    + intros [= <-]. by rewrite mapped_flags.
    + intros He. by eapply mapped_harmless, Hpg.
  - intros n e Hn. rewrite mapped_entry by (destruct Hn as [[] _]; lia). destruct (n =? va / 4096).
    + intros [= <-]. rewrite mapped_flags. apply Hm.
    + intros He. by eapply Hm, Hpv.
  - rewrite mapped_entry by lia. destruct (upper_slot va Hu Hh) as [_ ?]. rewrite (proj2 (Z.eqb_neq 0 _)) by lia. done.
  - intros q Hq. destruct (decide (q = pa)) as [Eq|Hne]; [rewrite Eq; split; [apply Hm|done]|].
    destruct (Hns q Hq) as [?|Hq']; [done|]. destruct (Hnd q Hq') as [H1 H2].
    split; [by apply Hm|by apply mapped_harmless].
  - intros q [O1 O2 O3 O4 O5]. assert (Hq : q ≠ pa).
    { intros Eq. apply O5. rewrite Eq in O1 |- *. by apply Hpa. }
    split.
    + apply (pm_same _ _ _ _ _ _ _ _ Hm); [done|done|]. intros Ha ->. apply O3.
      exists (pdi_of va). split; [by apply upper_slot|done].
    + split; [by apply Hm|done| | |].
      * intros Ht. by apply O3, mapped_table.
      * intros n e Hn. rewrite mapped_entry by (destruct Hn; lia). destruct (n =? va / 4096).
        -- intros [= <-]. rewrite mapped_flags. by apply not_eq_sym.
        -- by apply O4.
      * intros Hl. by destruct (Hns q Hl).
  - intros i Hi Ha. destruct (pm_tables _ _ _ _ _ _ _ _ Hm i Hi Ha) as [E|[Hn _]]; [by left|by right].
  - intros n e Hn. rewrite mapped_entry by (destruct Hn; lia). destruct (n =? va / 4096); [|by left].
    intros [= <-]. rewrite mapped_flags. right.
    destruct (decide (allocated lo fl (vm_mach s) pa)) as [Hal|Hf]; [right|by left].
    by apply Hls, on_list_noded, Hpa.
  - exists [pa]. split; [done|]. by intros q ->%list_elem_of_singleton.
Qed.

End Mapped.

(** ** Lemmas: the list of shared files *)

Lemma lists_mach s s' m N : lists s s' N → lists s (set_mach m s') N.
Proof.
  intros H1. replace N with (N ++ []) by apply app_nil_r. eapply lists_trans; [exact H1|by apply lists_same].
Qed.

(** Entries that differ from those before in their counts. *)
Lemma lists_count (s : @vmm F) k c n N : nodes s !! k = Some n → lists s (set_node k (with_count c n) s) N.
Proof.
  intros Hk. assert (Hn : ∀ l n1, nodes (set_node k (with_count c n) s) !! l = Some n1 →
    ∃ n0, nodes s !! l = Some n0 ∧ ne_pa n0 = ne_pa n1 ∧ ne_next n0 = ne_next n1).
  { intros l n1. cbn. destruct (decide (l = k)) as [->|Hne].
    - rewrite lookup_insert_eq. intros [= <-]. by exists n.
    - rewrite lookup_insert_ne by done. by exists n1. }
  assert (Hl : ∀ l, listed (set_node k (with_count c n) s) l → listed s l).
  { induction 1 as [l Hl|l n1 l' _ IH Hn1 Hl]; [by apply listed_first|].
    destruct (Hn l n1 Hn1) as (n0 & Hn0 & _ & E). eapply listed_next; [done..|congruence]. }
  split.
  - intros q (l & n1 & Hl1 & Hn1 & Eq). right. destruct (Hn l n1 Hn1) as (n0 & Hn0 & E & _).
    exists l, n0. split; [by apply Hl|]. split; [done|congruence].
  - intros q (l & n1 & Hn1 & E). exists l. cbn. destruct (decide (l = k)) as [->|Hne].
    + exists (with_count c n). rewrite lookup_insert_eq. split; [done|]. cbn. congruence.
    + exists n1. by rewrite lookup_insert_ne.
  - intros q (l & n1 & Hn1 & E). right. destruct (Hn l n1 Hn1) as (n0 & Hn0 & E' & _). exists l, n0.
    split; [done|congruence].
Qed.

Lemma add_counts_list d es s s' : add_counts d es s = Ret s' → lists s s' [] ∧ vm_mach s' = vm_mach s.
Proof.
  revert s. induction es as [|e es IH]; intros s E; cbn [add_counts] in E.
  { injection E as <-. split; [by apply lists_same|done]. }
  apply bind_Ret_inv in E as (s1 & E1 & E). apply IH in E as [H2 M2].
  destruct (node e) as [l|]; [|by injection E1 as <-]. apply bind_Ret_inv in E1 as (n & Hn & E1).
  injection E1 as <-. apply deref_Ret in Hn. split; [|done].
  apply (lists_trans _ _ _ [] [] (lists_count s l (num_processes n + d) n [] Hn) H2).
Qed.

(** An entry with a new location is appended. *)
Lemma append_cases prev l n (s s' : @vmm F) : append_node prev l n s = Ret s' → nodes s !! l = None → ne_next n = None →
  node_list s' = (if prev is Some _ then node_list s else Some l) ∧ vm_mach s' = vm_mach s ∧
  (∀ x, is_Some (nodes s !! x) → is_Some (nodes s' !! x)) ∧
  ∀ x n', nodes s' !! x = Some n' →
    (x = l ∧ ne_pa n' = ne_pa n ∧ (ne_next n' = None ∨ ne_next n' = Some l)) ∨
    (x ≠ l ∧ ∃ n0, nodes s !! x = Some n0 ∧ ne_pa n0 = ne_pa n' ∧
       (ne_next n' = Some l ∨ ne_next n0 = ne_next n')).
Proof.
  intros E Hf Hnone. unfold append_node in E.
  assert (Hl : ∀ x n', nodes (set_node l n s) !! x = Some n' →
    (x = l ∧ n' = n) ∨ (x ≠ l ∧ nodes s !! x = Some n')).
  { intros x n'. cbn. destruct (decide (x = l)) as [->|Hne].
    - rewrite lookup_insert_eq. intros [= <-]. by left.
    - rewrite lookup_insert_ne by done. by right. }
  assert (Hm : ∀ x, is_Some (nodes s !! x) → is_Some (nodes (set_node l n s) !! x)).
  { intros x Hx. cbn. destruct (decide (x = l)) as [->|Hne]; [by rewrite lookup_insert_eq|].
    by rewrite lookup_insert_ne. }
  destruct prev as [p|].
  - apply bind_Ret_inv in E as (pn & Hp & E). injection E as <-. apply deref_Ret in Hp.
    do 2 (split; [done|]). split.
    + intros x Hx. cbn. destruct (decide (x = p)) as [->|Hne]; [by rewrite lookup_insert_eq|].
      rewrite lookup_insert_ne by done. by apply Hm.
    + intros x n'. cbn. destruct (decide (x = p)) as [->|Hxp].
      * rewrite lookup_insert_eq. intros [= <-]. destruct (Hl p pn Hp) as [[-> ->]|[? ?]]; [by left; auto|].
        right. split; [done|]. exists pn. auto.
      * rewrite lookup_insert_ne by done. intros Hx. destruct (Hl x n' Hx) as [[-> ->]|[? ?]]; [by left; auto|].
        right. split; [done|]. exists n'. auto.
  - injection E as <-. do 2 (split; [done|]). split; [exact Hm|]. intros x n' Hx.
    destruct (Hl x n' Hx) as [[-> ->]|[? ?]]; [by left; auto|]. right. split; [done|]. exists n'. auto.
Qed.

Lemma lists_append prev l f pa (s s' : @vmm F) :
  append_node prev l (MkNodeEntry f 1 pa None) s = Ret s' → nodes s !! l = None →
  lists s s' [pa] ∧ vm_mach s' = vm_mach s.
Proof.
  intros E Hf. destruct (append_cases _ _ _ _ _ E Hf eq_refl) as (El & Em & Emono & En).
  split; [|done]. cbn [ne_pa] in En.
  assert (Hl : ∀ x, listed s' x → x = l ∨ listed s x).
  { induction 1 as [x Hx|x n y _ IH Hn Hy].
    - rewrite El in Hx. destruct prev; [right; by apply listed_first|left; congruence].
    - destruct (En x n Hn) as [(-> & _ & [E1|E1])|(Hne & n0 & Hn0 & _ & [E1|E1])];
        [congruence|left; congruence|left; congruence|].
      destruct IH as [->|IH]; [done|]. right. eapply listed_next; [done..|congruence]. }
  split.
  - intros q (x & n & Hx & Hn & <-). destruct (En x n Hn) as [(_ & -> & _)|(Hne & n0 & Hn0 & E1 & _)]; [left; by left|right].
    destruct (Hl x Hx) as [->|Hx']; [done|]. by exists x, n0.
  - intros q (x & n & Hn & <-). destruct (Emono x) as [n' Hn']; [by exists n|]. exists x, n'. split; [done|].
    destruct (En x n' Hn') as [(-> & _)|(_ & n0 & Hn0 & E1 & _)]; congruence.
  - intros q (x & n & Hn & <-). destruct (En x n Hn) as [(_ & -> & _)|(_ & n0 & Hn0 & E1 & _)]; [left; by left|right].
    by exists x, n0.
Qed.

Lemma find_listed fuel num prev first s p q :
  find_node_entry fuel num prev first s = Ret (p, q) → (∀ l, first = Some l → listed s l) →
  ∀ l, q = Some l → listed s l.
Proof.
  revert prev first. induction fuel as [|fuel IH]; intros prev [l0|] E Hf; cbn [find_node_entry] in E;
    try discriminate; try (injection E as <- <-; done).
  apply bind_Ret_inv in E as (ne & Hne & E). destruct (num =? _); [by injection E as <- <-|].
  apply (IH _ _ E). intros l Hl. eapply listed_next; [by apply Hf| |done].
  by apply deref_Ret.
Qed.

Lemma list_keeps fl s s' pd :
  guarded fl s pd → vm_mach s' = vm_mach s → lists s s' [] → keeps fl s fl s' pd.
Proof.
  intros [] Em Hls. assert (Hl : ∀ q, on_list s' q → on_list s q).
  { intros q Hq. by destruct (ls_listed _ _ _ Hls q Hq) as [?%not_elem_of_nil|?]. }
  split; rewrite ?Em; [split; rewrite ?Em; auto| |apply steady_refl|done|by left|by left|].
  - intros q []. split; [done|]. split; rewrite ?Em; auto.
  - exists []. split; [done|]. by intros q ?%not_elem_of_nil.
Qed.

(** ** Lemmas: new frames for others *)

Lemma grow_keeps fl s pd fl' m' :
  guarded fl s pd → alloc_wf lo fl' m' → steady lo (vm_mach s) m' →
  (∀ q, allocated lo fl (vm_mach s) q → allocated lo fl' m' q ∧ same_frame (vm_mach s) m' q) →
  keeps fl s fl' (set_mach m' s) pd.
Proof.
  intros [Hwf Has Hpg Hpv Hz Hnd] Hwf' Hst Hold. set (m := vm_mach s) in *.
  assert (He : ∀ i, 0 <= i < 1024 → entry (ram m') pd i = entry (ram m) pd i).
  { intros i Hi. apply entry_agree; [apply Hold, Has|done]. }
  assert (Hw : ∀ n, 0 <= n < 1048576 → page m' pd n = page m pd n).
  { intros n Hn. apply walk_agree; [by apply page_u32|apply Hold, Has|]. intros Ha.
    apply Hold, Has; [by apply pdi_range, page_u32|done]. }
  assert (Hh : ∀ x, harmless fl m pd x → harmless fl' m' pd x).
  { intros x (H1 & H2 & H3). split; [|split; [done|]].
    - destruct H1 as [H1|H1]; [left; by apply Hold|right; by rewrite (proj1 Hst)].
    - intros H4. by apply H3, (table_same 0 m m'). }
  split; [split| |done|by intros q Hq; apply Hold|by intros i Hi _; left; apply He| |].
  - done.
  - eapply as_wf_agree; [|apply Hold, Has|exact Has]. intros q Hq. by apply Hold.
  - intros n e Hn. change (vm_mach _) with m'. rewrite Hw by (destruct Hn; lia). intros He'. by eapply Hh, Hpg.
  - intros n e Hn. change (vm_mach _) with m'. rewrite Hw by (destruct Hn as [[] _]; lia).
    intros He'. by eapply Hold, Hpv.
  - change (vm_mach _) with m'. by rewrite Hw.
  - intros x Hx. apply (on_list_same s) in Hx; [|done..]. destruct (Hnd x Hx) as [H1 H2].
    split; [by apply Hold|by apply Hh].
  - intros q [O1 O2 O3 O4 O5]. split; [by apply Hold|]. split; [by apply Hold|done| | |].
    + intros Ht. apply O3. by eapply table_same; [lia|exact He|].
    + intros n e Hn. change (vm_mach _) with m'. rewrite Hw by (destruct Hn; lia). by apply O4.
    + intros Hl. apply O5. by apply (on_list_same s) in Hl.
  - intros n e Hn. change (vm_mach (set_mach m' s)) with m'. rewrite Hw by (destruct Hn; lia). by left.
  - exists []. split; [by apply lists_same|]. by intros q ?%not_elem_of_nil.
Qed.

(** The child's space [c] after [fork]: [m1] is the machine in which the directory has
    been made. *)
Record forked (fl : list Z) (s : @vmm F) (shared pd c : Z) (fl' : list Z) (m1 : mach) (U : list (Z * Z))
    (s' : @vmm F) : Prop := Forked {
  fk_copied : ∃ fl1 K, copying lo fl (vm_mach s) pd c fl1 m1 1048576 fl' U K (vm_mach s');
  fk_new : ¬ allocated lo fl (vm_mach s) c;
  fk_kernel i : 0 <= i < 512 → absent (entry (ram m1) c i) = false →
    entry (ram m1) c i = entry (ram (vm_mach s)) shared i;
  fk_walk va : is_u32 va → walk (ram m1) c va =
    if va / 4194304 <? (memSize kConfig + 4194303) / 4194304 then walk (ram (vm_mach s)) shared va
    else if va / 4096 =? ioAPIC kConfig / 4096 then Some (ioAPIC kConfig + 3)
    else if va / 4096 =? localAPIC kConfig / 4096 then Some (localAPIC kConfig + 3)
    else None;
  fk_lists : lists s s' [];
}.

Lemma fork_inv fl s p shared o child id p' s' o' :
  guarded fl s (Process.pd p) → as_wf (allocated lo fl (vm_mach s)) (ram (vm_mach s)) shared →
  config_ok kConfig → fork kConfig shared p s o = Ret (child, id, p', s', o') →
  Process.pd p' = Process.pd p ∧ entry_list p' = entry_list p ∧
  match child with
  | None => s' = s
  | Some c => ∃ fl' m1 U, forked fl s shared (Process.pd p) (Process.pd c) fl' m1 U s'
  end.
Proof.
  intros Hg Hsh Hcfg E. pose proof Hg as [Hwf Has _ Hpv _ _]. unfold fork in E.
  destruct (first_free (children p)) as [i|]; [|by injection E as <- _ <- <- _].
  apply bind_Ret_inv in E as ([[c m1] o1] & E1 & E). unfold new_process in E1.
  destruct (make_pd_ok kConfig lo fl (vm_mach s) shared Hwf Hsh Hcfg)
    as [[Ep _]|([cd m1'] & Ep & fl1 & Hns & _ & Hw & Hk)]; rewrite Ep in E1; [done|].
  cbn [mbind outcome_bind] in E1. injection E1 as <- <- _. cbn [Process.pd] in E.
  apply bind_Ret_inv in E as (m2 & E2 & E). apply bind_Ret_inv in E as (s2 & E3 & E).
  injection E as <- _ <- <- _. do 2 (split; [done|]). cbn [Process.pd set_entry_list set_sems set_files].
  apply add_counts_list in E3 as [Hl Em].
  pose proof (λ n, new_pages kConfig (vm_mach s) shared Hcfg cd m1' n Hw) as Hnew.
  destruct (copy_private_ok lo fl (vm_mach s) (Process.pd p) cd fl1 m1') as [[Ec _]|(m2' & Ec & fl2 & U & Hc)].
  - split; [done|done|]. intros n e Hn He H0. apply Hnew in H0; [|done]. by apply (Hpv n).
  - by rewrite Ec in E2.
  - rewrite Ec in E2. injection E2 as ->. exists fl2, m1', U. cbn [vm_mach set_mach] in Em. split.
    + rewrite Em. by exists fl1, (copy_cost (vm_mach s) (Process.pd p)).
    + apply Hns.
    + exact Hk.
    + exact Hw.
    + exact (lists_trans s (set_mach m2 s) s2 [] [] (lists_same s (set_mach m2 s) [] eq_refl eq_refl) Hl).
Qed.

(** The frames of before are in use and as they were. *)
Lemma forked_old fl s shared pd c fl' m1 U s' : forked fl s shared pd c fl' m1 U s' →
  alloc_wf lo fl' (vm_mach s') ∧ steady lo (vm_mach s) (vm_mach s') ∧
  ∀ q, allocated lo fl (vm_mach s) q → allocated lo fl' (vm_mach s') q ∧ same_frame (vm_mach s) (vm_mach s') q.
Proof. intros [(fl1 & K & Hc) _ _ _ _]. split; [apply Hc|]. split; [apply Hc|]. apply Hc. Qed.

Lemma fork_keeps fl s shared pd c fl' m1 U s' :
  guarded fl s pd → forked fl s shared pd c fl' m1 U s' → keeps fl s fl' s' pd.
Proof.
  intros Hg Hf. destruct (forked_old _ _ _ _ _ _ _ _ _ Hf) as (Hwf & Hst & Hold).
  assert (Hk : keeps fl s fl' (set_mach (vm_mach s') s) pd) by (by apply grow_keeps).
  eapply keeps_trans; [exact Hk|]. apply list_keeps; [apply Hk|done|].
  exact (lists_trans (set_mach (vm_mach s') s) s s' [] []
    (lists_same (set_mach (vm_mach s') s) s [] eq_refl eq_refl) (fk_lists _ _ _ _ _ _ _ _ _ Hf)).
Qed.

(** ** Lemmas: unmapping *)

(** A region of whole pages in the user's half. *)
Definition user_region (e : @VMEntry F) : Prop :=
  2147483648 <= starting_address e ∧ is_u32 (starting_address e + size e) ∧ size e mod 4096 = 0.

Section Unmap.
Context (fl : list Z) (s : @vmm F) (pd : Z).

(** What unmapping leaves: the tables have lost entries. *)
Record quiet (m : mach) : Prop := Quiet {
  qt_dir i : 0 <= i < 1024 → entry (ram m) pd i = entry (ram (vm_mach s)) pd i;
  qt_table i j : 512 <= i < 1024 → absent (entry (ram (vm_mach s)) pd i) = false → 0 <= j < 1024 →
    let t := base (entry (ram (vm_mach s)) pd i) in
    entry (ram m) t j = entry (ram (vm_mach s)) t j ∨ absent (entry (ram m) t j) = true;
  qt_outside q : outside fl s pd q → same_frame (vm_mach s) m q;
  qt_steady : steady lo (vm_mach s) m;
}.

Lemma quiet_init : quiet (vm_mach s).
Proof. split; [done|by left|done|apply steady_refl]. Qed.

(** A write in a frame that is no table of the process. *)
Lemma quiet_write m m' p :
  quiet m → limit m' = limit m → lo <= p → p mod 4096 = 0 → p ≠ pd → pd mod 4096 = 0 →
  ¬ table_from 0 (vm_mach s) pd p → (∀ q, outside fl s pd q → q ≠ p) →
  (∀ b n, p + 4096 <= b ∨ b + n <= p → agree (ram m') (ram m) b n) → quiet m'.
Proof.
  intros [H1 H2 H3 H4] Hl Hge Hp Hne Hpd Hnt Ho Hr.
  assert (Hsame : ∀ q, q mod 4096 = 0 → q ≠ p → same_frame m m' q).
  { intros q Hq Hqp. apply Hr. destruct (frames_disjoint p q); auto. }
  split.
  - intros i Hi. rewrite <- H1 by done. apply entry_agree; [by apply Hsame|done].
  - intros i j Hi Ha Hj t. rewrite (entry_agree (ram m)); [by apply H2| |done].
    apply Hsame; [apply base_aligned|]. intros E. apply Hnt. exists i. split; [lia|done].
  - intros q Hq. eapply agree_trans; [|by apply H3].
    apply Hsame; [by eapply allocated_aligned, os_alloc|by apply Ho].
  - eapply steady_trans; [exact H4|]. split; [done|]. apply Hr. lia.
Qed.

(** An entry of a table becomes empty. *)
Lemma quiet_clear m i j (t := base (entry (ram (vm_mach s)) pd i)) :
  guarded fl s pd → quiet m → 512 <= i < 1024 → absent (entry (ram (vm_mach s)) pd i) = false →
  0 <= j < 1024 → quiet (set_entry t j 0 m).
Proof.
  intros Hg [H1 H2 H3 H4] Hi Ha Hj. pose proof (gd_as _ _ _ Hg) as Has.
  destruct (as_table _ _ _ Has i ltac:(lia) Ha) as [Ht Hne]. fold t in Ht, Hne.
  assert (Hta : t mod 4096 = 0) by apply base_aligned.
  pose proof (allocated_aligned _ _ _ _ (as_pd _ _ _ Has)) as Hpda. split.
  - intros k Hk. rewrite <- H1 by done. apply entry_agree; [|done].
    apply set_entry_agree; [done|done|by apply not_eq_sym|done].
  - intros k j' Hk Hka Hj' t'. destruct (decide (k = i)) as [->|Hki].
    + fold t in t'. subst t'. destruct (decide (j' = j)) as [->|Hjj].
      * right. by rewrite entry_set_eq.
      * rewrite entry_set_ne by done. by apply H2.
    + rewrite (entry_agree (ram m)); [by apply H2| |done].
      apply set_entry_agree; [done|apply base_aligned|apply (as_inj _ _ _ Has); done || lia|done].
  - intros q Hq. eapply agree_trans; [|by apply H3].
    apply set_entry_agree; [done|by eapply allocated_aligned, os_alloc| |done].
    intros ->. apply (os_table _ _ _ _ Hq). by exists i.
  - apply steady_entry; [by destruct Ht as [[_ [? _]] _]|lia|done].
Qed.

Lemma unmap_quiet m va physical m' :
  guarded fl s pd → quiet m → is_u32 va → 2147483648 <= va → unmap pd va physical m = Ret m' → quiet m'.
Proof.
  intros Hg Hq Hu Hh E. pose proof (pdi_high va Hu Hh) as Hi. pose proof (pti_range va) as Hj.
  unfold unmap in E. rewrite (qt_dir _ Hq) in E by lia.
  destruct (absent (entry (ram (vm_mach s)) pd (pdi_of va))) eqn:Ha; [by injection E as <-|].
  pose proof (qt_table _ Hq _ (pti_of va) Hi Ha Hj) as Ht. cbv zeta in Ht.
  set (t := base (entry (ram (vm_mach s)) pd (pdi_of va))) in *.
  destruct (absent (entry (ram m) t (pti_of va))) eqn:Hab; [by injection E as <-|].
  destruct Ht as [Ht|Ht]; [|done]. rewrite Ht in Hab, E.
  pose proof (quiet_clear m _ _ Hg Hq Hi Ha Hj) as Hq1. fold t in Hq1.
  set (m1 := set_entry t (pti_of va) 0 m) in *. set (e := entry (ram (vm_mach s)) t (pti_of va)) in *.
  assert (Hinv : ∀ m2, quiet m2 → quiet (invlpg va m2)) by (by intros m2 []).
  apply bind_Ret_inv in E as (m2 & E2 & E). injection E as <-. apply Hinv.
  destruct physical; [|by injection E2 as <-]. unfold dealloc_frame in E2.
  apply bind_Ret_inv in E2 as (? & _ & E2). injection E2 as <-.
  assert (He : page (vm_mach s) pd (va / 4096) = Some e).
  { rewrite <- page_walk. unfold walk. rewrite Ha. fold t. fold e. by rewrite Hab. }
  assert (Hn : high (va / 4096)).
  { split; [by apply upper_slot|]. destruct Hu. apply Z.div_lt_upper_bound; lia. }
  pose proof (gd_page _ _ _ Hg _ _ Hn He) as Hp.
  apply (quiet_write m1 _ (base e)); try done.
  - by eapply harmless_ge; [apply Hg|].
  - by eapply harmless_aligned.
  - apply Hp.
  - eapply allocated_aligned, as_pd, gd_as, Hg.
  - apply Hp.
  - intros q Ho. apply not_eq_sym. by eapply os_page.
  - intros b n Hb. apply st32_agree. lia.
Qed.

Lemma unmap_region_quiet e physical m m' :
  guarded fl s pd → user_region e → quiet m →
  unmap_region pd (starting_address e) (end_of e) physical m = Ret m' → quiet m'.
Proof.
  intros Hg (Hh & Hu & Hm) Hq E. unfold unmap_region in E.
  apply bind_Ret_inv in E as ([va m1] & E & E1). injection E1 as ->.
  assert (Hend : end_of e = starting_address e + size e) by (by apply u32_small).
  eapply (while_loop_ret (λ st, (starting_address e <= fst st ∧ (end_of e - fst st) mod 4096 = 0) ∧ quiet (snd st)))
    in E; [apply E| |].
  - cbn [fst snd]. split; [|done]. split; [lia|]. by replace (end_of e - starting_address e) with (size e) by lia.
  - intros [v m2] [v' m3] [[Hv Hvm] Hq2] Hc Eb. cbn [fst snd] in *. apply Z.ltb_lt in Hc.
    rewrite Hend in *. assert (Hv4 : v + 4096 <= starting_address e + size e) by zlia.
    apply bind_Ret_inv in Eb as (m4 & Eu & Eb). injection Eb as <- <-. change FRAME_SIZE with 4096.
    unfold is_u32 in Hu. rewrite u32_small by (unfold is_u32; lia). split; [split; [lia|zlia]|].
    apply (unmap_quiet m2 v physical m4); [done|done|unfold is_u32; lia|lia|done].
Qed.

Lemma unlink_loop_mach fuel num l next v v' :
  unlink_loop fuel num l next v = Ret v' → vm_mach v' = vm_mach v.
Proof.
  revert l next. induction fuel as [|fuel IH]; intros l [k|] E; cbn [unlink_loop] in E; try done;
    try (by injection E as <-).
  apply bind_Ret_inv in E as (ne & _ & E). destruct (_ =? _); [|by eapply IH].
  apply bind_Ret_inv in E as (prev & _ & E). by injection E as <-.
Qed.

Lemma unlink_node_mach e v v' : unlink_node e v = Ret v' → vm_mach v' = vm_mach v.
Proof.
  unfold unlink_node. intros E. apply bind_Ret_inv in E as (first & _ & E).
  apply bind_Ret_inv in E as (ne & _ & E). apply bind_Ret_inv in E as (mine & _ & E).
  destruct (_ =? _); [by injection E as <-|by eapply unlink_loop_mach].
Qed.

Lemma munmap_entry_quiet e s' :
  guarded fl s pd → user_region e → munmap_entry pd e s = Ret s' → quiet (vm_mach s').
Proof.
  intros Hg He E. unfold munmap_entry in E. apply bind_Ret_inv in E as ([physical s1] & E1 & E).
  apply bind_Ret_inv in E as (m & E2 & E).
  assert (Hs1 : vm_mach s1 = vm_mach s).
  { destruct (_ =? 0); [by injection E1 as <- <-|]. apply bind_Ret_inv in E1 as (l & _ & E1).
    apply bind_Ret_inv in E1 as (n & _ & E1). by injection E1 as <- <-. }
  rewrite Hs1 in E2. apply unmap_region_quiet in E2; [|done|done|by apply quiet_init].
  destruct physical; [|by injection E as <-]. by rewrite (unlink_node_mach _ _ _ E).
Qed.

Lemma munmap_loop_quiet addr before es s' r es' :
  guarded fl s pd → Forall user_region es → munmap_loop pd addr before es s = Ret (r, es', s') →
  quiet (vm_mach s').
Proof.
  intros Hg Hes. revert before. induction Hes as [|e es He Hes IH]; intros before E; cbn [munmap_loop] in E.
  - injection E as _ _ <-. by apply quiet_init.
  - destruct (covers e addr); [|by eapply IH]. apply bind_Ret_inv in E as (s1 & E1 & E).
    injection E as _ _ <-. by eapply munmap_entry_quiet.
Qed.

End Unmap.

(** ** Lemmas: page faults *)

Lemma fill_frame_any {Hfits : @Fits F file_io} e f va pa m m' :
  fill_frame e f va pa m = Ret m' →
  ∃ r, m' = set_ram r m ∧ ∀ b n, pa + 4096 <= b ∨ b + n <= pa → agree r (ram m) b n.
Proof.
  unfold fill_frame. change FRAME_SIZE with 4096. destruct (_ =? 2).
  - intros E. apply bind_Ret_inv in E as ([cnt bs] & E1 & E). apply read_all_fits in E1 as [Hc Hb].
    destruct (cnt =? 4096); injection E as <-; eexists; (split; [done|]); intros b n Hbn.
    + apply store_bytes_agree. lia.
    + eapply agree_trans; [apply bzero_loop_agree; destruct (Z.eqb_spec cnt (-1)); lia|].
      apply store_bytes_agree. lia.
  - remember (Z.to_nat 4096) as k eqn:Hk. intros [= <-]. eexists. split; [done|]. intros b n Hbn.
    apply bzero_loop_agree. lia.
Qed.

(** Where the frame of a page comes from. *)
Inductive frame_from (fl : list Z) (s : @vmm F) (pa : Z) (m' : mach) : Prop :=
| from_alloc fl1 m1 r :
    alloc_post lo fl (vm_mach s) pa fl1 m1 → m' = set_ram r m1 →
    (∀ b n, pa + 4096 <= b ∨ b + n <= pa → agree r (ram m1) b n) → frame_from fl s pa m'
| from_list l n :
    listed s l → nodes s !! l = Some n → ne_pa n = pa → m' = vm_mach s → frame_from fl s pa m'.

Lemma from_plain fl s pa fl1 m1 :
  alloc_post lo fl (vm_mach s) pa fl1 m1 → frame_from fl s pa m1.
Proof. intros Hp. apply (from_alloc _ _ _ _ fl1 m1 (ram m1)); [done|by destruct m1|by intros ?? _ ??]. Qed.

Lemma fault_frame_any {Hfits : @Fits F file_io} fl e va s pa nd s1 :
  alloc_wf lo fl (vm_mach s) → fault_frame e va s = Ret (pa, nd, s1) →
  frame_from fl s pa (vm_mach s1) ∧ lists s s1 [pa].
Proof.
  intros Hwf. assert (Hplain : ('(pa, m) ← alloc_frame (vm_mach s); Ret (pa, node e, set_mach m s)) = Ret (pa, nd, s1) →
    frame_from fl s pa (vm_mach s1) ∧ lists s s1 [pa]).
  { destruct (alloc_frame_cases _ _ _ Hwf) as [(_ & ->)|(p & fl1 & m1 & -> & Hp)]; [done|].
    cbn. intros [= -> _ <-]. split; [by eapply from_plain|by apply lists_same]. }
  unfold fault_frame. destruct (file e) as [f|]; [|done]. destruct (_ =? 0); [done|]. clear Hplain. intros E.
  apply bind_Ret_inv in E as ([prev [l|]] & Ef & E).
  - apply bind_Ret_inv in E as (n & Hn & E). injection E as <- _ <-.
    apply deref_Ret in Hn.
    split; [|by apply lists_count]. eapply (from_list _ _ _ _ l n); try done.
    eapply (find_listed _ _ _ _ _ _ _ Ef); [|done]. intros l0 Hl0. by apply listed_first.
  - destruct (alloc_frame_cases _ _ _ Hwf) as [(_ & E1)|(p & fl1 & m1 & E1 & Hp)]; rewrite E1 in E; [done|].
    cbn [mbind outcome_bind] in E. apply bind_Ret_inv in E as (s2 & E2 & E).
    apply bind_Ret_inv in E as (m2 & E3 & E). injection E as -> _ <-.
    apply lists_append in E2 as [Ha Em]; [|apply not_elem_of_dom, is_fresh].
    apply fill_frame_any in E3 as (r & -> & Hr). rewrite Em in *.
    split; [by eapply from_alloc|]. apply lists_mach.
    exact (lists_trans s (set_mach m1 s) s2 [] [pa] (lists_same s (set_mach m1 s) [] eq_refl eq_refl) Ha).
Qed.

Lemma from_mapped fl s pd va pa s1 m :
  guarded fl s pd → is_u32 va → 2147483648 <= va → frame_from fl s pa (vm_mach s1) → lists s s1 [pa] →
  user_map pd va pa (vm_mach s1) = Ret m → ∃ fl', keeps fl s fl' (set_mach m s1) pd.
Proof.
  intros Hg Hu Hh Hf Ha E. pose proof Hg as [Hwf Has _ _ _ Hnd].
  assert (Hadd : lists s (set_mach m s1) [pa]) by (by apply lists_mach).
  destruct Hf as [fl1 m1 r Hp Em Hr|l n Hl Hn Hpa Em]; rewrite Em in E.
  - destruct (user_map_fresh _ _ _ _ _ _ r pd va Hwf Has Hu Hp Hr) as [[E' _]|(fl' & m' & E' & Hm & _)];
      rewrite E' in E; [done|]. injection E as ->. exists fl'.
    eapply (mapped_keeps (s' := set_mach m s1) Hg Hu Hh Hm); [|done].
    intros Hal. by destruct (ap_fresh _ _ _ _ _ _ Hp).
  - destruct (Hnd pa ltac:(by exists l, n)) as [Hal _].
    destruct (user_map_shared _ _ _ pd va pa Hwf Has Hu Hal) as [[E' _]|(fl' & m' & E' & Hm & _)];
      rewrite E' in E; [done|]. injection E as ->. exists fl'.
    eapply (mapped_keeps (s' := set_mach m s1) Hg Hu Hh Hm); [|done]. intros _. by exists l, n.
Qed.

Lemma fault_loop_inv pd va before rest s ok es s' :
  fault_loop pd va before rest s = Ret (ok, es, s') →
  (ok = false ∧ s' = s ∧ es = before ++ rest) ∨
  ∃ b e a pa nd s1 m, fault_frame e va s = Ret (pa, nd, s1) ∧ user_map pd va pa (vm_mach s1) = Ret m ∧
    ok = true ∧ s' = set_mach m s1 ∧ before ++ rest = b ++ e :: a ∧ es = b ++ with_node nd e :: a.
Proof.
  revert before. induction rest as [|e rest IH]; intros before; cbn [fault_loop].
  - intros [= <- <- <-]. left. by rewrite app_nil_r.
  - destruct (covers e va).
    2:{ intros E. apply IH in E. by rewrite <- app_assoc in E. }
    intros E. apply bind_Ret_inv in E as ([[pa nd] s1] & E1 & E).
    apply bind_Ret_inv in E as (m & E2 & E). injection E as <- <- <-. right. by exists before, e, rest, pa, nd, s1, m.
Qed.

Lemma fault_keeps {Hfits : @Fits F file_io} fl s pd va es ok es' s' :
  guarded fl s pd → is_u32 va → vmm_pageFault pd pd pd va es s = Ret (ok, es', s') →
  (∃ fl', keeps fl s fl' s' pd) ∧
  (es' = es ∨ ∃ b e a nd, es = b ++ e :: a ∧ es' = b ++ with_node nd e :: a).
Proof.
  intros Hg Hu E. unfold vmm_pageFault in E. rewrite Z.eqb_refl in E. cbn [ASSERT mbind outcome_bind] in E.
  destruct (Z.leb_spec 0x80000000 (framedown va)) as [Hh|_]; [|injection E as <- <- <-; split; [exists fl; by apply keeps_refl|by left]].
  apply fault_loop_inv in E as [(_ & -> & ->)|(b & e & a & pa & nd & s1 & m & E1 & E2 & _ & -> & Ee & ->)];
    [split; [exists fl; by apply keeps_refl|by left]|].
  split; [|right; by exists b, e, a, nd].
  destruct (fault_frame_any fl e (framedown va) s pa nd s1 (gd_wf _ _ _ Hg) E1) as [Hf Ha].
  eapply from_mapped; [done|by apply framedown_page|done..].
Qed.

(** ** Lemmas: accesses to user memory *)

(** Everything outside at the start is as it was, and outside. *)
Definition safe (fl0 : list Z) (s0 : @vmm F) (pd : Z) (s : @vmm F) : Prop := ∃ fl, keeps fl0 s0 fl s pd.

Lemma safe_refl fl s pd : guarded fl s pd → safe fl s pd s.
Proof. intros Hg. exists fl. by apply keeps_refl. Qed.

Section Access.
Context {Hfits : @Fits F file_io} (fl0 : list Z) (s0 : @vmm F) (pd : Z).

(** What a fault does not break of the regions. *)
Context (R : list (@VMEntry F) → Prop) (HR : ∀ b e a nd, R (b ++ e :: a) → R (b ++ with_node nd e :: a)).

Definition safe_in (u : @ustate F) : Prop := safe fl0 s0 pd (uvmm u) ∧ R (regions u).

(** The address that an access yields is the one the processor uses for a page
    of the process. *)
Lemma access_safe va u : safe_in u →
  ends safe_in (access pd va) u (λ pa u', safe_in u' ∧ phys (umach u') pd (u32 va) = Some pa).
Proof.
  intros [(fl & Hk) Hreg] r u' E. unfold access in E.
  destruct (phys (umach u) pd (u32 va)) as [pa|] eqn:Hp; [injection E as <- <-; split; [split; [by exists fl|done]|done]|].
  apply bind_Ret_inv in E as ([[ok es] s1] & E1 & E).
  destruct (fault_keeps fl (uvmm u) pd _ _ _ _ _ (kp_guarded _ _ _ _ _ Hk) (u32_range va) E1) as [(fl' & Hk') Hes].
  assert (Hs : safe_in (MkUstate es s1)).
  { split; [exists fl'; by eapply keeps_trans|]. destruct Hes as [->|(b & e & a & nd & Ee & ->)]; [done|].
    apply HR. by rewrite <- Ee. }
  destruct ok; [|by injection E as <- <-]. apply bind_Ret_inv in E as (pa & Hpa & E). injection E as <- <-.
  split; [done|]. cbn [uvmm umach]. by apply deref_Ret.
Qed.

Lemma ld8_safe va u : safe_in u → ends safe_in (user_ld8 pd va) u (λ _, safe_in).
Proof.
  intros Hs. apply ends_bind. eapply ends_mono; [by apply access_safe|].
  intros pa u' [Hs' _]. by apply ends_get.
Qed.

Lemma load_safe n va u : safe_in u →
  ends safe_in (user_load pd va n) u (λ bs u', safe_in u' ∧ length bs = n).
Proof.
  revert va u. induction n as [|n IH]; intros va u Hs; [by apply ends_ret|]. cbn [user_load].
  apply ends_bind. eapply ends_mono; [by apply ld8_safe|]. intros b u1 H1.
  apply ends_bind. eapply ends_mono; [by apply IH|]. intros bs u2 [H2 Hl].
  apply ends_ret. split; [done|]. cbn. by rewrite Hl.
Qed.

Lemma ld32_safe va u : safe_in u → ends safe_in (user_ld32 pd va) u (λ v u', safe_in u' ∧ is_u32 v).
Proof.
  intros Hs. apply ends_bind. eapply ends_mono; [by apply load_safe|]. intros bs u' [Hs' Hl].
  apply ends_ret. split; [done|by apply le_u32].
Qed.

(** A store above the kernel's half, or in the first page, where it ends the
    process. *)
Lemma st8_safe va v u : safe_in u → 2147483648 <= u32 va ∨ u32 va < 4096 →
  ends safe_in (user_st8 pd va v) u (λ _ u', safe_in u' ∧ 2147483648 <= u32 va).
Proof.
  intros Hs Hva. apply ends_bind. eapply ends_mono; [by apply access_safe|].
  intros pa u' [[(fl & Hk) Hreg] Hp]. apply ends_set. rewrite phys_page in Hp.
  destruct (page (umach u') pd (u32 va / 4096)) as [e|] eqn:He; [|done]. injection Hp as <-.
  pose proof (u32_range va) as Hu. destruct Hva as [Hh|Hz].
  - split; [split; [|done]|done]. exists fl. eapply keeps_trans; [done|].
    destruct (upper_slot _ Hu Hh) as [_ Hn]. apply (store_keeps _ _ _ (u32 va / 4096)); [apply Hk| |done|].
    + split; [done|]. destruct Hu. apply Z.div_lt_upper_bound; lia.
    + by apply Z.mod_pos_bound.
  - rewrite Z.div_small in He by (destruct Hu; lia).
    unfold umach in He. by rewrite (gd_zero _ _ _ (kp_guarded _ _ _ _ _ Hk)) in He.
Qed.

Lemma store_safe bs va u : safe_in u → 2147483648 <= u32 va ∨ u32 va < 4096 →
  ends safe_in (user_store pd va bs) u (λ _, safe_in).
Proof.
  revert va u. induction bs as [|b bs IH]; intros va u Hs Hva; [by apply ends_ret|]. cbn [user_store].
  apply ends_bind. eapply ends_mono; [by apply st8_safe|]. intros _ u1 [H1 Hh]. apply IH; [done|].
  clear -Hh. unfold u32 in *. zlia.
Qed.

End Access.

End Isolation.
