(* ===== verification/CallIsolation.v ===== *)
(** * Isolation of memory across system calls: src/kernel/sys.cc

    Whatever the number and the arguments of a system call are, it does not touch
    memory that is not the caller's. The file composes the lemmas of Isolation
    along every call of file Sys. [exec] is not covered: it writes where the
    headers of the program file say. *)

From S2P Require Import Prelude Mem Config PhysMem Paging BlockIO Libk Ext2 Vmm.
From S2P Require Import Queue Threads Semaphore Fork Process UserMem Files Elf Sys Isolation.
Local Open Scope Z_scope.

Section CallIsolation.
Context {D : Type} `{BlockIO D} `{!Fits D} (kConfig : Config) (root_fs : Ext2 D) (root : Node D).
Context (shared new_stack : Z) (max_len : nat).
Context (garbage : list (@VMEntry (Node D)) → option loc) (beyond : nat → nat → Z).
Context (lo : Z) (fl0 : list Z) (s0 : @vmm (Node D)) (pd0 : Z).
Context (R : list (@VMEntry (Node D)) → Prop) (HR : ∀ b e a nd, R (b ++ e :: a) → R (b ++ with_node nd e :: a)).

#[local] Instance file_fits : @Fits (Node D) (@file_io _ Node_file) := Node_fits.

(** Nothing outside has changed since [s0], and the caller is as it was. *)
Definition isolated (s : @sys D) : Prop :=
  Process.pd (process s) = pd0 ∧ safe kConfig lo fl0 s0 pd0 (svmm s) ∧ R (entry_list (process s)).

Abbreviation memory_safe := (safe_in kConfig lo fl0 s0 pd0 R).

(** The address space of a process is the same. *)
Definition same_space (p p' : @Process (Node D)) : Prop :=
  Process.pd p' = Process.pd p ∧ entry_list p' = entry_list p.

Abbreviation iso_post m s Q := (ends isolated m s Q).

(** ** Lemmas: programs *)

Lemma isolated_same s s' :
  isolated s → svmm s' = svmm s → same_space (process s) (process s') → isolated s'.
Proof. intros (H1 & H2 & H3) E [E1 E2]. unfold isolated. by rewrite E, E1, E2. Qed.

Lemma iso_self s (Q : sys → sys → Prop) : Q s s → iso_post self s Q.
Proof. by intros HQ r s' [= <- <-]. Qed.

(** A program over the memory of the caller. *)
Lemma iso_user {A} (m : prog (@ustate (Node D)) A) s (P : A → Prop) (Q : A → sys → Prop) :
  isolated s →
  (∀ u, memory_safe u → ends memory_safe m u (λ a u', memory_safe u' ∧ P a)) →
  (∀ a s', isolated s' → P a → Q a s') → iso_post (user m) s Q.
Proof.
  intros [Hp Hs] Hm HQ r s' E. unfold user in E. apply bind_Ret_inv in E as ([a u] & E1 & E).
  injection E as <- <-. apply (Hm (MkUstate _ _)) in E1; [|done].
  destruct a as [a|]; [apply HQ; [split; [done|apply E1]|apply E1]|by split].
Qed.

Lemma iso_on_file {A} (m : prog (fstate D) A) s (Q : A → sys → Prop) :
  isolated s →
  (∀ f, memory_safe (fst f) → ends (λ f, memory_safe (fst f)) m f (λ _ f', memory_safe (fst f'))) →
  (∀ a s', isolated s' → Q a s') → iso_post (on_file m) s Q.
Proof.
  intros [Hp Hs] Hm HQ r s' E. unfold on_file in E. apply bind_Ret_inv in E as ([a [u t]] & E1 & E).
  injection E as <- <-. apply (Hm (MkUstate _ _, _)) in E1; [|done].
  destruct a as [a|]; [by apply HQ|by split].
Qed.

Lemma iso_arg esp i s (Q : Z → sys → Prop) :
  isolated s → (∀ a s', isolated s' → is_u32 a → Q a s') → iso_post (user_arg esp i) s Q.
Proof.
  intros Hs HQ. apply ends_bind, ends_get. rewrite (proj1 Hs).
  apply (iso_user _ _ is_u32); [done| |done]. intros u Hu. by apply (ld32_safe kConfig lo (Hfits := file_fits)).
Qed.

Lemma iso_string fuel a s (Q : list Z → sys → Prop) :
  isolated s → (∀ cs s', isolated s' → Q cs s') → iso_post (user_string fuel pd0 a) s Q.
Proof.
  revert a s Q. induction fuel as [|fuel IH]; intros a s Q Hs HQ; cbn [user_string].
  { by apply ends_lift. }
  apply ends_bind. apply (iso_user _ _ (λ _, True)); [done| |].
  - intros u Hu. eapply ends_mono; [by apply (ld8_safe kConfig lo (Hfits := file_fits))|]. by intros.
  - intros c s1 H1 _. destruct (c =? 0); [by apply ends_ret, HQ|].
    apply ends_bind, IH; [done|]. intros cs s2 H2. by apply ends_ret, HQ.
Qed.

Lemma iso_load_file l s (Q : File D → sys → Prop) : (∀ f, Q f s) → iso_post (load_file l) s Q.
Proof.
  intros HQ r s' E. unfold load_file in E. apply bind_Ret_inv in E as (f & _ & E). by injection E as <- <-.
Qed.

(** ** Lemmas: files *)

Abbreviation file_safe := (λ f : fstate D, memory_safe (fst f)).

Lemma on_memory_safe {A} (m : prog (@ustate (Node D)) A) f (Q : A → fstate D → Prop) :
  ends memory_safe m (fst f) (λ _, memory_safe) →
  (∀ a f', file_safe f' → Q a f') → ends file_safe (on_memory m) f Q.
Proof.
  destruct f as [u t]. intros Hm HQ r f' E. unfold on_memory in E.
  apply bind_Ret_inv in E as ([a u'] & E1 & E). injection E as <- <-. apply Hm in E1.
  destruct a; [by apply HQ|done].
Qed.

Lemma read_safe buf n g f : 2147483648 <= u32 buf → file_safe f →
  ends file_safe (file_read pd0 buf n g) f (λ _, file_safe).
Proof.
  intros Hb Hf. destruct g as [node off|]; cbn [file_read]; unfold fd_read, console_read.
  - apply ends_bind, ends_lift. intros r _. apply ends_bind, on_memory_safe; [apply (store_safe kConfig lo (Hfits := file_fits)); auto|].
    intros _ f1 H1. by apply ends_ret.
  - destruct (n =? 0); [by apply ends_ret|]. apply ends_bind, ends_get, ends_bind, ends_lift. intros r _.
    apply ends_bind, ends_set, ends_bind, on_memory_safe; [apply (store_safe kConfig lo (Hfits := file_fits)); auto|].
    intros _ f1 H1. by apply ends_ret.
Qed.

Lemma write_safe buf n g f : file_safe f → ends file_safe (file_write pd0 buf n g) f (λ _, file_safe).
Proof.
  intros Hf. destruct g as [node off|]; cbn [file_write]; [by apply ends_ret|].
  destruct (n =? 0); [by apply ends_ret|]. apply ends_bind, on_memory_safe; [by apply (ld8_safe kConfig lo (Hfits := file_fits))|].
  intros c f1 H1. by apply ends_bind, ends_set, ends_ret.
Qed.

(** ** Lemmas: operations on the process *)

Lemma close_space id p r p' : close id p = (r, p') → same_space p p'.
Proof.
  unfold close. destruct (negb _); [destruct (slot (sems p) _); by intros [= _ <-]|].
  destruct (negb _); [destruct (slot (children p) _); by intros [= _ <-]|].
  destruct (negb _); [destruct (slot (files p) _); by intros [= _ <-]|by intros [= _ <-]].
Qed.

Lemma semaphore_space v p o r p' o' : newSemaphore v p o = (r, p', o') → same_space p p'.
Proof. unfold newSemaphore. destruct (first_free _); by intros [= _ <- _]. Qed.

Lemma setFile_space l p r p' : setFile l p = (r, p') → same_space p p'.
Proof. unfold setFile. destruct (first_free _); by intros [= _ <-]. Qed.

Lemma wait_space id p o r v p' : wait id p o = Ret (Some (r, v, p')) → same_space p p'.
Proof.
  unfold wait. destruct (_ <? 0); [by intros [= _ _ <-]|]. destruct (slot _ _) as [l|]; [|by intros [= _ _ <-]].
  intros E. apply bind_Ret_inv in E as ([x|] & _ & E); [by injection E as _ _ <-|done].
Qed.

Lemma kill_space id p o r p' o' : kill id p o = Ret (r, p', o') → same_space p p'.
Proof.
  unfold kill. destruct (_ <? 0); [by intros [= _ <- _]|]. destruct (slot _ _) as [l|]; [|by intros [= _ <- _]].
  intros E. apply bind_Ret_inv in E as (x & _ & E). by injection E as _ <- _.
Qed.

Lemma safe_counts d es s v :
  safe kConfig lo fl0 s0 pd0 s → add_counts d es s = Ret v → safe kConfig lo fl0 s0 pd0 v.
Proof.
  intros (fl & Hk) E. apply add_counts_list in E as [Hl Em]. exists fl. eapply keeps_trans; [done|].
  by apply list_keeps; [apply Hk|..].
Qed.

End CallIsolation.

#[local] Hint Resolve close_space semaphore_space setFile_space wait_space kill_space : kernel.

(** One instruction of a call. *)
Ltac isolate_step :=
  match goal with
  | |- ends _ (pbind _ _) _ _ => apply ends_bind
  | |- ends _ (pret _) _ _ => apply ends_ret
  | |- ends _ self _ _ => apply iso_self
  | |- ends _ cur_pd _ _ => apply ends_get
  | |- ends _ (get_file _) _ _ => apply ends_get
  | |- ends _ (pget _) _ _ => apply ends_get
  | |- ends _ (pset _) _ _ => apply ends_set
  | |- ends _ (store_file _ _) _ _ => apply ends_set
  | |- ends _ (plift _) _ _ => apply ends_lift; intros ? ?
  | |- ends _ (load_file _) _ _ => apply iso_load_file; intros ?
  | Hs : isolated _ _ _ _ _ _ ?s |- ends _ (user_arg _ _) ?s _ =>
      apply iso_arg; [assumption|exact Hs|]; clear Hs; intros ? ? Hs ?
  | Hs : isolated _ _ _ _ _ _ ?s |- ends _ (user_string _ _ _) ?s _ =>
      rewrite (proj1 Hs); apply iso_string; [assumption|exact Hs|]; clear Hs; intros ? ? Hs
  | |- ends _ (match ?x with _ => _ end) _ _ => destruct x eqn:?
  | Hs : isolated _ _ _ _ _ _ ?s |- isolated _ _ _ _ _ _ _ =>
      first [exact Hs|solve [apply (isolated_same _ _ _ _ _ _ s); [exact Hs|done|done || eauto with kernel]]]
  end.

Ltac isolate := repeat isolate_step.

Section Calls.
Context {D : Type} `{BlockIO D} `{!Fits D} (kConfig : Config) (root_fs : Ext2 D) (root : Node D).
Context (shared new_stack : Z) (max_len : nat).
Context (garbage : list (@VMEntry (Node D)) → option loc) (beyond : nat → nat → Z).
Context (lo : Z) (fl0 : list Z) (s0 : @vmm (Node D)) (pd0 : Z).
Context (R : list (@VMEntry (Node D)) → Prop) (HR : ∀ b e a nd, R (b ++ e :: a) → R (b ++ with_node nd e :: a)).

Abbreviation iso := (isolated (D := D) kConfig lo fl0 s0 pd0 R).
Abbreviation isolates m := (∀ s, iso s → ends iso m s (λ _, iso)).

Lemma exit_isolates esp : isolates (sys_exit (D := D) esp).
Proof.
  intros s Hs. unfold sys_exit. isolate. destruct Hs as (? & ? & ?). split; [done|]. split; [|done].
  by eapply safe_counts.
Qed.

Lemma write_isolates esp : isolates (sys_write (D := D) kConfig esp).
Proof.
  intros s Hs. unfold sys_write. isolate. rewrite (proj1 Hs). apply iso_on_file; [done| |by intros; isolate].
  intros x Hx. by apply write_safe.
Qed.

Lemma sem_isolates esp : isolates (sys_sem (D := D) esp).
Proof. intros s Hs. unfold sys_sem. isolate. Qed.

Lemma up_isolates esp : isolates (sys_up (D := D) esp).
Proof. intros s Hs. unfold sys_up. isolate. Qed.

Lemma down_isolates esp : isolates (sys_down (D := D) esp).
Proof. intros s Hs. unfold sys_down. isolate. Qed.

Lemma close_isolates esp : isolates (sys_close (D := D) esp).
Proof. intros s Hs. unfold sys_close. isolate. Qed.

Lemma bad_buffer_high a : is_u32 a → bad_buffer kConfig a = false → 2147483648 <= u32 a.
Proof.
  intros Ha Hb. unfold bad_buffer in Hb. rewrite u32_small by done.
  apply orb_false_iff in Hb as [Hb _]. apply orb_false_iff in Hb as [Hb _]. by apply Z.ltb_ge in Hb.
Qed.

Lemma wait_isolates esp : isolates (sys_wait (D := D) kConfig esp).
Proof.
  intros s Hs. unfold sys_wait. isolate. rewrite (proj1 Hs).
  apply (iso_user _ _ _ _ _ _ _ _ (λ _, True)); [done| |by intros; isolate].
  intros u Hu. eapply ends_mono; [apply (store_safe kConfig lo (Hfits := file_fits)); [done|done|]|by intros].
  left. by apply bad_buffer_high.
Qed.

Lemma open_isolates esp : isolates (sys_open root_fs root max_len esp).
Proof.
  intros s Hs. unfold sys_open. isolate.
Qed.

Lemma len_isolates esp : isolates (sys_len (D := D) esp).
Proof. intros s Hs. unfold sys_len. isolate. Qed.

Lemma read_isolates esp : isolates (sys_read (D := D) kConfig esp).
Proof.
  intros s Hs. unfold sys_read. isolate. rewrite (proj1 Hs). apply iso_on_file; [done| |by intros; isolate].
  intros x Hx. apply read_safe; [done| |done]. by apply bad_buffer_high.
Qed.

Lemma seek_isolates esp : isolates (sys_seek (D := D) esp).
Proof. intros s Hs. unfold sys_seek. isolate. Qed.

Lemma mmap_isolates esp : (∀ es, R es) → isolates (sys_mmap (D := D) kConfig garbage esp).
Proof.
  intros Hall s Hs. unfold sys_mmap. isolate.
  apply (iso_user _ _ _ _ _ _ _ _ (λ _, True)); [done| |by intros; isolate].
  intros u Hu r u' E. unfold user_mmap in E. apply bind_Ret_inv in E as ([va es] & _ & E).
  injection E as <- <-. split; [split; [apply Hu|apply Hall]|done].
Qed.

Lemma kill_isolates esp : isolates (sys_kill (D := D) esp).
Proof.
  intros s Hs. unfold sys_kill. isolate.
Qed.

(** The child is made while the machine is as at the start of the call. *)
Lemma fork_isolates pc esp s :
  guarded kConfig lo fl0 s0 pd0 → as_wf (allocated lo fl0 (vm_mach s0)) (ram (vm_mach s0)) shared →
  config_ok kConfig → svmm s = s0 → iso s →
  ends iso (sys_fork (D := D) kConfig shared new_stack pc esp) s (λ _, iso).
Proof.
  intros Hg Hsh Hcfg E0 (Hp & _ & Hr). unfold sys_fork. apply ends_bind, iso_self, ends_bind, ends_lift.
  intros [[[[child id] p] v] o] E. rewrite E0 in E.
  destruct (fork_inv kConfig lo fl0 s0 (process s) shared (objs s) child id p v o) as (Ep & Ee & Hc);
    [by rewrite Hp|done..|]. rewrite Hp in Ep, Hc.
  assert (Hi : Process.pd p = pd0 ∧ safe kConfig lo fl0 s0 pd0 v ∧ R (entry_list p)).
  { rewrite Ep, Ee. split; [done|]. split; [|done]. destruct child as [c|].
    - destruct Hc as (fl' & m1 & U & Hc). exists fl'. by eapply fork_keeps.
    - rewrite Hc. by apply safe_refl. }
  apply ends_bind, ends_lift. intros c _. apply ends_bind, ends_lift. intros tk _.
  apply ends_bind, ends_set, ends_ret. exact Hi.
Qed.

(** What holds after [munmap]: nothing outside has changed. *)
Definition unharmed (s : @sys D) : Prop :=
  (∀ q, outside lo fl0 s0 pd0 q → same_frame (vm_mach s0) (vm_mach (svmm s)) q) ∧
  steady lo (vm_mach s0) (vm_mach (svmm s)).

Lemma isolated_unharmed s : iso s → unharmed s.
Proof. intros (_ & (fl & [_ Ho Hst]) & _). split; [|done]. intros q Hq. by apply Ho. Qed.

Lemma munmap_unharmed esp s : (∀ es, R es → Forall user_region es) → iso s →
  ends iso (sys_munmap (D := D) kConfig esp) s (λ _, unharmed).
Proof.
  intros HRu Hs. unfold sys_munmap. isolate.
  match goal with Em : munmap _ _ _ _ _ _ = _ |- _ => rename Em into Em' end. destruct Hs as (Hp & (fl & [Hg Ho Hst]) & Hr).
  assert (Hq : quiet lo fl (svmm s'0) pd0 (vm_mach v)).
  { unfold munmap in Em'. rewrite Hp in Em'. destruct (is_special _ _).
    - injection Em' as _ _ <-. apply quiet_init.
    - eapply munmap_loop_quiet; [done|by apply HRu|done]. }
  split; [|by eapply steady_trans, Hq]. intros q Hout. destruct (Ho q Hout) as [Hs1 Hout1].
  eapply agree_trans; [|exact Hs1]. by apply (qt_outside _ _ _ _ _ Hq).
Qed.

(** Every other call. *)
Lemma dispatch_isolates n pc esp s :
  guarded kConfig lo fl0 s0 pd0 → as_wf (allocated lo fl0 (vm_mach s0)) (ram (vm_mach s0)) shared →
  config_ok kConfig → svmm s = s0 → iso s → n ≠ 9 → n ≠ 15 → (∀ es, R es) →
  ends iso (dispatch kConfig root_fs root shared new_stack max_len garbage beyond n pc esp) s (λ _, iso).
Proof.
  intros Hg Hsh Hcfg E0 Hs H9 H15 Hall. unfold dispatch.
  repeat match goal with |- ends _ (if n =? ?k then _ else _) _ _ => destruct (Z.eqb_spec n k) end;
    try done;
    first [by apply exit_isolates|by apply write_isolates|by apply fork_isolates|by apply sem_isolates
      |by apply up_isolates|by apply down_isolates|by apply close_isolates|by apply wait_isolates
      |by apply open_isolates|by apply len_isolates|by apply read_isolates|by apply seek_isolates
      |by apply mmap_isolates|by apply kill_isolates|by apply ends_ret].
Qed.

End Calls.

(** A fault that ends the process does not touch memory either. *)
Lemma handler_ends {D} `{BlockIO D} kConfig root_fs root shared new_stack max_len garbage beyond n pc esp
    (s s' : @sys D) r (I : sys → Prop) (Q : call → sys → Prop) (T : @vmm (Node D) → @Process (Node D) → Prop) :
  ends I (dispatch kConfig root_fs root shared new_stack max_len garbage beyond n pc esp) s Q →
  sysHandler kConfig root_fs root shared new_stack max_len garbage beyond n pc esp s = Ret (r, s') →
  (∀ x, I x → T (svmm x) (process x)) → (∀ c x, Q c x → T (svmm x) (process x)) → T (svmm s') (process s').
Proof.
  intros Hd E HI HQ. unfold sysHandler in E. apply bind_Ret_inv in E as ([[c|] s1] & E1 & E); apply Hd in E1.
  - injection E as <- <-. by eapply HQ.
  - apply bind_Ret_inv in E as (o & _ & E). apply bind_Ret_inv in E as ([q k] & _ & E).
    injection E as <- <-. cbn. by apply HI.
Qed.

(** Every call but [execl] and [munmap] keeps what is outside, and leaves a caller
    that can call again. *)
Lemma handler_safe {D} `{BlockIO D} `{!Fits D} kConfig root_fs root shared new_stack max_len garbage beyond
    lo fl n pc esp (s s' : @sys D) r (pd := Process.pd (process s)) :
  guarded kConfig lo fl (svmm s) pd → as_wf (allocated lo fl (vm_mach (svmm s))) (ram (vm_mach (svmm s))) shared →
  config_ok kConfig → n ≠ 9 → n ≠ 15 →
  sysHandler kConfig root_fs root shared new_stack max_len garbage beyond n pc esp s = Ret (r, s') →
  Process.pd (process s') = pd ∧ safe kConfig lo fl (svmm s) pd (svmm s').
Proof.
  intros Hg Hsh Hcfg H9 H15 E. pose (R := λ _ : list (@VMEntry (Node D)), True).
  assert (Hi : isolated kConfig lo fl (svmm s) pd R s'); [|by destruct Hi as (? & ? & _)].
  refine (handler_ends _ _ _ _ _ _ _ _ _ _ _ _ _ _ (isolated kConfig lo fl (svmm s) pd R)
    (λ _, isolated kConfig lo fl (svmm s) pd R)
    (λ v p, Process.pd p = pd ∧ safe kConfig lo fl (svmm s) pd v ∧ True) _ E (λ _ Hx, Hx) (λ _ _ Hx, Hx)).
  apply dispatch_isolates; try done. split; [done|]. split; [by apply safe_refl|done].
Qed.

(** What the call of [fork] is. *)
Lemma handler_fork {D} `{BlockIO D} kConfig root_fs root shared new_stack max_len garbage beyond
    pc esp (s s' : @sys D) r :
  sysHandler kConfig root_fs root shared new_stack max_len garbage beyond 2 pc esp s = Ret (r, s') →
  ∃ c id p v o t, fork kConfig shared (process s) (svmm s) (objs s) = Ret (Some c, id, p, v, o) ∧
    svmm s' = v ∧ starts s' = <[t := EntryPoint c pc esp]> (starts s).
Proof.
  intros E. unfold sysHandler, dispatch in E. cbn [Z.eqb Pos.eqb] in E.
  apply bind_Ret_inv in E as ([x s1] & E1 & E). unfold sys_fork, pbind, self, plift in E1.
  cbn [mbind outcome_bind] in E1. apply bind_Ret_inv in E1 as ([x1 s2] & E2 & E1).
  apply bind_Ret_inv in E2 as ([[[[child id] p] v] o] & Ef & E2). injection E2 as <- <-.
  destruct child as [c|]; [|done]. cbn [deref mbind outcome_bind] in E1.
  apply bind_Ret_inv in E1 as ([x2 s2] & E2 & E1). apply bind_Ret_inv in E2 as (tk & Et & E2).
  injection E2 as <- <-. cbn in E1. injection E1 as <- <-. cbn in E. injection E as _ <-.
  by exists c, id, p, v, o, tk.1.
Qed.

(** ** Property *)


(** ** What the conditions exclude *)

(** Three mappings without files, at 0x90000000, 0xF0000000 and (as asked) 0x80000000. *)
Definition demo_mmap (addr len : Z) (es : list (@VMEntry (Node ByteDevice))) : list VMEntry :=
  snd (run (0, []) (mmap demo_config no_file None addr len 10 1 (-1) 0 es)).

Definition demo_regions : list (@VMEntry (Node ByteDevice)) :=
  demo_mmap 0x80000000 0x7FFFF000 (demo_mmap 0xF0000000 4096 (demo_mmap 0x90000000 0x70002000 [])).

(** The second of the regions is no region of the user's half: [end_of] of the first
    one has wrapped, and [munmap(0x80000000)] would give back the kernel's pages
    from 0x2000 on. *)
Example mmap_wraps :
  (λ e, (starting_address e, end_of e)) <$> demo_regions =
    [(0x90000000, 0x2000); (0x2000, 0x80001000); (0xF0000000, 0xF0001000)] ∧
  (starting_address <$> region_of demo_regions 0x80000000) = Some 0x2000.
Proof. vm_compute. done. Qed.

(** Only the first address of an APIC's page is refused. *)
Example apic_accepted :
  bad_buffer demo_config (ioAPIC demo_config) = true ∧ bad_buffer demo_config (ioAPIC demo_config + 16) = false.
Proof. done. Qed.

(** ** Witness: a process reads a character from the console into its memory while
    another process has an address space *)

Definition demo_guest : @ustate (Node ByteDevice) := MkUstate [demo_data] (MkVmm dm2 ∅ None).

(** The caller has put [read]'s arguments on its stack. *)
Definition demo_asks : @ustate (Node ByteDevice) :=
  snd (run (None, demo_guest) (user_store 6291456 0x80001004 (word 0 ++ word 0x80002000 ++ word 1) demo_guest)).

Definition demo_reader : @sys ByteDevice :=
  MkSys (set_entry_list (regions demo_asks) (MkProcess (Some 7%nat :: replicate 9 None) (replicate 10 None)
      (replicate 10 None) (replicate 10 None) 1%nat 2%nat 6291456 []))
    1 0 (uvmm demo_asks) demo_objects {[7%nat := U8250File]} (Console [65] []) demo_run ∅.

(** Nothing is mapped at first. *)
Lemma demo_guest_empty va : is_u32 va → walk (ram dm2) 6291456 va = None.
Proof.
  intros Hu. rewrite (walk_agree (ram dm1)); [by apply (empty_space _ _ _ _ _ _ dm1_post)|done|..].
  - apply (ap_frame _ _ _ _ _ _ dm2_post). lia.
  - destruct (empty_space _ _ _ _ _ _ dm1_post) as (_ & Ha & _). by rewrite Ha by (by apply pdi_range).
Qed.

Lemma demo_guest_guarded : guarded demo_config 6291456 [] (uvmm demo_guest) 6291456.
Proof.
  assert (Hp : ∀ n, 0 <= n < 1048576 → page dm2 6291456 n = None).
  { intros n Hn. by apply demo_guest_empty, page_u32. }
  split.
  - apply (ap_wf _ _ _ _ _ _ dm2_post).
  - exact dm2_space.
  - intros n e [] E. by rewrite Hp in E by lia.
  - intros n e [[] _] E. by rewrite Hp in E by lia.
  - by apply Hp.
  - intros q (l & n & _ & E & _). cbn [nodes uvmm demo_guest] in E. by rewrite lookup_empty in E.
Qed.

Lemma demo_other_outside : outside 6291456 [] (uvmm demo_guest) 6291456 6295552.
Proof.
  split; [|done|..].
  - apply (ap_alloc _ _ _ _ _ _ dm2_post). by left.
  - intros (i & Hi & Ha & _). cbn [vm_mach uvmm demo_guest] in Ha.
    rewrite (entry_agree (ram dm1)) in Ha; [|apply (ap_frame _ _ _ _ _ _ dm2_post); lia|lia].
    destruct (empty_space _ _ _ _ _ _ dm1_post) as (_ & He & _). by rewrite He in Ha by lia.
  - intros n e [] E. unfold page in E. cbn [vm_mach uvmm demo_guest] in E.
    by rewrite demo_guest_empty in E by (apply page_u32; lia).
  - intros (l & n & _ & E & _). cbn [nodes uvmm demo_guest] in E. by rewrite lookup_empty in E.
Qed.

Lemma demo_other_empty fl m : same_frame dm2 m 6295552 → allocated 6291456 fl m 6295552 →
  as_wf (allocated 6291456 fl m) (ram m) 6295552.
Proof.
  intros Hs Hal. destruct (empty_space _ _ _ _ _ _ dm2_post) as (_ & Ha & _).
  assert (He : ∀ i, 0 <= i < 1024 → absent (entry (ram m) 6295552 i) = true).
  { intros i Hi. rewrite (entry_agree (ram dm2)); [by apply Ha|exact Hs|exact Hi]. }
  split; [exact Hal|intros i Hi E|intros i j Hi _ _ E]; by rewrite He in E.
Qed.

Lemma demo_asks_safe : safe demo_config 6291456 [] (uvmm demo_guest) 6291456 (uvmm demo_asks).
Proof.
  assert (E : user_store 6291456 0x80001004 (word 0 ++ word 0x80002000 ++ word 1) demo_guest =
    Ret (Some tt, demo_asks)).
  { assert (E : (r ← user_store 6291456 0x80001004 (word 0 ++ word 0x80002000 ++ word 1) demo_guest;
      Ret (fst r)) = Ret (Some tt)) by (vm_compute; reflexivity).
    unfold demo_asks. destruct (user_store _ _ _ _) as [[a u]| | |]; try discriminate E.
    injection E as ->. done. }
  apply (store_safe demo_config 6291456 (Hfits := file_fits) [] (uvmm demo_guest) 6291456 (λ _, True)) in E.
  - apply E.
  - done.
  - split; [apply safe_refl, demo_guest_guarded|done].
  - by left.
Qed.

Lemma demo_read : ∃ s', sysHandler demo_config demo_fs demo_dir_node 6295552 8192 16 (λ _, None) (λ _ _, 0)
  12 0x400000 0x80001000 demo_reader = Ret (Returns 1, s').
Proof.
  assert (E : (c ← sysHandler demo_config demo_fs demo_dir_node 6295552 8192 16 (λ _, None) (λ _ _, 0)
    12 0x400000 0x80001000 demo_reader; Ret (fst c)) = Ret (Returns 1)) by (vm_compute; reflexivity).
  destruct (sysHandler _ _ _ _ _ _ _ _ _ _ _ _) as [[c s']| | |]; try discriminate E.
  injection E as ->. by exists s'.
Qed.

Lemma demo_reader_safe : safe demo_config 6291456 [] (uvmm demo_guest) 6291456 (svmm demo_reader).
Proof. exact demo_asks_safe. Qed.

