(* ===== verification/World.v ===== *)
(** * Isolation of the processes from each other: src/kernel

    Several processes that share the machine and make system calls and accesses in
    any order. The state is the memory and the directories of the processes; the
    invariant [world] says that their spaces are apart. Each step is a call of file
    Sys or an access of file UserMem by one of the processes; [fork] adds one. *)

From S2P Require Import Prelude Mem Config PhysMem Paging BlockIO Ext2 Vmm Fork.
From S2P Require Import Queue Threads Semaphore Process UserMem Files Elf Sys Isolation CallIsolation.
Local Open Scope Z_scope.

Section World.
Context {F : Type} `{FileNode F} (kConfig : Config) (lo shared : Z).

(** ** The invariant *)

(** [q] may be the frame of a page of another process than [pd]: nobody else's, that
    of a shared file (of one that was shared once), or the registers of a device. *)
Definition proper (fl : list Z) (s : @vmm F) (pd q : Z) : Prop :=
  outside lo fl s pd q ∨ noded s q ∨ limit (vm_mach s) <= q.

(** The processes with the directories [ps]; [shared] is the kernel's. *)
Record world (fl : list Z) (s : @vmm F) (ps : list Z) : Prop := World {
  wd_alloc : alloc_wf lo fl (vm_mach s);
  wd_guarded pd : pd ∈ ps → guarded kConfig lo fl s pd;
  wd_apart pd pd2 : pd ∈ ps → pd2 ∈ ps → pd ≠ pd2 → apart lo fl s pd pd2;
  wd_pages pd pd2 n e : pd ∈ ps → pd2 ∈ ps → pd ≠ pd2 → high n → page (vm_mach s) pd2 n = Some e →
    proper fl s pd (base e);
  wd_kernel : as_wf (allocated lo fl (vm_mach s)) (ram (vm_mach s)) shared;
  wd_kernel_apart pd : pd ∈ ps → apart lo fl s pd shared;
  wd_zero : page (vm_mach s) shared 0 = None;
  wd_devices : limit (vm_mach s) <= ioAPIC kConfig ∧ limit (vm_mach s) <= localAPIC kConfig;
}.

(** ** Lemmas: a space that does not change *)

#[export] Instance noded_dec (s : @vmm F) q : Decision (noded s q).
Proof. change (Decision (map_Exists (λ _ n, ne_pa n = q) (nodes s))). apply _. Defined.

(** What a step leaves to the space [k] of somebody else. *)
Record still (fl : list Z) (s : @vmm F) (fl' : list Z) (s' : @vmm F) (k : Z) : Prop := Still {
  sl_wf : alloc_wf lo fl' (vm_mach s');
  sl_steady : steady lo (vm_mach s) (vm_mach s');
  sl_mono q : allocated lo fl (vm_mach s) q → allocated lo fl' (vm_mach s') q;
  sl_dir : same_frame (vm_mach s) (vm_mach s') k;
  sl_table i : 0 <= i < 1024 → absent (entry (ram (vm_mach s)) k i) = false →
    same_frame (vm_mach s) (vm_mach s') (base (entry (ram (vm_mach s)) k i));
  sl_list q : on_list s' q → allocated lo fl' (vm_mach s') q ∧
    (on_list s q ∨ ¬ allocated lo fl (vm_mach s) q);
  sl_noded q : noded s q → noded s' q;
}.

Lemma keeps_still fl s fl' s' pd k : keeps kConfig lo fl s fl' s' pd → apart lo fl s pd k → still fl s fl' s' k.
Proof.
  intros [Hg Ho Hst Hm _ _ (N & Hl & HN)] [Hk Ht]. split; try done.
  - apply Hg.
  - by apply Ho.
  - intros i Hi Ha. by apply Ho, Ht.
  - intros q Hq. split; [by apply (gd_node _ _ _ _ _ Hg)|].
    destruct (ls_listed _ _ _ Hl q Hq) as [Hq'|Hq']; [|by left].
    destruct (decide (allocated lo fl (vm_mach s) q)); [left; by apply HN|by right].
  - by apply Hl.
Qed.

Section Still.
Context {fl : list Z} {s : @vmm F} {fl' : list Z} {s' : @vmm F} {k : Z}.
Hypothesis Hs : still fl s fl' s' k.

Lemma still_entry i : 0 <= i < 1024 → entry (ram (vm_mach s')) k i = entry (ram (vm_mach s)) k i.
Proof using Hs. intros Hi. apply entry_agree; [apply Hs|done]. Qed.

Lemma still_walk va : is_u32 va → walk (ram (vm_mach s')) k va = walk (ram (vm_mach s)) k va.
Proof using Hs.
  intros Hu. apply walk_agree; [done|apply Hs|]. intros Ha. apply (sl_table _ _ _ _ _ Hs); [by apply pdi_range|done].
Qed.

Lemma still_page n : 0 <= n < 1048576 → page (vm_mach s') k n = page (vm_mach s) k n.
Proof using Hs. intros Hn. by apply still_walk, page_u32. Qed.

Lemma still_table j q : 0 <= j → table_from j (vm_mach s') k q → table_from j (vm_mach s) k q.
Proof using Hs. intros Hj. apply table_same; [done|apply still_entry]. Qed.

Lemma still_space : as_wf (allocated lo fl (vm_mach s)) (ram (vm_mach s)) k →
  as_wf (allocated lo fl' (vm_mach s')) (ram (vm_mach s')) k.
Proof using Hs. apply as_wf_agree; [apply Hs|apply Hs]. Qed.

Lemma still_harmless x : harmless lo fl (vm_mach s) k x → harmless lo fl' (vm_mach s') k x.
Proof using Hs.
  intros (H1 & H2 & H3). split; [|split; [done|]].
  - destruct H1 as [?|?]; [left; by apply Hs|right; by rewrite (proj1 (sl_steady _ _ _ _ _ Hs))].
  - intros Ht. apply H3. by apply still_table.
Qed.

Hypothesis Hg : guarded kConfig lo fl s k.

(** A frame that was not in use is no table. *)
Lemma still_new q : ¬ allocated lo fl (vm_mach s) q → q ≠ k ∧ ¬ table_from 0 (vm_mach s') k q.
Proof using Hs Hg.
  intros Hq. pose proof (gd_as _ _ _ _ _ Hg) as Has. split; [intros ->; by apply Hq, Has|].
  intros Ht%still_table; [|done]. destruct Ht as (i & Hi & Ha & <-). by apply Hq, Has.
Qed.

Lemma still_guarded : guarded kConfig lo fl' s' k.
Proof using Hs Hg.
  destruct Hg as [Hwf Has Hpg Hpv Hz Hnd]. split.
  - apply Hs.
  - by apply still_space.
  - intros n e Hn. rewrite still_page by (destruct Hn; lia). intros He. by eapply still_harmless, Hpg.
  - intros n e Hn. rewrite still_page by (destruct Hn as [[] _]; lia). intros He. by eapply Hs, Hpv.
  - by rewrite still_page.
  - intros q Hq. destruct (sl_list _ _ _ _ _ Hs q Hq) as [Ha [Hq'|Hf]]; (split; [done|]).
    + by apply still_harmless, Hnd.
    + split; [by left|by apply still_new].
Qed.

Lemma still_outside q : outside lo fl s k q → outside lo fl' s' k q.
Proof using Hs.
  intros [O1 O2 O3 O4 O5]. split; [by apply Hs|done|..].
  - intros Ht. by apply O3, still_table.
  - intros n e Hn. rewrite still_page by (destruct Hn; lia). by apply O4.
  - intros Hq. by destruct (sl_list _ _ _ _ _ Hs q Hq) as [_ [?|?]].
Qed.

Lemma still_fresh q : ¬ allocated lo fl (vm_mach s) q → allocated lo fl' (vm_mach s') q →
  ¬ on_list s' q → outside lo fl' s' k q.
Proof using Hs Hg.
  intros Hf Ha Hl. destruct (still_new q Hf) as [Hne Ht]. split; [done|done|..|done].
  - intros Ht'. by apply Ht, table_mono.
  - intros n e Hn. rewrite still_page by (destruct Hn; lia). intros He Eq. rewrite <- Eq in Hf, Ha.
    destruct (gd_page _ _ _ _ _ Hg n e Hn He) as ([?|[Hd _]] & _); [done|].
    destruct Ha as [[_ [_ Hlt]] _]. pose proof (wf_bounds _ _ _ (sl_wf _ _ _ _ _ Hs)).
    rewrite (proj1 (sl_steady _ _ _ _ _ Hs)) in *. lia.
Qed.

Lemma still_proper q : proper fl s k q → proper fl' s' k q.
Proof using Hs.
  intros [?|[?|?]]; [left; by apply still_outside|right; left; by apply Hs|right; right].
  by rewrite (proj1 (sl_steady _ _ _ _ _ Hs)).
Qed.

(** Any frame that was not in use is proper. *)
Lemma still_fresh_proper q : ¬ allocated lo fl (vm_mach s) q → allocated lo fl' (vm_mach s') q →
  proper fl' s' k q.
Proof using Hs Hg.
  intros Hf Ha. destruct (decide (noded s' q)) as [?|Hn]; [right; by left|left].
  apply still_fresh; [done|done|]. intros Hl. by apply Hn, on_list_noded.
Qed.

End Still.

(** ** Lemmas: a step of one process *)

Lemma world_still fl s ps pd fl' s' k :
  world fl s ps → pd ∈ ps → keeps kConfig lo fl s fl' s' pd → k ∈ ps → k ≠ pd → still fl s fl' s' k.
Proof. intros Hw Hpd Hk Hin Hne. eapply keeps_still; [done|]. by apply Hw. Qed.

(** The tables of the process that takes the step are outside of the others. *)
Lemma step_apart fl (s : @vmm F) ps pd fl' s' k :
  world fl s ps → pd ∈ ps → keeps kConfig lo fl s fl' s' pd → k ∈ ps → k ≠ pd → apart lo fl' s' k pd.
Proof.
  intros Hw Hpd Hk Hin Hne. pose proof (world_still _ _ _ _ _ _ _ Hw Hpd Hk Hin Hne) as Hs.
  pose proof (wd_guarded _ _ _ Hw k Hin) as Hg. pose proof (kp_guarded _ _ _ _ _ _ _ Hk) as Hg'.
  destruct (wd_apart _ _ _ Hw k pd Hin Hpd Hne) as [Ho Ht]. split; [by apply (still_outside Hs)|].
  intros i Hi Ha. destruct (kp_tables _ _ _ _ _ _ _ Hk i Hi Ha) as [E|Hf].
  - rewrite E in Ha |- *. by apply (still_outside Hs), Ht.
  - apply (still_fresh Hs Hg); [done|by apply (gd_as _ _ _ _ _ Hg')|].
    intros Hl. destruct (gd_node _ _ _ _ _ Hg' _ Hl) as (_ & _ & _ & Hnt). apply Hnt. by exists i.
Qed.

(** The spaces of others, and the kernel's, are outside of it as before. *)
Lemma step_others fl (s : @vmm F) pd fl' s' k :
  keeps kConfig lo fl s fl' s' pd → apart lo fl s pd k → apart lo fl' s' pd k.
Proof.
  intros Hk Ha. pose proof (keeps_still _ _ _ _ _ _ Hk Ha) as Hs. destruct Ha as [Ho Ht].
  split; [by apply Hk|]. intros i Hi Hab. rewrite (still_entry Hs) in Hab |- * by done. by apply Hk, Ht.
Qed.

Lemma still_apart fl s fl' (s' : @vmm F) a b : still fl s fl' s' a → still fl s fl' s' b →
  apart lo fl s a b → apart lo fl' s' a b.
Proof.
  intros Ha Hb [Ho Ht]. split; [by apply (still_outside Ha)|].
  intros i Hi Hab. rewrite (still_entry Hb) in Hab |- * by done. by apply (still_outside Ha), Ht.
Qed.

(** Its pages are in frames that are proper for the others. *)
Lemma step_pages fl s ps pd fl' s' k n e :
  world fl s ps → pd ∈ ps → keeps kConfig lo fl s fl' s' pd → k ∈ ps → k ≠ pd → high n →
  page (vm_mach s') pd n = Some e → proper fl' s' k (base e).
Proof.
  intros Hw Hpd Hk Hin Hne Hn He. pose proof (world_still _ _ _ _ _ _ _ Hw Hpd Hk Hin Hne) as Hs.
  destruct (kp_pages _ _ _ _ _ _ _ Hk n e Hn He) as [He'|[Hf|?]]; [| |by right; left].
  - apply (still_proper Hs). by apply (wd_pages _ _ _ Hw k pd n).
  - destruct (gd_page _ _ _ _ _ (kp_guarded _ _ _ _ _ _ _ Hk) n e Hn He) as ([Ha|[Hd _]] & _); [|by right; right].
    by apply (still_fresh_proper Hs (wd_guarded _ _ _ Hw k Hin)).
Qed.

Lemma world_step fl s ps pd fl' s' :
  world fl s ps → pd ∈ ps → keeps kConfig lo fl s fl' s' pd → world fl' s' ps.
Proof.
  intros Hw Hpd Hk. pose proof (λ k, world_still _ _ _ _ _ _ k Hw Hpd Hk) as Hs.
  pose proof (keeps_still _ _ _ _ _ _ Hk (wd_kernel_apart _ _ _ Hw pd Hpd)) as Hsh.
  split.
  - apply Hsh.
  - intros k Hin. destruct (decide (k = pd)) as [->|Hne]; [apply Hk|].
    eapply still_guarded; [by apply Hs|by apply Hw].
  - intros a b Ha Hb Hne. destruct (decide (a = pd)) as [->|Hna].
    { eapply step_others; [done|by apply Hw]. }
    destruct (decide (b = pd)) as [->|Hnb]; [by eapply step_apart|].
    eapply still_apart; [by apply Hs|by apply Hs|by apply Hw].
  - intros a b n e Ha Hb Hne Hn He. destruct (decide (b = pd)) as [->|Hnb]; [by eapply step_pages|].
    rewrite (still_page (Hs b Hb Hnb)) in He by (destruct Hn; lia).
    pose proof (wd_pages _ _ _ Hw a b n e Ha Hb Hne Hn He) as Hp.
    destruct (decide (a = pd)) as [->|Hna]; [|by eapply still_proper; [apply Hs|]].
    destruct Hp as [Hp|[Hp|Hp]]; [left; by apply Hk|right; left; by apply Hsh|right; right].
    by rewrite (proj1 (kp_steady _ _ _ _ _ _ _ Hk)).
  - apply (still_space Hsh), (wd_kernel _ _ _ Hw).
  - intros k Hin. pose proof (wd_kernel_apart _ _ _ Hw k Hin) as Ha.
    destruct (decide (k = pd)) as [->|Hne]; [by eapply step_others|]. eapply still_apart; [by apply Hs|done|done].
  - rewrite (still_page Hsh) by lia. apply (wd_zero _ _ _ Hw).
  - rewrite (proj1 (kp_steady _ _ _ _ _ _ _ Hk)). apply (wd_devices _ _ _ Hw).
Qed.

(** What others see of it. *)
Lemma step_view fl s ps pd fl' s' k va :
  world fl s ps → pd ∈ ps → keeps kConfig lo fl s fl' s' pd → k ∈ ps → k ≠ pd →
  is_u32 va → 2147483648 <= va →
  (∀ e, page (vm_mach s) k (va / 4096) = Some e → ¬ noded s (base e) ∧ base e < limit (vm_mach s)) →
  view s' k va = view s k va ∧ page (vm_mach s') k (va / 4096) = page (vm_mach s) k (va / 4096) ∧
  ∀ e, page (vm_mach s') k (va / 4096) = Some e → ¬ noded s' (base e) ∧ base e < limit (vm_mach s').
Proof.
  intros Hw Hpd Hk Hin Hne Hu Hh Hp. pose proof (world_still _ _ _ _ _ _ _ Hw Hpd Hk Hin Hne) as Hs.
  assert (Hn : high (va / 4096)).
  { split; [by apply upper_slot|]. destruct Hu. apply Z.div_lt_upper_bound; lia. }
  assert (Epg : page (vm_mach s') k (va / 4096) = page (vm_mach s) k (va / 4096)).
  { apply (still_page Hs). destruct Hn. lia. }
  assert (Hout : ∀ e, page (vm_mach s) k (va / 4096) = Some e → outside lo fl s pd (base e)).
  { intros e He. destruct (Hp e He) as [Hnn Hlt].
    destruct (wd_pages _ _ _ Hw pd k _ e Hpd Hin ltac:(by apply not_eq_sym) Hn He) as [?|[?|?]]; [done|done|lia]. }
  split; [|split; [done|]].
  - eapply apart_view; [by apply (wd_apart _ _ _ Hw pd k); [| |apply not_eq_sym]| |done|done].
    intros q Hq. by apply Hk.
  - rewrite Epg. intros e He. destruct (Hp e He) as [Hnn Hlt].
    rewrite (proj1 (kp_steady _ _ _ _ _ _ _ Hk)). split; [|done]. intros Hnd.
    destruct (kp_lists _ _ _ _ _ _ _ Hk) as (N & Hl & HN). destruct (ls_new _ _ _ Hl _ Hnd) as [Hin'|?]; [|done].
    apply Hnn, on_list_noded, HN; [done|apply Hout, He].
Qed.

(** ** Lemmas: a new space *)

(** The registers of the controllers are no frames in use. *)
Lemma device_free fl m q : alloc_wf lo fl m → limit m <= q → ¬ allocated lo fl m q.
Proof. intros Hwf Hq [[_ [_ Hlt]] _]. pose proof (wf_bounds _ _ _ Hwf). lia. Qed.

Section Made.
Context {m0 m1 : mach} {c : Z} (Hcfg : config_ok kConfig).
Context (Hmade : ∀ va, is_u32 va → walk (ram m1) c va =
  if va / 4194304 <? (memSize kConfig + 4194303) / 4194304 then walk (ram m0) shared va
  else if va / 4096 =? ioAPIC kConfig / 4096 then Some (ioAPIC kConfig + 3)
  else if va / 4096 =? localAPIC kConfig / 4096 then Some (localAPIC kConfig + 3)
  else None).

(** The pages that [make_pd] gives to the user's half. *)
Lemma made_page n e : high n → page m1 c n = Some e →
  is_special kConfig (4096 * n) = true ∧ (base e = ioAPIC kConfig ∨ base e = localAPIC kConfig) ∧
  base e mod 4096 = 0.
Proof using Hcfg Hmade.
  intros Hn He. assert (Hn' : 524288 <= n < 1048576) by (exact Hn).
  split.
  { destruct (is_special kConfig (4096 * n)) eqn:Hsp; [done|].
    by apply (new_pages kConfig m0 shared Hcfg c m1 n Hmade Hn') in Hsp; rewrite Hsp in He. }
  unfold page in He. rewrite Hmade in He by (apply page_u32; lia).
  destruct Hcfg as [Hms (Hio1 & Hio2 & Hio3) (Hlo1 & Hlo2 & Hlo3) _].
  rewrite (proj2 (Z.ltb_ge (4096 * n / 4194304) _)) in He by zlia.
  destruct (4096 * n / 4096 =? ioAPIC kConfig / 4096);
    [|destruct (4096 * n / 4096 =? localAPIC kConfig / 4096); [|done]];
    injection He as <-; rewrite <- lor_flags, base_flags by (done || lia); auto.
Qed.

Lemma made_zero : page m0 shared 0 = None → page m1 c 0 = None.
Proof using Hcfg Hmade.
  intros H0. unfold page. rewrite Hmade by done. destruct (_ <? _); [exact H0|].
  destruct Hcfg as [_ (Hio1 & Hio2 & Hio3) (Hlo1 & Hlo2 & Hlo3) _].
  rewrite (proj2 (Z.eqb_neq (4096 * 0 / 4096) (ioAPIC kConfig / 4096))) by zlia.
  by rewrite (proj2 (Z.eqb_neq (4096 * 0 / 4096) (localAPIC kConfig / 4096))) by zlia.
Qed.

End Made.

(** ** Lemmas: the child of [fork] *)

Section Child.
Context {fl : list Z} {s : @vmm F} {ps : list Z} {pd c : Z} {fl' : list Z} {m1 : mach}.
Context {U : list (Z * Z)} {s' : @vmm F} {fl1 : list Z} {K : Z}.
Context (Hw : world fl s ps) (Hpd : pd ∈ ps) (Hcfg : config_ok kConfig).
Context (Hf : forked kConfig lo fl s shared pd c fl' m1 U s').
Context (Hc : copying lo fl (vm_mach s) pd c fl1 m1 1048576 fl' U K (vm_mach s')).

Lemma child_still k : k ∈ ps → still fl s fl' s' k.
Proof using Hw Hpd Hf.
  intros Hin. destruct (forked_old _ _ _ _ _ _ _ _ _ _ _ Hf) as (Hwf & Hst & Hold).
  pose proof (gd_as _ _ _ _ _ (wd_guarded _ _ _ Hw k Hin)) as Has. split; try done.
  - intros q Hq. by apply Hold.
  - by apply Hold, Has.
  - intros i Hi Ha. by apply Hold, Has.
  - intros q Hq. destruct (ls_listed _ _ _ (fk_lists _ _ _ _ _ _ _ _ _ _ _ Hf) q Hq) as [?%not_elem_of_nil|Hq']; [done|].
    split; [|by left]. by apply Hold, (gd_node _ _ _ _ _ (wd_guarded _ _ _ Hw k Hin)).
  - apply (fk_lists _ _ _ _ _ _ _ _ _ _ _ Hf).
Qed.

Lemma child_list q : on_list s' q → on_list s q ∧ allocated lo fl (vm_mach s) q.
Proof using Hw Hpd Hf.
  intros Hq. destruct (ls_listed _ _ _ (fk_lists _ _ _ _ _ _ _ _ _ _ _ Hf) q Hq) as [?%not_elem_of_nil|Hq']; [done|].
  split; [done|]. by apply (gd_node _ _ _ _ _ (wd_guarded _ _ _ Hw pd Hpd)).
Qed.

(** The child's tables are new or the kernel's. *)
Lemma child_table i : 0 <= i < 1024 → absent (entry (ram (vm_mach s')) c i) = false →
  let t := base (entry (ram (vm_mach s')) c i) in
  (512 <= i ∧ ¬ allocated lo fl (vm_mach s) t) ∨
  (absent (entry (ram (vm_mach s)) shared i) = false ∧ t = base (entry (ram (vm_mach s)) shared i)).
Proof using Hf Hc.
  intros Hi Ha t. destruct (decide (512 <= i)) as [Hh|Hl]; [left; split; [done|]|right].
  - apply (cp_tables _ _ _ _ _ _ _ _ _ _ _ _ Hc i); [lia|done].
  - subst t. rewrite (cp_kernel _ _ _ _ _ _ _ _ _ _ _ _ Hc) in Ha |- * by lia.
    rewrite (fk_kernel _ _ _ _ _ _ _ _ _ _ _ Hf i) in Ha |- * by (done || lia). done.
Qed.

(** Its pages are new or the devices'. *)
Lemma child_page n e : high n → page (vm_mach s') c n = Some e →
  (¬ allocated lo fl (vm_mach s) (base e) ∧ allocated lo fl' (vm_mach s') (base e) ∧ base e ≠ c ∧
     ¬ table_from 0 (vm_mach s') c (base e)) ∨
  (is_special kConfig (4096 * n) = true ∧ limit (vm_mach s') <= base e ∧ base e mod 4096 = 0).
Proof using Hw Hf Hc Hcfg.
  intros Hn He. pose proof (λ n, new_pages kConfig (vm_mach s) shared Hcfg c m1 n (fk_walk _ _ _ _ _ _ _ _ _ _ _ Hf)) as Hnew.
  assert (Hn' : 524288 <= n < 1048576) by (exact Hn).
  destruct (is_special kConfig (4096 * n)) eqn:Hsp; [right; split; [done|]|left].
  - assert (Hm : page m1 c n ≠ None) by (rewrite (Hnew n Hn'), Hsp; done).
    rewrite (cp_kept _ _ _ _ _ _ _ _ _ _ _ _ Hc) in He by (lia || auto).
    destruct (made_page Hcfg (fk_walk _ _ _ _ _ _ _ _ _ _ _ Hf) n e Hn He) as (_ & Hd & Hal).
    destruct (wd_devices _ _ _ Hw) as [Hd1 Hd2]. rewrite (proj1 (cp_steady _ _ _ _ _ _ _ _ _ _ _ _ Hc)).
    split; [|done]. by destruct Hd as [-> | ->].
  - destruct (child_frames kConfig lo fl (vm_mach s) pd c fl1 m1 fl' U K (vm_mach s') Hc Hnew) as (_ & _ & Hp).
    specialize (Hp n (conj Hn' Hsp)). destruct (page (vm_mach s) pd n); [|congruence].
    destruct Hp as (f & Hf1 & Hin & Hb & Hold & _). assert (e = f + 7) as -> by congruence. rewrite Hb.
    destruct (cp_user _ _ _ _ _ _ _ _ _ _ _ _ Hc n f Hin) as (_ & Hal & _ & Hne & Hnt & _).
    split; [done|]. split; [done|]. split; [done|]. intros (i & Hi & Ha & E). by apply (Hnt i).
Qed.

Lemma child_wf : alloc_wf lo fl' (vm_mach s') ∧ as_wf (allocated lo fl' (vm_mach s')) (ram (vm_mach s')) c.
Proof using Hc. split; apply Hc. Qed.

(** What was in use is outside of the child, if it is no shared file's. *)
Lemma child_outside q : allocated lo fl (vm_mach s) q → ¬ on_list s q → outside lo fl' s' c q.
Proof using Hw Hpd Hf Hc Hcfg.
  intros Ha Hl. destruct (forked_old _ _ _ _ _ _ _ _ _ _ _ Hf) as (Hwf & Hst & Hold).
  split.
  - by apply Hold.
  - intros ->. by apply (fk_new _ _ _ _ _ _ _ _ _ _ _ Hf).
  - intros (i & Hi & Hab & <-). by apply (cp_tables _ _ _ _ _ _ _ _ _ _ _ _ Hc i).
  - intros n e Hn He Eq. rewrite <- Eq in Ha. destruct (child_page n e Hn He) as [[? _]|(_ & Hd & _)]; [done|].
    destruct Hst as [El _]. rewrite El in Hd. by apply (device_free _ _ _ (wd_alloc _ _ _ Hw) Hd).
  - intros Hq. by apply Hl, child_list.
Qed.

(** The frames of a space are in use and not shared files'. *)
Lemma space_outside k : as_wf (allocated lo fl (vm_mach s)) (ram (vm_mach s)) k → ¬ on_list s k →
  (∀ i, 0 <= i < 1024 → absent (entry (ram (vm_mach s)) k i) = false →
     ¬ on_list s (base (entry (ram (vm_mach s)) k i))) →
  still fl s fl' s' k → apart lo fl' s' c k.
Proof using Hw Hpd Hf Hc Hcfg.
  intros Has Hk Ht Hs. split; [by apply child_outside; [apply Has|]|].
  intros i Hi Hab. rewrite (still_entry Hs) in Hab |- * by done. apply child_outside; [by apply Has|by apply Ht].
Qed.

Lemma process_unlisted k : k ∈ ps → ¬ on_list s k ∧
  ∀ i, 0 <= i < 1024 → absent (entry (ram (vm_mach s)) k i) = false →
     ¬ on_list s (base (entry (ram (vm_mach s)) k i)).
Proof using Hw.
  intros Hin. pose proof (wd_guarded _ _ _ Hw k Hin) as Hg. split.
  - intros Hl. by destruct (gd_node _ _ _ _ _ Hg _ Hl) as (_ & _ & ? & _).
  - intros i Hi Ha Hl. destruct (gd_node _ _ _ _ _ Hg _ Hl) as (_ & _ & _ & Hnt). apply Hnt. by exists i.
Qed.

Lemma kernel_unlisted : ¬ on_list s shared ∧
  ∀ i, 0 <= i < 1024 → absent (entry (ram (vm_mach s)) shared i) = false →
     ¬ on_list s (base (entry (ram (vm_mach s)) shared i)).
Proof using Hw Hpd.
  destruct (wd_kernel_apart _ _ _ Hw pd Hpd) as [Ho Ht]. split; [apply Ho|].
  intros i Hi Ha. by apply (os_node _ _ _ _ _ (Ht i Hi Ha)).
Qed.

Lemma child_guarded : guarded kConfig lo fl' s' c.
Proof using Hw Hpd Hf Hc Hcfg.
  destruct child_wf as [Hwf Has]. destruct (forked_old _ _ _ _ _ _ _ _ _ _ _ Hf) as (_ & _ & Hold). split.
  - done.
  - done.
  - intros n e Hn He. destruct (child_page n e Hn He) as [(_ & Ha & Hne & Hnt)|(_ & Hd & Hal)].
    + split; [by left|done].
    + pose proof (device_free _ _ _ Hwf Hd) as Hna.
      split; [by right|]. split; [intros E; apply Hna; rewrite E; apply Has|].
      intros (i & Hi & Hab & E). apply Hna. rewrite <- E. by apply Has.
  - intros n e [Hn Hsp] He. destruct (child_page n e Hn He) as [(_ & ? & _)|(E & _)]; [done|congruence].
  - rewrite (cp_kept _ _ _ _ _ _ _ _ _ _ _ _ Hc) by lia.
    by eapply made_zero; [done|apply (fk_walk _ _ _ _ _ _ _ _ _ _ _ Hf)|apply (wd_zero _ _ _ Hw)].
  - intros q Hq. destruct (child_list q Hq) as [Hl Ha]. split; [by apply Hold|]. split; [left; by apply Hold|].
    split; [intros ->; by apply (fk_new _ _ _ _ _ _ _ _ _ _ _ Hf)|].
    intros (i & Hi & Hab & E). destruct (child_table i Hi Hab) as [[_ Hn]|[Hs E']]; [by rewrite E in Hn|].
    destruct kernel_unlisted as [_ Ht]. apply (Ht i Hi Hs). by rewrite <- E', E.
Qed.

Lemma apart_child k : k ∈ ps → apart lo fl' s' k c.
Proof using Hw Hpd Hf Hc.
  intros Hin. pose proof (child_still k Hin) as Hs. pose proof (wd_guarded _ _ _ Hw k Hin) as Hg.
  destruct child_wf as [_ Has].
  assert (Hfr : ∀ q, ¬ allocated lo fl (vm_mach s) q → allocated lo fl' (vm_mach s') q → outside lo fl' s' k q).
  { intros q Hn Ha. apply (still_fresh Hs Hg); [done|done|]. intros Hl. by apply Hn, child_list. }
  split; [apply Hfr; [apply (fk_new _ _ _ _ _ _ _ _ _ _ _ Hf)|apply Has]|].
  intros i Hi Ha. destruct (child_table i Hi Ha) as [[_ Hn]|[Hs' E]]; [apply Hfr; [done|by apply Has]|].
  rewrite E. apply (still_outside Hs). by apply (wd_kernel_apart _ _ _ Hw k Hin).
Qed.

End Child.

Lemma world_fork fl s ps pd c fl' m1 U s' :
  world fl s ps → pd ∈ ps → config_ok kConfig → forked kConfig lo fl s shared pd c fl' m1 U s' →
  world fl' s' (c :: ps).
Proof.
  intros Hw Hpd Hcfg Hf. pose proof (fk_copied _ _ _ _ _ _ _ _ _ _ _ Hf) as (fl1 & K & Hc).
  pose proof (world_step _ _ _ _ _ _ Hw Hpd (fork_keeps _ _ _ _ _ _ _ _ _ _ _ (wd_guarded _ _ _ Hw pd Hpd) Hf)) as Hw'.
  assert (Hcn : c ∉ ps).
  { intros Hin. by apply (fk_new _ _ _ _ _ _ _ _ _ _ _ Hf), (gd_as _ _ _ _ _ (wd_guarded _ _ _ Hw c Hin)). }
  pose proof (λ k, child_still Hw Hpd Hf k) as Hst.
  assert (Hca : ∀ k, k ∈ ps → apart lo fl' s' c k).
  { intros k Hin. destruct (process_unlisted Hw k Hin) as [H1 H2].
    apply (space_outside Hw Hpd Hcfg Hf Hc); [apply (gd_as _ _ _ _ _ (wd_guarded _ _ _ Hw k Hin))|done|done|by apply Hst]. }
  split.
  - apply (wd_alloc _ _ _ Hw').
  - intros k [->|Hin]%elem_of_cons; [exact (child_guarded Hw Hpd Hcfg Hf Hc)|by apply (wd_guarded _ _ _ Hw')].
  - intros a b [->|Ha]%elem_of_cons [->|Hb]%elem_of_cons Hne;
      [done|by apply Hca|by apply (apart_child Hw Hpd Hf Hc)|by apply (wd_apart _ _ _ Hw')].
  - intros a b n e [->|Ha]%elem_of_cons [->|Hb]%elem_of_cons Hne Hn He; [done| | |by apply (wd_pages _ _ _ Hw' a b n)].
    + rewrite (still_page (Hst b Hb)) in He by (destruct Hn; lia).
      destruct (gd_page _ _ _ _ _ (wd_guarded _ _ _ Hw b Hb) n e Hn He) as ([Ha|[Hd _]] & _).
      * destruct (decide (noded s (base e))) as [Hnd|Hnd]; [right; left; by apply (Hst b Hb)|left].
        apply (child_outside Hw Hpd Hcfg Hf Hc); [done|]. intros Hl. by apply Hnd, on_list_noded.
      * right; right. by rewrite (proj1 (sl_steady _ _ _ _ _ (Hst b Hb))).
    + destruct (child_page Hw Hcfg Hf Hc n e Hn He) as [(Hnew & Hal & _)|(_ & Hd & _)]; [|by right; right].
      by apply (still_fresh_proper (Hst a Ha) (wd_guarded _ _ _ Hw a Ha)).
  - apply (wd_kernel _ _ _ Hw').
  - intros k [->|Hin]%elem_of_cons; [|by apply (wd_kernel_apart _ _ _ Hw')].
    destruct (kernel_unlisted Hw Hpd) as [H1 H2].
    apply (space_outside Hw Hpd Hcfg Hf Hc); [apply (wd_kernel _ _ _ Hw)|done|done|].
    eapply keeps_still; [|by apply (wd_kernel_apart _ _ _ Hw pd)].
    eapply fork_keeps; [by apply (wd_guarded _ _ _ Hw)|done].
  - apply (wd_zero _ _ _ Hw').
  - apply (wd_devices _ _ _ Hw').
Qed.

(** The first process, in a space that [make_pd] has just made. *)
Lemma first_world fl s fl' s' pd :
  new_space lo fl s fl' s' pd → as_wf (allocated lo fl s) (ram s) shared → page s shared 0 = None →
  (∀ va, is_u32 va → walk (ram s') pd va =
     if va / 4194304 <? (memSize kConfig + 4194303) / 4194304 then walk (ram s) shared va
     else if va / 4096 =? ioAPIC kConfig / 4096 then Some (ioAPIC kConfig + 3)
     else if va / 4096 =? localAPIC kConfig / 4096 then Some (localAPIC kConfig + 3)
     else None) →
  config_ok kConfig → limit s <= 2147483648 → world fl' (MkVmm (F := F) s' ∅ None) [pd].
Proof.
  intros [Hwf Has Hnew Hold Htab _ [Hl _]] Hsh H0 Hwalk Hcfg Hlim.
  assert (Hdev : limit s' <= ioAPIC kConfig ∧ limit s' <= localAPIC kConfig).
  { destruct Hcfg as [_ (_ & _ & ?) (_ & _ & ?) _]. rewrite Hl. lia. }
  assert (Hnl : ∀ q, ¬ on_list (MkVmm (F := F) s' ∅ None) q).
  { intros q (l & n & _ & E & _). cbn [nodes] in E. by rewrite lookup_empty in E. }
  assert (Hpg : ∀ n e, high n → page s' pd n = Some e →
    is_special kConfig (4096 * n) = true ∧ limit s' <= base e ∧ base e mod 4096 = 0).
  { intros n e Hn He. destruct (made_page Hcfg Hwalk n e Hn He) as (? & [E|E] & ?); rewrite E in *; tauto. }
  assert (Hsame : same_frame s s' shared) by apply Hold, Hsh.
  assert (Hout : ∀ q, allocated lo fl s q → outside lo fl' (MkVmm (F := F) s' ∅ None) pd q).
  { intros q Hq. split; [by apply Hold|by intros ->|..|done].
    - intros (i & Hi & Ha & <-). by apply (Htab i).
    - intros n e Hn He Eq. apply (device_free fl' s' q); [done| |by apply Hold].
      rewrite <- Eq. by eapply Hpg. }
  split; cbn [vm_mach].
  - done.
  - intros k ->%list_elem_of_singleton. split; cbn [vm_mach]; [done|done|..|by intros q ?%Hnl].
    + intros n e Hn He. destruct (Hpg n e Hn He) as (_ & Hd & Hal).
      pose proof (device_free _ _ _ Hwf Hd) as Hna. split; [by right|].
      split; [intros E; apply Hna; rewrite E; apply Has|].
      intros (i & Hi & Ha & E). apply Hna. rewrite <- E. by apply Has.
    + intros n e [Hn Hsp] He. destruct (Hpg n e Hn He) as [E _]. congruence.
    + by eapply made_zero.
  - by intros a b ->%list_elem_of_singleton ->%list_elem_of_singleton.
  - by intros a b n e ->%list_elem_of_singleton ->%list_elem_of_singleton.
  - eapply as_wf_agree; [|exact Hsame|exact Hsh]. intros q Hq. by apply Hold.
  - intros k ->%list_elem_of_singleton. split; [by apply Hout, Hsh|].
    intros i Hi. cbn [vm_mach]. rewrite (entry_agree (ram s)) by done. intros Ha. by apply Hout, Hsh.
  - unfold page. rewrite (walk_agree (ram s)); [exact H0|done|exact Hsame|].
    intros Ha. apply Hold, Hsh; [by apply pdi_range|done].
  - done.
Qed.

End World.

(** ** Steps of the machine *)

Section Steps.
Context {D : Type} `{BlockIO D} (kConfig : Config) (root_fs : Ext2 D) (root : Node D).
Context (shared new_stack : Z) (max_len : nat).
Context (garbage : list (@VMEntry (Node D)) → option loc) (beyond : nat → nat → Z).

Abbreviation Memory := (@vmm (Node D)).
Abbreviation handler := (sysHandler kConfig root_fs root shared new_stack max_len garbage beyond).

(** The process with the directory [pd] makes a system call, loads a byte or stores
    one in the user's half, whether it goes on or ends because of the access. The
    directory of the child, which [fork] gives a thread, joins the others. *)
Inductive takes : Z → Memory * list Z → Memory * list Z → Prop :=
| step_call n pc esp r (x x' : @sys D) ps :
    Process.pd (process x) ∈ ps → n ≠ 2 → n ≠ 9 → n ≠ 15 → handler n pc esp x = Ret (r, x') →
    takes (Process.pd (process x)) (svmm x, ps) (svmm x', ps)
| step_fork pc esp r (x x' : @sys D) ps t e :
    Process.pd (process x) ∈ ps → handler 2 pc esp x = Ret (r, x') →
    starts x !! t = None → starts x' !! t = Some e →
    takes (Process.pd (process x)) (svmm x, ps) (svmm x', Process.pd (ep_process e) :: ps)
| step_load pd va es r (s : Memory) u ps :
    pd ∈ ps → user_ld8 pd va (MkUstate es s) = Ret (r, u) → takes pd (s, ps) (uvmm u, ps)
| step_store pd va v es r (s : Memory) u ps :
    pd ∈ ps → 2147483648 <= u32 va → user_st8 pd va v (MkUstate es s) = Ret (r, u) →
    takes pd (s, ps) (uvmm u, ps).

(** Steps of the processes [L], in this order. *)
Inductive runs : list Z → Memory * list Z → Memory * list Z → Prop :=
| runs_none w : runs [] w w
| runs_step pd L w w1 w' : takes pd w w1 → runs L w1 w' → runs (pd :: L) w w'.

Context `{!Fits D} (lo : Z) (Hcfg : config_ok kConfig).

#[local] Instance node_fits : @Fits (Node D) (@file_io _ Node_file) := Node_fits.

Abbreviation World := (world kConfig lo shared).

Lemma access_keeps {A} (m : prog (@ustate (Node D)) A) pd fl (s : Memory) es r u (Q : A → ustate → Prop) :
  guarded kConfig lo fl s pd →
  (∀ u, safe_in kConfig lo fl s pd (λ _, True) u → ends (safe_in kConfig lo fl s pd (λ _, True)) m u Q) →
  (∀ a u, Q a u → safe_in kConfig lo fl s pd (λ _, True) u) →
  m (MkUstate es s) = Ret (r, u) → ∃ fl', keeps kConfig lo fl s fl' (uvmm u) pd.
Proof.
  intros Hg Hm HQ E. apply Hm in E; [|split; [by apply safe_refl|done]].
  destruct r as [a|]; [apply HQ in E|]; apply E.
Qed.

(** Each step is one of [keeps] for the process. *)
Lemma step_world pd fl w w' :
  World fl (fst w) (snd w) → takes pd w w' →
  pd ∈ snd w ∧ (∀ k, k ∈ snd w → k ∈ snd w') ∧
  ∃ fl', keeps kConfig lo fl (fst w) fl' (fst w') pd ∧ World fl' (fst w') (snd w').
Proof using Hcfg Fits0.
  intros Hw Hs. destruct Hs as [n pc esp r x x' ps Hin H2 H9 H15 E|pc esp r x x' ps t e Hin E Ht He
    |pd va es r s u ps Hin E|pd va v es r s u ps Hin Hh E]; cbn [fst snd] in *;
    (split; [done|]); pose proof (wd_guarded _ _ _ _ _ _ Hw _ Hin) as Hg;
    [|split; [by intros k Hk; apply elem_of_cons; right|]|..].
  1: destruct (handler_safe _ _ _ _ _ _ _ _ lo fl n pc esp x x' r Hg (wd_kernel _ _ _ _ _ _ Hw) Hcfg H9 H15 E)
    as [_ (fl' & Hk)].
  2: {
    destruct (handler_fork _ _ _ _ _ _ _ _ _ _ _ _ _ E) as (c & id & p & v & o & t' & Ef & <- & Es).
    rewrite Es in He. destruct (decide (t' = t)) as [->|Hne];
      [|by rewrite lookup_insert_ne, Ht in He by done].
    rewrite lookup_insert_eq in He. injection He as <-. cbn [ep_process].
    destruct (fork_inv kConfig lo fl _ _ shared _ _ _ _ _ _ Hg (wd_kernel _ _ _ _ _ _ Hw) Hcfg Ef)
      as (_ & _ & fl' & m1 & U & Hf).
    exists fl'. split; [by eapply fork_keeps|by eapply world_fork]. }
  2: destruct (access_keeps _ pd fl s es r u (λ _, safe_in kConfig lo fl s pd (λ _, True)) Hg
    (λ u Hu, ld8_safe kConfig lo (Hfits := node_fits) fl s pd (λ _, True) (λ _ _ _ _ Hx, Hx) va u Hu) (λ _ _ Hx, Hx) E)
    as (fl' & Hk).
  3: destruct (access_keeps _ pd fl s es r u _ Hg
    (λ u Hu, st8_safe kConfig lo (Hfits := node_fits) fl s pd (λ _, True) (λ _ _ _ _ Hx, Hx) va v u Hu (or_introl Hh))
    (λ _ _ Hx, proj1 Hx) E) as (fl' & Hk).
  all: split; [done|]; exists fl'; split; [done|]; by eapply world_step.
Qed.

(** A page that another process can not change: not the frame of a shared file or
    registers. *)
Definition private_to (s : Memory) (pd va : Z) : Prop :=
  ∀ e, page (vm_mach s) pd (va / 4096) = Some e → ¬ noded s (base e) ∧ base e < limit (vm_mach s).

(** ** Property *)


End Steps.

(** ** A machine whose spaces are empty *)

Definition vacant (m : mach) (pd : Z) : Prop := ∀ i, 0 <= i < 1024 → absent (entry (ram m) pd i) = true.

Lemma vacant_page m pd n : vacant m pd → 0 <= n < 1048576 → page m pd n = None.
Proof.
  intros Hv Hn. unfold page, walk. by rewrite Hv by (by apply pdi_range, page_u32).
Qed.

Lemma vacant_agree m m' pd : vacant m pd → same_frame m m' pd → vacant m' pd.
Proof. intros Hv Hs i Hi. rewrite (entry_agree (ram m)); [by apply Hv|exact Hs|done]. Qed.

Lemma vacant_world {F} `{FileNode F} kConfig lo fl (s : @vmm F) ps shared :
  alloc_wf lo fl (vm_mach s) → nodes s = ∅ → shared ∉ ps →
  (∀ pd, pd ∈ shared :: ps → allocated lo fl (vm_mach s) pd ∧ vacant (vm_mach s) pd) →
  limit (vm_mach s) <= ioAPIC kConfig ∧ limit (vm_mach s) <= localAPIC kConfig → world kConfig lo shared fl s ps.
Proof.
  intros Hwf Hn Hsh Hall Hd.
  assert (Hl : ∀ q, ¬ on_list s q) by (intros q (l & n & _ & E & _); by rewrite Hn, lookup_empty in E).
  assert (Hpg : ∀ pd n, pd ∈ shared :: ps → 0 <= n < 1048576 → page (vm_mach s) pd n = None).
  { intros pd n Hin. by apply vacant_page, Hall. }
  assert (Has : ∀ pd, pd ∈ shared :: ps → as_wf (allocated lo fl (vm_mach s)) (ram (vm_mach s)) pd).
  { intros pd Hin. destruct (Hall pd Hin) as [Ha Hv].
    split; [done|intros i Hi E|intros i j Hi _ _ E]; by rewrite Hv in E. }
  assert (Hap : ∀ a b, a ∈ shared :: ps → b ∈ shared :: ps → b ≠ a → apart lo fl s a b).
  { intros a b Ha Hb Hne. split; [|intros i Hi E; by rewrite (proj2 (Hall b Hb)) in E].
    split; [by apply Hall|done| | |done].
    - intros (i & Hi & E & _). rewrite (proj2 (Hall a Ha)) in E by lia. done.
    - intros n e [] E. by rewrite Hpg in E by (done || lia). }
  assert (Hin : ∀ pd, pd ∈ ps → pd ∈ shared :: ps) by (intros; by apply elem_of_cons; right).
  assert (H0 : shared ∈ shared :: ps) by (apply elem_of_cons; by left).
  split; [done|..|by apply Has| | |done].
  - intros pd Hp. split; [done|by auto|..|by intros q ?%Hl].
    + intros n e [] E. by rewrite Hpg in E by (auto || lia).
    + intros n e [[] _] E. by rewrite Hpg in E by (auto || lia).
    + by apply Hpg; [auto|].
  - intros a b Ha Hb Hne. by apply Hap; [auto..|apply not_eq_sym].
  - intros a b n e Ha Hb _ [] E. by rewrite Hpg in E by (auto || lia).
  - intros a Ha. apply Hap; [auto..|]. by intros ->.
  - by apply Hpg.
Qed.

(** ** Witness: one process stores a byte, then the other one makes calls *)

Definition dmw : mach := snd (run (0, demo_mach) (alloc_frame dm2)).

Lemma dmw_post : alloc_post 6291456 [] dm2 6299648 [] dmw.
Proof.
  destruct (alloc_frame_bump 6291456 dm2 (ap_wf _ _ _ _ _ _ dm2_post)) as (s' & E & H);
    [by vm_compute|].
  assert (alloc_frame dm2 = Ret (6299648, dmw)) as E' by reflexivity.
  change (avail dm2) with 6299648 in *. rewrite E' in E. by injection E as <-.
Qed.

Definition demo_world : @vmm (Node ByteDevice) := MkVmm dmw ∅ None.

Lemma demo_world_ok : world demo_config 6291456 6299648 [] demo_world [6291456; 6295552].
Proof.
  apply vacant_world; [apply (ap_wf _ _ _ _ _ _ dmw_post)|done|set_solver by lia| |done].
  destruct (empty_space _ _ _ _ _ _ dm1_post) as (_ & Ha & _).
  destruct (empty_space _ _ _ _ _ _ dm2_post) as (_ & Hb & _).
  destruct (empty_space _ _ _ _ _ _ dmw_post) as (_ & Hc & _).
  intros pd [->|[->|[->|?%not_elem_of_nil]%elem_of_cons]%elem_of_cons]%elem_of_cons; [| | |done]; cbn [vm_mach demo_world].
  - split; [by apply (ap_alloc _ _ _ _ _ _ dmw_post); left|exact Hc].
  - split; [apply (ap_alloc _ _ _ _ _ _ dmw_post); right; by apply (ap_alloc _ _ _ _ _ _ dm2_post); right; apply (ap_alloc _ _ _ _ _ _ dm1_post); left|].
    apply (vacant_agree dm2); [|apply (ap_frame _ _ _ _ _ _ dmw_post); lia].
    apply (vacant_agree dm1); [exact Ha|apply (ap_frame _ _ _ _ _ _ dm2_post); lia].
  - split; [apply (ap_alloc _ _ _ _ _ _ dmw_post); right; by apply (ap_alloc _ _ _ _ _ _ dm2_post); left|].
    apply (vacant_agree dm2); [exact Hb|apply (ap_frame _ _ _ _ _ _ dmw_post); lia].
Qed.

(** The second process stores 65 at 0x80001000. *)
Definition demo_stored : @ustate (Node ByteDevice) :=
  snd (run (None, MkUstate [] demo_world) (user_st8 6295552 0x80001000 65 (MkUstate [demo_data] demo_world))).

(** The first one makes a semaphore, which reads its stack, and stores 66 at the
    same address. *)
Definition demo_caller : @sys ByteDevice :=
  MkSys (set_entry_list [demo_data] (MkProcess (Some 7%nat :: replicate 9 None) (replicate 10 None)
      (replicate 10 None) (replicate 10 None) 1%nat 2%nat 6291456 []))
    1 0 (uvmm demo_stored) demo_objects {[7%nat := U8250File]} (Console [] []) demo_run ∅.

Abbreviation demo_handler := (sysHandler demo_config demo_fs demo_dir_node 6299648 8192 16 (λ _, None) (λ _ _, 0)).

Definition demo_called : call * @sys ByteDevice :=
  run (Stopped, demo_caller) (demo_handler 3 0x400000 0x80001000 demo_caller).

Definition demo_last : option unit * @ustate (Node ByteDevice) :=
  run (None, demo_stored) (user_st8 6291456 0x80001000 66 (MkUstate [demo_data] (svmm (snd demo_called)))).

Example demo_world_runs :
  (fst demo_called, fst demo_last) = (Returns 536870912, Some tt) ∧
  (view (uvmm demo_stored) 6295552 0x80001000, view (uvmm (snd demo_last)) 6291456 0x80001000) = (65, 66).
Proof. vm_compute. done. Qed.

Lemma demo_stored_eq :
  user_st8 6295552 0x80001000 65 (MkUstate [demo_data] demo_world) = Ret (Some tt, demo_stored).
Proof.
  assert (E : (r ← user_st8 6295552 0x80001000 65 (MkUstate [demo_data] demo_world); Ret (fst r)) = Ret (Some tt))
    by (vm_compute; reflexivity).
  unfold demo_stored. destruct (user_st8 _ _ _ _) as [[a u]| | |]; try discriminate E.
  injection E as ->. done.
Qed.

Lemma demo_called_eq : demo_handler 3 0x400000 0x80001000 demo_caller = Ret demo_called.
Proof.
  assert (E : (c ← demo_handler 3 0x400000 0x80001000 demo_caller; Ret (fst c)) = Ret (Returns 536870912))
    by (vm_compute; reflexivity).
  unfold demo_called. destruct (demo_handler _ _ _ _) as [[a u]| | |]; try discriminate E. done.
Qed.

Lemma demo_last_eq :
  user_st8 6291456 0x80001000 66 (MkUstate [demo_data] (svmm (snd demo_called))) = Ret demo_last.
Proof.
  assert (E : (r ← user_st8 6291456 0x80001000 66 (MkUstate [demo_data] (svmm (snd demo_called))); Ret (fst r)) =
    Ret (Some tt)) by (vm_compute; reflexivity).
  unfold demo_last. destruct (user_st8 _ _ _ _) as [[a u]| | |]; try discriminate E. done.
Qed.

Abbreviation demo_runs := (runs demo_config demo_fs demo_dir_node 6299648 8192 16 (λ _, None) (λ _ _, 0)).

Lemma demo_first : demo_runs [6295552] (demo_world, [6291456; 6295552]) (uvmm demo_stored, [6291456; 6295552]).
Proof.
  eapply runs_step; [|apply runs_none].
  apply (step_store _ _ _ _ _ _ _ _ 6295552 0x80001000 65 [demo_data] (Some tt)); [set_solver| |exact demo_stored_eq].
  by vm_compute.
Qed.

Lemma demo_second : demo_runs [6291456; 6291456] (uvmm demo_stored, [6291456; 6295552])
  (uvmm (snd demo_last), [6291456; 6295552]).
Proof.
  eapply runs_step; [|eapply runs_step; [|apply runs_none]].
  - apply (step_call _ _ _ _ _ _ _ _ 3 0x400000 0x80001000 (fst demo_called) demo_caller (snd demo_called));
      [set_solver|done..|]. rewrite <- surjective_pairing. exact demo_called_eq.
  - apply (step_store _ _ _ _ _ _ _ _ 6291456 0x80001000 66 [demo_data] (fst demo_last)); [set_solver|by vm_compute|].
    rewrite <- surjective_pairing. exact demo_last_eq.
Qed.

Lemma demo_unshared : private_to (uvmm demo_stored) 6295552 0x80001000.
Proof.
  intros e E.
  assert (En : nodes (uvmm demo_stored) = ∅) by (vm_compute; reflexivity).
  assert (Hlt : match page (umach demo_stored) 6295552 (0x80001000 / 4096) with
    Some e => base e <? limit (umach demo_stored) | None => true end = true) by (vm_compute; reflexivity).
  unfold umach in Hlt. rewrite E in Hlt. split; [|by apply Z.ltb_lt].
  intros (l & n & Hl & _). by rewrite En, lookup_empty in Hl.
Qed.

Lemma demo_in : 6295552 ∈ [6291456; 6295552].
Proof. set_solver. Qed.

Lemma demo_not : 6295552 ∉ [6291456; 6291456].
Proof. set_solver by lia. Qed.

Lemma demo_high : is_u32 0x80001000 ∧ 2147483648 <= 0x80001000.
Proof. split; [by unfold is_u32|done]. Qed.

