(* ===== verification/Guards.v ===== *)
(** * Guards and atomic pointers: src/kernel/atomic.h

    The classes of atomic.h that wrap others: [Interrupts::protect] around a
    piece of work, [LockGuard] and [LockGuardP] around anything with [lock] and
    [unlock], and [AtomicPtr], the operations of [Atomic] on a word of memory.
    File Locks has the locks themselves. *)

From S2P Require Import Prelude Mem Locks.
Local Open Scope Z_scope.

(** ** class Interrupts *)

(** [protect(work)]: the state of the processor is its flag, set when interrupts
    are disabled, and what the work changes. *)
Definition protect {S A} (work : bool → S → outcome (A * bool * S)) (disabled : bool) (s : S) :
    outcome (A * bool * S) :=
  let '(was, disabled) := disable disabled in
  '(a, disabled, s) ← work disabled s;
  Ret (a, restore was disabled, s).

(** [getFlags] as the processor has it: bit 9 is the interrupt flag. *)
Definition isDisabled (flags : Z) : bool := Z.land flags 0x200 =? 0.

(** ** Guards *)

(** What a guard needs of a lock of type [T], which changes the state [S]. *)
Class Lockable (T S : Type) := {
  lock : T → S → outcome S;
  unlock : T → S → outcome S;
}.

Section Guards.
Context {T S : Type} `{Lockable T S}.

(** [{ LockGuard g{it}; work }] *)
Definition LockGuard {A} (it : T) (work : S → outcome (A * S)) (s : S) : outcome (A * S) :=
  s ← lock it s;
  '(a, s) ← work s;
  s ← unlock it s;
  Ret (a, s).

(** [{ LockGuardP g{it}; work }], for a pointer that may be null. *)
Definition LockGuardP {A} (it : option T) (work : S → outcome (A * S)) (s : S) : outcome (A * S) :=
  s ← match it with Some it => lock it s | None => Ret s end;
  '(a, s) ← work s;
  s ← match it with Some it => unlock it s | None => Ret s end;
  Ret (a, s).

End Guards.

(** [NoLock], for queues that the caller protects. *)
Inductive NoLock := MkNoLock.

#[export] Instance NoLock_lockable S : Lockable NoLock S := {|
  lock _ s := Ret s;
  unlock _ s := Ret s;
|}.

(** A spinning lock that nobody else uses: [lock] would spin for ever when it is
    taken. The state is the locks by their addresses. *)
Inductive SpinLock := MkSpinLock (address : nat).

#[export] Instance SpinLock_lockable : Lockable SpinLock (gmap nat bool) := {|
  lock '(MkSpinLock l) taken :=
    t ← deref (taken !! l);
    let '(old, new) := Atomic.exchange true t in
    if old : bool then OutOfFuel else Ret (<[l := new]> taken);
  unlock '(MkSpinLock l) taken :=
    _ ← deref (taken !! l);
    Ret (<[l := false]> taken);
|}.

(** ** class AtomicPtr<uint32_t> *)

Module AtomicPtr.
Definition set (ptr v : Z) (m : mem) : mem := st32 m ptr v.
Definition get (ptr : Z) (m : mem) : Z := ld32 m ptr.

(** The pointer is to a word that [Atomic]'s operation replaces. *)
Definition on_word (op : Z → Z * Z) (ptr : Z) (m : mem) : Z * mem :=
  let '(r, v) := op (ld32 m ptr) in (r, st32 m ptr v).

Definition fetch_add (inc : Z) : Z → mem → Z * mem := on_word (Atomic.fetch_add u32 inc).
Definition add_fetch (inc : Z) : Z → mem → Z * mem := on_word (Atomic.add_fetch u32 inc).
Definition exchange (v : Z) : Z → mem → Z * mem := on_word (Atomic.exchange v).
End AtomicPtr.

(** ** Lemmas *)

(** Protected work starts with interrupts disabled, and whatever it is, the flag
    is afterwards as it was before, unless it was clear and the work left it so. *)
Lemma protect_restores {S A} (work : bool → S → outcome (A * bool * S)) d s a d' s' :
  protect work d s = Ret (a, d', s') →
  ∃ d1, work true s = Ret (a, d1, s') ∧ d' = (if d then d1 else false).
Proof.
  unfold protect, disable. destruct (work true s) as [[[a1 d1] s1]| | |]; try done.
  cbn [mbind outcome_bind]. intros [= <- <- <-]. exists d1. by destruct d.
Qed.

Lemma protect_nested {S A} (work : bool → S → outcome (A * bool * S)) d s :
  protect (protect work) d s = protect work d s.
Proof.
  unfold protect, disable. destruct (work true s) as [[[a1 d1] s1]| | |]; [|done..].
  cbn [mbind outcome_bind]. by destruct d.
Qed.

Lemma NoLock_guard {S A} (work : S → outcome (A * S)) s : LockGuard MkNoLock work s = work s.
Proof. unfold LockGuard. cbn. by destruct (work s) as [[a s']| | |]. Qed.

Lemma null_guard {A} (work : gmap nat bool → outcome (A * gmap nat bool)) s :
  LockGuardP (T := SpinLock) None work s = work s.
Proof. unfold LockGuardP. cbn. by destruct (work s) as [[a s']| | |]. Qed.

(** The guard of a free lock runs the work with the lock taken and frees it; that of
    a lock that the thread has already taken never returns. *)
Lemma spin_guard {A} l (work : gmap nat bool → outcome (A * gmap nat bool)) s :
  (s !! l = Some false → ∀ a s', work (<[l := true]> s) = Ret (a, s') → is_Some (s' !! l) →
     LockGuard (MkSpinLock l) work s = Ret (a, <[l := false]> s')) ∧
  (s !! l = Some true → LockGuard (MkSpinLock l) work s = OutOfFuel).
Proof.
  unfold LockGuard. split.
  - intros Hl a s' E [b Hs]. cbn. rewrite Hl. cbn. rewrite E. cbn. by rewrite Hs.
  - intros Hl. cbn. by rewrite Hl.
Qed.

(** [add_fetch] returns what it stores, [fetch_add] what it found; both store the
    same word, and only that one. *)
Lemma add_word ptr inc m a : a + 4 <= ptr ∨ ptr + 4 <= a →
  let '(old, m1) := AtomicPtr.fetch_add inc ptr m in
  let '(new, m2) := AtomicPtr.add_fetch inc ptr m in
  m1 = m2 ∧ old = ld32 m ptr ∧ new = u32 (old + inc) ∧ AtomicPtr.get ptr m2 = new ∧ ld32 m2 a = ld32 m a.
Proof.
  intros Ha. cbn. split; [done|]. split; [done|]. split; [done|]. split.
  - unfold AtomicPtr.get. rewrite ld32_st32_eq. unfold u32. by rewrite Zmod_mod.
  - apply ld32_st32_ne. lia.
Qed.
