(* ===== verification/Smp.v ===== *)
(** * Interrupt vectors and local controllers: src/kernel/idt.cc, smp.cc, smp.h

    What the processors are told during the start: the gates of the interrupt
    table, and the registers of their local interrupt controllers. The lemmas
    say how the processor reads the gates and which interrupts [ipi] sends. *)

From S2P Require Import Prelude Mem Config.
Local Open Scope Z_scope.

(** ** The interrupt table *)

(** [idt], an array of words; a gate is two of them. *)
Definition table : Type := Z → Z.

Definition store (i v : Z) (t : table) : table := λ j, if j =? i then v else t j.

Definition interrupt (kernelCS index handler : Z) (idt : table) : table :=
  let i0 := 2 * index in
  let i1 := i0 + 1 in
  let idt := store i0 (u32 (u32 (Z.shiftl kernelCS 16) + Z.land handler 0xffff)) idt in
  store i1 (Z.lor (Z.land handler 0xffff0000) 0x8e00) idt.

Definition trap (kernelCS index handler dpl : Z) (idt : table) : table :=
  let i0 := 2 * index in
  let i1 := i0 + 1 in
  let idt := store i0 (u32 (u32 (Z.shiftl kernelCS 16) + Z.land handler 0xffff)) idt in
  store i1 (Z.lor (Z.lor (Z.land handler 0xffff0000) 0x8f00) (u32 (Z.shiftl dpl 13))) idt.

(** ** The local controller

    [SMP::init] sets pointers to registers; a register is written and read
    through the memory [mmio]. *)

Record registers := MkRegisters {
  id : Z; eoi_reg : Z; spurious : Z; icr_low : Z; icr_high : Z; apit_lvt_timer : Z;
  apit_initial_count : Z; apit_current_count : Z; apit_divide : Z;
}.

Definition register_list (r : registers) : list Z :=
  [id r; eoi_reg r; spurious r; icr_low r; icr_high r; apit_lvt_timer r; apit_initial_count r;
   apit_current_count r; apit_divide r].

(** What a processor sees and does: the registers, the interrupt table, its
    register [MSR] and the bytes it sent to ports. *)
Record smp := MkSmp {
  regs : registers;
  mmio : table;
  idt : table;
  apic_base : Z;
  sent : list (Z * Z);
}.

Definition ENABLE : Z := Z.shiftl 1 11.
Definition MSR : Z := 0x1b.

Definition set_reg (r v : Z) (s : smp) : smp := MkSmp (regs s) (store r v (mmio s)) (idt s) (apic_base s) (sent s).

Definition outb (port v : Z) (s : smp) : smp :=
  MkSmp (regs s) (mmio s) (idt s) (apic_base s) (sent s ++ [(port, v)]).

Definition registers_at (base : Z) : registers :=
  MkRegisters (u32 (base + 0x20)) (u32 (base + 0xb0)) (u32 (base + 0xf0)) (u32 (base + 0x300))
    (u32 (base + 0x310)) (u32 (base + 0x320)) (u32 (base + 0x380)) (u32 (base + 0x390)) (u32 (base + 0x3e0)).

(** [SMP::init]; [spuriousHandler] is an address of machine.S. *)
Definition init (kConfig : Config) (kernelCS spuriousHandler : Z) (isFirst : bool) (s : smp) : smp :=
  let s :=
    if isFirst then
      MkSmp (registers_at (localAPIC kConfig)) (mmio s) (interrupt kernelCS 0xff spuriousHandler (idt s))
        (apic_base s) (sent s)
    else s in
  let s := outb 0x21 0xff s in
  let s := outb 0xa1 0xff s in
  let s := MkSmp (regs s) (mmio s) (idt s) (Z.lor (apic_base s) ENABLE) (sent s) in
  set_reg (spurious (regs s)) 0x1ff s.

Definition me (s : smp) : Z := Z.shiftr (mmio s (id (regs s))) 24.

Definition eoi (s : smp) : smp := set_reg (eoi_reg (regs s)) 0 s.

(** [while (icr_low.get() & (1 << 12));], for the values that the register shows. *)
Fixpoint wait_sent (reads : list Z) : outcome unit :=
  match reads with
  | [] => OutOfFuel
  | v :: reads => if Z.land v (Z.shiftl 1 12) =? 0 then Ret tt else wait_sent reads
  end.

Definition ipi (id num : Z) (reads : list Z) (s : smp) : outcome smp :=
  let s := set_reg (icr_high (regs s)) (u32 (Z.shiftl id 24)) s in
  let s := set_reg (icr_low (regs s)) num s in
  _ ← wait_sent reads;
  Ret s.

(** The two interrupts that start processor [id] at [resetEIP]. *)
Definition start_processor (id resetEIP : Z) (reads1 reads2 : list Z) (s : smp) : outcome smp :=
  s ← ipi id 0x4500 reads1 s;
  ipi id (Z.lor 0x4600 (Z.shiftr resetEIP 12)) reads2 s.

(** The gates that the first processor sets up, in the order of [kernelInit]: in
    [PhysMem::init], [SYS::init], [SMP::init] and [Pit::calibrate]. *)
Definition boot_gates (kernelCS pageFault sys spurious apit APIT_vector : Z) (idt : table) : table :=
  let idt := trap kernelCS 14 pageFault 3 idt in
  let idt := trap kernelCS 48 sys 3 idt in
  let idt := interrupt kernelCS 0xff spurious idt in
  interrupt kernelCS APIT_vector apit idt.

(** ** Specification: how a processor reads a gate *)

Record gate := MkGate { selector : Z; target : Z; present : bool; privilege : Z; kind : Z }.

Definition gate_at (t : table) (index : Z) : gate :=
  let w0 := t (2 * index) in
  let w1 := t (2 * index + 1) in
  MkGate (w0 / 65536) (w0 mod 65536 + 65536 * (w1 / 65536)) (Z.testbit w1 15) (w1 / 8192 mod 4) (w1 / 256 mod 16).

(** The two kinds: an interrupt gate switches interrupts off, a trap gate does not. *)
Definition INTERRUPT_GATE : Z := 14.
Definition TRAP_GATE : Z := 15.

(** ** Lemmas *)

Lemma high_half h x : is_u32 h → 0 <= x < 65536 → Z.lor (Z.land h 0xffff0000) x = 65536 * (h / 65536) + x.
Proof.
  intros Hh Hx. assert (Z.land h 0xffff0000 = 65536 * (h / 65536)) as -> by (by apply (land_high 16)).
  rewrite (lor_low 16); [done|lia|change (2 ^ 16) with 65536; zlia|done].
Qed.

Lemma low_half h : Z.land h 0xffff = h mod 65536.
Proof. change 0xffff with (Z.ones 16). by rewrite Z.land_ones by lia. Qed.

(** The two words of a gate, for a word [flags] below the target. *)
Lemma gate_words t index cs h flags :
  0 <= cs < 65536 → is_u32 h → 0 <= flags < 65536 →
  t (2 * index) = 65536 * cs + h mod 65536 → t (2 * index + 1) = 65536 * (h / 65536) + flags →
  gate_at t index =
    MkGate cs h (Z.testbit flags 15) (flags / 8192 mod 4) (flags / 256 mod 16).
Proof.
  intros Hcs Hh Hf E0 E1. unfold gate_at. rewrite E0, E1. unfold is_u32 in Hh. f_equal; [zlia|zlia| |zlia|zlia].
  rewrite <- (Z.mod_pow2_bits_low (65536 * (h / 65536) + flags) 16 15) by lia.
  rewrite <- (Z.mod_pow2_bits_low flags 16 15) by lia. f_equal. change (2 ^ 16) with 65536. zlia.
Qed.

Lemma first_word cs h : 0 <= cs < 65536 → u32 (u32 (Z.shiftl cs 16) + Z.land h 0xffff) = 65536 * cs + h mod 65536.
Proof.
  intros Hcs. rewrite low_half, Z.shiftl_mul_pow2 by lia. change (2 ^ 16) with 65536.
  rewrite (u32_small (cs * 65536)) by (unfold is_u32; lia). rewrite u32_small by (unfold is_u32; zlia). lia.
Qed.

Lemma stored_words t index x y :
  let t' := store (2 * index + 1) y (store (2 * index) x t) in
  t' (2 * index) = x ∧ t' (2 * index + 1) = y ∧
  ∀ j, j ≠ 2 * index → j ≠ 2 * index + 1 → t' j = t j.
Proof.
  cbn. unfold store. rewrite !Z.eqb_refl, (proj2 (Z.eqb_neq (2 * index) (2 * index + 1))) by lia.
  split; [done|]. split; [done|]. intros j ??. by rewrite !(proj2 (Z.eqb_neq j _)) by done.
Qed.

(** A gate reads back as it was written, and the other gates stay. *)
Lemma interrupt_gate cs index h t : 0 <= cs < 65536 → is_u32 h →
  gate_at (interrupt cs index h t) index = MkGate cs h true 0 INTERRUPT_GATE ∧
  ∀ j, j ≠ index → gate_at (interrupt cs index h t) j = gate_at t j.
Proof.
  intros Hcs Hh. unfold interrupt. rewrite first_word by done. rewrite high_half by (done || lia).
  edestruct (stored_words t index) as (E0 & E1 & Eo). split.
  - by rewrite (gate_words _ _ cs h 0x8e00) by (done || lia).
  - intros j Hj. unfold gate_at. by rewrite !Eo by lia.
Qed.

Lemma trap_flags dpl : 0 <= dpl < 4 → ∃ flags, 0 <= flags < 65536 ∧ Z.lor 0x8f00 (u32 (Z.shiftl dpl 13)) = flags ∧
  Z.testbit flags 15 = true ∧ flags / 8192 mod 4 = dpl ∧ flags / 256 mod 16 = 15.
Proof.
  intros Hd. assert (dpl = 0 ∨ dpl = 1 ∨ dpl = 2 ∨ dpl = 3) as [->|[->|[->| ->]]] by lia;
    (eexists; split; [|split; [reflexivity|done]]); split; first [by apply Z.leb_le|by apply Z.ltb_lt].
Qed.

Lemma trap_gate cs index h dpl t : 0 <= cs < 65536 → is_u32 h → 0 <= dpl < 4 →
  gate_at (trap cs index h dpl t) index = MkGate cs h true dpl TRAP_GATE ∧
  ∀ j, j ≠ index → gate_at (trap cs index h dpl t) j = gate_at t j.
Proof.
  intros Hcs Hh Hd. unfold trap. destruct (trap_flags dpl Hd) as (flags & Hf & E & F1 & F2 & F3).
  rewrite first_word, <- Z.lor_assoc, E, high_half by done.
  edestruct (stored_words t index) as (E0 & E1 & Eo). split.
  - rewrite (gate_words _ _ cs h flags) by done. by rewrite F1, F2, F3.
  - intros j Hj. unfold gate_at. by rewrite !Eo by lia.
Qed.

(** After the start the four vectors lead to their handlers and no other is
    present. The handlers of page faults and system calls can be called by user
    programs, and they start with interrupts enabled: a program can raise vector 14
    by itself, without the error code that the handler takes off the stack, and
    a timer interrupt can come before the handler has read the address of the
    fault from CR2, which belongs to the processor and not to the thread. *)
Lemma boot_gates_ok cs pageFault sys spurious apit vector :
  0 <= cs < 65536 → Forall is_u32 [pageFault; sys; spurious; apit] →
  vector ≠ 14 → vector ≠ 48 → vector ≠ 255 →
  let t := boot_gates cs pageFault sys spurious apit vector (λ _, 0) in
  gate_at t 14 = MkGate cs pageFault true 3 TRAP_GATE ∧
  gate_at t 48 = MkGate cs sys true 3 TRAP_GATE ∧
  gate_at t 255 = MkGate cs spurious true 0 INTERRUPT_GATE ∧
  gate_at t vector = MkGate cs apit true 0 INTERRUPT_GATE ∧
  ∀ j, j ∉ [14; 48; 255; vector] → present (gate_at t j) = false.
Proof.
  intros Hcs Hh H1 H2 H3. rewrite !Forall_cons in Hh. destruct Hh as (Hp & Hs & Hsp & Ha & _). unfold boot_gates.
  set (t1 := trap cs 14 pageFault 3 _). set (t2 := trap cs 48 sys 3 t1). set (t3 := interrupt cs 0xff spurious t2).
  destruct (trap_gate cs 14 pageFault 3 (λ _, 0)) as [G1 O1]; [done|done|lia|]. fold t1 in G1, O1.
  destruct (trap_gate cs 48 sys 3 t1) as [G2 O2]; [done|done|lia|]. fold t2 in G2, O2.
  destruct (interrupt_gate cs 0xff spurious t2) as [G3 O3]; [done|done|]. fold t3 in G3, O3.
  destruct (interrupt_gate cs vector apit t3) as [G4 O4]; [done|done|].
  split; [by rewrite O4, O3, O2 by lia|]. split; [by rewrite O4, O3 by lia|]. split; [by rewrite O4 by lia|].
  split; [done|]. intros j Hj. rewrite !not_elem_of_cons in Hj. destruct Hj as (J1 & J2 & J3 & J4 & _).
  by rewrite O4, O3, O2, O1 by done.
Qed.

(** ** Lemmas: the local controller *)

(** The registers are different ones wherever the controller is. *)
Lemma registers_distinct base : is_u32 base → NoDup (register_list (registers_at base)).
Proof.
  intros Hb. unfold register_list, registers_at, u32, is_u32 in *. cbn.
  repeat (apply NoDup_cons_2; [rewrite ?not_elem_of_cons; repeat split; try apply not_elem_of_nil; zlia|]).
  apply NoDup_nil_2.
Qed.

(** [ipi] puts the receiver and the command in their registers, the command last,
    and returns when the controller shows that it has sent it. *)
Lemma ipi_sends i num reads v s :
  0 <= i < 256 → icr_high (regs s) ≠ icr_low (regs s) →
  Forall (λ r, Z.land r 4096 ≠ 0) reads → Z.land v 4096 = 0 →
  ∃ s', ipi i num (reads ++ [v]) s = Ret s' ∧ regs s' = regs s ∧
    mmio s' (icr_high (regs s)) = 16777216 * i ∧ mmio s' (icr_low (regs s)) = num ∧
    ∀ r, r ≠ icr_high (regs s) → r ≠ icr_low (regs s) → mmio s' r = mmio s r.
Proof.
  intros Hi Hne Hr Hv. unfold ipi.
  assert (wait_sent (reads ++ [v]) = Ret tt) as ->.
  { induction Hr as [|r reads Hr _ IH]; cbn [app wait_sent]; change (Z.shiftl 1 12) with 4096.
    - by rewrite Hv.
    - by rewrite (proj2 (Z.eqb_neq _ _) Hr). }
  cbn [mbind outcome_bind]. eexists. split; [done|]. split; [done|]. cbn. unfold store.
  rewrite !Z.eqb_refl, (proj2 (Z.eqb_neq _ _) Hne). split; [|split; [done|]].
  - rewrite Z.shiftl_mul_pow2 by lia. change (2 ^ 24) with 16777216.
    rewrite u32_small by (unfold is_u32; lia). lia.
  - intros r H1 H2. by rewrite !(proj2 (Z.eqb_neq r _)) by done.
Qed.

(** After [init] the processor knows the registers, has enabled its controller and
    has switched the old one off. *)
Lemma smp_init_ok (kConfig : Config) cs h s :
  let s' := init kConfig cs h true s in
  regs s' = registers_at (localAPIC kConfig) ∧ Z.testbit (apic_base s') 11 = true ∧
  sent s' = sent s ++ [(0x21, 0xff); (0xa1, 0xff)] ∧ mmio s' (spurious (regs s')) = 0x1ff ∧
  ∀ i, 0 <= i < 256 → mmio s (id (regs s')) / 16777216 = i → id (regs s') ≠ spurious (regs s') → me s' = i.
Proof.
  intros s'. change (regs s') with (registers_at (localAPIC kConfig)).
  set (r := registers_at (localAPIC kConfig)). split; [done|]. split.
  { change (Z.testbit (Z.lor (apic_base s) ENABLE) 11 = true). rewrite Z.lor_spec. apply orb_true_r. }
  split; [cbn; by rewrite <- app_assoc|]. split.
  { change ((if spurious r =? spurious r then 0x1ff else mmio s (spurious r)) = 0x1ff). by rewrite Z.eqb_refl. }
  intros i Hi E Hne. change (Z.shiftr (if id r =? spurious r then 0x1ff else mmio s (id r)) 24 = i).
  apply Z.eqb_neq in Hne as ->. rewrite Z.shiftr_div_pow2 by lia. exact E.
Qed.
