(* ===== verification/Random.v ===== *)
(** * Random numbers: src/kernel/random.h

    A multiply-with-carry generator: two 32-bit halves, each of which keeps 16
    bits of value and 16 bits of carry. The constructor means to avoid the seeds
    for which a half never changes; the theorem says which ones it misses. *)

From S2P Require Import Prelude.
Local Open Scope Z_scope.

Record Random := MkRandom { w : Z; z : Z }.

Definition make (seed : Z) : Random :=
  let w := seed in
  let z := 4294967295 - seed in
  let w := if (w =? 0) || (w =? 0x464fffff) then u32 (w + 1) else w in
  let z := if (z =? 0) || (z =? 0x9068ffff) then u32 (z + 1) else z in
  MkRandom w z.

Definition next (r : Random) : Z * Random :=
  let z := u32 (36969 * Z.land (z r) 65535 + Z.shiftr (z r) 16) in
  let w := u32 (18000 * Z.land (w r) 65535 + Z.shiftr (w r) 16) in
  (u32 (u32 (Z.shiftl z 16) + w), MkRandom w z).

(** The generator after [n] numbers. *)
Fixpoint after (n : nat) (r : Random) : Random :=
  match n with O => r | S n => after n (next r).2 end.

(** A half that will never change again. *)
Definition stuck_w (r : Random) : Prop := w (next r).2 = w r.
Definition stuck_z (r : Random) : Prop := z (next r).2 = z r.

Lemma next_w r : is_u32 (w r) → w (next r).2 = 18000 * (w r mod 65536) + w r / 65536.
Proof.
  intros Hw. unfold is_u32 in Hw. cbn [next snd w]. change 65535 with (Z.ones 16).
  rewrite Z.land_ones, Z.shiftr_div_pow2 by lia. change (2 ^ 16) with 65536. apply u32_small. unfold is_u32. zlia.
Qed.

Lemma next_z r : is_u32 (z r) → z (next r).2 = 36969 * (z r mod 65536) + z r / 65536.
Proof.
  intros Hz. unfold is_u32 in Hz. cbn [next snd z]. change 65535 with (Z.ones 16).
  rewrite Z.land_ones, Z.shiftr_div_pow2 by lia. change (2 ^ 16) with 65536. apply u32_small. unfold is_u32. zlia.
Qed.

Lemma make_range seed : is_u32 seed → is_u32 (w (make seed)) ∧ is_u32 (z (make seed)).
Proof.
  unfold is_u32, make. cbn. intros Hs. split; repeat case_match; try apply u32_range; lia.
Qed.

Lemma next_range r : is_u32 (w (next r).2) ∧ is_u32 (z (next r).2).
Proof. split; apply u32_range. Qed.

(** The states from which a half goes to a state that never changes. *)
Definition bad_w (x : Z) : Prop := x = 0 ∨ x = 0x464fffff ∨ x = 0x8c9ffffe ∨ x = 0xd2effffd.
Definition bad_z (x : Z) : Prop := x = 0 ∨ x = 0x9068ffff.

Lemma bad_w_next r : is_u32 (w r) → bad_w (w (next r).2) → bad_w (w r).
Proof. intros Hw. rewrite next_w by done. unfold bad_w, is_u32 in *. zlia. Qed.

Lemma bad_z_next r : is_u32 (z r) → bad_z (z (next r).2) → bad_z (z r).
Proof. intros Hz. rewrite next_z by done. unfold bad_z, is_u32 in *. zlia. Qed.

Lemma stuck_w_bad r : is_u32 (w r) → stuck_w r → bad_w (w r).
Proof. intros Hw. unfold stuck_w. rewrite next_w by done. unfold bad_w, is_u32 in *. zlia. Qed.

Lemma stuck_z_bad r : is_u32 (z r) → stuck_z r → bad_z (z r).
Proof. intros Hz. unfold stuck_z. rewrite next_z by done. unfold bad_z, is_u32 in *. zlia. Qed.

Lemma after_bad n r : is_u32 (w r) → is_u32 (z r) →
  (stuck_w (after n r) → bad_w (w r)) ∧ (stuck_z (after n r) → bad_z (z r)).
Proof.
  revert r. induction n as [|n IH]; intros r Hw Hz; cbn [after].
  - split; [by apply stuck_w_bad|by apply stuck_z_bad].
  - destruct (next_range r) as [Hw' Hz']. destruct (IH _ Hw' Hz') as [H1 H2].
    split; intros Hs; [apply bad_w_next|apply bad_z_next]; auto.
Qed.

Lemma make_z_good seed : is_u32 seed → ¬ bad_z (z (make seed)).
Proof.
  intros Hs. unfold make, bad_z, is_u32 in *. cbn. destruct (_ || _) eqn:E.
  - apply orb_true_iff in E as [E|E]; apply Z.eqb_eq in E; rewrite E; vm_compute; intuition discriminate.
  - apply orb_false_iff in E as [E1%Z.eqb_neq E2%Z.eqb_neq]. lia.
Qed.

Lemma make_w seed : is_u32 seed → bad_w (w (make seed)) → seed = 0x8c9ffffe ∨ seed = 0xd2effffd.
Proof.
  intros Hs. unfold make, bad_w, is_u32 in *. cbn. destruct (_ || _) eqn:E.
  - apply orb_true_iff in E as [E|E]; apply Z.eqb_eq in E; rewrite E; vm_compute; intuition discriminate.
  - apply orb_false_iff in E as [E1%Z.eqb_neq E2%Z.eqb_neq]. lia.
Qed.

Lemma stuck_w_after n r : is_u32 (w r) → w r = 0x464fffff → w (after n r) = 0x464fffff.
Proof.
  revert r. induction n as [|n IH]; intros r Hr E; [done|]. apply IH; [apply next_range|].
  rewrite next_w, E by done. reflexivity.
Qed.

(** The lower half of the state gets stuck, after the first number, for exactly two
    seeds that the constructor does not know; the upper half never does. *)
Lemma generator_stuck seed n : is_u32 seed →
  ¬ stuck_z (after n (make seed)) ∧
  (stuck_w (after n (make seed)) ↔ (0 < n)%nat ∧ (seed = 0x8c9ffffe ∨ seed = 0xd2effffd)).
Proof.
  intros Hs. destruct (make_range seed Hs) as [Hw Hz]. destruct (after_bad n (make seed) Hw Hz) as [H1 H2].
  split; [intros H; by apply (make_z_good seed Hs), H2|]. split.
  - intros H. pose proof (make_w seed Hs (H1 H)) as Hseed. split; [|done]. destruct n; [|lia].
    exfalso. unfold stuck_w in H. destruct Hseed as [-> | ->]; vm_compute in H; discriminate.
  - intros [Hn Hseed]. destruct n as [|n]; [lia|]. cbn [after].
    assert (E : w (next (make seed)).2 = 0x464fffff) by (destruct Hseed as [-> | ->]; reflexivity).
    destruct (next_range (make seed)) as [Hr _].
    pose proof (stuck_w_after n _ Hr E) as E1. pose proof (stuck_w_after (S n) _ Hr E) as E2.
    unfold stuck_w. rewrite E1. revert E2. generalize (next (make seed)).2. intros r.
    assert (Hsucc : ∀ k x, after (S k) x = (next (after k x)).2).
    { intros k. induction k as [|k IHk]; intros x; [done|]. exact (IHk (next x).2). }
    by rewrite Hsucc.
Qed.
