(* ===== verification/Debug.v ===== *)
(** * Debug output and the end of the machine: src/kernel/debug.h, debug.cc

    [Debug] prints formatted text on a sink behind a lock, counts checks, and ends
    the machine. In the other files a panic is the outcome [Panic]; here is what
    it does: it prints, and [halted] is the loop that writes to the shutdown port
    for ever. *)

From S2P Require Import Prelude Mem Snprintf.
Local Open Scope Z_scope.

Section Debug.
Context `{FPU}.

(** The statics. [sink] is what the stream has received, [None] the null pointer;
    [lock] tells whether the lock is taken. *)
Record debug := MkDebug {
  sink : option (list Z);
  lock : bool;
  debugAll : bool;
  shutdown_called : bool;
  checks : Z;
  halted : bool;
}.

(** An object [Debug]. *)
Record channel := MkChannel { what : list Z; flag : bool }.

Definition init (new_sink : option (list Z)) (d : debug) : debug :=
  MkDebug new_sink (lock d) (debugAll d) (shutdown_called d) (checks d) (halted d).

Definition set_lock (b : bool) (d : debug) : debug :=
  MkDebug (sink d) b (debugAll d) (shutdown_called d) (checks d) (halted d).

Definition halt (d : debug) : debug :=
  MkDebug (sink d) (lock d) (debugAll d) true (checks d) true.

(** [vprintf] spins when its lock is taken; [%n] writes to the memory [m]. *)
Definition vprintf (fmt : list Z) (ap : list arg) (m : mem) (d : debug) : outcome debug :=
  match sink d with
  | None => Ret d
  | Some text =>
      if lock d then OutOfFuel
      else
        s ← vsnprintf 1000 fmt ap text m;
        Ret (set_lock false (init (Some (Snprintf.text s)) (set_lock true d)))
  end.

Definition printf := vprintf.

(** [me] is [SMP::me()]. *)
Definition shutdown (me : Z) (m : mem) (d : debug) : outcome debug :=
  d ← (if 0 <? checks d then printf (codes "*** passed %d checkes" ++ [10]) [AInt (checks d)] m d else Ret d);
  d ← printf (codes "core %d requested shutdown" ++ [10]) [AInt me] m d;
  Ret (halt d).

Definition vpanic (me : Z) (fmt : list Z) (ap : list arg) (m : mem) (d : debug) : outcome debug :=
  let d := set_lock false d in
  d ← vprintf fmt ap m d;
  d ← printf (codes "| processor %d halting" ++ [10]) [AInt me] m d;
  Ret (halt d).

Definition panic := vpanic.

(** [check] and [assert]: the text of the invariant, the file and the line. *)
Definition check (me : Z) (invariant : bool) (text file line : arg) (m : mem) (d : debug) : outcome debug :=
  let d := MkDebug (sink d) (lock d) (debugAll d) (shutdown_called d) (u32 (checks d + 1)) (halted d) in
  if invariant then Ret d
  else panic me (codes "*** Check [%s] failed at %s:%d" ++ [10]) [text; file; line] m d.

Definition assert (me : Z) (invariant : bool) (text file line : arg) (m : mem) (d : debug) : outcome debug :=
  if invariant then Ret d
  else panic me (codes "*** Assertion [%s] failed at %s:%d" ++ [10]) [text; file; line] m d.

Definition vdebug (c : channel) (fmt : list Z) (ap : list arg) (m : mem) (d : debug) : outcome debug :=
  if debugAll d || flag c then
    d ← printf (codes "[%s] ") [APtr 1 (what c)] m d;
    d ← vprintf fmt ap m d;
    printf [10] [] m d
  else Ret d.

Definition debug_ (c : channel) (fmt : list Z) (ap : list arg) (m : mem) (d : debug) : outcome debug :=
  if debugAll d || flag c then vdebug c fmt ap m d else Ret d.

Definition missing (me : Z) (file line : arg) (m : mem) (d : debug) : outcome debug :=
  panic me (codes "*** Missing code at %s:%d" ++ [10]) [file; line] m d.

Definition on (c : channel) : channel := MkChannel (what c) true.
Definition off (c : channel) : channel := MkChannel (what c) false.

(** ** Lemmas *)

(** A print that ends leaves the lock free and the rest as it was. *)
Lemma vprintf_frame fmt ap m d d' : vprintf fmt ap m d = Ret d' →
  d' = d ∨ ∃ text s, sink d = Some text ∧ vsnprintf 1000 fmt ap text m = Ret s ∧ lock d = false ∧
    d' = MkDebug (Some (Snprintf.text s)) false (debugAll d) (shutdown_called d) (checks d) (halted d).
Proof.
  unfold vprintf. destruct (sink d) as [text|] eqn:Es; [|intros [= <-]; by left].
  destruct (lock d) eqn:El; [done|]. destruct (vsnprintf 1000 fmt ap text m) as [s| | |] eqn:Ev; try done.
  cbn [mbind outcome_bind]. intros [= <-]. right. by exists text, s.
Qed.

(** A panic does not depend on the lock: also a thread that holds it, or one that
    interrupts the thread that does, gets its message out. *)
Lemma panic_unlocks me fmt ap m d b : panic me fmt ap m (set_lock b d) = panic me fmt ap m d.
Proof. reflexivity. Qed.

(** Every panic that ends has halted the machine. *)
Lemma panic_halts me fmt ap m d d' : panic me fmt ap m d = Ret d' →
  halted d' = true ∧ shutdown_called d' = true ∧ checks d' = checks d.
Proof.
  unfold panic, vpanic. destruct (vprintf fmt ap m (set_lock false d)) as [d1| | |] eqn:E1; try done.
  cbn [mbind outcome_bind]. unfold printf. destruct (vprintf _ [AInt me] m d1) as [d2| | |] eqn:E2; try done.
  cbn [mbind outcome_bind]. intros [= <-]. split; [done|]. split; [done|]. cbn.
  apply vprintf_frame in E1 as [->|(? & ? & _ & _ & _ & ->)];
    apply vprintf_frame in E2 as [->|(? & ? & _ & _ & _ & ->)]; reflexivity.
Qed.

(** The outcome [ASSERT] of the other files is what [assert] does: a failed one
    halts the machine, one that holds does nothing. *)
Lemma assert_outcome me invariant why text file line m d d' :
  assert me invariant text file line m d = Ret d' →
  match ASSERT invariant why with Ret _ => d' = d | _ => halted d' = true end.
Proof.
  unfold assert, ASSERT. destruct invariant; [by intros [= <-]|]. intros E. exact (proj1 (panic_halts _ _ _ _ _ _ E)).
Qed.

End Debug.

(** ** Sample runs *)

Definition demo_debug : debug := MkDebug (Some []) true false false 0 false.

Example panic_demo :
  (d ← @panic exact 2 (codes "bad %s at %d") [APtr 1 (codes "node"); AInt 7] (λ _, 0) demo_debug;
   Ret (sink d, halted d)) = Ret (Some (codes "bad node at 7| processor 2 halting" ++ [10]), true).
Proof. reflexivity. Qed.

Example debug_demo :
  (d ← @debug_ exact (on (MkChannel (codes "vmm") false)) (codes "page %x") [AInt 4096] (λ _, 0)
     (set_lock false demo_debug);
   Ret (sink d)) = Ret (Some (codes "[vmm] page 1000" ++ [10])).
Proof. reflexivity. Qed.
