(* ===== verification/Shell.v ===== *)
(** * A user program: src/t0.dir/sbin/shell.c

    [main] of the shell over the user library (file Libc). *)

From S2P Require Import Prelude Mem Snprintf Libc.
Local Open Scope Z_scope.

Section Shell.
Context {W : Type} `{Syscalls W} `{FPU}.

(** [for (int i = 0; i < argc; i++)]; an argument is its address and its text. *)
Fixpoint print_args (i : Z) (argv : list (Z * list Z)) (w : W) : outcome W :=
  match argv with
  | [] => Ret w
  | (p, text) :: argv =>
      '(_, _, w) ← printf (codes "*** argv[%d]=%s" ++ [10]) [AInt i; APtr p text] (λ _, 0) w;
      print_args (i + 1) argv w
  end.

Definition main (fuel : nat) (argc : Z) (argv : list (Z * list Z)) (w : W) : outcome (Z * W) :=
  '(_, _, w) ← printf (codes "*** argc = %d" ++ [10]) [AInt argc] (λ _, 0) w;
  w ← print_args 0 (take (Z.to_nat argc) argv) w;
  w ← cp fuel 3 1 w;
  Ret (666, w).

End Shell.

(** What the program prints comes before the file that it copies. *)
Lemma put_all_files `{FPU} cs w : put_all cs w = Ret (Files (input w) (output w ++ map u8 cs)).
Proof.
  revert w. induction cs as [|c cs IH]; intros w; cbn [put_all map].
  - rewrite app_nil_r. by destruct w.
  - unfold putchar. cbn [sys_write files_syscalls mbind outcome_bind]. rewrite IH. cbn.
    by rewrite <- app_assoc.
Qed.

(** The program ends with its status whenever its formats do: after printing, the
    whole of its input has gone to its output. *)
Lemma shell_copies `{FPU} fuel argc argv w1 w2 w r :
  (length (input w2) < fuel)%nat →
  printf (codes "*** argc = %d" ++ [10]) [AInt argc] (λ _, 0) w = Ret (r, w1) →
  print_args 0 (take (Z.to_nat argc) argv) w1 = Ret w2 →
  main fuel argc argv w = Ret (666, Files [] (output w2 ++ input w2)).
Proof.
  intros Hf E1 E2. unfold main. rewrite E1. cbn [mbind outcome_bind]. destruct r as [r m].
  rewrite E2. cbn [mbind outcome_bind]. by rewrite cp_copies.
Qed.

Example shell_demo :
  @main files _ exact 10 2 [(1, codes "shell"); (2, codes "x")] (Files (codes "data") []) =
  Ret (666, Files [] (codes "*** argc = 2" ++ [10] ++ codes "*** argv[0]=shell" ++ [10] ++
                      codes "*** argv[1]=x" ++ [10] ++ codes "data")).
Proof. reflexivity. Qed.
