(* ===== verification/Kernel.v ===== *)
(** * The first program: src/kernel/kernel.cc

    What the first user thread runs: [kernelMain] executes /sbin/init from the
    root file system, and panics when [SYS::exec] comes back. *)

From S2P Require Import Prelude Mem Config PhysMem Paging BlockIO Libk Ext2 Vmm Snprintf.
From S2P Require Import Queue Threads Semaphore Fork Process UserMem Files Elf Sys.
Local Open Scope Z_scope.

Definition initName : list Z := codes "/sbin/init".

Section Kernel.
Context {D : Type} `{BlockIO D}.
Variable (kConfig : Config) (root_fs : Ext2 D) (root : Node D).
Variable garbage : list (@VMEntry (Node D)) → option loc.
Variable beyond : nat → nat → Z.

(** [exec] comes back when it returns; otherwise the thread is in user mode. *)
Definition kernelMain : prog sys call :=
  let! rc := exec kConfig root_fs root garbage beyond initName [codes "init"] in
  match rc with
  | Returns _ => plift (Panic "*** rc")
  | _ => pret rc
  end.

(** ** Lemmas *)

(** The ways [exec] ends. *)
Lemma exec_ends path argv s r s' :
  exec kConfig root_fs root garbage beyond path argv s = Ret (r, s') →
  r = None ∨ r = Some (Returns (-1)) ∨ ∃ pc esp, r = Some (EntersUser pc esp).
Proof.
  unfold exec, pbind, plift, pget, pset, pret, self, cur_pd.
  repeat match goal with
         | |- context [mbind _ ?m] => destruct m as [[[]]| | |] eqn:?; cbn [mbind outcome_bind]; try done
         | |- context [match ?x with _ => _ end] => destruct x; cbn [mbind outcome_bind]; try done
         end; intros; simplify_eq; eauto 6.
Qed.

(** The first program runs, or its thread has been ended by a fault; [kernelMain]
    never comes back to its caller. *)
Lemma kernelMain_enters s r s' : kernelMain s = Ret (r, s') →
  r = None ∨ ∃ pc esp, r = Some (EntersUser pc esp).
Proof.
  unfold kernelMain, pbind. intros E.
  destruct (exec kConfig root_fs root garbage beyond initName [codes "init"] s) as [[o s1]| | |] eqn:Ee; try done.
  cbn [mbind outcome_bind] in E. destruct (exec_ends _ _ _ _ _ Ee) as [->|[->|(pc & esp & ->)]]; [|done|].
  - injection E as <- _. by left.
  - injection E as <- _. right. by exists pc, esp.
Qed.

(** A disk without the program is a panic. *)
Lemma kernelMain_missing s :
  find root_fs (Some root) initName = Ret None → kernelMain s = Panic "*** rc".
Proof. intros E. unfold kernelMain, exec, pbind, plift. by rewrite E. Qed.

End Kernel.
