(* ===== verification/MmapTest.v ===== *)
(** * A user program: src/t0.dir/sbin/init.c

    The first program, which tests [mmap] and [munmap]. [main] is a program over
    what a process can do: the system calls, by the stubs of sys.S, loads and
    stores, and [fork], after which the child goes on with its own part. The
    instance of these operations for the state of file Sys runs every call
    through [sysHandler], and the child on the second processor, where the
    scheduler puts it. *)

From S2P Require Import Prelude Mem Config PhysMem Paging BlockIO Libk Ext2 Vmm Snprintf Libc.
From S2P Require Import Queue Threads Semaphore Fork Process UserMem Files Elf Sys.
Local Open Scope Z_scope.

(** ** What a process can do *)

Class Machine (W : Type) := {
  machine_io :: Syscalls W;
  int48 : Z → list Z → prog W Z;         (* a system call with the words on the stack *)
  load_text : Z → prog W (list Z);       (* the C string at an address *)
  store_byte : Z → Z → prog W unit;
  store_word : Z → Z → prog W unit;
  child_runs : Z → prog W unit → prog W unit; (* the other side of the [fork] *)
}.

Section Program.
Context {W : Type} `{Machine W} `{FPU}.

(** The address of a string literal, and of the variable [status]. *)
Variable literal : string → Z.
Variable status : Z.

(** *** sys.S: the stubs *)

Definition exit (rc : Z) : prog W Z := int48 0 [rc].
Definition fork : prog W Z := int48 2 [].
Definition shutdown : prog W Z := int48 7 [].
Definition wait (id ptr : Z) : prog W Z := int48 8 [id; ptr].
Definition open (fn flags : Z) : prog W Z := int48 10 [fn; flags].
Definition mmap (addr length prot flags fd offset : Z) : prog W Z :=
  int48 14 [addr; length; prot; flags; fd; offset].
Definition munmap (addr len : Z) : prog W Z := int48 15 [addr; len].

(** *** init.c *)

(** [printf] of a line, and of the string that a pointer has. *)
Definition say_codes (fmt : list Z) (args : list arg) : prog W unit := λ w,
  '(_, _, w) ← printf fmt args (λ _, 0) w; Ret (Some tt, w).

Definition say (fmt : string) (args : list arg) : prog W unit := say_codes (codes fmt ++ [10]) args.

Definition say_text (p : Z) : prog W unit :=
  let! text := load_text p in say "%s" [APtr p text].

(** What the child does. *)
Definition child_main (p : Z) : prog W unit :=
  let! _ := say "*** we are in the child process." [] in
  let! _ := say "*** child processes inheit the parent's mappings. printing p's contents:" [] in
  let! _ := say_text p in
  let! _ := say "***" [] in
  let! _ := exit 0 in
  pret tt.

Definition main : prog W Z :=
  let! _ := say "****************************" [] in
  let! _ := say "*** MMAP AND MUNAP TESTS ***" [] in
  let! _ := say "****************************" [] in
  let! fd := open (literal "/etc/data.txt") 0 in
  let! p := mmap 0 1 2 1 fd 0 in
  let! _ := say "*** data.txt is now mapped to p." [] in
  let! _ := say "*** p is 0x%lx" [AInt p] in
  let! _ := say "*** printing p's contents:" [] in
  let! _ := say_text p in
  let! _ := say "***" [] in
  let! child := fork in
  let! _ := child_runs child (child_main p) in
  let! _ := store_word status 42 in
  let! _ := wait child status in
  let! _ := say "*** mapping the same file to p2. flag indicates shared mapping" [] in
  let! p2 := mmap 0 1 2 1 fd 0 in
  let! _ := say "*** p2 is 0x%lx" [AInt p2] in
  let! _ := store_byte (p2 + 4) 120 in
  let! _ := say_codes
    (codes "*** the region at p2 has been edited. now we will print p's contents. " ++
     codes "even though p and p2 are different" ++ [10] ++ codes "***" ++
     codes " virtual addresses, the changes at address p2 are seen in p region." ++ [10]) [] in
  let! _ := say_text p in
  let! _ := say "***" [] in
  let! _ := munmap p2 1 in
  let! _ := say "*** p2 has been unmapped. printing p's contents:" [] in
  let! _ := say_text p in
  let! _ := say ("*** print successful. p2 did not deallocate physical memory since " ++
                 "there is still another process.") [] in
  let! _ := munmap p 1 in
  let! _ := say "*** all mappings of data.txt have been unmapped." [] in
  let! _ := say "***" [] in
  let! fd2 := open (literal "/etc/panic.txt") 0 in
  let! p3 := mmap 0x90000000 1 2 1 fd2 0 in
  let! _ := say "*** p3 is 0x%lx" [AInt p3] in
  let! p4 := mmap 0x90000000 1 2 1 fd2 0 in
  let! _ := say "*** p4 is 0x%lx" [AInt p4] in
  let! _ := say ("*** fixed mapping ensures address is at specified location or nullptr " ++
                 "is returned") [] in
  let! p5 := mmap 0x90000000 1 2 2 fd2 0 in
  let! _ := say "*** p5 is 0x%lx" [AInt p5] in
  let! _ := say_text p3 in
  let! _ := say "*** mapping file without reading permission" [] in
  let! p6 := mmap 0 1 0 1 fd 0 in
  let! _ := say "*** printing p6 contents (should print nothing):" [] in
  let! _ := say_text p6 in
  let! _ := shutdown in
  pret 0.

End Program.

(** ** The system under the program *)

Section System.
Context {D : Type} `{BlockIO D} (kConfig : Config) (root_fs : Ext2 D) (root : Node D).
Variable shared new_stack : Z.
Variable max_len : nat.
Variable garbage : list (@VMEntry (Node D)) → option loc.
Variable beyond : nat → nat → Z.
(** The program counter and the stack pointer at a system call. *)
Variable pc esp : Z.

(** The arguments are on the stack of the caller; a call that stops the thread
    does not come back. In the runs considered no call has to wait. *)
Definition sys_int48 (n : Z) (args : list Z) : prog (@sys D) Z :=
  let! p := cur_pd in
  let! _ := user (user_store p (esp + 4) (args ≫= word)) in
  λ s, '(r, s) ← sysHandler kConfig root_fs root shared new_stack max_len garbage beyond n pc esp s;
    match r with
    | Returns v => Ret (Some v, s)
    | Stopped | Shutdown => Ret (None, s)
    | Waits _ | EntersUser _ _ => OutOfFuel
    end.

(** [write] to the console takes one byte; the byte does not pass through the
    memory of the process here. *)
Definition console_write (fd : Z) (bs : list Z) (s : @sys D) : outcome (Z * @sys D) :=
  match getFile fd (process s) ≫= λ l, file_objs s !! l, bs with
  | Some U8250File, c :: _ => Ret (1, set_tty (console_put c (tty s)) s)
  | _, _ => Ret (-1, s)
  end.

#[export] Instance sys_syscalls : Syscalls (@sys D) := {|
  Libc.sys_read _ _ s := Ret (-1, [], s);
  Libc.sys_write := console_write;
|}.

(** A processor yields until the thread [t] has it. *)
Fixpoint run_until (fuel : nat) (core t : nat) (k : kernel) : outcome kernel :=
  if bool_decide (activeThreads k !! core = Some t) then Ret k
  else
    match fuel with
    | O => OutOfFuel
    | S fuel' => '(_, k) ← yield core k; run_until fuel' core t k
    end.

(** The thread that [fork] made for the child of that name. *)
Definition thread_of (child : Z) (s : @sys D) : option (nat * @entry_point D) :=
  slot (children (process s)) (getChildIndex child) ≫= λ future,
  List.find (λ te, bool_decide (output (ep_process te.2) = future)) (map_to_list (starts s)).

(** The child gets the second processor and runs there; then the parent goes on. *)
Definition run_child (child : Z) (m : prog (@sys D) unit) : prog (@sys D) unit := λ s,
  '(t, e) ← deref (thread_of child s);
  k ← run_until 10 1 t (kern s);
  it ← deref (tcbs k !! t);
  '(_, s') ← m (MkSys (ep_process e) (Threads.process it) 1 (svmm s) (objs s) (file_objs s) (tty s)
                  k (starts s));
  Ret (Some tt, MkSys (process s) (pid s) (core s) (svmm s') (objs s') (file_objs s') (tty s')
                  (kern s') (starts s')).

#[export] Instance sys_machine : Machine (@sys D) := {|
  machine_io := sys_syscalls;
  int48 := sys_int48;
  load_text a := let! p := cur_pd in user_string max_len p a;
  store_byte a v := let! p := cur_pd in user (user_st8 p a v);
  store_word a v := let! p := cur_pd in user (user_st32 p a v);
  child_runs := run_child;
|}.

End System.

(** ** The files of the image: /etc/data.txt and /etc/panic.txt, filled with zeros
    to a page *)

Definition data_txt : list Z :=
  codes "*** this is nice" ++ [10] ++ codes "*** we can read and write" ++ [10].
Definition panic_txt : list Z := codes "*** Don't panic" ++ [10].

(** An i-node: mode, and the first of its [n] blocks. *)
Definition image_inode (mode n block : Z) : list Z :=
  take 2 (word mode) ++ [0; 0] ++ word (1024 * n) ++ replicate 20 0 ++ word (2 * n) ++ replicate 8 0 ++
  word block ++ word (block + 1) ++ word (block + 2) ++ word (block + 3) ++ replicate 72 0.

(** A directory entry, with the length of its name and of the entry. *)
Definition image_entry (ino len : Z) (name : list Z) : list Z :=
  word ino ++ take 2 (word len) ++ [Z.of_nat (length name); 0] ++ name.

Definition image : ByteDevice :=
  let m := store_bytes (λ _, 0) 1024 (word 16 ++ word 16) in
  let m := store_bytes m 1056 (word 16) in
  let m := store_bytes m 1064 (word 16) in
  let m := store_bytes m 1112 (word 128) in
  let m := store_bytes m 2056 (word 4) in
  let m := store_bytes m (4096 + 128) (image_inode 0x41ed 1 6) in
  let m := store_bytes m (4096 + 128 * 10) (image_inode 0x41ed 1 7) in
  let m := store_bytes m (4096 + 128 * 11) (image_inode 0x81a4 4 8) in
  let m := store_bytes m (4096 + 128 * 12) (image_inode 0x81a4 4 12) in
  let m := store_bytes m 6144 (image_entry 11 1024 (codes "etc")) in
  let m := store_bytes m 7168 (image_entry 12 16 (codes "data.txt") ++ image_entry 13 1008 (codes "panic.txt")) in
  let m := store_bytes m 8192 data_txt in
  let m := store_bytes m 12288 panic_txt in
  MkByteDevice 512 16384 m.

Definition image_fs : Ext2 ByteDevice * Node ByteDevice := run (demo_fs, demo_dir_node) (mount image).

(** ** The process: a region for the data of the program and a stack *)

Definition program_data : @VMEntry (Node ByteDevice) := MkVMEntry None 8192 0x80000000 0 1 10 None.

Definition literal_at (s : string) : Z :=
  if (s =? "/etc/data.txt")%string then 0x80000100 else 0x80000200.

Definition no_threads : kernel := MkKernel ∅ {[0%nat := 0; 1%nat := 0]} (PQueue.MkPQueue None 0) Queue.empty [] [] [] [] 0.

Definition with_literals (pd : Z) : prog (@ustate (Node ByteDevice)) unit :=
  let! _ := user_store pd 0x80000100 (codes "/etc/data.txt" ++ [0]) in
  user_store pd 0x80000200 (codes "/etc/panic.txt" ++ [0]).

Definition start : outcome (@sys ByteDevice) :=
  let '(sh, m) := run (0, demo_mach) (alloc_frame dm0) in
  '(p, m, o) ← new_process (F := Node ByteDevice) demo_config true 0%nat sh m (MkObjects ∅ ∅ ∅);
  '(_, k) ← threadsInit 2 0 sh 8192 no_threads;
  '(t, k) ← thread 1 (pd p) 8192 k;
  k ← run_until 10 0 t k;
  let es := [program_data; demo_stack] in
  '(_, u) ← with_literals (pd p) (MkUstate es (MkVmm m ∅ None));
  Ret (MkSys (set_entry_list (regions u) p) 1 0 (uvmm u) o {[0%nat := U8250File]} (Console [] []) k ∅).

(** The program over the calls of this system, with its stack and its variable. *)
Definition run_main : prog (@sys ByteDevice) Z :=
  let M := sys_machine demo_config image_fs.1 image_fs.2 6291456 8192 100 (λ _, None) (λ _ _, 0)
             0x80000000 0xefffd000 in
  @main _ M exact literal_at 0xefffd100.

(** What the console shows. *)
Definition transcript : list Z := concat ((λ l : list Z, l ++ [10]) <$>
  [codes "****************************"; codes "*** MMAP AND MUNAP TESTS ***";
   codes "****************************"; codes "*** data.txt is now mapped to p.";
   codes "*** p is 0x80002000"; codes "*** printing p's contents:"; data_txt; codes "***";
   codes "*** we are in the child process.";
   codes "*** child processes inheit the parent's mappings. printing p's contents:"; data_txt;
   codes "***"; codes "*** mapping the same file to p2. flag indicates shared mapping";
   codes "*** p2 is 0x80003000";
   codes "*** the region at p2 has been edited. now we will print p's contents. even though p and p2 are different";
   codes "*** virtual addresses, the changes at address p2 are seen in p region.";
   <[4%nat := 120]> data_txt; codes "***"; codes "*** p2 has been unmapped. printing p's contents:";
   <[4%nat := 120]> data_txt;
   codes "*** print successful. p2 did not deallocate physical memory since there is still another process.";
   codes "*** all mappings of data.txt have been unmapped."; codes "***"; codes "*** p3 is 0x90000000";
   codes "*** p4 is 0x90001000";
   codes "*** fixed mapping ensures address is at specified location or nullptr is returned";
   codes "*** p5 is 0x0"; panic_txt; codes "*** mapping file without reading permission";
   codes "*** printing p6 contents (should print nothing):"; []]).

(** The whole program, on the image of the file system: the shared mapping is seen
    by the child and through both addresses, the first [munmap] leaves it to the
    other mapping, the place asked for is taken when it is free, the next one when
    it is not, a fixed mapping of a taken place gives the null pointer, and a file
    mapped without permission to read shows nothing. It ends in the shutdown. *)
Lemma mmap_tests : (s ← start; '(r, s) ← run_main s; Ret (r, sent (tty s))) = Ret (None, transcript).
Proof. vm_compute. reflexivity. Qed.
