(* ===== verification/Boot.v ===== *)
(** * Starting the machine: src/kernel/init.cc

    [kernelInit] runs on every processor. The first one sets up the parts of the
    kernel one after the other ([kernelInit_first]) and then starts the others,
    one at a time; the last processor to arrive makes the first user process.
    Two theorems: after the set-up the invariants of all parts hold together, and
    the start of the processors makes exactly one first process. *)

From Stdlib Require Import Sorted.
From S2P Require Import Prelude Mem PhysMem Config Acpi Paging BlockIO Ext2 Heap.
From S2P Require Import Queue Threads Vmm Fork Process Isolation World Pit.
Local Open Scope Z_scope.

(** ** The processors starting

    One step for each access to what the processors share: the counters
    [SMP::running] and [howManyAreHere] and the interrupts of [SMP::ipi]. *)

Module Startup.

(** Where a processor is in [kernelInit]: the first one before its
    [running.fetch_add], about to start processor [id], waiting for it; another
    one switched off, and before its [fetch_add]; then any of them before
    [howManyAreHere.add_fetch], before making the first process, and in
    [stop]. *)
Inductive pc := First | Boot (id : nat) | BootWait (id : nat) | Off | Up | Arriving | Creating | Stopped.

Record state := MkState {
  running : Z;
  howManyAreHere : Z;
  initProcs : Z;
  pcs : list pc;
}.

Definition goto (i : nat) (p : pc) (s : state) : state :=
  MkState (running s) (howManyAreHere s) (initProcs s) (<[i := p]> (pcs s)).

(** The two interrupts of [SMP::ipi] start a processor that is off. *)
Definition ipi (id : nat) (s : state) : state :=
  match pcs s !! id with Some Off => goto id Up s | _ => s end.

(** The next step of processor [i] of [n]; [None] when it can do none. *)
Definition step (n i : nat) (s : state) : option state :=
  match pcs s !! i with
  | Some First =>
      Some (MkState (u32 (running s + 1)) (howManyAreHere s) (initProcs s) (<[i := Boot 1]> (pcs s)))
  | Some (Boot id) =>
      if (id <? n)%nat then Some (ipi id (goto i (BootWait id) s)) else Some (goto i Arriving s)
  | Some (BootWait id) => if running s <=? Z.of_nat id then None else Some (goto i (Boot (S id)) s)
  | Some Up =>
      Some (MkState (u32 (running s + 1)) (howManyAreHere s) (initProcs s) (<[i := Arriving]> (pcs s)))
  | Some Arriving =>
      let myOrder := u32 (howManyAreHere s + 1) in
      Some (MkState (running s) myOrder (initProcs s)
              (<[i := if myOrder =? Z.of_nat n then Creating else Stopped]> (pcs s)))
  | Some Creating =>
      Some (MkState (running s) (howManyAreHere s) (initProcs s + 1) (<[i := Stopped]> (pcs s)))
  | Some Off | Some Stopped | None => None
  end.

Definition init (n : nat) : state := MkState 0 0 0 (First :: replicate (n - 1) Off).

Definition moves (n : nat) (s s' : state) : Prop := ∃ i, step n i s = Some s'.

(** ** Invariant *)

(** Processors that have counted themselves in [running], in [howManyAreHere], and
    the one that makes the first process. *)
Definition counted (p : pc) : nat := match p with First | Off | Up => 0 | _ => 1 end.
Definition arrived (p : pc) : nat := match p with Creating | Stopped => 1 | _ => 0 end.
Definition creating (p : pc) : nat := match p with Creating => 1 | _ => 0 end.

Definition late (p : pc) : Prop := p = Arriving ∨ p = Creating ∨ p = Stopped.

(** Where processor [i] can be while the first one is at [p0]. *)
Definition allowed (p0 : pc) (i : nat) (p : pc) : Prop :=
  match p0 with
  | First => p = Off
  | Boot id => if (i <? id)%nat then late p else p = Off
  | BootWait id => if (i <? id)%nat then late p else if (i =? id)%nat then p = Up ∨ late p else p = Off
  | _ => late p
  end.

Definition place_ok (n : nat) (p0 : pc) : Prop :=
  match p0 with
  | Boot id => (1 <= id <= n)%nat
  | BootWait id => (1 <= id < n)%nat
  | Off | Up => False
  | _ => True
  end.

Record inv (n : nat) (s : state) : Prop := Inv {
  iv_len : length (pcs s) = n;
  iv_first : ∃ p0, pcs s !! 0%nat = Some p0 ∧ place_ok n p0 ∧
    ∀ i p, (0 < i)%nat → pcs s !! i = Some p → allowed p0 i p;
  iv_running : running s = Z.of_nat (sum_list_with counted (pcs s));
  iv_here : howManyAreHere s = Z.of_nat (sum_list_with arrived (pcs s));
  iv_once : initProcs s + Z.of_nat (sum_list_with creating (pcs s)) =
    (if howManyAreHere s =? Z.of_nat n then 1 else 0);
  iv_made : 0 <= initProcs s;
}.

(** ** Lemmas *)

Lemma allowed_late p0 i p : late p0 → allowed p0 i p → late p.
Proof. by intros [->|[->| ->]]. Qed.

(** One processor moves on, with the counters that go with it. *)
Lemma processor_moves n s i p q r h c :
  inv n s → pcs s !! i = Some p → Z.of_nat n < 4294967296 →
  (∀ p0, pcs s !! 0%nat = Some p0 → i = 0%nat → place_ok n q ∧
     ∀ j p', (0 < j)%nat → allowed p j p' → pcs s !! j = Some p' → allowed q j p') →
  (∀ p0, pcs s !! 0%nat = Some p0 → (0 < i)%nat → allowed p0 i p → allowed p0 i q) →
  r = running s + Z.of_nat (counted q) - Z.of_nat (counted p) → initProcs s <= c →
  h = howManyAreHere s + Z.of_nat (arrived q) - Z.of_nat (arrived p) →
  c + Z.of_nat (creating q) - Z.of_nat (creating p) - initProcs s =
    (if h =? Z.of_nat n then 1 else 0) - (if howManyAreHere s =? Z.of_nat n then 1 else 0) →
  inv n (MkState r h c (<[i := q]> (pcs s))).
Proof.
  intros [Hl (p0 & H0 & Hpl & Hal) Hr Hh Ho Hm] Hp Hn Hfirst Hother -> Hle -> Hc.
  pose proof (sum_insert counted _ _ _ q Hp) as E1. pose proof (sum_insert arrived _ _ _ q Hp) as E2.
  pose proof (sum_insert creating _ _ _ q Hp) as E3.
  split; cbn [pcs running howManyAreHere initProcs]; [by rewrite length_insert| |lia..].
  destruct i as [|i].
  - rewrite H0 in Hp. injection Hp as <-. destruct (Hfirst p0 H0 eq_refl) as [Hq Hj].
    exists q. split; [apply list_lookup_insert_eq; by eapply lookup_lt_Some|]. split; [done|].
    intros j p' Hj0 Hp'. rewrite list_lookup_insert_ne in Hp' by lia. by apply Hj; [|apply Hal|].
  - exists p0. split; [by rewrite list_lookup_insert_ne|]. split; [done|]. intros j p' Hj0 Hp'.
    destruct (decide (j = S i)) as [->|Hne].
    + rewrite list_lookup_insert_eq in Hp' by (by eapply lookup_lt_Some). injection Hp' as <-.
      by apply (Hother p0); [|lia|apply Hal].
    + rewrite list_lookup_insert_ne in Hp' by done. by apply Hal.
Qed.

Lemma sum_prefix (f : pc → nat) (l : list pc) k : (∀ p, (f p <= 1)%nat) →
  (∀ i p, (k <= i)%nat → l !! i = Some p → f p = 0%nat) → (sum_list_with f l <= k)%nat.
Proof.
  intros Hf. revert k. induction l as [|x l IH]; intros k Hz; cbn; [lia|]. destruct k as [|k].
  - rewrite (Hz 0%nat x) by done. apply (IH 0%nat). intros i p _ Hp. by apply (Hz (S i) p); [lia|].
  - pose proof (Hf x). assert (sum_list_with f l <= k)%nat; [|lia].
    apply IH. intros i p Hi Hp. by apply (Hz (S i) p); [lia|].
Qed.

Lemma counted_le p : (counted p <= 1)%nat.
Proof. destruct p; cbn; lia. Qed.

Lemma arrived_le p : (arrived p <= 1)%nat.
Proof. destruct p; cbn; lia. Qed.

Lemma ranges n s : inv n s → 0 <= running s <= Z.of_nat n ∧ 0 <= howManyAreHere s <= Z.of_nat n.
Proof.
  intros [Hl _ -> -> _ _]. pose proof (sum_le_length counted (pcs s) counted_le).
  pose proof (sum_le_length arrived (pcs s) arrived_le). lia.
Qed.

(** While some processor has not arrived the count is not complete. *)
Lemma not_all_here n s i p : inv n s → pcs s !! i = Some p → arrived p = 0%nat →
  howManyAreHere s ≠ Z.of_nat n.
Proof.
  intros [Hl _ _ Hh _ _] Hp Ha E.
  pose proof (sum_all_ones arrived (pcs s) arrived_le ltac:(lia) i p Hp). lia.
Qed.

(** A processor that the first one waits for has counted itself when the wait ends. *)
Lemma wait_over n s id : inv n s → pcs s !! 0%nat = Some (BootWait id) → Z.of_nat id < running s →
  ∀ p, pcs s !! id = Some p → late p.
Proof.
  intros Hinv H0 Hlt p Hp. pose proof Hinv as [Hl (p0 & H0' & Hpl & Hal) Hr _ _ _].
  rewrite H0 in H0'. injection H0' as <-. cbn in Hpl.
  pose proof (Hal id p ltac:(lia) Hp) as Ha. unfold allowed in Ha. rewrite Nat.ltb_irrefl, Nat.eqb_refl in Ha.
  destruct Ha as [->|Ha]; [exfalso|done].
  assert (sum_list_with counted (pcs s) <= id)%nat; [|lia]. apply sum_prefix; [apply counted_le|].
  intros j q Hj Hq. destruct (decide (j = id)) as [->|Hne]; [by rewrite Hp in Hq; injection Hq as <-|].
  pose proof (Hal j q ltac:(lia) Hq) as Hb. unfold allowed in Hb.
  destruct (Nat.ltb_spec j id), (Nat.eqb_spec j id); [lia..|]. by subst q.
Qed.

(** Only the first processor is ever at these places. *)
Lemma only_first n s i p : inv n s → pcs s !! i = Some p →
  match p with First | Boot _ | BootWait _ => i = 0%nat | Off | Up => (0 < i)%nat | _ => True end.
Proof.
  intros [_ (p0 & H0 & Hpl & Hal) _ _ _ _] Hp. destruct i as [|i].
  - rewrite H0 in Hp. injection Hp as ->. by destruct p.
  - pose proof (Hal (S i) p ltac:(lia) Hp) as Ha.
    destruct p; try lia; exfalso; destruct p0; cbn in Ha; repeat case_match; unfold late in Ha;
      naive_solver.
Qed.

(** The interrupts that start the next processor. *)
Lemma boot_ok n s id : inv n s → pcs s !! 0%nat = Some (Boot id) → (id < n)%nat →
  inv n (ipi id (goto 0 (BootWait id) s)) ∧
  pcs (ipi id (goto 0 (BootWait id) s)) = <[id := Up]> (<[0%nat := BootWait id]> (pcs s)) ∧
  pcs s !! id = Some Off.
Proof.
  intros [Hl (p0 & H0' & Hpl & Hal) Hr Hh Ho Hm] H0 Hid. rewrite H0 in H0'. injection H0' as <-.
  cbn in Hpl. destruct (lookup_lt_is_Some_2 (pcs s) id) as [p Hp]; [lia|].
  pose proof (Hal id p ltac:(lia) Hp) as Hoff. unfold allowed in Hoff. rewrite Nat.ltb_irrefl in Hoff. subst p.
  unfold ipi, goto. cbn [pcs]. rewrite list_lookup_insert_ne by lia. rewrite Hp.
  split; [|done]. set (l1 := <[0%nat := BootWait id]> (pcs s)).
  assert (H1 : l1 !! id = Some Off) by (unfold l1; by rewrite list_lookup_insert_ne by lia).
  pose proof (λ f, sum_insert f _ _ _ (BootWait id) H0) as E1. fold l1 in E1.
  pose proof (λ f, sum_insert f _ _ _ Up H1) as E2.
  pose proof (E1 counted). pose proof (E2 counted). pose proof (E1 arrived). pose proof (E2 arrived).
  pose proof (E1 creating). pose proof (E2 creating).
  assert (Hl1 : length l1 = n) by (unfold l1; by rewrite length_insert).
  cbn [counted arrived creating] in *. split; cbn [pcs running howManyAreHere initProcs];
    [by rewrite length_insert| |lia|lia|rewrite <- Ho; lia|done].
  exists (BootWait id). rewrite list_lookup_insert_ne by lia. unfold l1.
  rewrite list_lookup_insert_eq by lia. split; [done|]. split; [cbn; lia|]. intros j p Hj Hp'. unfold allowed.
  destruct (decide (j = id)) as [->|Hne].
  - rewrite list_lookup_insert_eq in Hp' by (rewrite length_insert; lia). injection Hp' as <-.
    rewrite Nat.ltb_irrefl, Nat.eqb_refl. by left.
  - rewrite !list_lookup_insert_ne in Hp' by lia. pose proof (Hal j p Hj Hp') as Ha. unfold allowed in Ha.
    by rewrite (proj2 (Nat.eqb_neq j id)).
Qed.

(** A processor that is on its way may go on to any later place. *)
Lemma allowed_later p0 i p q : allowed p0 i p → p ≠ Off → late q → allowed p0 i q.
Proof.
  destruct p0; unfold allowed; intros Ha Hp Hq; repeat case_match; unfold late in *; naive_solver.
Qed.

Lemma step_first n i s s' : inv n s → Z.of_nat n < 4294967295 → i = 0%nat →
  match pcs s !! i with Some First | Some (Boot _) | Some (BootWait _) => True | _ => False end →
  step n i s = Some s' → inv n s'.
Proof.
  intros Hinv Hn -> Hpl. pose proof (ranges n s Hinv) as [Hr Hh]. unfold step.
  destruct (pcs s !! 0%nat) as [p|] eqn:Hp; [|done]. destruct p as [|id|id| | | | |]; try done.
  - intros [= <-]. eapply processor_moves; [exact Hinv|exact Hp|lia| |intros; lia|..]; unfold counted, arrived, creating;
      [|rewrite u32_small by (unfold is_u32; lia); lia|lia..].
    intros p0 H0 _. split.
    { apply lookup_lt_Some in Hp. rewrite (iv_len _ _ Hinv) in Hp. cbn. lia. }
    unfold allowed. intros j p' Hj -> _. by rewrite (proj2 (Nat.ltb_ge j 1)) by lia.
  - destruct (Nat.ltb_spec id n) as [Hid|Hid]; intros [= <-]; [by apply boot_ok|].
    eapply processor_moves; [exact Hinv|exact Hp|lia| |intros; lia|unfold counted, arrived, creating..]; [|lia..].
    intros p0 _ _. split; [done|]. unfold allowed. intros j p' Hj Ha Hp'.
    apply lookup_lt_Some in Hp'. rewrite (iv_len _ _ Hinv) in Hp'.
    by rewrite (proj2 (Nat.ltb_lt j id)) in Ha by lia.
  - destruct (Z.leb_spec (running s) (Z.of_nat id)); [done|]. intros [= <-].
    pose proof (wait_over n s id Hinv Hp ltac:(lia)) as Hw.
    eapply processor_moves; [exact Hinv|exact Hp|lia| |intros; lia|unfold counted, arrived, creating..]; [|lia..].
    pose proof Hinv as [_ (p0 & H0 & Hpl' & _) _ _ _ _]. rewrite Hp in H0. injection H0 as <-. cbn in Hpl'.
    intros ? _ _. split; [cbn; lia|]. unfold allowed. intros j p' Hj.
    destruct (Nat.ltb_spec j id), (Nat.ltb_spec j (S id)), (Nat.eqb_spec j id); try lia; try done.
    subst j. auto.
Qed.

Lemma step_arriving n i s s' : inv n s → Z.of_nat n < 4294967295 → pcs s !! i = Some Arriving →
  step n i s = Some s' → inv n s'.
Proof.
  intros Hinv Hn Hp. pose proof (ranges n s Hinv) as [Hr Hh]. unfold step. rewrite Hp. intros [= <-].
  pose proof (not_all_here n s i _ Hinv Hp eq_refl) as Hno. rewrite u32_small by (unfold is_u32; lia).
  assert (Hq : ∃ q, (if howManyAreHere s + 1 =? Z.of_nat n then Creating else Stopped) = q ∧
    (q = Creating ∨ q = Stopped)) by (destruct (_ =? _); eauto).
  destruct Hq as (q & Eq & Hq). rewrite Eq. eapply processor_moves; [exact Hinv|exact Hp|lia|..].
  - intros p0 _ _. by destruct Hq as [->| ->].
  - intros p0 _ _ Ha. by apply (allowed_later _ _ Arriving); [| |right].
  - destruct Hq as [->| ->]; cbn; lia.
  - lia.
  - destruct Hq as [->| ->]; cbn; lia.
  - rewrite (proj2 (Z.eqb_neq _ _) Hno). destruct (Z.eqb_spec (howManyAreHere s + 1) (Z.of_nat n));
      subst q; cbn; lia.
Qed.

Lemma step_inv n i s s' : inv n s → Z.of_nat n < 4294967295 → step n i s = Some s' → inv n s'.
Proof.
  intros Hinv Hn Hs. destruct (pcs s !! i) as [p|] eqn:Hp; [|by unfold step in Hs; rewrite Hp in Hs].
  pose proof (only_first n s i p Hinv Hp) as Hi. pose proof (ranges n s Hinv) as [Hr Hh].
  destruct p as [|id|id| | | | |];
    try (by apply (step_first n i s); [done|done|done|rewrite Hp|]); try (by eapply step_arriving);
    unfold step in Hs; rewrite Hp in Hs; try done; injection Hs as <-.
  - eapply processor_moves; [exact Hinv|exact Hp|lia|intros; lia| |unfold counted, arrived, creating..];
      [|rewrite u32_small by (unfold is_u32; lia); lia|lia..].
    intros p0 _ _ Ha. by apply (allowed_later _ _ Up); [| |left].
  - eapply processor_moves; [exact Hinv|exact Hp|lia|done| |cbn; lia..].
    intros p0 _ _ Ha. apply (allowed_later _ _ Creating); [done|done|]. right. by right.
Qed.

Lemma init_ok n : (0 < n)%nat → inv n (init n).
Proof.
  intros Hn. assert (Hz : ∀ f k, f Off = 0%nat → sum_list_with f (replicate k Off) = 0%nat).
  { intros f k Hf. induction k as [|k IH]; cbn; [done|]. by rewrite Hf, IH. }
  split; cbn [pcs running howManyAreHere initProcs init sum_list_with];
    rewrite ?Hz by done; cbn [counted arrived creating]; [|exists First|done|done| |done].
  - cbn. rewrite length_replicate. lia.
  - split; [done|]. split; [done|]. intros [|j] p Hj Hp; [lia|]. cbn in Hp.
    by apply lookup_replicate in Hp as [-> _].
  - by rewrite (proj2 (Z.eqb_neq 0 (Z.of_nat n))) by lia.
Qed.

(** The processors start one at a time. *)
Lemma one_up n s i j : inv n s → pcs s !! i = Some Up → pcs s !! j = Some Up → i = j.
Proof.
  intros Hinv Hi Hj. pose proof (only_first n s i Up Hinv Hi) as Hpi.
  pose proof (only_first n s j Up Hinv Hj) as Hpj. cbn in Hpi, Hpj.
  destruct Hinv as [_ (p0 & _ & _ & Hal) _ _ _ _].
  pose proof (Hal i Up ltac:(lia) Hi) as H1. pose proof (Hal j Up ltac:(lia) Hj) as H2.
  assert (Hno : ¬ late Up) by (by intros [|[|]]).
  destruct p0 as [|id|id| | | | |]; unfold allowed in *; try done.
  - by destruct (i <? id)%nat.
  - destruct (i <? id)%nat, (j <? id)%nat; try done.
    destruct (Nat.eqb_spec i id), (Nat.eqb_spec j id); try done. congruence.
Qed.

(** What is left to do. *)
Definition weight (n : nat) (p : pc) : nat :=
  match p with
  | First => 2 * n + 4
  | Boot id => 2 * (n - id) + 3
  | BootWait id => 2 * (n - id) + 2
  | Off => 4 | Up => 3 | Arriving => 2 | Creating => 1 | Stopped => 0
  end.

Definition work (n : nat) (s : state) : nat := sum_list_with (weight n) (pcs s).

Lemma step_work n i s s' : inv n s → step n i s = Some s' → (work n s' < work n s)%nat.
Proof.
  intros Hinv. unfold step. destruct (pcs s !! i) as [p|] eqn:Hp; [|done].
  pose proof (only_first n s i p Hinv Hp) as Hi.
  assert (Hone : ∀ q, (weight n q < weight n p)%nat →
    (sum_list_with (weight n) (<[i := q]> (pcs s)) < work n s)%nat).
  { intros q Hq. pose proof (sum_insert (weight n) _ _ _ q Hp). unfold work. lia. }
  pose proof Hinv as [Hl (p0 & H0 & Hpl & _) _ _ _ _].
  destruct p as [|id|id| | | | |]; try done.
  - intros [= <-]. apply Hone. cbn. lia.
  - subst i. rewrite H0 in Hp. injection Hp as ->. cbn in Hpl.
    destruct (Nat.ltb_spec id n) as [Hid|Hid]; intros [= <-]; [|apply Hone; cbn; lia].
    destruct (boot_ok n s id Hinv H0 Hid) as (_ & E & Hoff). unfold work. rewrite E.
    pose proof (sum_insert (weight n) _ _ _ (BootWait id) H0) as E1.
    assert (H1 : <[0%nat := BootWait id]> (pcs s) !! id = Some Off) by (by rewrite list_lookup_insert_ne by lia).
    pose proof (sum_insert (weight n) _ _ _ Up H1) as E2. cbn [weight] in *. lia.
  - subst i. rewrite H0 in Hp. injection Hp as ->. cbn in Hpl.
    destruct (running s <=? Z.of_nat id); [done|]. intros [= <-]. apply Hone. cbn. lia.
  - intros [= <-]. apply Hone. cbn. lia.
  - intros [= <-]. apply Hone. cbn. destruct (_ =? _); cbn; lia.
  - intros [= <-]. apply Hone. cbn. lia.
Qed.

Lemma sum_prefix_full (f : pc → nat) (l : list pc) k :
  (k <= length l)%nat → (∀ i p, (i < k)%nat → l !! i = Some p → f p = 1%nat) →
  (k <= sum_list_with f l)%nat.
Proof.
  revert k. induction l as [|x l IH]; intros [|k] Hk Hf; cbn in *; [lia..|].
  rewrite (Hf 0%nat x) by (done || lia). assert (k <= sum_list_with f l)%nat; [|lia].
  apply IH; [lia|]. intros i p Hi Hp. by apply (Hf (S i) p); [lia|].
Qed.

Lemma late_stuck n i s p : late p → pcs s !! i = Some p → step n i s = None → p = Stopped.
Proof. unfold step. by intros [->|[->| ->]] ->. Qed.

Lemma all_stopped n s : inv n s → (∀ i, step n i s = None) → ∀ i p, pcs s !! i = Some p → p = Stopped.
Proof.
  intros Hinv Hs. pose proof Hinv as [Hl (p0 & H0 & Hpl & Hal) Hr _ _ _].
  assert (E0 : p0 = Stopped).
  { pose proof (Hs 0%nat) as Hs0. unfold step in Hs0. rewrite H0 in Hs0.
    destruct p0 as [|id|id| | | | |]; try done; [by destruct (id <? n)%nat|].
    exfalso. destruct (Z.leb_spec (running s) (Z.of_nat id)) as [Hle|]; [|done]. cbn in Hpl.
    assert (S id <= sum_list_with counted (pcs s))%nat; [|lia].
    apply sum_prefix_full; [lia|]. intros i p Hi Hp.
    destruct i as [|i]; [by rewrite H0 in Hp; injection Hp as <-|].
    pose proof (Hal (S i) p ltac:(lia) Hp) as Ha. unfold allowed in Ha.
    assert (late p) as [->|[->| ->]]; [|done..].
    destruct (Nat.ltb_spec (S i) id); [done|]. destruct (Nat.eqb_spec (S i) id); [|lia].
    destruct Ha as [->|]; [|done]. pose proof (Hs (S i)) as Hsi. unfold step in Hsi. by rewrite Hp in Hsi. }
  subst p0. intros i p Hp. destruct i as [|i]; [by rewrite H0 in Hp; injection Hp as <-|].
  by apply (late_stuck n (S i) s p (Hal (S i) p ltac:(lia) Hp) Hp).
Qed.

End Startup.

(** C36 (safety): the processors start one at a time and make exactly one first
    process. In every interleaving of [kernelInit] on [n] processors, no two of
    them are on their way between the interrupt that starts them and their
    registration; the first process is made at most once, and only when every
    processor has finished its initialisation; every step leaves less to do, so
    that the start ends, and it ends with all processors in [stop] and the first
    process made. *)
Theorem processors_start (n : nat) (s : Startup.state) (Hn : 0 < Z.of_nat n < 4294967295)
    (Hs : star (Startup.moves n) (Startup.init n) s) :
  0 <= Startup.initProcs s <= 1 ∧
  (Startup.initProcs s = 1 → ∀ i p, Startup.pcs s !! i = Some p → p = Startup.Creating ∨ p = Startup.Stopped) ∧
  (∀ i j, Startup.pcs s !! i = Some Startup.Up → Startup.pcs s !! j = Some Startup.Up → i = j) ∧
  (∀ i s', Startup.step n i s = Some s' → (Startup.work n s' < Startup.work n s)%nat) ∧
  ((∀ i, Startup.step n i s = None) →
     Startup.initProcs s = 1 ∧ ∀ i p, Startup.pcs s !! i = Some p → p = Startup.Stopped).
Proof.
  assert (Hinv : Startup.inv n s).
  { apply (star_invariant (Startup.moves n) (Startup.inv n) (Startup.init n)).
    - apply Startup.init_ok. lia.
    - intros a b Ha [i Hi]. by eapply Startup.step_inv; [exact Ha|lia|].
    - exact Hs. }
  pose proof (Startup.iv_once _ _ Hinv) as Honce. pose proof (Startup.iv_made _ _ Hinv) as Hmade. pose proof (Startup.ranges n s Hinv) as Hrg.
  pose proof (Startup.iv_here _ _ Hinv) as Hh.
  assert (Hhere : ∀ i p, Startup.pcs s !! i = Some p → Startup.howManyAreHere s = Z.of_nat n →
    Startup.arrived p = 1%nat).
  { intros i p Hp E. apply (sum_all_ones Startup.arrived (Startup.pcs s) Startup.arrived_le) with i; [|done].
    rewrite (Startup.iv_len _ _ Hinv). lia. }
  split; [|split; [|split; [|split]]].
  - destruct (_ =? _); lia.
  - intros E i p Hp. destruct (Z.eqb_spec (Startup.howManyAreHere s) (Z.of_nat n)) as [Ee|]; [|lia].
    specialize (Hhere i p Hp Ee). destruct p; try done; [by left|by right].
  - intros i j. by apply (Startup.one_up n).
  - intros i s'. by apply Startup.step_work.
  - intros Hst. pose proof (Startup.all_stopped n s Hinv Hst) as Hall. split; [|done].
    assert (Hc : ∀ f k, f Startup.Stopped = k → sum_list_with f (Startup.pcs s) = (k * length (Startup.pcs s))%nat).
    { intros f k Hf. apply sum_const. intros i p Hp. by rewrite (Hall i p Hp). }
    rewrite (Hc _ 1%nat eq_refl), (Startup.iv_len _ _ Hinv) in Hh.
    rewrite (Hc _ 0%nat eq_refl), Hh, Nat.mul_1_l, Z.eqb_refl in Honce. lia.
Qed.

(** Three processors: the second has been started and has not yet registered. *)
Lemma processors_start_witness :
  let s := Startup.MkState 1 0 0 [Startup.BootWait 1; Startup.Up; Startup.Off] in
  0 <= Startup.initProcs s <= 1 ∧
  (∀ i s', Startup.step 3 i s = Some s' → (Startup.work 3 s' < Startup.work 3 s)%nat).
Proof.
  intros s. destruct (processors_start 3 s) as (H1 & _ & _ & H2 & _).
  - split; reflexivity.
  - eapply star_step; [eapply star_step; [apply star_refl|]|]; exists 0%nat; reflexivity.
  - split; [exact H1|exact H2].
Defined.

(** ** The first processor *)

Definition HEAP_START : Z := 1 * 1024 * 1024.
Definition HEAP_SIZE : Z := 5 * 1024 * 1024.
Definition VMM_FRAMES : Z := HEAP_START + HEAP_SIZE.

Section Init.
Context {D : Type} `{BlockIO D}.

(** The parts of the kernel after the set-up. *)
Record booted := MkBooted {
  kConfig : Config;
  kernel_heap : Heap.heap;
  machine : mach;
  shared : Z;
  kernelProcess : Process (F := Node D);
  shared_objects : objects;
  root_fs : Ext2 D;
  root : Node D;
  threads : kernel;
  timer : Pit;
}.

(** [kernelInit] until the other processors are started. [m] is the memory with
    the tables of the firmware, [words] the memory of the heap, [disk] the disk of
    [root_fs], [stack] that of the reaper; [gate] and [current] are what the
    timer's calibration will read. [CRT::init] runs the constructors of
    [Process::kernelProcess] and of [root_fs]. *)
Definition kernelInit_first (info : MemInfo) (m : mem) (words : Z → Z) (disk : D) (console : loc)
    (stack : Z) (gate : list Z) (current : Z) (config : Config) : outcome booted :=
  kConfig ← configInit info m config;
  let heap := heapInit HEAP_START HEAP_SIZE words in
  s ← PhysMem.init VMM_FRAMES (u32 (memSize kConfig - VMM_FRAMES)) (Mach m 0 0 0 []);
  '(shared, s) ← global_init kConfig (Z.to_nat (memSize kConfig / FRAME_SIZE)) s;
  '(kernelProcess, s, o) ← new_process kConfig true console shared s (MkObjects ∅ ∅ ∅);
  '(fs, root) ← mount disk;
  '(_, k) ← threadsInit (Z.to_nat (totalProcs kConfig)) 0 (pd kernelProcess) stack (boot {[0%nat := 0]});
  pit ← calibrate gate current 1000 (MkPit 0 0 []);
  Ret (MkBooted kConfig heap s shared kernelProcess o fs root k pit).

(** ** Lemmas *)

Lemma phys_init_ok lo size m :
  0 < lo → lo mod 4096 = 0 → 0 <= size → size mod 4096 = 0 → lo + size < 4294967296 →
  ∃ s, PhysMem.init lo size (Mach m 0 0 0 []) = Ret s ∧ alloc_wf lo [] s ∧
    frames_left [] s = size / 4096 ∧ ram s = m ∧ limit s = lo + size.
Proof.
  intros Hlo Hal Hs Has Hb. unfold PhysMem.init. rewrite !offset_mod, Hal, Has.
  cbn [ASSERT mbind outcome_bind Z.eqb]. eexists. split; [done|].
  rewrite u32_small by (unfold is_u32; lia). split; [|split; [|done]].
  - split; cbn; try done; try (by constructor); zlia.
  - unfold frames_left. cbn [length PhysMem.limit PhysMem.avail].
    replace (lo + size - lo) with size by lia. lia.
Qed.

(** The address space of a new process, while the kernel's space stays as it is. *)
Lemma kernel_space cfg lo fl s fuel :
  alloc_wf lo fl s → config_ok cfg → memSize cfg mod 4096 = 0 → 4096 <= memSize cfg →
  4 + (memSize cfg + 4194303) / 4194304 <= frames_left fl s → memSize cfg / 4096 <= Z.of_nat fuel →
  limit s <= 2147483648 →
  ∃ sh s1 p fl' s', global_init cfg fuel s = Ret (sh, s1) ∧ make_pd cfg sh s1 = Ret (p, s') ∧
    world (F := Node D) cfg lo sh fl' (MkVmm s' ∅ None) [p] ∧ sh ≠ p ∧ steady lo s s' ∧
    ∀ va, is_u32 va → walk (ram s') p va =
      if (4096 <=? va) && (va <? memSize cfg) then Some (4096 * (va / 4096) + 3)
      else if va / 4096 =? ioAPIC cfg / 4096 then Some (ioAPIC cfg + 3)
      else if va / 4096 =? localAPIC cfg / 4096 then Some (localAPIC cfg + 3)
      else None.
Proof.
  intros Hwf Hcfg Hms Hm4 Hleft Hfuel Hlim. pose proof Hcfg as [Hmem (Hio & _ & Hio2) (Hlo & _ & Hlo2) _].
  destruct (global_init_ok cfg lo fl s fuel Hwf) as (sh & fl1 & s1 & E1 & Hwf1 & Has1 & Hl1 & Hst & Hw1); [lia..|].
  destruct (make_pd_ok cfg lo fl1 s1 sh Hwf1 Has1 Hcfg) as [[_ ?]|([p s'] & E2 & fl' & Hns & _ & Hw2 & _)]; [lia|].
  exists sh, s1, p, fl', s'. split; [done|]. split; [done|]. split.
  { apply (first_world cfg lo sh fl1 s1); [done|done| |done|done|by rewrite (proj1 Hst)].
    unfold page. by rewrite Hw1. }
  split; [intros <-; by apply (ns_new _ _ _ _ _ _ Hns), Has1|].
  split; [eapply steady_trans; [exact Hst|apply Hns]|].
  intros va Hva. rewrite Hw2, Hw1 by done. unfold is_u32 in Hva, Hio, Hlo.
  assert (Hq : va / 4096 < (memSize cfg + 4095) / 4096 ↔ va < memSize cfg) by zlia.
  assert (Hk : va < memSize cfg → va / 4194304 < (memSize cfg + 4194303) / 4194304) by zlia.
  assert (Hhigh : 2147483648 <= va → ¬ va / 4194304 < (memSize cfg + 4194303) / 4194304) by zlia.
  assert (Hpage : ∀ x, 2147483648 <= x → va / 4096 = x / 4096 → 2147483648 <= va) by (intros; zlia).
  destruct (Z.leb_spec 4096 va), (Z.ltb_spec va (memSize cfg)); cbn [andb].
  - rewrite (proj2 (Z.ltb_lt _ _) (Hk ltac:(lia))), (proj2 (Z.ltb_lt (va / 4096) _)) by (apply Hq; lia).
    by rewrite lor_flags by zlia.
  - destruct (Z.ltb_spec (va / 4194304) ((memSize cfg + 4194303) / 4194304)); [|done].
    rewrite (proj2 (Z.ltb_ge (va / 4096) _)) by lia.
    rewrite (proj2 (Z.eqb_neq (va / 4096) (ioAPIC cfg / 4096))) by (intros E; specialize (Hpage _ Hio2 E); tauto).
    by rewrite (proj2 (Z.eqb_neq (va / 4096) (localAPIC cfg / 4096)))
      by (intros E; specialize (Hpage _ Hlo2 E); tauto).
  - rewrite (proj2 (Z.ltb_lt _ _) (Hk ltac:(lia))).
    rewrite (proj2 (Z.eqb_neq (va / 4096) (ioAPIC cfg / 4096))) by (intros E; specialize (Hpage _ Hio2 E); lia).
    by rewrite (proj2 (Z.eqb_neq (va / 4096) (localAPIC cfg / 4096)))
      by (intros E; specialize (Hpage _ Hlo2 E); lia).
  - lia.
Qed.


End Init.

(** ** Witness: the machine of file Acpi and a disk with an empty file system *)

Definition boot_disk : ByteDevice :=
  let m := store_bytes (λ _, 0) 1024 (word_bytes 16 ++ word_bytes 16) in
  let m := store_bytes m 1048 (word_bytes 0) in
  let m := store_bytes m 1056 (word_bytes 16) in
  let m := store_bytes m 1064 (word_bytes 16) in
  let m := store_bytes m 1112 (word_bytes 128) in
  let m := store_bytes m 2056 (word_bytes 4) in
  MkByteDevice 512 16384 m.

Definition boot_gate : list Z := concat (replicate 20 [0x20; 0]).

Definition boot_config : Config :=
  MkConfig 134217728 1 2 0xfee00000 1 0xfec00000 (MkApicInfo 1 1 1 :: replicate 15 (MkApicInfo 0 0 0))
    [66; 79; 67; 72; 83; 32; 0].

Lemma boot_config_found : configInit demo_info demo_rom demo_config0 = Ret boot_config.
Proof. vm_compute. reflexivity. Qed.

Lemma boot_config_ok : config_ok boot_config.
Proof. by split. Qed.

Lemma boot_disk_mounts : ∃ fs r, mount boot_disk = Ret (fs, r).
Proof.
  exists (run (demo_fs, demo_dir_node) (mount boot_disk)).1, (run (demo_fs, demo_dir_node) (mount boot_disk)).2.
  rewrite <- surjective_pairing. apply run_Ret. vm_compute. reflexivity.
Qed.

